(* ===== verification/_CoqProject ===== *)
-Q . S2P
Prelude.v
JsNumber.v
JsString.v
JsConvert.v
StringUtil.v
PathUtil.v
SizeUtil.v
DateUtil.v
FileSystem.v
RustStd.v
IconScripts.v
Types.v
SortResults.v
Effects.v
Invoke.v
Wire.v
TauriEvents.v
Highlight.v
ProgLogic.v
AppState.v
Handlers.v
AppSystem.v
Views.v
Markup.v
Pages.v
EventBus.v
Logging.v
FocusDebug.v
HandlerSpecs.v
Config.v
Scan.v
Pipeline.v
Indexer.v
IndexCommands.v
Commands.v
Scheduler.v
AppInvariants.v
AppLiveness.v
AppCounts.v
AppPaths.v
AppRows.v
AppDeletions.v
Dedup.v
Machine.v
Records.v
Server.v
Composed.v
Simulation.v
Fairness.v
EndToEnd.v
Displayed.v
Deletion.v
Scenarios.v
