(* ===== verification/Prelude.v ===== *)
(** * SearchEvery: a verification of the application

    SearchEvery is a desktop file search application: a React front end
    (src/src) that drives a Rust back end (src/src-tauri) through Tauri
    commands and listens to the events it emits.  This development models the
    front end, the commands it calls and the events it receives, connects them as
    the host does, and proves what makes each part and the whole program correct.

    ** The program and its parts

    - src/utils: pure functions on strings, sizes, dates and paths, and the
      highlighting of a query in a text.
    - src/services/api.ts and src/constants: [safeInvoke] races a command
      against a timer and retries; one function per command builds its payload.
    - src/services/events.ts and src/hooks/useTauriEvents.ts: subscriptions to
      back-end events, retried with a back-off, removed by the cleanup of the
      effect.
    - src/App.tsx: 32 pieces of state; handlers that mark the application busy,
      call the back end and show the outcome; effects (configuration, search
      timer); five pages and a theme menu.
    - src/services/logging.ts and the hooks that log: console lines for errors,
      uncaught ones included, and for the focused element.
    - scripts/: two scripts that make the icons of a release.
    - src-tauri/src: the commands.  The configuration file, scanning, the
      indexing pipeline with its workers, searching, deleting, duplicates, the
      daily scan and the diagnostics.

    ** The files

    - [Prelude]: hint databases, tactics, lemmas on lists, filters and powers
      of two.  [JsNumber]: doubles as integers in units of 2^-1074 with
      rounding to nearest even, infinities and NaN (one zero).  [JsString]:
      strings as lists of UTF-16 code units.  [JsConvert]: String(number),
      toFixed and Number(string).
    - [StringUtil] (utils/string.ts), [PathUtil] (utils/path.ts and the scan
      directory of App.tsx), [SizeUtil] (utils/size.ts), [DateUtil]
      (utils/date.ts; the locale text of a date is a parameter), [Highlight]
      (utils/highlight.tsx; the case tables and the engine for typed patterns
      are parameters, the class [CaseAgree] states where the two case
      comparisons of the code coincide), [Types] (types.ts), [SortResults]
      (the sort of App.tsx).
    - [Effects]: asynchronous functions as trees of actions and outside calls,
      with exceptions, [try]/[catch]/[finally], big-step traces [runs] and
      evaluation [exec].  [ProgLogic]: predicates that hold along every
      continuation of such a tree.
    - [Invoke] (services/api.ts, constants/), [Wire] (the registered commands
      and the serde shapes of their arguments).
    - [TauriEvents]: the subscription hook as a transition system over renders,
      resumptions of its loops, cleanups and unmounting.
    - [AppState]: the state record and the setters.  [Handlers]: every handler,
      effect and event callback as a program over the state its closure
      captured; what [confirm] returns is the class [Host], in Tauri a promise.
      [AppSystem]: the interleaving of page elements, answers,
      events and the search timer; the class [Backend] says which answers and
      events are possible.  [Views]: displayed texts, the theme menu, the hooks
      of a render.  [Markup], [Pages]: every page as a tree of elements with
      their handlers, what such a tree offers the user and what it displays.
    - [EventBus] (services/events.ts): a subscription from registration to
      removal, and the payloads of the events of the application.  [Logging]
      (services/logging.ts, hooks/useGlobalErrorLogging.ts, utils/env.ts).
      [FocusDebug] (hooks/useFocusDebug.ts, main.tsx): renders caused by the
      focus and by strict mode, on the transition system of [TauriEvents].
      [IconScripts] (scripts/): both scripts in a monad over a file system that
      can refuse an operation; the image libraries are parameters.
    - [HandlerSpecs], [AppInvariants]: theorems on handlers and on all reachable
      states.  [AppLiveness]: coming to rest, by a decreasing measure, for a back
      end of the class [Responsive], which answers every call.  [AppCounts]: the
      types of the counters, for a back end of the class [CountContract].
      [AppPaths]: every path the application passes on is one the back end
      reported ([PathContract]).  [AppRows]: so is every displayed row.
      [AppDeletions]: only the delete button of a file asks for its deletion.
    - [FileSystem] (files, with operations the system may refuse) and [RustStd]
      (strings and paths of Rust's library).  [Config] (config.rs): the
      configuration file; serde_json is a parameter with the class [Json].
      [Scan] (scanner.rs and the scan commands of main.rs): the walk of the file
      system is a parameter.  [Pipeline] (pipeline.rs, pipeline_state.rs): a
      transition system of the scanning thread and its workers, with the operations
      a failed commit leaves pending; the tokenizer of the index and the memory its
      writer accepts are a parameter with the class [Tantivy].  [IndexCommands]
      (search.rs, delete_file_and_index of main.rs): the ranking is a parameter.
      [Scheduler]: the daily scan of main.rs and diagnostics.rs.  [Dedup]:
      dedup.rs, which discharges the contract [DupContract] the page of
      duplicates relies on.  [Indexer] (indexer.rs and the command with progress
      of main.rs): the commands that build an index from a list of files.
    - [Commands]: the commands as a type, how a request is deserialized into one
      and how a result becomes the answer of a call.  [Machine]: the state the
      commands share (files, indexes, state file, running pipelines) and what each
      command does to it; what the system and the libraries answer meanwhile is
      the record [surroundings].  [Records]: what stays in the indexes.  [Server]:
      the back end as a transition system of requests, work, pipelines, the daily
      timer and other programs, with one ordered wire to the page, and its
      invariant.
    - [Composed]: [AppSystem] and [Server] connected, the transition system
      [moves]; the proof that this back end is an instance of every class the
      theorems on the application assume.  [Simulation]: the same system as a
      program, sound for [moves], with runs on a small machine.  [Fairness]: infinite
      runs, weak fairness of the components of the program and what it leads to.
      [EndToEnd]: what a click on "search" and on "scan and index" leads to.
      [Displayed]: what is displayed is recorded.  [Deletion]: which files are
      deleted, and what a click on "delete" leads to.
    - [Scenarios]: the system of the front end as a program run on lists of
      moves; witnesses and executions that show defects.

    ** What the theorems show

    Utilities: exact behaviour over the doubles and code units the code works
    with (round trip of the list fields, fit of shortened paths, correct
    rounding of sizes, bands of relative times, leftmost case-insensitive marks,
    stability and uniqueness of the sort).  Calls: the retry behaviour is
    characterised by an equivalence, and every payload is accepted by the
    command it is sent to.  Subscriptions: the loop serves every subscription,
    ends, and leaks nothing when no cleanup interrupts it; when one does, the
    listener is lost for ever.  Application: in all reachable states a set busy
    mark will be cleared, the selected result is listed, groups have two files
    or more, the search timer looks for what is displayed, nothing is called in
    the browser preview, requests are well formed, counters are non-negative
    numbers and the progress bar a percentage; left alone, the application comes
    to rest within a bounded number of answers; handlers let no error escape;
    exact traces of searching and deleting; saving and loading the configuration
    agree.  Pages: the rendered elements offer exactly the operations the
    transition system allows.  Scripts: which files they write, and from what.
    Back end: which files a scan finds; what a search returns; which
    configuration a written file is read back as; the events of a pipeline run in
    every interleaving, and its end.  Both together: saved settings come back
    after a restart, and a damaged configuration file is recovered by a reset or a
    save; the application shows each step of a scan, and what it shows
    when a pipeline run is over; the functions of services/api.ts and the commands
    agree on names, arguments and results.

    The whole program, in every interleaving of the user, the handlers, the
    commands, the pipelines, the daily scan and other programs: it refines the
    application's own system, so all of the above holds in it; no call is lost or
    answered twice, no message is stuck, every call can be answered without a step
    of the user, and in every run whose components are scheduled fairly no handler
    waits for ever; an index has
    one writer; records are never lost, and what
    a pipeline announced is in its index; every displayed row is that of a record;
    a file is only deleted after a click on its delete button; a search
    shows exactly the documents of the chosen types among the first fifty; scanning
    and indexing adds exactly the documents of the files found to the index.

    Defects are stated as theorems too: stale answers, the busy mark cleared early,
    leaked progress listeners, lost progress of the pipeline, resubscription on every
    render and thus one lost listener per move of the focus, a one-shot
    subscription that is none before it resolves, a language setting without
    effect, an index that no record is ever deleted from, a deletion that does not
    wait for its confirmation and always ends with an error after the file is gone,
    a build that fails on an existing index, daily scans started over
    and over while one is running, a hook count that depends on the page, files
    reported as duplicates of themselves, repeated capture groups.

    ** Fuel

    The retry loop of [Invoke] has as fuel the number of iterations its test
    allows, which the defaults keep finite ([safeInvoke_runs] shows it is never
    used up).  The loop of [Highlight.split_loop] visits a position at most
    twice; [split_loop_fuel] shows that more fuel changes nothing.  The pattern
    reader gets one step per character.  The digit loops of [JsConvert] are
    bounded by the logarithm of their argument.  The subscription loop has no
    fuel: it is a step relation with a decreasing measure, and so is a run of the
    pipeline.

    ** What is not modelled

    Inline styles, icons and scrolling; the console output of the scripts;
    vite.config.ts, which configures the bundler; negative zero; React's
    batching beyond running a handler to its next suspension;
    the hook-order error itself: pages keep working in the model as they would
    if the order were allowed, which only adds behaviours.
    What the user answers to the question of [confirm] has no effect, as nothing
    reads the promise.  Subscriptions of [App] are not tracked from [TauriEvents] to
    the wire: each event reaches any number of them.
    Of the back end: the schema of an index and the size of the pool; log files and
    the window.  A command changes the machine at once, then
    emits its events and answers; pipelines interleave step by step.  An index is
    identified by the text of its directory, roots of scans are directories, and
    no list has more than 2^53 elements.  The state file of the
    pipeline and the indexes are kept apart from the other files.  64-bit arithmetic is that of a release
    build.  A write of the configuration that fails can leave anything in the file;
    one of the state file of the pipeline leaves it as it was.

    ** Plan

    Done: the parts, their composition and its properties.  Next: pipelines in the simulation; the state file and the indexes among the files. *)

From stdpp Require Export base tactics sets list numbers strings.
From Stdlib Require Export Sorting.Permutation Sorting.Sorted.
#[export] Set Default Goal Selector "!".
#[local] Open Scope Z_scope.

(** ** Scopes, hint databases and tactics *)

Declare Scope js_scope.
Delimit Scope js_scope with js.

(** Arithmetic facts about code units, lengths and double units. *)
Create HintDb jsnum.
(** Facts about JavaScript strings. *)
Create HintDb jsstr.
(** Facts about handler programs and their effect on the application state. *)
Create HintDb app.

(** [bool_cases] splits on every boolean test the goal or a hypothesis is
    stuck on, turning integer comparisons into propositions. *)
Ltac bool_cases :=
  repeat match goal with
  | |- context [Z.ltb ?a ?b] => destruct (Z.ltb_spec a b)
  | |- context [Z.leb ?a ?b] => destruct (Z.leb_spec a b)
  | |- context [Z.eqb ?a ?b] => destruct (Z.eqb_spec a b)
  | H : context [Z.ltb ?a ?b] |- _ => destruct (Z.ltb_spec a b)
  | H : context [Z.leb ?a ?b] |- _ => destruct (Z.leb_spec a b)
  | H : context [Z.eqb ?a ?b] |- _ => destruct (Z.eqb_spec a b)
  end.

(** [by_cases_on b] destructs a boolean keeping its equation. *)
Tactic Notation "by_cases_on" constr(b) "as" ident(E) := destruct b eqn:E.

(** [compute_refl] closes a ground goal by evaluation. *)
Ltac compute_refl := vm_compute; reflexivity.

#[global] Arguments Z.eqb : simpl never.
#[global] Arguments Z.ltb : simpl never.
#[global] Arguments Z.leb : simpl never.

(** ** Lists *)

Section Lists.
Context {A : Type}.
Implicit Types (l : list A) (p : A -> bool).

(** The longest suffix whose first element fails [p]. *)
Fixpoint drop_while p l : list A :=
  match l with
  | [] => []
  | x :: l' => if p x then drop_while p l' else l
  end.

Lemma drop_while_suffix p l : exists k, l = k ++ drop_while p l /\ Forall (fun x => p x = true) k.
Proof.
  induction l as [|x l (k & E & Hk)]; simpl; [by exists []|].
  destruct (p x) eqn:Hp; [|by exists []].
  exists (x :: k). simpl. by rewrite <- E; auto.
Qed.

Lemma drop_while_head p l x l' : drop_while p l = x :: l' -> p x = false.
Proof.
  induction l as [|y l IH]; simpl; [done|].
  destruct (p y) eqn:Hy; [done|]. congruence.
Qed.

Lemma drop_while_none p l : (forall x, head l = Some x -> p x = false) -> drop_while p l = l.
Proof. destruct l as [|x l]; simpl; [done|]. intros H. by rewrite (H x). Qed.

Lemma drop_while_all p l : Forall (fun x => p x = true) l -> drop_while p l = [].
Proof. induction 1 as [|x l Hx _ IH]; simpl; [done|]. by rewrite Hx. Qed.

Lemma drop_while_app_all p k l :
  Forall (fun x => p x = true) k -> drop_while p (k ++ l) = drop_while p l.
Proof. induction 1 as [|x k Hx _ IH]; simpl; [done|]. by rewrite Hx. Qed.

Lemma drop_while_length p l : (length (drop_while p l) <= length l)%nat.
Proof. induction l as [|x l IH]; simpl; [done|]. destruct (p x); simpl; lia. Qed.

Lemma drop_while_incl p l x : x ∈ drop_while p l -> x ∈ l.
Proof.
  destruct (drop_while_suffix p l) as (k & E & _). intros Hx.
  rewrite E. set_solver.
Qed.

(** [removelast]-style access to the end of a list is by reversal. *)
Lemma head_reverse_last l : head (reverse l) = last l.
Proof. by rewrite head_reverse. Qed.

Lemma existsb_Exists p l : existsb p l = true <-> Exists (fun x => p x = true) l.
Proof.
  rewrite Exists_exists. rewrite existsb_exists.
  split; intros (x & H1 & H2); exists x; rewrite ?list_elem_of_In in *; auto.
Qed.

End Lists.

(** A boolean filter, as [Array.prototype.filter]; stdpp's [filter] takes a
    decidable proposition. *)
Abbreviation filterb p l := (List.filter p l).

Lemma filterb_elem_of {A} (p : A -> bool) (l : list A) x :
  x ∈ filterb p l <-> x ∈ l /\ p x = true.
Proof. rewrite !list_elem_of_In. apply List.filter_In. Qed.

Lemma filterb_all {A} (p : A -> bool) (l : list A) :
  Forall (fun x => p x = true) l -> filterb p l = l.
Proof. induction 1 as [|x l Hx _ IH]; simpl; [done|]. by rewrite Hx, IH. Qed.

Lemma filterb_Forall {A} (p : A -> bool) (l : list A) :
  Forall (fun x => p x = true) (filterb p l).
Proof. induction l as [|x l IH]; simpl; [done|]. destruct (p x) eqn:E; auto. Qed.

Lemma filterb_Forall_keep {A} (P : A -> Prop) (p : A -> bool) (l : list A) :
  Forall P l -> Forall P (filterb p l).
Proof. induction 1; simpl; [done|]. destruct (p x); auto. Qed.

Lemma filterb_sublist {A} (p : A -> bool) (l : list A) : filterb p l `sublist_of` l.
Proof. induction l as [|x l IH]; simpl; [done|]. destruct (p x); by constructor. Qed.

(** Two partial functions that agree up to [g] select the same images. *)
Lemma map_omap_ext {A B D} (g : B -> D) (u v : A -> option B) l :
  (forall x, g <$> u x = g <$> v x) -> map g (omap u l) = map g (omap v l).
Proof.
  intros H. induction l as [|x l IH]; [done|].
  change (omap ?f (x :: l)) with (match f x with Some y => y :: omap f l | None => omap f l end). specialize (H x).
  destruct (u x) as [b|], (v x) as [b'|]; simpl in H; try done. injection H as H. cbn [map]. by rewrite H, IH.
Qed.

#[export] Hint Resolve filterb_Forall filterb_Forall_keep : jsstr.

(** ** Powers of two *)

Lemma pow2_pos (e : Z) : 0 <= e -> 0 < 2 ^ e.
Proof. intros. apply Z.pow_pos_nonneg; lia. Qed.

Lemma pow2_split (a b : Z) : 0 <= a -> 0 <= b -> 2 ^ (a + b) = 2 ^ a * 2 ^ b.
Proof. intros. by apply Z.pow_add_r. Qed.

Lemma pow2_mono (a b : Z) : 0 <= a <= b -> 2 ^ a <= 2 ^ b.
Proof. intros. apply Z.pow_le_mono_r; lia. Qed.

Lemma pow2_divide (a b : Z) : 0 <= a <= b -> (2 ^ a | 2 ^ b).
Proof.
  intros. exists (2 ^ (b - a)). rewrite <- Z.pow_add_r by lia. f_equal. lia.
Qed.

Lemma ltb_mul_pos_r (a b c : Z) : 0 < c -> (a * c <? b * c) = (a <? b).
Proof.
  intros Hc. apply eq_true_iff_eq. rewrite !Z.ltb_lt. symmetry. by apply Z.mul_lt_mono_pos_r.
Qed.

#[export] Hint Resolve pow2_pos pow2_mono pow2_divide : jsnum.
