(* ===== verification/JsNumber.v ===== *)
(** * JavaScript numbers

    The IEEE 754 binary64 values the front end computes with.  Every finite
    double is an integer multiple of the least subnormal [2^-1074], so a finite
    number is represented by that integer: [Fin k] is the value [k * 2^-1074],
    equality of numbers is equality of integers and comparison is comparison of
    integers.  An arithmetic operation is the exact operation followed by
    rounding to nearest, ties to even ([round_qr]).

    The two zeros are one value here: no operation the program uses tells them
    apart (it never divides by a computed zero and template strings print both
    as 0).  [of_Z] is the number a JSON integer or an integer literal denotes. *)

From S2P Require Import Prelude.
#[local] Open Scope Z_scope.

(** ** Values *)

Inductive number :=
| NaN
| Infinity (neg : bool)
| Fin (k : Z).

#[export] Instance number_eq_dec : EqDecision number.
Proof. solve_decision. Defined.

(** One, in units of [2^-1074]. *)
Definition one : Z := 2 ^ 1074.
(** The least magnitude that overflows, [2^1024], in the same units. *)
Definition top : Z := 2 ^ 2098.

(** Binary exponent (in units) of the last place of a magnitude in
    [[q, q + 1)]: 53 significant bits, never below the unit. *)
Definition ulp_exp (q : Z) : Z := Z.max 0 (Z.log2 q - 52).

(** The magnitudes doubles can hold. *)
Definition rep (k : Z) : Prop := (2 ^ ulp_exp (Z.abs k) | k) /\ Z.abs k < top.

Definition wf (x : number) : Prop :=
  match x with Fin k => rep k | _ => True end.

(** ** Rounding *)

Definition signed (neg : bool) (k : Z) : number :=
  if k <? top then Fin (if neg then - k else k) else Infinity neg.

(** Round the magnitude [q + r/d] (with [0 <= r < d]) to nearest, ties to even. *)
Definition round_mag (q r d : Z) : Z :=
  let e := ulp_exp q in
  let m := Z.shiftr q e in
  let low := q - Z.shiftl m e in
  let twice := 2 * (low * d + r) in
  let den := Z.shiftl d e in
  let m' := if twice <? den then m
            else if den <? twice then m + 1
            else if Z.even m then m else m + 1 in
  Z.shiftl m' e.

Definition round_qr (neg : bool) (q r d : Z) : number := signed neg (round_mag q r d).

(** Rounding of an exact integer number of units. *)
Definition round_units (n : Z) : number := round_qr (n <? 0) (Z.abs n) 0 1.

Definition of_Z (z : Z) : number := round_units (z * one).

(** ** Arithmetic *)

Definition neg_of (x : number) : bool :=
  match x with NaN => false | Infinity b => b | Fin k => k <? 0 end.

Definition opp (x : number) : number :=
  match x with NaN => NaN | Infinity b => Infinity (negb b) | Fin k => Fin (- k) end.

Definition add (x y : number) : number :=
  match x, y with
  | NaN, _ | _, NaN => NaN
  | Infinity a, Infinity b => if eqb a b then Infinity a else NaN
  | Infinity a, Fin _ => Infinity a
  | Fin _, Infinity b => Infinity b
  | Fin a, Fin b => round_units (a + b)
  end.

Definition sub (x y : number) : number := add x (opp y).

Definition is_zero (x : number) : bool :=
  match x with Fin k => k =? 0 | _ => false end.

Definition mul (x y : number) : number :=
  match x, y with
  | NaN, _ | _, NaN => NaN
  | Fin a, Fin b =>
      let p := Z.abs (a * b) in
      let q := Z.shiftr p 1074 in
      round_qr (a * b <? 0) q (p - Z.shiftl q 1074) one
  | _, _ => if is_zero x || is_zero y then NaN else Infinity (xorb (neg_of x) (neg_of y))
  end.

Definition div (x y : number) : number :=
  match x, y with
  | NaN, _ | _, NaN => NaN
  | Infinity _, Infinity _ => NaN
  | Infinity a, Fin b => Infinity (xorb a (b <? 0))
  | Fin _, Infinity _ => Fin 0
  | Fin a, Fin b =>
      if b =? 0 then (if a =? 0 then NaN else Infinity (a <? 0))
      else
        let n := Z.abs a * one in
        let d := Z.abs b in
        round_qr (xorb (a <? 0) (b <? 0)) (n / d) (n mod d) d
  end.

(** ** Comparison: [<] and [<=] are false as soon as one side is NaN. *)

Definition ltb (x y : number) : bool :=
  match x, y with
  | NaN, _ | _, NaN => false
  | Infinity a, Infinity b => a && negb b
  | Infinity a, Fin _ => a
  | Fin _, Infinity b => negb b
  | Fin a, Fin b => a <? b
  end.

Definition leb (x y : number) : bool :=
  match x, y with
  | NaN, _ | _, NaN => false
  | _, _ => negb (ltb y x)
  end.

(** [x > y] and [x >= y] of the source are [ltb y x] and [leb y x]. *)

(** ** [Number.isFinite], [Number.isNaN] and [Math] *)

Definition isFinite (x : number) : bool := match x with Fin _ => true | _ => false end.
Definition isNaN (x : number) : bool := match x with NaN => true | _ => false end.

Definition abs (x : number) : number :=
  match x with NaN => NaN | Infinity _ => Infinity false | Fin k => Fin (Z.abs k) end.

Definition floor (x : number) : number :=
  match x with Fin k => Fin (k / one * one) | _ => x end.

(** [Math.round]: the nearest integral value, ties towards +oo. *)
Definition half : Z := 2 ^ 1073.
Definition round (x : number) : number :=
  match x with Fin k => Fin ((k + half) / one * one) | _ => x end.

Definition max (x y : number) : number :=
  match x, y with
  | NaN, _ | _, NaN => NaN
  | _, _ => if ltb x y then y else x
  end.

Definition min (x y : number) : number :=
  match x, y with
  | NaN, _ | _, NaN => NaN
  | _, _ => if ltb y x then y else x
  end.

(** ** Facts about units *)

Lemma one_pos : 0 < one.
Proof. reflexivity. Qed.

Lemma one_half : one = 2 * half.
Proof. reflexivity. Qed.

Lemma half_pos : 0 < half.
Proof. reflexivity. Qed.

Lemma one_eq : one = 2 ^ 1074.
Proof. reflexivity. Qed.

Lemma top_eq : top = 2 ^ 2098.
Proof. reflexivity. Qed.

Lemma top_one : top = 2 ^ 1024 * one.
Proof. unfold top, one. by rewrite <- Z.pow_add_r. Qed.

Lemma ulp_exp_nonneg q : 0 <= ulp_exp q.
Proof. unfold ulp_exp. lia. Qed.

#[export] Hint Resolve one_pos half_pos ulp_exp_nonneg : jsnum.
#[global] Opaque one half top.

Lemma ulp_exp_mono a b : a <= b -> ulp_exp a <= ulp_exp b.
Proof. intros H. unfold ulp_exp. pose proof (Z.log2_le_mono a b H). lia. Qed.

(** Below [2^53] units the grid is the unit itself. *)
Lemma ulp_exp_small q : q < 2 ^ 53 -> ulp_exp q = 0.
Proof.
  intros H. unfold ulp_exp. destruct (Z.le_gt_cases q 0) as [Hq|Hq].
  { rewrite Z.log2_nonpos by lia. lia. }
  pose proof (proj1 (Z.log2_lt_pow2 q 53 Hq) H). lia.
Qed.

(** A magnitude below [2^(53+e)] is resolved at least as finely as [2^e]. *)
Lemma ulp_exp_lt q e : 0 <= e -> q < 2 ^ (53 + e) -> ulp_exp q <= e.
Proof.
  intros He H. unfold ulp_exp. destruct (Z.le_gt_cases q 0) as [Hq|Hq].
  { rewrite Z.log2_nonpos by lia. lia. }
  pose proof (proj1 (Z.log2_lt_pow2 q (53 + e) Hq) H). lia.
Qed.

(** The leading part of a magnitude has at most 53 bits. *)
Lemma ulp_exp_bound q : 0 <= q -> q < 2 ^ (53 + ulp_exp q).
Proof.
  intros Hq. destruct (Z.eq_dec q 0) as [->|Hnz].
  { apply pow2_pos. pose proof (ulp_exp_nonneg 0). lia. }
  pose proof (Z.log2_spec q ltac:(lia)) as [_ H].
  eapply Z.lt_le_trans; [exact H|]. apply pow2_mono. unfold ulp_exp.
  pose proof (Z.log2_nonneg q). lia.
Qed.

(** ** Correctness of rounding *)

Section Rounding.
Variables (q r d : Z).
Hypotheses (Hq : 0 <= q) (Hr : 0 <= r < d).
Let e := ulp_exp q.
Let m := q / 2 ^ e.
Let low := q mod 2 ^ e.

Lemma round_mag_split : q = m * 2 ^ e + low /\ 0 <= low < 2 ^ e /\ 0 <= m < 2 ^ 53.
Proof.
  pose proof (ulp_exp_nonneg q). pose proof (pow2_pos e ltac:(done)) as Hp.
  pose proof (Z.div_mod q (2 ^ e) ltac:(lia)). pose proof (Z.mod_pos_bound q (2 ^ e) Hp).
  split_and!; subst m low; try lia.
  - apply Z.div_pos; lia.
  - apply Z.div_lt_upper_bound; [lia|]. rewrite <- Z.pow_add_r by lia.
    rewrite Z.add_comm. by apply ulp_exp_bound.
Qed.

(** The result is the quotient in last places, kept or bumped by one: kept when
    the rest is below half a place, bumped when it is above, even on a tie. *)
Lemma round_mag_cases :
  (round_mag q r d = m * 2 ^ e /\ 2 * (low * d + r) <= d * 2 ^ e) \/
  (round_mag q r d = (m + 1) * 2 ^ e /\ d * 2 ^ e <= 2 * (low * d + r)).
Proof.
  pose proof (ulp_exp_nonneg q) as He. unfold round_mag. fold e in He |- *.
  rewrite Z.shiftr_div_pow2, !Z.shiftl_mul_pow2 by done. fold m.
  assert (q - m * 2 ^ e = low) as -> by (pose proof round_mag_split; lia).
  destruct (Z.ltb_spec (2 * (low * d + r)) (d * 2 ^ e)); [left; split; [done|lia]|].
  destruct (Z.ltb_spec (d * 2 ^ e) (2 * (low * d + r))); [right; split; [done|lia]|].
  destruct (Z.even m); [left|right]; (split; [done|lia]).
Qed.

(** Rounding keeps a value that lies on the grid. *)
Lemma round_mag_exact : (2 ^ e | q) -> r = 0 -> round_mag q r d = q.
Proof.
  intros Hdiv Hr0. pose proof (ulp_exp_nonneg q). pose proof (pow2_pos e ltac:(done)).
  assert (low = 0) as Hl by (by apply Z.mod_divide; [lia|]).
  destruct round_mag_split as (E & _). destruct round_mag_cases as [[-> _]|[_ H1]]; [lia|].
  rewrite Hl, Hr0 in H1. assert (0 < d * 2 ^ e) by (apply Z.mul_pos_pos; lia). lia.
Qed.

(** Bounds on the grid are kept: rounding never crosses a representable value. *)
Lemma round_mag_lower g : (2 ^ e | g) -> g <= q -> g <= round_mag q r d.
Proof.
  intros [j ->] Hle. pose proof (pow2_pos e (ulp_exp_nonneg q)) as Hp.
  destruct round_mag_split as (E & Hlow & _).
  assert (j <= m) by (enough (j < m + 1) by lia; nia).
  destruct round_mag_cases as [[-> _]|[-> _]]; nia.
Qed.

Lemma round_mag_upper g : (2 ^ e | g) -> q * d + r <= g * d -> round_mag q r d <= g.
Proof.
  intros [j ->] Hle. pose proof (pow2_pos e (ulp_exp_nonneg q)) as Hp.
  destruct round_mag_split as (E & Hlow & _).
  destruct round_mag_cases as [[-> _]|[-> Hge]].
  - assert (m <= j); [|nia]. enough (m < j + 1) by lia.
    assert (m * 2 ^ e <= j * 2 ^ e) by nia. nia.
  - assert (m < j); [|nia]. assert (0 < low * d + r) by nia.
    assert (0 < 2 ^ e * d) as Hpd by (apply Z.mul_pos_pos; lia).
    apply (Z.mul_lt_mono_pos_r _ _ _ Hpd). nia.
Qed.

(** The result has a 53-bit significand. *)
Lemma round_mag_rep : (2 ^ ulp_exp (round_mag q r d) | round_mag q r d) /\ 0 <= round_mag q r d.
Proof.
  pose proof (ulp_exp_nonneg q) as He. fold e in He. pose proof (pow2_pos e He).
  destruct round_mag_split as (E & Hlow & Hm).
  assert (exists j, round_mag q r d = j * 2 ^ e /\ 0 <= j <= 2 ^ 53) as (j & -> & Hj).
  { destruct round_mag_cases as [[-> _]|[-> _]]; eexists; (split; [done|lia]). }
  split; [|nia]. destruct (Z.eq_dec j (2 ^ 53)) as [->|Hne].
  - rewrite <- Z.pow_add_r by lia. apply pow2_divide.
    unfold ulp_exp. rewrite Z.log2_pow2 by lia. lia.
  - apply (Z.divide_trans _ (2 ^ e)); [|by exists j]. apply pow2_divide.
    split; [apply ulp_exp_nonneg|]. apply ulp_exp_lt; [done|].
    rewrite Z.pow_add_r by lia. nia.
Qed.

(** Half a unit in the last place bounds the error. *)
Lemma round_mag_error : 2 * Z.abs (round_mag q r d * d - (q * d + r)) <= d * 2 ^ e.
Proof.
  destruct round_mag_split as (E & Hlow & _).
  assert (q * d = m * 2 ^ e * d + low * d) by (rewrite E at 1; ring).
  assert (0 <= low * d) by (apply Z.mul_nonneg_nonneg; lia).
  assert (low * d + r <= d * 2 ^ e) by nia.
  destruct round_mag_cases as [[-> H']|[-> H']]; lia.
Qed.

End Rounding.

(** ** Representable magnitudes *)

Lemma rep_0 : rep 0.
Proof. split; [apply Z.divide_0_r|]. rewrite top_eq. apply pow2_pos. lia. Qed.

Lemma rep_opp k : rep k -> rep (- k).
Proof. unfold rep. rewrite Z.abs_opp, Z.divide_opp_r. done. Qed.

Lemma rep_abs k : rep k -> rep (Z.abs k).
Proof.
  intros [H1 H2]. split; rewrite ?Z.abs_idemp; [|done]. by apply Z.divide_abs_r.
Qed.

(** Enough to have 53 bits above some exponent. *)
Lemma rep_intro j e : Z.abs j < 2 ^ 53 -> 0 <= e -> Z.abs (j * 2 ^ e) < top -> rep (j * 2 ^ e).
Proof.
  intros Hj He Ht. split; [|done]. pose proof (pow2_pos e He).
  apply (Z.divide_trans _ (2 ^ e)); [|by exists j]. apply pow2_divide.
  split; [apply ulp_exp_nonneg|]. apply ulp_exp_lt; [done|].
  rewrite Z.abs_mul, (Z.abs_eq (2 ^ e)), Z.pow_add_r by lia. nia.
Qed.

Lemma rep_small k : Z.abs k <= 2 ^ 53 -> rep k.
Proof.
  intros Hk. assert (2 ^ 53 < top) by (rewrite top_eq; apply Z.pow_lt_mono_r; lia).
  destruct (Z.eq_dec (Z.abs k) (2 ^ 53)) as [E|Hne].
  - split; [|lia]. apply Z.divide_abs_r. rewrite E. apply pow2_divide.
    unfold ulp_exp. rewrite Z.log2_pow2 by lia. lia.
  - rewrite <- (Z.mul_1_r k). rewrite <- (Z.pow_0_r 2). apply rep_intro; [lia|done|].
    rewrite Z.pow_0_r, Z.mul_1_r. lia.
Qed.

Lemma ulp_exp_scale k s : 0 < k -> 0 <= s -> ulp_exp (k * 2 ^ s) <= ulp_exp k + s.
Proof. intros. unfold ulp_exp. rewrite Z.log2_mul_pow2 by lia. lia. Qed.

Lemma rep_scale k s : rep k -> 0 <= s -> Z.abs k * 2 ^ s < top -> rep (k * 2 ^ s).
Proof.
  intros [[j Hj] Ht] Hs Hlt. pose proof (pow2_pos s Hs). pose proof (ulp_exp_nonneg (Z.abs k)).
  split; [|by rewrite Z.abs_mul, (Z.abs_eq (2 ^ s)) by lia].
  destruct (Z.eq_dec k 0) as [->|Hk]; [apply Z.divide_0_r|].
  rewrite Z.abs_mul, (Z.abs_eq (2 ^ s)) by lia.
  apply (Z.divide_trans _ (2 ^ (ulp_exp (Z.abs k) + s))).
  - apply pow2_divide. split; [apply ulp_exp_nonneg|]. apply ulp_exp_scale; lia.
  - exists j. rewrite Z.pow_add_r by lia. rewrite Hj at 1. ring.
Qed.

(** Integers up to [2^53] in magnitude are representable. *)
Lemma rep_int z : Z.abs z <= 2 ^ 53 -> rep (z * one).
Proof.
  intros Hz. rewrite one_eq. apply rep_scale; [by apply rep_small|lia|].
  apply (Z.le_lt_trans _ (2 ^ 53 * 2 ^ 1074)); [apply Z.mul_le_mono_nonneg_r; [apply Z.pow_nonneg|]; lia|].
  rewrite top_eq, <- Z.pow_add_r by lia. apply Z.pow_lt_mono_r; lia.
Qed.

(** Halving the exponent of a value of magnitude at least one loses nothing. *)
Lemma rep_unscale k s : 0 <= s <= 1000 -> rep k -> one <= Z.abs k ->
  exists k', k = k' * 2 ^ s /\ rep k'.
Proof.
  intros Hs [[j Hj] Ht] Hk. rewrite one_eq in Hk.
  pose proof (Z.log2_le_pow2 (Z.abs k) 1074 ltac:(lia)) as [Hl _]. specialize (Hl Hk).
  assert (ulp_exp (Z.abs k) = Z.log2 (Z.abs k) - 52) as Hu by (unfold ulp_exp; lia).
  pose proof (pow2_pos s ltac:(lia)).
  assert (k = j * 2 ^ (ulp_exp (Z.abs k) - s) * 2 ^ s) as Hk'.
  { rewrite <- Z.mul_assoc, <- Z.pow_add_r by lia. rewrite Hj at 1. f_equal. f_equal. lia. }
  eexists. split; [exact Hk'|]. set (k' := j * 2 ^ (ulp_exp (Z.abs k) - s)) in *.
  assert (Z.abs k = Z.abs k' * 2 ^ s) as Ha by (rewrite Hk' at 1; rewrite Z.abs_mul; lia).
  assert (0 < Z.abs k') by nia. split; [|nia].
  replace (ulp_exp (Z.abs k')) with (ulp_exp (Z.abs k) - s); [by exists j|].
  rewrite Hu, Ha, Z.log2_mul_pow2 by lia. unfold ulp_exp.
  rewrite Ha, Z.log2_mul_pow2 in Hl by lia. lia.
Qed.

#[export] Hint Resolve rep_0 rep_opp rep_abs rep_small rep_int : jsnum.

(** ** Exact operations *)

Lemma signed_in (neg : bool) k : 0 <= k < top -> signed neg k = Fin (if neg then - k else k).
Proof. intros. unfold signed. by rewrite (proj2 (Z.ltb_lt k top)) by lia. Qed.

Lemma round_qr_exact neg k d : 0 < d -> rep k -> 0 <= k ->
  round_qr neg k 0 d = Fin (if neg then - k else k).
Proof.
  intros Hd [Hdiv Ht] Hk. rewrite Z.abs_eq in Hdiv, Ht by done. unfold round_qr.
  rewrite round_mag_exact by (done || lia). by apply signed_in.
Qed.

Lemma round_units_exact n : rep n -> round_units n = Fin n.
Proof.
  intros Hn. unfold round_units. rewrite round_qr_exact; [|lia|by apply rep_abs|lia].
  f_equal. destruct (Z.ltb_spec n 0); lia.
Qed.

Lemma of_Z_small z : Z.abs z <= 2 ^ 53 -> of_Z z = Fin (z * one).
Proof. intros. apply round_units_exact. by apply rep_int. Qed.

Lemma add_exact a b : rep (a + b) -> add (Fin a) (Fin b) = Fin (a + b).
Proof. apply round_units_exact. Qed.

Lemma sub_exact a b : rep (a - b) -> sub (Fin a) (Fin b) = Fin (a - b).
Proof. intros. unfold sub. simpl. by apply round_units_exact. Qed.

(** Integer arithmetic within [2^53] is exact. *)
Lemma add_ints a b : Z.abs (a + b) <= 2 ^ 53 -> add (Fin (a * one)) (Fin (b * one)) = Fin ((a + b) * one).
Proof. intros. rewrite Z.mul_add_distr_r. apply add_exact. rewrite <- Z.mul_add_distr_r. by apply rep_int. Qed.

Lemma sub_ints a b : Z.abs (a - b) <= 2 ^ 53 -> sub (Fin (a * one)) (Fin (b * one)) = Fin ((a - b) * one).
Proof. intros. rewrite Z.mul_sub_distr_r. apply sub_exact. rewrite <- Z.mul_sub_distr_r. by apply rep_int. Qed.

Lemma mul_exact a b k : a * b = k * one -> rep k -> mul (Fin a) (Fin b) = Fin k.
Proof.
  intros E Hk. unfold mul. cbv zeta. rewrite E.
  rewrite Z.shiftr_div_pow2, Z.shiftl_mul_pow2 by lia. rewrite <- one_eq.
  pose proof one_pos. rewrite Z.abs_mul, (Z.abs_eq one) by lia.
  rewrite Z.div_mul, Z.sub_diag by lia. rewrite round_qr_exact; [|done|by apply rep_abs|lia].
  f_equal. destruct (Z.ltb_spec (k * one) 0); nia.
Qed.

Lemma mul_ints a b : Z.abs (a * b) <= 2 ^ 53 -> mul (Fin (a * one)) (Fin (b * one)) = Fin (a * b * one).
Proof. intros. apply mul_exact; [ring|]. by apply rep_int. Qed.

Lemma div_exact a b k : b <> 0 -> a * one = k * b -> rep k -> div (Fin a) (Fin b) = Fin k.
Proof.
  intros Hb E Hk. unfold div. destruct (Z.eqb_spec b 0); [done|]. cbv zeta. pose proof one_pos.
  assert (Z.abs a * one = Z.abs k * Z.abs b) as -> by (rewrite <- Z.abs_mul, <- E, Z.abs_mul; lia).
  rewrite Z.div_mul, Z.mod_mul by lia. rewrite round_qr_exact; [|lia|by apply rep_abs|lia].
  f_equal. destruct (Z.ltb_spec a 0), (Z.ltb_spec b 0); simpl; nia.
Qed.

Create Rewrite HintDb jsnum.
#[export] Hint Rewrite of_Z_small add_ints sub_ints mul_ints using lia : jsnum.

(** ** Every operation yields a double *)

Lemma signed_wf neg k : 0 <= k -> (2 ^ ulp_exp k | k) -> wf (signed neg k).
Proof.
  intros Hk Hdiv. unfold signed. destruct (Z.ltb_spec k top); simpl; [|done].
  assert (rep k) by (by split; rewrite Z.abs_eq by done). by destruct neg; auto using rep_opp.
Qed.

Lemma round_qr_wf neg q r d : 0 <= q -> 0 <= r < d -> wf (round_qr neg q r d).
Proof. intros Hq Hr. destruct (round_mag_rep q r d Hq). by apply signed_wf. Qed.

Lemma round_units_wf n : wf (round_units n).
Proof. apply round_qr_wf; lia. Qed.

Lemma add_wf x y : wf (add x y).
Proof. destruct x as [|[]|], y as [|[]|]; simpl; auto using round_units_wf. Qed.

Lemma mul_wf x y : wf (mul x y).
Proof.
  destruct x as [| |a], y as [| |b]; unfold mul;
    [exact I|exact I|exact I|exact I|by destruct (_ || _)|by destruct (_ || _)
    |exact I|by destruct (_ || _)|].
  cbv zeta. rewrite Z.shiftr_div_pow2, Z.shiftl_mul_pow2 by lia. rewrite <- one_eq. pose proof one_pos.
  pose proof (Z.div_mod (Z.abs (a * b)) one ltac:(lia)).
  pose proof (Z.mod_pos_bound (Z.abs (a * b)) one ltac:(lia)).
  apply round_qr_wf; [apply Z.div_pos|]; lia.
Qed.

Lemma div_wf x y : wf (div x y).
Proof.
  destruct x as [| |a], y as [| |b]; unfold div;
    [exact I|exact I|exact I|exact I|exact I|exact I|exact I|apply rep_0|].
  cbv zeta. destruct (Z.eqb_spec b 0); [by destruct (a =? 0)|]. pose proof one_pos.
  apply round_qr_wf; [apply Z.div_pos; lia|]. apply Z.mod_pos_bound. lia.
Qed.

(** Rounding to an integer keeps representability: above [2^52] every double
    is an integer already, below it every integer is a double. *)
Lemma rep_integral k z : rep k -> Z.abs (z * one - k) <= one -> (one | k) \/ rep (z * one).
Proof.
  intros [Hd Ht] Hz. pose proof one_pos.
  destruct (Z.le_gt_cases (2 ^ 52 * one) (Z.abs k)) as [Hbig|Hsmall].
  - left. apply (Z.divide_trans _ (2 ^ ulp_exp (Z.abs k))); [|done].
    rewrite one_eq. apply pow2_divide. split; [lia|].
    rewrite one_eq, <- Z.pow_add_r in Hbig by lia. apply Z.log2_le_pow2 in Hbig; [|nia].
    unfold ulp_exp. lia.
  - right. apply rep_int. nia.
Qed.

Lemma rep_floor k : rep k -> rep (k / one * one).
Proof.
  intros Hk. pose proof one_pos. pose proof (Z.div_mod k one ltac:(lia)).
  pose proof (Z.mod_pos_bound k one ltac:(lia)).
  destruct (rep_integral k (k / one) Hk ltac:(lia)) as [[j ->]|]; [|done].
  by rewrite Z.div_mul by lia.
Qed.

Lemma rep_round k : rep k -> rep ((k + half) / one * one).
Proof.
  intros Hk. pose proof one_pos. pose proof half_pos. pose proof one_half.
  pose proof (Z.div_mod (k + half) one ltac:(lia)).
  pose proof (Z.mod_pos_bound (k + half) one ltac:(lia)).
  destruct (rep_integral k ((k + half) / one) Hk ltac:(lia)) as [[j ->]|]; [|done].
  rewrite (Z.add_comm _ half), Z.div_add, Z.div_small by lia. done.
Qed.

Lemma floor_wf x : wf x -> wf (floor x).
Proof. destruct x; simpl; auto using rep_floor. Qed.

Lemma round_wf x : wf x -> wf (round x).
Proof. destruct x; simpl; auto using rep_round. Qed.

Lemma opp_wf x : wf x -> wf (opp x).
Proof. destruct x; simpl; auto using rep_opp. Qed.

Lemma abs_wf x : wf x -> wf (abs x).
Proof. destruct x; simpl; auto using rep_abs. Qed.

#[export] Hint Resolve add_wf mul_wf div_wf floor_wf round_wf opp_wf abs_wf round_units_wf : jsnum.

(** ** Subtraction decides the order

    Gradual underflow: the rounded difference of two doubles is zero only when
    they are equal, and otherwise keeps the sign of the exact difference. *)

Lemma round_mag_pos q : 0 < q -> 0 < round_mag q 0 1.
Proof.
  intros Hq. destruct (round_mag_split q ltac:(lia)) as (E & Hlow & Hm).
  set (e := ulp_exp q) in *. pose proof (pow2_pos e (ulp_exp_nonneg q)).
  enough (2 ^ e <= round_mag q 0 1) by lia.
  apply round_mag_lower; [lia|done|]. fold e. unfold e, ulp_exp.
  pose proof (Z.log2_spec q Hq) as [Hl _]. destruct (Z.max_spec 0 (Z.log2 q - 52)) as [[? ->]|[_ ->]].
  - eapply Z.le_trans; [|exact Hl]. apply pow2_mono. lia.
  - rewrite Z.pow_0_r. lia.
Qed.

Definition sign_spec (n : Z) (x : number) : Prop :=
  match x with
  | NaN => False
  | Infinity neg => if neg then n < 0 else 0 < n
  | Fin k => Z.sgn k = Z.sgn n
  end.

Lemma round_units_sign n : sign_spec n (round_units n).
Proof.
  unfold round_units, round_qr. destruct (Z.eq_dec n 0) as [->|Hn].
  { rewrite round_mag_exact; [|lia|lia|apply Z.divide_0_r|done].
    rewrite signed_in; [done|]. rewrite top_eq. split; [done|]. by apply pow2_pos. }
  pose proof (round_mag_pos (Z.abs n) ltac:(lia)) as Hp. unfold signed.
  destruct (Z.ltb_spec (round_mag (Z.abs n) 0 1) top), (Z.ltb_spec n 0); simpl; lia.
Qed.

(** ** Division of integers and [Math.floor]

    The quotient of two integers below [2^53] may round, but never up to the
    next integer: [Math.floor(a / b)] is the integer quotient. *)

Lemma round_mag_floor q r d g : 0 <= q -> 0 <= r < d ->
  (2 ^ ulp_exp q | one) -> q / one = g -> q * d + r + d * 2 ^ ulp_exp q <= (g + 1) * one * d ->
  round_mag q r d / one = g.
Proof.
  intros Hq Hr Hgrid Hg Hup. pose proof one_pos. pose proof (pow2_pos _ (ulp_exp_nonneg q)).
  assert (g * one <= round_mag q r d).
  { apply round_mag_lower; [lia|by apply Z.divide_mul_r|].
    rewrite <- Hg, Z.mul_comm. apply Z.mul_div_le. lia. }
  assert (round_mag q r d < (g + 1) * one).
  { pose proof (round_mag_error q r d Hq Hr). nia. }
  symmetry. apply (Z.div_unique _ _ _ (round_mag q r d - g * one)); lia.
Qed.

(** A place of [q] times [2^52] is at most [q]. *)
Lemma ulp_exp_le q : 0 < q -> 2 ^ ulp_exp q = 1 \/ 2 ^ ulp_exp q * 2 ^ 52 <= q.
Proof.
  intros Hq. pose proof (Z.log2_spec q Hq) as [Hl _]. unfold ulp_exp.
  destruct (Z.max_spec 0 (Z.log2 q - 52)) as [[H ->]|[_ ->]]; [right|by left].
  rewrite <- Z.pow_add_r by lia. by replace (Z.log2 q - 52 + 52) with (Z.log2 q) by lia.
Qed.

Section FloorDiv.
Variables (a b : Z).
Hypotheses (Ha : 0 <= a <= 2 ^ 52) (Hb : 0 < b <= 2 ^ 53).
Let q := a * one / b.
Let r := (a * one) mod b.

Lemma quot_split : a * one = q * b + r /\ 0 <= r < b /\ 0 <= q.
Proof.
  pose proof one_pos. pose proof (Z.div_mod (a * one) b ltac:(lia)).
  pose proof (Z.mod_pos_bound (a * one) b ltac:(lia)).
  split_and!; try (unfold q, r; lia). apply Z.div_pos; nia.
Qed.

Lemma quot_place : b * 2 ^ ulp_exp q <= one.
Proof.
  pose proof one_pos as H1. destruct quot_split as (E & Hr & Hq).
  destruct (Z.eq_dec q 0) as [->|Hnz].
  - rewrite ulp_exp_small by lia. rewrite one_eq.
    assert (2 ^ 53 <= 2 ^ 1074) by (apply pow2_mono; lia). lia.
  - destruct (ulp_exp_le q ltac:(lia)) as [->|Hu].
    + rewrite one_eq. assert (2 ^ 53 <= 2 ^ 1074) by (apply pow2_mono; lia). lia.
    + pose proof (pow2_pos 52 ltac:(lia)). nia.
Qed.

Lemma quot_grid : (2 ^ ulp_exp q | one).
Proof.
  rewrite one_eq. apply pow2_divide. split; [apply ulp_exp_nonneg|].
  apply (Z.pow_le_mono_r_iff 2); [lia|lia|]. rewrite <- one_eq.
  pose proof quot_place. pose proof (pow2_pos _ (ulp_exp_nonneg q)). nia.
Qed.

Lemma quot_floor : round_mag q r b / one = a / b.
Proof.
  pose proof one_pos as H1. destruct quot_split as (E & Hr & Hq).
  apply round_mag_floor; [done|done|apply quot_grid|..].
  - unfold q. rewrite Z.div_div, (Z.mul_comm b), <- Z.div_div, Z.div_mul by lia. done.
  - pose proof quot_place. rewrite <- E.
    pose proof (Z.mul_succ_div_gt a b ltac:(lia)). unfold Z.succ in *. nia.
Qed.

(** [Math.floor(a / b)] on non-negative integers is the integer quotient. *)
Lemma floor_div_ints : floor (div (Fin (a * one)) (Fin (b * one))) = Fin (a / b * one).
Proof.
  pose proof one_pos as H1. destruct quot_split as (E & Hr & Hq).
  unfold div. destruct (Z.eqb_spec (b * one) 0); [nia|]. cbv zeta.
  assert ((a * one <? 0) = false) as -> by (apply Z.ltb_ge; nia).
  assert ((b * one <? 0) = false) as -> by (apply Z.ltb_ge; nia).
  rewrite !Z.abs_eq by nia. rewrite Z.div_mul_cancel_r by lia. fold q.
  assert (round_mag q (a * one * one mod (b * one)) (b * one) = round_mag q r b) as Hm.
  { rewrite Zmult_mod_distr_r. fold r. unfold round_mag. cbv zeta.
    rewrite !Z.shiftl_mul_pow2 by apply ulp_exp_nonneg. apply (f_equal (fun x => x * _)).
    set (m := Z.shiftr _ _). set (low := q - _).
    replace (2 * (low * (b * one) + r * one)) with (2 * (low * b + r) * one) by ring.
    replace (b * one * 2 ^ ulp_exp q) with (b * 2 ^ ulp_exp q * one) by ring.
    by rewrite !ltb_mul_pos_r by done. }
  unfold round_qr. rewrite Hm. pose proof quot_floor as Hf.
  destruct (round_mag_rep q r b Hq) as [_ Hnn].
  rewrite signed_in; [simpl; by rewrite Hf|]. split; [done|].
  pose proof (Z.div_mod (round_mag q r b) one ltac:(lia)).
  pose proof (Z.mod_pos_bound (round_mag q r b) one ltac:(lia)).
  assert (a / b <= a) by (apply Z.div_le_upper_bound; nia).
  assert (2 ^ 53 * one < top); [|nia].
  rewrite top_one. apply Z.mul_lt_mono_pos_r; [done|]. apply Z.pow_lt_mono_r; lia.
Qed.

End FloorDiv.

(** ** Integer arithmetic in terms of [of_Z]

    The forms the components use: within [2^53] the operations on integers are
    those of [Z]. *)

Definition safe (z : Z) : Prop := Z.abs z <= 2 ^ 53.

(** Closes side conditions of the lemmas below. *)
Ltac safe_lia := unfold safe in *; lia.

Lemma add_of_Z a b : safe a -> safe b -> safe (a + b) -> add (of_Z a) (of_Z b) = of_Z (a + b).
Proof. unfold safe. intros. rewrite !of_Z_small by done. by apply add_ints. Qed.

Lemma sub_of_Z a b : safe a -> safe b -> safe (a - b) -> sub (of_Z a) (of_Z b) = of_Z (a - b).
Proof. unfold safe. intros. rewrite !of_Z_small by done. by apply sub_ints. Qed.

Lemma mul_of_Z a b : safe a -> safe b -> safe (a * b) -> mul (of_Z a) (of_Z b) = of_Z (a * b).
Proof. unfold safe. intros. rewrite !of_Z_small by done. by apply mul_ints. Qed.

Lemma ltb_of_Z a b : safe a -> safe b -> ltb (of_Z a) (of_Z b) = (a <? b).
Proof. unfold safe. intros. rewrite !of_Z_small by done. simpl. apply ltb_mul_pos_r, one_pos. Qed.

Lemma leb_of_Z a b : safe a -> safe b -> leb (of_Z a) (of_Z b) = (a <=? b).
Proof.
  unfold safe. intros. rewrite !of_Z_small by done. simpl.
  rewrite ltb_mul_pos_r by apply one_pos. bool_cases; simpl; lia || done.
Qed.

Lemma floor_div_of_Z a b : 0 <= a <= 2 ^ 52 -> 0 < b <= 2 ^ 53 ->
  floor (div (of_Z a) (of_Z b)) = of_Z (a / b).
Proof.
  intros Ha Hb. rewrite (of_Z_small a), (of_Z_small b) by lia.
  rewrite floor_div_ints by done. symmetry. apply of_Z_small.
  assert (0 <= a / b) by (apply Z.div_pos; lia).
  assert (a / b <= a) by (apply Z.div_le_upper_bound; nia). lia.
Qed.

Lemma max_of_Z a b : safe a -> safe b -> max (of_Z a) (of_Z b) = of_Z (Z.max a b).
Proof.
  intros Ha Hb. transitivity (if ltb (of_Z a) (of_Z b) then of_Z b else of_Z a).
  - unfold safe in *. by rewrite !of_Z_small by done.
  - rewrite ltb_of_Z by done. destruct (Z.ltb_spec a b); f_equal; lia.
Qed.

Lemma of_Z_inj a b : safe a -> safe b -> of_Z a = of_Z b -> a = b.
Proof.
  unfold safe. intros Ha Hb. rewrite !of_Z_small by done. pose proof one_pos.
  injection 1. nia.
Qed.

#[global] Arguments add : simpl never.
#[global] Arguments sub : simpl never.
#[global] Arguments mul : simpl never.
#[global] Arguments div : simpl never.
#[global] Arguments of_Z : simpl never.
#[global] Arguments floor : simpl never.
#[global] Arguments round : simpl never.
