(* ===== verification/JsString.v ===== *)
(** * JavaScript strings

    A string is its sequence of UTF-16 code units.  This file has the part of
    [String.prototype] and [Array.prototype.join] the front end uses, and the
    laws the components rely on. *)

From S2P Require Import Prelude JsNumber.
#[local] Open Scope Z_scope.

(** A JavaScript string: a list of code units. *)
Abbreviation jsstr := (list Z).

(** ** Literals

    [js "..."] is the JavaScript string a source literal denotes: the bytes of
    the literal are its UTF-8 encoding, which is decoded and re-encoded in
    UTF-16. *)

Definition utf16 (cp : Z) : jsstr :=
  if cp <? 65536 then [cp]
  else [55296 + (cp - 65536) / 1024; 56320 + (cp - 65536) mod 1024].

Definition byte_of (c : Ascii.ascii) : Z := Z.of_N (Ascii.N_of_ascii c).

Fixpoint js (s : string) : jsstr :=
  match s with
  | EmptyString => []
  | String a s1 =>
      let x := byte_of a in
      if x <? 128 then x :: js s1
      else
        match s1 with
        | EmptyString => [65533]
        | String b s2 =>
            let y := byte_of b - 128 in
            if x <? 224 then utf16 ((x - 192) * 64 + y) ++ js s2
            else
              match s2 with
              | EmptyString => [65533]
              | String c s3 =>
                  let z := byte_of c - 128 in
                  if x <? 240 then utf16 (((x - 224) * 64 + y) * 64 + z) ++ js s3
                  else
                    match s3 with
                    | EmptyString => [65533]
                    | String d s4 =>
                        let w := byte_of d - 128 in
                        utf16 ((((x - 240) * 64 + y) * 64 + z) * 64 + w) ++ js s4
                    end
              end
        end
  end.

(** ** White space and [trim] *)

(** WhiteSpace and LineTerminator of the language: what [trim] removes and what
    the class [\s] of a regular expression matches. *)
Definition is_space (c : Z) : bool :=
  ((9 <=? c) && (c <=? 13)) || (c =? 32) || (c =? 160) || (c =? 5760)
  || ((8192 <=? c) && (c <=? 8202)) || (c =? 8232) || (c =? 8233)
  || (c =? 8239) || (c =? 8287) || (c =? 12288) || (c =? 65279).

Definition trim_end (s : jsstr) : jsstr := reverse (drop_while is_space (reverse s)).
Definition trim (s : jsstr) : jsstr := trim_end (drop_while is_space s).

(** [Boolean(s)]: the empty string is the falsy one. *)
Definition truthy (s : jsstr) : bool := match s with [] => false | _ => true end.

(** ** [split], [join], [includes], [lastIndexOf] *)

(** [s.split(c)] for a one-unit separator, and [s.split(/[...]/)] for a class of
    units: every separator ends a part, so the result is never empty. *)
Fixpoint split_on (p : Z -> bool) (s : jsstr) : list jsstr :=
  match s with
  | [] => [[]]
  | c :: s' =>
      if p c then [] :: split_on p s'
      else match split_on p s' with
           | [] => [[c]]
           | w :: ws => (c :: w) :: ws
           end
  end.

(** [parts.join(sep)]. *)
Fixpoint join (sep : jsstr) (l : list jsstr) : jsstr :=
  match l with
  | [] => []
  | [w] => w
  | w :: l' => w ++ sep ++ join sep l'
  end.

(** [s.includes(c)] for a one-unit [c]. *)
Definition includes (s : jsstr) (c : Z) : bool := existsb (Z.eqb c) s.

(** [s.lastIndexOf(c)] for a one-unit [c]: -1 when absent. *)
Fixpoint last_index_from (c : Z) (i : Z) (s : jsstr) : Z :=
  match s with
  | [] => -1
  | x :: s' =>
      let r := last_index_from c (i + 1) s' in
      if 0 <=? r then r else if x =? c then i else -1
  end.
Definition lastIndexOf (s : jsstr) (c : Z) : Z := last_index_from c 0 s.

(** ** [length] and [slice] *)

Definition len (s : jsstr) : Z := Z.of_nat (length s).

(** A [slice] argument relative to a length: truncated towards zero, counted
    from the end when negative, clamped to the string. *)
Definition rel_index (n : Z) (x : number) : Z :=
  match x with
  | NaN => 0
  | Infinity neg => if neg then 0 else n
  | Fin k => let i := Z.quot k one in if i <? 0 then Z.max (n + i) 0 else Z.min i n
  end.

Definition substr (s : jsstr) (from to : Z) : jsstr :=
  take (Z.to_nat (to - from)) (drop (Z.to_nat from) s).

(** [s.slice(a, b)] and [s.slice(a)]. *)
Definition slice (s : jsstr) (a b : number) : jsstr :=
  substr s (rel_index (len s) a) (rel_index (len s) b).
Definition slice_from (s : jsstr) (a : number) : jsstr :=
  substr s (rel_index (len s) a) (len s).

#[global] Arguments trim : simpl never.
#[global] Arguments js : simpl never.

(** ** Laws of [trim] *)

Definition trimmed (s : jsstr) : Prop :=
  (forall c, head s = Some c -> is_space c = false) /\
  (forall c, last s = Some c -> is_space c = false).

Lemma drop_while_last p (s : jsstr) c :
  last (drop_while p s) = Some c -> last s = Some c.
Proof.
  destruct (drop_while_suffix p s) as (k & E & _). rewrite E at 2.
  rewrite last_app. by intros ->.
Qed.

Lemma trim_end_head s c : head (trim_end s) = Some c -> head s = Some c.
Proof.
  unfold trim_end. rewrite head_reverse. intros H%drop_while_last.
  by rewrite last_reverse in H.
Qed.

Lemma trim_trimmed s : trimmed (trim s).
Proof.
  split; intros c; unfold trim.
  - intros H%trim_end_head. destruct (drop_while is_space s) eqn:E; [done|].
    simplify_eq/=. by eapply drop_while_head.
  - unfold trim_end. rewrite last_reverse. intros H.
    destruct (drop_while is_space (reverse _)) eqn:E; simplify_eq/=.
    by eapply drop_while_head.
Qed.

Lemma trim_id s : trimmed s -> trim s = s.
Proof.
  intros [H1 H2]. unfold trim, trim_end. rewrite (drop_while_none _ s) by done.
  rewrite drop_while_none; [apply reverse_involutive|]. intros c. rewrite head_reverse. apply H2.
Qed.

Lemma trim_idemp s : trim (trim s) = trim s.
Proof. apply trim_id, trim_trimmed. Qed.

(** [trim] only cuts: it keeps a contiguous piece and drops white space. *)
Lemma trim_infix s : exists a b, s = a ++ trim s ++ b
  /\ Forall (fun c => is_space c = true) a /\ Forall (fun c => is_space c = true) b.
Proof.
  destruct (drop_while_suffix is_space s) as (a & Ea & Ha).
  destruct (drop_while_suffix is_space (reverse (drop_while is_space s))) as (b & Eb & Hb).
  exists a, (reverse b). split_and!; [|done|by apply Forall_reverse].
  unfold trim, trim_end. rewrite <- reverse_app, <- Eb, reverse_involutive. done.
Qed.

Lemma trim_elem_of s c : c ∈ trim s -> c ∈ s.
Proof. destruct (trim_infix s) as (a & b & E & _). rewrite E at 2. set_solver. Qed.

Lemma trim_pad_l a s : Forall (fun c => is_space c = true) a -> trim (a ++ s) = trim s.
Proof. intros Ha. unfold trim. by rewrite drop_while_app_all. Qed.

#[export] Hint Resolve trim_trimmed : jsstr.

(** ** Laws of [split] and [join] *)

Lemma split_on_ne p s : split_on p s <> [].
Proof. destruct s as [|c s]; simpl; [done|]. destruct (p c); [done|]. by destruct (split_on p s). Qed.

(** Parts contain no separator. *)
Lemma split_on_no_sep p s : Forall (Forall (fun c => p c = false)) (split_on p s).
Proof.
  induction s as [|c s IH]; simpl; [by repeat constructor|].
  destruct (p c) eqn:E; [by constructor|].
  destruct (split_on p s) as [|w ws]; inv IH; repeat constructor; auto.
Qed.

(** Splitting at a separator that ends a separator-free part. *)
Lemma split_on_app p w c s :
  Forall (fun x => p x = false) w -> p c = true -> split_on p (w ++ c :: s) = w :: split_on p s.
Proof.
  intros Hw Hc. induction Hw as [|x w Hx _ IH]; simpl; [by rewrite Hc|]. by rewrite Hx, IH.
Qed.

Lemma split_on_none p w : Forall (fun x => p x = false) w -> split_on p w = [w].
Proof. induction 1 as [|x w Hx _ IH]; simpl; [done|]. by rewrite Hx, IH. Qed.

(** [s.split(c).join(c) = s]. *)
Lemma join_split c s : join [c] (split_on (Z.eqb c) s) = s.
Proof.
  induction s as [|x s IH]; simpl; [done|].
  pose proof (split_on_ne (Z.eqb c) s) as Hne.
  destruct (Z.eqb_spec c x) as [->|_].
  - destruct (split_on (Z.eqb x) s) as [|w ws]; [done|]. simpl in *. by rewrite IH.
  - destruct (split_on (Z.eqb c) s) as [|w [|v ws]]; simpl in *; [done|by rewrite IH|by rewrite IH].
Qed.

(** Total length: parts plus separators. *)
Lemma join_cons sep w l : l <> [] -> join sep (w :: l) = w ++ sep ++ join sep l.
Proof. by destruct l. Qed.

Lemma len_app s t : len (s ++ t) = len s + len t.
Proof. unfold len. rewrite length_app. lia. Qed.

Lemma len_nonneg s : 0 <= len s.
Proof. unfold len. lia. Qed.

#[export] Hint Resolve len_nonneg : jsstr.

(** ** Laws of [slice] *)

Lemma len_substr s a b : 0 <= a -> len (substr s a b) = Z.max 0 (Z.min (b - a) (len s - a)).
Proof. intros Ha. unfold substr, len. rewrite length_take, length_drop. lia. Qed.

Lemma substr_all s : substr s 0 (len s) = s.
Proof.
  unfold substr, len. rewrite Z.sub_0_r, Nat2Z.id. simpl. by rewrite firstn_all.
Qed.

Lemma rel_index_range n x : 0 <= n -> 0 <= rel_index n x <= n.
Proof.
  intros Hn. destruct x as [|[]|k]; simpl; [lia..|].
  destruct (Z.ltb_spec (Z.quot k one) 0); lia.
Qed.

(** An integer argument in range is itself. *)
Lemma rel_index_int n z : 0 <= z <= n -> rel_index n (Fin (z * one)) = z.
Proof.
  intros Hz. pose proof one_pos. simpl. rewrite Z.quot_mul by lia.
  destruct (Z.ltb_spec z 0); lia.
Qed.

Lemma rel_index_int_neg n z : z < 0 -> rel_index n (Fin (z * one)) = Z.max (n + z) 0.
Proof.
  intros Hz. pose proof one_pos. simpl. rewrite Z.quot_mul by lia.
  destruct (Z.ltb_spec z 0); lia.
Qed.

Lemma rel_index_int_ge n z : 0 <= n <= z -> rel_index n (Fin (z * one)) = n.
Proof.
  intros Hz. pose proof one_pos. simpl. rewrite Z.quot_mul by lia.
  destruct (Z.ltb_spec z 0); lia.
Qed.

Lemma len_slice s a b :
  len (slice s a b) = Z.max 0 (rel_index (len s) b - rel_index (len s) a).
Proof.
  pose proof (rel_index_range (len s) a (len_nonneg s)).
  pose proof (rel_index_range (len s) b (len_nonneg s)).
  unfold slice. rewrite len_substr by lia. lia.
Qed.

Lemma len_slice_from s a : len (slice_from s a) = len s - rel_index (len s) a.
Proof.
  pose proof (rel_index_range (len s) a (len_nonneg s)).
  unfold slice_from. rewrite len_substr by lia. lia.
Qed.

(** ** Laws of [lastIndexOf] *)

Lemma last_index_from_range c i s : 0 <= i -> last_index_from c i s = -1 \/ i <= last_index_from c i s < i + len s.
Proof.
  revert i. induction s as [|x s IH]; intros i Hi; simpl; [by left|].
  destruct (IH (i + 1) ltac:(lia)) as [->|H]; simpl.
  - destruct (x =? c); [|by left]. right. unfold len. simpl. lia.
  - destruct (Z.leb_spec 0 (last_index_from c (i + 1) s)); [|lia]. right.
    unfold len in *. simpl. lia.
Qed.

Lemma lastIndexOf_range s c : -1 <= lastIndexOf s c < len s.
Proof.
  pose proof (len_nonneg s). unfold lastIndexOf.
  destruct (last_index_from_range c 0 s ltac:(lia)) as [->|]; lia.
Qed.

(** The unit at the last index is [c] and no later unit is. *)
Lemma last_index_from_spec c i s : 0 <= i ->
  (last_index_from c i s = -1 /\ c ∉ s) \/
  exists a b, s = a ++ (c :: b) /\ (c ∉ b) /\ last_index_from c i s = i + len a.
Proof.
  revert i. induction s as [|x s IH]; intros i Hi; simpl; [left; set_solver|].
  destruct (IH (i + 1) ltac:(lia)) as [[-> Hn]|(a & b & -> & Hb & ->)]; simpl.
  - destruct (Z.eqb_spec x c) as [->|Hx]; [right|left; set_solver].
    exists [], s. unfold len. simpl. split_and!; [done|done|lia].
  - right. pose proof (len_nonneg a). destruct (Z.leb_spec 0 (i + 1 + len a)); [|lia].
    exists (x :: a), b. unfold len. simpl. split_and!; [done|done|lia].
Qed.

Lemma rel_index_of_Z n z : 0 <= n -> safe z ->
  rel_index n (of_Z z) = if z <? 0 then Z.max (n + z) 0 else Z.min z n.
Proof.
  intros Hn Hz. rewrite of_Z_small by done. destruct (Z.ltb_spec z 0).
  - by apply rel_index_int_neg.
  - destruct (Z.le_gt_cases z n); [rewrite rel_index_int by lia|rewrite rel_index_int_ge by lia]; lia.
Qed.

(** A prefix and a suffix cut out by [slice]. *)
Lemma slice_prefix s z : 0 <= z -> safe z -> slice s (of_Z 0) (of_Z z) = take (Z.to_nat z) s.
Proof.
  intros Hz Hs. unfold slice, substr. pose proof (len_nonneg s).
  rewrite !rel_index_of_Z by safe_lia.
  destruct (Z.ltb_spec 0 0), (Z.ltb_spec z 0); try lia.
  rewrite (Z.min_l 0), Z.sub_0_r by lia. simpl. destruct (Z.le_gt_cases z (len s)).
  - by rewrite Z.min_l by lia.
  - rewrite Z.min_r by lia. unfold len in *. rewrite Nat2Z.id, firstn_all.
    symmetry. apply take_ge. rewrite length_drop. lia.
Qed.

Lemma slice_suffix s z : 0 <= z -> safe z -> slice_from s (of_Z z) = drop (Z.to_nat z) s.
Proof.
  intros Hz Hs. unfold slice_from, substr. pose proof (len_nonneg s).
  rewrite !rel_index_of_Z by safe_lia. destruct (Z.ltb_spec z 0); [lia|].
  unfold len in *. destruct (Z.le_gt_cases z (Z.of_nat (length s))).
  - rewrite Z.min_l by lia. apply take_ge. rewrite length_drop. lia.
  - rewrite Z.min_r, Nat2Z.id by lia. rewrite !drop_ge by lia. by destruct (Z.to_nat _).
Qed.

(** [split] as the inverse of [join], for a class of separators. *)
Lemma split_on_join p s c : (forall x, x ∈ s -> p x = true -> x = c) -> join [c] (split_on p s) = s.
Proof.
  induction s as [|x s IH]; intros H; simpl; [done|].
  assert (join [c] (split_on p s) = s) as IH' by (apply IH; intros; apply H; set_solver).
  pose proof (split_on_ne p s). destruct (p x) eqn:E.
  - rewrite (H x) by (done || set_solver). rewrite join_cons by done. simpl. by rewrite IH'.
  - destruct (split_on p s) as [|w [|v ws]]; simpl in *; [done|by rewrite IH'|by rewrite IH'].
Qed.
