(* ===== verification/JsConvert.v ===== *)
(** * Conversions between numbers and strings

    [Number::toString] (template literals, JSX text), [Number.prototype.toFixed]
    and [Number(string)].  [to_string] prints an integer up to [2^53] in decimal
    and otherwise searches for the shortest decimal that rounds to the number
    (at most 17 digits identify a double), in the layout the language
    prescribes.  [of_string] reads the StringNumericLiteral grammar. *)

From S2P Require Import Prelude JsNumber JsString.
#[local] Open Scope Z_scope.

(** ** Decimal digits *)

Fixpoint digits_fuel (f : nat) (n : Z) (acc : jsstr) : jsstr :=
  match f with
  | O => acc
  | S f' =>
      let acc' := (48 + n mod 10) :: acc in
      if n <? 10 then acc' else digits_fuel f' (n / 10) acc'
  end.

(** The decimal digits of a non-negative integer: it has at most one more
    decimal digit than binary digits. *)
Definition dec (n : Z) : jsstr := digits_fuel (S (Z.to_nat (Z.log2 n))) n [].

(** The integer a digit string denotes. *)
Definition undigits (s : jsstr) : Z := fold_left (fun a c => a * 10 + (c - 48)) s 0.

Definition is_digit (c : Z) : bool := (48 <=? c) && (c <=? 57).

Definition zeros (n : Z) : jsstr := replicate (Z.to_nat n) 48.

(** ** Decimal values *)

(** The double nearest to [a / b], and to [m * 10^j]. *)
Definition of_ratio (a b : Z) : number := round_qr false (a * one / b) ((a * one) mod b) b.
Definition of_dec (m j : Z) : number :=
  if 0 <=? j then of_Z (m * 10 ^ j) else of_ratio m (10 ^ (- j)).

(** [k / (10^j * one)] as a fraction. *)
Definition scaled (k j : Z) : Z * Z :=
  if 0 <=? j then (k, one * 10 ^ j) else (k * 10 ^ (- j), one).

(** The [n] with [10^(n-1) <= x < 10^n], estimated from the binary exponent. *)
Definition dec_exp (k : Z) : Z :=
  let est := (Z.log2 k - 1074) * 30103 / 100000 + 1 in
  let '(a, b) := scaled k est in
  if b <=? a then est + 1
  else let '(a', b') := scaled k (est - 1) in
       if a' <? b' then est - 1 else est.

Fixpoint shortest_from (fuel : nat) (k n i : Z) : Z * Z * Z :=
  let j := n - i in
  let '(a, b) := scaled k j in
  let s := a / b in
  let low := if number_eq_dec (of_dec s j) (Fin k) then true else false in
  let high := if number_eq_dec (of_dec (s + 1) j) (Fin k) then true else false in
  let pick s := if s =? 10 ^ i then (10 ^ (i - 1), i, n + 1) else (s, i, n) in
  match low, high, fuel with
  | true, true, _ => if 2 * a <? (2 * s + 1) * b then pick s else pick (s + 1)
  | true, false, _ => pick s
  | false, true, _ => pick (s + 1)
  | false, false, O => pick s
  | false, false, S f => shortest_from f k n (i + 1)
  end.

Definition layout (s i n : Z) : jsstr :=
  let d := dec s in
  if (i <=? n) && (n <=? 21) then d ++ zeros (n - i)
  else if (0 <? n) && (n <=? 21) then take (Z.to_nat n) d ++ js "." ++ drop (Z.to_nat n) d
  else if (-6 <? n) && (n <=? 0) then js "0." ++ zeros (- n) ++ d
  else
    let e := n - 1 in
    let exp := js "e" ++ (if e <? 0 then js "-" else js "+") ++ dec (Z.abs e) in
    if i =? 1 then d ++ exp else take 1 d ++ js "." ++ drop 1 d ++ exp.

Definition to_string_mag (k : Z) : jsstr :=
  if ((k / one) * one =? k) && (k / one <=? 2 ^ 53) then dec (k / one)
  else let '(s, i, n) := shortest_from 16 k (dec_exp k) 1 in layout s i n.

Definition to_string (x : number) : jsstr :=
  match x with
  | NaN => js "NaN"
  | Infinity neg => (if neg : bool then js "-" else []) ++ js "Infinity"
  | Fin k => (if k <? 0 then js "-" else []) ++ to_string_mag (Z.abs k)
  end.

(** ** [x.toFixed(f)] *)

Definition fixed_mag (k f : Z) : jsstr :=
  let n := (2 * k * 10 ^ f + one) / (2 * one) in
  let m := dec n in
  if f =? 0 then m
  else
    let m' := zeros (f + 1 - len m) ++ m in
    let cut := Z.to_nat (len m' - f) in
    take cut m' ++ js "." ++ drop cut m'.

Definition toFixed (x : number) (f : Z) : jsstr :=
  match x with
  | Fin k =>
      if 10 ^ 21 * one <=? Z.abs k then to_string x
      else (if k <? 0 then js "-" else []) ++ fixed_mag (Z.abs k) f
  | _ => to_string x
  end.

(** ** [Number(s)] *)

Fixpoint span (p : Z -> bool) (s : jsstr) : jsstr * jsstr :=
  match s with
  | [] => ([], [])
  | c :: s' => if p c then let '(a, b) := span p s' in (c :: a, b) else ([], s)
  end.

Definition parse_exponent (s : jsstr) : option Z :=
  match s with
  | [] => Some 0
  | c :: t =>
      if (c =? 101) || (c =? 69) then
        let '(neg, u) := match t with
                         | 45 :: u => (true, u)
                         | 43 :: u => (false, u)
                         | _ => (false, t)
                         end in
        let '(ds, rest) := span is_digit u in
        match ds, rest with
        | _ :: _, [] => Some (if neg : bool then - undigits ds else undigits ds)
        | _, _ => None
        end
      else None
  end.

Definition parse_decimal (s : jsstr) : number :=
  let '(ip, s1) := span is_digit s in
  let '(fp, s2) := match s1 with
                   | 46 :: t => span is_digit t
                   | _ => ([], s1)
                   end in
  match ip ++ fp with
  | [] => NaN
  | ds =>
      match parse_exponent s2 with
      | Some e => of_dec (undigits ds) (e - len fp)
      | None => NaN
      end
  end.

Definition parse_signed (s : jsstr) : number :=
  if bool_decide (s = js "Infinity") then Infinity false else parse_decimal s.

(** The digits of a literal with a radix prefix. *)
Definition hex_value (c : Z) : Z :=
  if is_digit c then c - 48
  else if (97 <=? c) && (c <=? 102) then c - 87
  else if (65 <=? c) && (c <=? 70) then c - 55
  else 16.

Definition parse_radix (r : Z) (s : jsstr) : number :=
  if forallb (fun c => hex_value c <? r) s && truthy s
  then of_Z (fold_left (fun a c => a * r + hex_value c) s 0)
  else NaN.

(** The radix a prefix letter after [0] announces. *)
Definition radix_of (c : Z) : option Z :=
  if (c =? 120) || (c =? 88) then Some 16
  else if (c =? 111) || (c =? 79) then Some 8
  else if (c =? 98) || (c =? 66) then Some 2
  else None.

Definition of_string (input : jsstr) : number :=
  let s := trim input in
  match s with
  | [] => Fin 0
  | c :: t =>
      if c =? 45 then opp (parse_signed t)
      else if c =? 43 then parse_signed t
      else
        match (if c =? 48 then t else []) with
        | d :: u =>
            match radix_of d with
            | Some r => parse_radix r u
            | None => parse_signed s
            end
        | [] => parse_signed s
        end
  end.

(** ** Samples *)

Example to_string_samples :
  map (fun '(a, b) => to_string (of_ratio a b))
    [(1, 10); (3, 2); (1, 3); (10 ^ 21, 1); (10 ^ 23, 1); (1, 10 ^ 7); (123456789, 1000)]
  = [js "0.1"; js "1.5"; js "0.3333333333333333"; js "1e+21"; js "1e+23"; js "1e-7"; js "123456.789"].
Proof. compute_refl. Qed.

Example of_string_samples :
  map of_string [js " 12.50 "; js ""; js "0x1F"; js "-3e2"; js "1a"; js "."; js "Infinity"]
  = [of_ratio 25 2; Fin 0; of_Z 31; of_Z (-300); NaN; NaN; Infinity false].
Proof. compute_refl. Qed.

Example toFixed_samples :
  [toFixed (of_ratio 5 2) 0; toFixed (of_ratio 12345 10000) 2; toFixed (of_ratio (-1) 4) 1]
  = [js "3"; js "1.23"; js "-0.3"].
Proof. compute_refl. Qed.

(** ** Digits: printing and reading are inverse *)

Lemma undigits_app a b :
  fold_left (fun x c => x * 10 + (c - 48)) (a ++ b) 0 =
  fold_left (fun x c => x * 10 + (c - 48)) b (undigits a).
Proof. unfold undigits. by rewrite fold_left_app. Qed.

Lemma digits_fuel_spec f n acc : 0 <= n -> n < 10 ^ Z.of_nat f -> (0 < f)%nat ->
  exists ds, digits_fuel f n acc = ds ++ acc /\ undigits ds = n
    /\ Forall (fun c => is_digit c = true) ds /\ ds <> []
    /\ (head ds = Some 48 -> n = 0).
Proof.
  revert n acc. induction f as [|f IH]; intros n acc Hn Hlt Hf; [lia|].
  assert (0 <= n mod 10 < 10) as Hm by (apply Z.mod_pos_bound; lia).
  assert (is_digit (48 + n mod 10) = true) as Hd
    by (unfold is_digit; apply andb_true_intro; rewrite !Z.leb_le; lia).
  simpl. destruct (Z.ltb_spec n 10) as [Hs|Hb].
  - exists [48 + n mod 10]. rewrite Z.mod_small in * by lia. split_and!; try done.
    + unfold undigits. simpl. lia.
    + by constructor.
    + simpl. intros [= ?]. lia.
  - rewrite Nat2Z.inj_succ, Z.pow_succ_r in Hlt by lia.
    pose proof (Z.div_mod n 10 ltac:(lia)). destruct f as [|f]; [simpl in Hlt; lia|].
    destruct (IH (n / 10) ((48 + n mod 10) :: acc)) as (ds & E & Hv & Hds & Hne & Hz); [..|].
    + apply Z.div_pos; lia.
    + apply Z.div_lt_upper_bound; lia.
    + lia.
    + exists (ds ++ [48 + n mod 10]). rewrite E, <- app_assoc. split_and!; [done|..].
      * unfold undigits. rewrite undigits_app, Hv. simpl. lia.
      * apply Forall_app. auto.
      * by destruct ds.
      * destruct ds as [|c ds]; [done|]. simpl. intros H0. specialize (Hz H0).
        assert (1 <= n / 10) by (apply Z.div_le_lower_bound; lia). lia.
Qed.

Lemma dec_spec n : 0 <= n ->
  undigits (dec n) = n /\ Forall (fun c => is_digit c = true) (dec n) /\ dec n <> []
  /\ (head (dec n) = Some 48 -> n = 0).
Proof.
  intros Hn. unfold dec.
  destruct (digits_fuel_spec (S (Z.to_nat (Z.log2 n))) n []) as (ds & -> & ?); [done|..|lia|].
  - pose proof (Z.log2_nonneg n). rewrite Nat2Z.inj_succ, Z2Nat.id by lia.
    destruct (Z.eq_dec n 0) as [->|]; [done|].
    eapply Z.lt_le_trans; [apply Z.log2_spec; lia|].
    apply Z.pow_le_mono_l. lia.
  - by rewrite app_nil_r.
Qed.

Lemma dec_undigits n : 0 <= n -> undigits (dec n) = n.
Proof. intros. by apply dec_spec. Qed.

Lemma dec_inj a b : 0 <= a -> 0 <= b -> dec a = dec b -> a = b.
Proof. intros Ha Hb E. by rewrite <- (dec_undigits a), <- (dec_undigits b), E. Qed.

Lemma dec_digits n : 0 <= n -> Forall (fun c => is_digit c = true) (dec n).
Proof. intros. by apply dec_spec. Qed.

Lemma is_digit_spec c : is_digit c = true <-> 48 <= c <= 57.
Proof. unfold is_digit. rewrite andb_true_iff, !Z.leb_le. done. Qed.

Lemma digit_not_space c : is_digit c = true -> is_space c = false.
Proof. rewrite is_digit_spec. intros Hc. unfold is_space. repeat case_match; bool_cases; simpl; lia || done. Qed.

(** ** Integers *)

Lemma to_string_int z : Z.abs z <= 2 ^ 53 ->
  to_string (Fin (z * one)) = (if z <? 0 then js "-" else []) ++ dec (Z.abs z).
Proof.
  intros Hz. pose proof one_pos. unfold to_string, to_string_mag.
  rewrite Z.abs_mul, (Z.abs_eq one), Z.div_mul, Z.eqb_refl by lia.
  rewrite (proj2 (Z.leb_le _ _) Hz). simpl andb. cbv iota.
  by assert ((z * one <? 0) = (z <? 0)) as -> by (bool_cases; nia).
Qed.

Lemma of_dec_int m : of_dec m 0 = of_Z m.
Proof. unfold of_dec. simpl. by rewrite Z.mul_1_r. Qed.

Lemma span_all p s : Forall (fun c => p c = true) s -> span p s = (s, []).
Proof. induction 1 as [|c s Hc _ IH]; simpl; [done|]. by rewrite Hc, IH. Qed.

Lemma parse_decimal_dec n : 0 <= n -> parse_decimal (dec n) = of_Z n.
Proof.
  intros Hn. destruct (dec_spec n Hn) as (Hv & Hd & Hne & _).
  unfold parse_decimal. rewrite span_all, app_nil_r by done.
  destruct (dec n) as [|c ds]; [done|]. rewrite <- Hv, <- of_dec_int. done.
Qed.

Lemma digits_trimmed s : Forall (fun c => is_digit c = true) s -> trim s = s.
Proof.
  rewrite Forall_forall. intros H. apply trim_id. split; intros c Hc; apply digit_not_space, H.
  - destruct s; simplify_eq/=. set_solver.
  - by apply last_Some_elem_of.
Qed.

Lemma parse_signed_dec n : 0 <= n -> parse_signed (dec n) = of_Z n.
Proof.
  intros Hn. unfold parse_signed. rewrite bool_decide_false; [by apply parse_decimal_dec|].
  intros E. pose proof (dec_digits n Hn) as Hd. rewrite E in Hd.
  apply Forall_inv in Hd. done.
Qed.

Lemma dec_0 : dec 0 = [48].
Proof. reflexivity. Qed.

Lemma of_string_dec n : 0 <= n -> of_string (dec n) = of_Z n.
Proof.
  intros Hn. destruct (dec_spec n Hn) as (_ & Hd & Hne & Hz). unfold of_string.
  rewrite digits_trimmed by done. rewrite <- (parse_signed_dec n Hn).
  destruct (dec n) as [|c t] eqn:E; [done|].
  apply Forall_inv in Hd as Hc. apply is_digit_spec in Hc.
  destruct (Z.eqb_spec c 45), (Z.eqb_spec c 43); [lia..|].
  destruct (Z.eqb_spec c 48) as [->|]; [|done].
  specialize (Hz eq_refl). subst n. rewrite dec_0 in E. by simplify_eq.
Qed.

Lemma of_string_neg_dec n : 0 <= n -> of_string (js "-" ++ dec n) = opp (of_Z n).
Proof.
  intros Hn. unfold of_string. rewrite trim_id.
  - change (js "-" ++ dec n) with (45 :: dec n). cbv zeta iota. rewrite Z.eqb_refl.
    by rewrite parse_signed_dec.
  - destruct (dec_spec n Hn) as (_ & Hd & Hne & _). split; [by intros c [= <-]|].
    intros c. rewrite last_app. rewrite Forall_forall in Hd.
    destruct (last (dec n)) as [d|] eqn:E; [|by apply last_None in E].
    intros [= <-]. by apply digit_not_space, Hd, last_Some_elem_of.
Qed.

(** [Number(String(z)) = z] for every integer a double holds exactly with all
    its neighbours. *)
Lemma of_string_to_string z : Z.abs z <= 2 ^ 53 -> of_string (to_string (of_Z z)) = of_Z z.
Proof.
  intros Hz. rewrite of_Z_small, to_string_int by done.
  destruct (Z.ltb_spec z 0).
  - rewrite of_string_neg_dec, of_Z_small by lia. unfold opp. f_equal. lia.
  - rewrite app_nil_l, of_string_dec, of_Z_small by lia. f_equal. lia.
Qed.

(** Printing integers is injective. *)
Lemma to_string_int_inj a b : 0 <= a <= 2 ^ 53 -> 0 <= b <= 2 ^ 53 ->
  to_string (of_Z a) = to_string (of_Z b) -> a = b.
Proof.
  intros Ha Hb E. apply (f_equal of_string) in E.
  rewrite !of_string_to_string, !of_Z_small in E by lia. pose proof one_pos.
  injection E. nia.
Qed.
