(* ===== verification/StringUtil.v ===== *)
(** * utils/string.ts: comma-separated lists

    [parseCSV] reads the text fields of the index page (scan roots, exclude
    patterns) and the extension filter.  The same fields are filled by joining a
    list with a comma and a space, so the two must be inverse on the lists the
    fields can show. *)

From S2P Require Import Prelude JsNumber JsString.
#[local] Open Scope Z_scope.

Definition comma : Z := 44.

(** [input.split(',').map(s => s.trim()).filter(Boolean)] *)
Definition parseCSV (input : jsstr) : list jsstr :=
  filterb truthy (map trim (split_on (Z.eqb comma) input)).

(** [list.join(', ')], as the configuration handlers fill the fields. *)
Definition joinCSV (l : list jsstr) : jsstr := join (js ", ") l.

(** ** The items a field can show: non-empty, trimmed, without a comma *)

Definition csv_item (w : jsstr) : Prop := w <> [] /\ trimmed w /\ comma ∉ w.

Lemma comma_free w : comma ∉ w <-> Forall (fun c => (comma =? c) = false) w.
Proof.
  rewrite Forall_forall. split.
  - intros H c Hc. apply Z.eqb_neq. congruence.
  - intros H Hin. specialize (H _ Hin). by rewrite Z.eqb_refl in H.
Qed.

Lemma parseCSV_items s : Forall csv_item (parseCSV s).
Proof.
  unfold parseCSV. apply Forall_forall. intros w [Hw Ht]%filterb_elem_of.
  apply list_elem_of_fmap in Hw as (v & -> & Hv). split_and!; [by destruct (trim v)|apply trim_trimmed|].
  pose proof (split_on_no_sep (Z.eqb comma) s) as H. rewrite Forall_forall in H.
  specialize (H v Hv). apply comma_free in H. intros Hc%trim_elem_of. done.
Qed.

(** ** Joining and parsing *)

Lemma parseCSV_nil : parseCSV [] = [].
Proof. reflexivity. Qed.

Lemma parseCSV_space s : parseCSV (32 :: s) = parseCSV s.
Proof.
  unfold parseCSV. simpl. pose proof (split_on_ne (Z.eqb comma) s).
  destruct (split_on (Z.eqb comma) s) as [|w ws]; [done|]. simpl.
  change (32 :: w) with ([32] ++ w). by rewrite trim_pad_l by (by repeat constructor).
Qed.

Lemma parseCSV_one w : csv_item w -> parseCSV w = [w].
Proof.
  intros (Hne & Ht & Hc%comma_free). unfold parseCSV.
  rewrite split_on_none by done. simpl. rewrite (trim_id w Ht). by destruct w.
Qed.

Lemma parseCSV_cons w s : csv_item w -> parseCSV (w ++ js ", " ++ s) = w :: parseCSV s.
Proof.
  intros (Hne & Ht & Hc%comma_free). change (js ", " ++ s) with (comma :: 32 :: s).
  unfold parseCSV. rewrite split_on_app by done. simpl map. simpl filterb.
  rewrite (trim_id w Ht). destruct w as [|c w]; [done|]. simpl. f_equal.
  apply parseCSV_space.
Qed.

Lemma parseCSV_join l : Forall csv_item l -> parseCSV (joinCSV l) = l.
Proof.
  unfold joinCSV. induction 1 as [|w l Hw Hl IH]; [done|].
  destruct l as [|v l]; [by apply parseCSV_one|].
  rewrite join_cons, parseCSV_cons by done. by rewrite IH.
Qed.

(** ** What parsing keeps: everything but commas and blanks *)

Definition solid (c : Z) : bool := negb (comma =? c) && negb (is_space c).

Lemma solid_blank a : Forall (fun c => is_space c = true) a -> filterb solid a = [].
Proof.
  induction 1 as [|c a Hc _ IH]; simpl; [done|]. unfold solid at 1. rewrite Hc, andb_false_r. done.
Qed.

Lemma solid_trim s : filterb solid (trim s) = filterb solid s.
Proof.
  destruct (trim_infix s) as (a & b & E & Ha & Hb). rewrite E at 2.
  rewrite !List.filter_app, (solid_blank a), (solid_blank b) by done. by rewrite app_nil_r.
Qed.

Lemma solid_concat_split s :
  filterb solid (concat (split_on (Z.eqb comma) s)) = filterb solid s.
Proof.
  induction s as [|c s IH]; [done|]. simpl. destruct (Z.eqb_spec comma c) as [<-|Hc]; simpl.
  - done.
  - pose proof (split_on_ne (Z.eqb comma) s). destruct (split_on _ s) as [|w ws]; [done|].
    simpl in *. by rewrite IH.
Qed.

Lemma concat_filter_truthy (l : list jsstr) : concat (filterb truthy l) = concat l.
Proof. induction l as [|[|c w] l IH]; simpl; [done|done|]. by rewrite IH. Qed.

Lemma filter_concat_map_trim (l : list jsstr) :
  filterb solid (concat (map trim l)) = filterb solid (concat l).
Proof. induction l as [|w l IH]; simpl; [done|]. by rewrite !List.filter_app, solid_trim, IH. Qed.

(** ** Properties *)

(** Round trip of the list fields: a list of non-empty, trimmed, comma-free
    strings written into a field with [join(', ')] is read back unchanged by
    [parseCSV], in the same order; and what [parseCSV] reads is always such a
    list, so saving and reloading a field's content is stable. *)
Theorem parseCSV_roundtrip :
  (forall l, Forall csv_item l -> parseCSV (joinCSV l) = l) /\
  (forall s, Forall csv_item (parseCSV s) /\ parseCSV (joinCSV (parseCSV s)) = parseCSV s).
Proof.
  split; [apply parseCSV_join|]. intros s. pose proof (parseCSV_items s) as H.
  split; [done|]. by apply parseCSV_join.
Qed.

(** [parseCSV] loses nothing but separators and blanks: the characters that
    are neither commas nor white space come out all of them, in order. *)
Theorem parseCSV_keeps_text s :
  filterb solid (concat (parseCSV s)) = filterb solid s.
Proof.
  unfold parseCSV. by rewrite concat_filter_truthy, filter_concat_map_trim, solid_concat_split.
Qed.

(** The round trip needs the comma-free condition: a directory whose name
    has a comma, picked in the dialog and written to the roots field, is read
    back as two other directories. *)
Theorem parseCSV_comma_splits :
  parseCSV (joinCSV [js "D:/a,b"]) = [js "D:/a"; js "b"].
Proof. reflexivity. Qed.
