(* ===== verification/PathUtil.v ===== *)
(** * utils/path.ts: shortening a path for display

    [shortenPath] shows a long path with its middle elided; [scanDirOf] is the
    directory part of a scanned path, as the two scan-progress listeners of
    App.tsx compute it. *)

From S2P Require Import Prelude JsNumber JsString.
#[local] Open Scope Z_scope.

Definition backslash : Z := 92.
Definition slash : Z := 47.
Definition is_sep (c : Z) : bool := (c =? backslash) || (c =? slash).
Definition ellipsis : jsstr := js "...".

(** ** utils/path.ts *)

(** The default of the [maxLen] parameter; every caller passes the configured
    length. *)
Definition shortenPath_default_maxLen : number := of_Z 80.

Definition shortenPath (p : jsstr) (maxLen : number) : jsstr :=
  if negb (truthy p) then []
  else if leb (of_Z (len p)) maxLen then p
  else
    let useBackslash := includes p backslash in
    let sep := if useBackslash then [backslash] else [slash] in
    let parts := split_on is_sep p in
    if (length parts <=? 2)%nat then slice p (of_Z 0) (sub maxLen (of_Z 3)) ++ ellipsis
    else
      let first := nth 0 parts [] in
      let lst := nth (length parts - 1) parts [] in
      let beforeLast := nth (length parts - 2) parts [] in
      let candidate := first ++ sep ++ ellipsis ++ sep ++ beforeLast ++ sep ++ lst in
      if leb (of_Z (len candidate)) maxLen then candidate
      else
        let keep := sub maxLen (of_Z 3) in
        let head := max (of_Z 10) (floor (div keep (of_Z 2))) in
        let tail := sub keep head in
        slice p (of_Z 0) head ++ ellipsis ++ slice_from p (sub (of_Z (len p)) tail).

(** ** App.tsx, the scan-progress listeners

    [const idx = Math.max(p.lastIndexOf('\\'), p.lastIndexOf('/'))],
    [idx > 0 ? p.slice(0, idx) : p]. *)
Definition scanDirOf (p : jsstr) : jsstr :=
  let idx := Z.max (lastIndexOf p backslash) (lastIndexOf p slash) in
  if 0 <? idx then slice p (of_Z 0) (of_Z idx) else p.

(** ** The shape of the result *)

(** The integer cut points of the last branch. *)
Definition head_cut (m : Z) : Z := Z.max 10 ((m - 3) / 2).
Definition tail_cut (m : Z) : Z := m - 3 - head_cut m.

Definition sep_of (p : jsstr) : jsstr := if includes p backslash then [backslash] else [slash].

Definition candidate_of (p : jsstr) : jsstr :=
  nth 0 (split_on is_sep p) [] ++ sep_of p ++ ellipsis ++ sep_of p
  ++ nth (length (split_on is_sep p) - 2) (split_on is_sep p) [] ++ sep_of p
  ++ nth (length (split_on is_sep p) - 1) (split_on is_sep p) [].

Definition centred (p : jsstr) (m : Z) : jsstr :=
  take (Z.to_nat (head_cut m)) p ++ ellipsis ++ drop (Z.to_nat (len p - tail_cut m)) p.

(** With an integer limit of at least 3, the function is this case analysis on
    integers: no rounding happens anywhere. *)
Definition shorten_int (p : jsstr) (m : Z) : jsstr :=
  if len p <=? m then p
  else if (length (split_on is_sep p) <=? 2)%nat then take (Z.to_nat (m - 3)) p ++ ellipsis
  else if len (candidate_of p) <=? m then candidate_of p
  else centred p m.

Lemma head_cut_range m : 3 <= m <= 2 ^ 52 -> 10 <= head_cut m <= 2 ^ 52.
Proof.
  intros Hm. unfold head_cut.
  assert ((m - 3) / 2 <= m - 3) by (apply Z.div_le_upper_bound; lia). lia.
Qed.

Lemma shortenPath_int p m :
  3 <= m <= 2 ^ 52 -> len p <= 2 ^ 52 -> len (candidate_of p) <= 2 ^ 53 ->
  shortenPath p (of_Z m) = shorten_int p m.
Proof.
  intros Hm Hp Hc. pose proof (len_nonneg p). pose proof (head_cut_range m Hm).
  destruct p as [|c p'].
  { unfold shorten_int. by rewrite (proj2 (Z.leb_le (len []) m)) by (unfold len; simpl; lia). }
  set (p := c :: p') in *. unfold shortenPath, shorten_int.
  change (negb (truthy p)) with false. cbv iota zeta. fold (sep_of p). fold (candidate_of p).
  pose proof (len_nonneg (candidate_of p)).
  rewrite !leb_of_Z by safe_lia. rewrite (sub_of_Z m 3) by safe_lia.
  rewrite floor_div_of_Z by lia. fold (head_cut m).
  assert (0 <= (m - 3) / 2 <= m - 3)
    by (split; [apply Z.div_pos|apply Z.div_le_upper_bound]; lia).
  rewrite max_of_Z by safe_lia. fold (head_cut m).
  rewrite (sub_of_Z (m - 3)) by safe_lia. fold (tail_cut m).
  rewrite (slice_prefix _ (m - 3)), (slice_prefix _ (head_cut m)) by safe_lia.
  destruct (Z.leb_spec (len p) m); [done|]. destruct (_ <=? 2)%nat; [done|].
  destruct (Z.leb_spec (len (candidate_of p)) m); [done|]. unfold centred.
  rewrite sub_of_Z, slice_suffix by (unfold tail_cut in *; safe_lia). done.
Qed.

(** ** Lengths *)

Lemma split_on_part_len p s w : w ∈ split_on p s -> len w <= len s.
Proof.
  revert w. induction s as [|c s IH]; intros w; simpl; [set_solver by lia|].
  unfold len in *. destruct (p c).
  - rewrite elem_of_cons. intros [->|H%IH]; simpl; lia.
  - pose proof (split_on_ne p s). destruct (split_on p s) as [|v ws]; [done|].
    rewrite elem_of_cons. intros [->|H0].
    + simpl. specialize (IH v ltac:(set_solver)). lia.
    + specialize (IH w ltac:(set_solver)). simpl. lia.
Qed.

Lemma nth_part_len p s i : len (nth i (split_on p s) []) <= len s.
Proof.
  destruct (nth_in_or_default i (split_on p s) []) as [H| ->].
  - apply split_on_part_len with p. by apply list_elem_of_In.
  - pose proof (len_nonneg s). done.
Qed.

Lemma len_sep_of p : len (sep_of p) = 1.
Proof. unfold sep_of. by destruct (includes p backslash). Qed.

Lemma len_candidate p : len (candidate_of p) <= 3 * len p + 6.
Proof.
  unfold candidate_of. rewrite !len_app, len_sep_of.
  pose proof (nth_part_len is_sep p 0). pose proof (nth_part_len is_sep p (length (split_on is_sep p) - 2)).
  pose proof (nth_part_len is_sep p (length (split_on is_sep p) - 1)).
  change (len ellipsis) with 3. lia.
Qed.

Lemma len_take n (s : jsstr) : 0 <= n -> len (take (Z.to_nat n) s) = Z.min n (len s).
Proof. intros. unfold len. rewrite length_take. lia. Qed.

Lemma len_drop n (s : jsstr) : 0 <= n <= len s -> len (drop (Z.to_nat n) s) = len s - n.
Proof. unfold len. intros. rewrite length_drop. lia. Qed.

(** The centred form keeps exactly [m] units once [m] leaves room for the ten
    units the head always has. *)
Lemma len_centred p m : 13 <= m < len p -> len (centred p m) = m.
Proof.
  intros Hm. unfold centred. assert (10 <= head_cut m <= m - 3) as Hh.
  { unfold head_cut. assert ((m - 3) / 2 <= m - 3) by (apply Z.div_le_upper_bound; lia). lia. }
  rewrite !len_app, len_take, len_drop by (unfold tail_cut; lia).
  change (len ellipsis) with 3. unfold tail_cut. lia.
Qed.

(** Below 13 the ten head units and the dots do not fit. *)
Lemma len_centred_small p m : 3 <= m < 13 -> m < len p -> 10 <= len p -> len (centred p m) = 13.
Proof.
  intros Hm Hp H10. unfold centred. assert (head_cut m = 10) as Hh.
  { unfold head_cut. assert ((m - 3) / 2 <= m - 3) by (apply Z.div_le_upper_bound; lia). lia. }
  unfold tail_cut. rewrite !len_app, Hh, len_take by lia.
  rewrite drop_ge by (unfold len in *; lia). change (len ellipsis) with 3. change (len []) with 0. lia.
Qed.

Lemma len_shorten_int p m : 13 <= m -> len (shorten_int p m) <= m.
Proof.
  intros Hm. unfold shorten_int. destruct (Z.leb_spec (len p) m); [done|].
  destruct (_ <=? 2)%nat.
  - rewrite len_app, len_take by lia. change (len ellipsis) with 3. lia.
  - destruct (Z.leb_spec (len (candidate_of p)) m); [done|]. rewrite len_centred; lia.
Qed.

(** ** Elision *)

Definition elides (p s : jsstr) : Prop :=
  s = p \/ exists a b c, p = a ++ b ++ c /\ s = a ++ ellipsis ++ c.

Definition uniform (p : jsstr) : Prop := (backslash ∉ p) \/ (slash ∉ p).

Lemma includes_elem_of s c : includes s c = true <-> c ∈ s.
Proof.
  unfold includes. rewrite existsb_exists. setoid_rewrite <- list_elem_of_In. split.
  - by intros (x & Hx & ->%Z.eqb_eq).
  - intros H. exists c. by rewrite Z.eqb_refl.
Qed.

Lemma sep_of_uniform p : uniform p -> exists c, sep_of p = [c] /\ join [c] (split_on is_sep p) = p.
Proof.
  intros Hu. unfold sep_of. destruct (includes p backslash) eqn:E; eexists; (split; [done|]).
  - apply includes_elem_of in E. apply split_on_join. intros x Hx.
    unfold is_sep. rewrite orb_true_iff, !Z.eqb_eq. intros [->| ->]; [done|]. by destruct Hu.
  - apply not_true_iff_false in E. rewrite includes_elem_of in E. apply split_on_join. intros x Hx.
    unfold is_sep. rewrite orb_true_iff, !Z.eqb_eq. by intros [->| ->].
Qed.

Lemma join_app_ne sep l k : l <> [] -> k <> [] -> join sep (l ++ k) = join sep l ++ sep ++ join sep k.
Proof.
  intros Hl Hk. induction l as [|w [|v l] IH]; [done| |].
  - simpl app. by rewrite join_cons.
  - change ((w :: v :: l) ++ k) with (w :: ((v :: l) ++ k)).
    rewrite !join_cons, IH by done. by rewrite <- !app_assoc.
Qed.

Lemma list_ends {A} (l : list A) : (2 < length l)%nat ->
  exists f mid b e, l = f :: mid ++ [b; e].
Proof.
  intros Hl. destruct l as [|f l]; [simpl in Hl; lia|].
  destruct l as [|e l _] using rev_ind; [simpl in Hl; lia|].
  destruct l as [|b mid _] using rev_ind; [simpl in Hl; lia|].
  exists f, mid, b, e. by rewrite <- app_assoc.
Qed.

Lemma nth_ends {A} (f : A) mid b e d :
  nth (length (f :: mid ++ [b; e]) - 2) (f :: mid ++ [b; e]) d = b
  /\ nth (length (f :: mid ++ [b; e]) - 1) (f :: mid ++ [b; e]) d = e.
Proof.
  change (f :: mid ++ [b; e]) with ((f :: mid) ++ [b; e]). rewrite length_app.
  split; rewrite app_nth2 by (simpl; lia).
  - by replace (_ - _ - _)%nat with 0%nat by (simpl; lia).
  - by replace (_ - _ - _)%nat with 1%nat by (simpl; lia).
Qed.

(** The candidate is only shorter than the path when it skips whole segments. *)
Lemma candidate_elides p : uniform p -> (2 < length (split_on is_sep p))%nat ->
  len (candidate_of p) < len p -> elides p (candidate_of p).
Proof.
  intros Hu Hl Hlt. destruct (sep_of_uniform p Hu) as (c & Hsep & Hjoin).
  destruct (list_ends _ Hl) as (f & mid & b & e & El).
  unfold candidate_of in *. rewrite Hsep, El in *.
  destruct (nth_ends f mid b e []) as [E1 E2]. rewrite E1, E2 in Hlt |- *. simpl (nth 0 _ _) in *.
  destruct mid as [|w mid].
  - rewrite <- Hjoin, app_nil_l, !join_cons in Hlt by done. rewrite !len_app in Hlt.
    change (len ellipsis) with 3 in Hlt. change (join [c] [e]) with e in Hlt. pose proof (len_nonneg [c]). lia.
  - right. exists (f ++ [c]), (join [c] (w :: mid)), ([c] ++ b ++ [c] ++ e). split.
    + rewrite <- Hjoin at 1. rewrite join_cons by (by destruct mid).
      rewrite (join_app_ne [c] (w :: mid) [b; e]) by done. simpl. by rewrite <- !app_assoc.
    + by rewrite <- !app_assoc.
Qed.

Lemma centred_elides p m : 13 <= m < len p -> elides p (centred p m).
Proof.
  intros Hm. assert (10 <= head_cut m <= m - 3) as Hh.
  { unfold head_cut. assert ((m - 3) / 2 <= m - 3) by (apply Z.div_le_upper_bound; lia). lia. }
  right. set (h := Z.to_nat (head_cut m)). set (t := Z.to_nat (len p - tail_cut m)).
  exists (take h p), (take (t - h) (drop h p)), (drop t p). split; [|done].
  rewrite <- (take_drop h p) at 1. f_equal. rewrite <- (take_drop (t - h) (drop h p)) at 1.
  f_equal. rewrite drop_drop. f_equal. unfold h, t, tail_cut. lia.
Qed.

Lemma shorten_int_elides p m : 13 <= m -> uniform p -> elides p (shorten_int p m).
Proof.
  intros Hm Hu. unfold shorten_int. destruct (Z.leb_spec (len p) m); [by left|].
  destruct (Nat.leb_spec (length (split_on is_sep p)) 2).
  - right. exists (take (Z.to_nat (m - 3)) p), (drop (Z.to_nat (m - 3)) p), [].
    split; by rewrite ?app_nil_r, ?take_drop.
  - destruct (Z.leb_spec (len (candidate_of p)) m).
    + by apply candidate_elides; [|lia|lia].
    + by apply centred_elides.
Qed.

(** ** The directory of a scanned path *)

Lemma last_index_split p c : lastIndexOf p c = -1 /\ (c ∉ p) \/
  exists a b, p = a ++ (c :: b) /\ (c ∉ b) /\ lastIndexOf p c = len a.
Proof.
  destruct (last_index_from_spec c 0 p ltac:(lia)) as [H|(a & b & E & Hb & H)]; [by left|].
  right. by exists a, b.
Qed.

Lemma later_rest (p a1 b1 a2 b2 : jsstr) c1 c2 x :
  p = a1 ++ c1 :: b1 -> p = a2 ++ c2 :: b2 -> (length a1 <= length a2)%nat -> x ∈ b2 -> x ∈ b1.
Proof.
  intros E1 E2 Hle Hx.
  assert (b2 = drop (S (length a2)) p) as ->
    by (rewrite E2, drop_app_ge by lia; by replace (S (length a2) - length a2)%nat with 1%nat by lia).
  rewrite E1, drop_app_ge in Hx by lia.
  replace (S (length a2) - length a1)%nat with (S (length a2 - length a1)) in Hx by lia.
  simpl in Hx. rewrite <- (take_drop (length a2 - length a1) b1). set_solver.
Qed.

(** The unit at the greater of two last indices is a separator and no later
    unit is either of them. *)
Lemma last_sep_split p :
  let idx := Z.max (lastIndexOf p backslash) (lastIndexOf p slash) in
  idx = -1 /\ Forall (fun c => is_sep c = false) p \/
  exists a c b, p = a ++ c :: b /\ is_sep c = true /\ Forall (fun c => is_sep c = false) b /\ idx = len a.
Proof.
  assert (Hns : forall s, (backslash ∉ s) -> (slash ∉ s) -> Forall (fun c => is_sep c = false) s).
  { intros s H1 H2. apply Forall_forall. intros x Hx. unfold is_sep.
    destruct (Z.eqb_spec x backslash) as [->|]; [done|]. by destruct (Z.eqb_spec x slash) as [->|]. }
  destruct (last_index_split p backslash) as [[E1 N1]|(a1 & b1 & E1 & N1 & L1)];
    destruct (last_index_split p slash) as [[E2 N2]|(a2 & b2 & E2 & N2 & L2)]; simpl.
  - left. rewrite E1, E2. split; [done|]. by apply Hns.
  - right. exists a2, slash, b2. rewrite E1, L2. pose proof (len_nonneg a2).
    split_and!; [done|done| |lia]. apply Hns; [|done]. rewrite E2 in N1. set_solver.
  - right. exists a1, backslash, b1. rewrite E2, L1. pose proof (len_nonneg a1).
    split_and!; [done|done| |lia]. apply Hns; [done|]. rewrite E1 in N2. set_solver.
  - right. rewrite L1, L2. destruct (Z.le_gt_cases (len a1) (len a2)) as [Hle|Hgt].
    + exists a2, slash, b2. split_and!; [done|done| |lia]. apply Hns; [|done].
      intros Hin. apply N1. eapply later_rest; [exact E1|exact E2|unfold len in *; lia|done].
    + exists a1, backslash, b1. split_and!; [done|done| |lia]. apply Hns; [done|].
      intros Hin. apply N2. eapply later_rest; [exact E2|exact E1|unfold len in *; lia|done].
Qed.

(** ** Properties *)

(** C25. A shortened path fits: with a limit of at least 13 the result has at most
    that many units, and a path that fits is shown as it is. *)
Theorem shortenPath_fits p m :
  13 <= m <= 2 ^ 50 -> len p <= 2 ^ 50 ->
  len (shortenPath p (of_Z m)) <= m /\ (len p <= m -> shortenPath p (of_Z m) = p).
Proof.
  intros Hm Hp. pose proof (len_candidate p). rewrite shortenPath_int by lia. split.
  - apply len_shorten_int. lia.
  - intros Hle. unfold shorten_int. by rewrite (proj2 (Z.leb_le _ _) Hle).
Qed.

Lemma shortenPath_fits_witness :
  len (js "D:/very/long/example/path/with/many/subfolders/file.txt") = 55
  /\ len (shortenPath (js "D:/very/long/example/path/with/many/subfolders/file.txt") (of_Z 20)) <= 20.
Proof.
  split; [reflexivity|]. apply (shortenPath_fits _ 20); [lia|].
  change (len _) with 55. lia.
Defined.

(** What is shown is the path with one contiguous piece replaced by three
    dots (or the path itself), when the path uses one kind of separator. *)
Theorem shortenPath_elides p m :
  13 <= m <= 2 ^ 50 -> len p <= 2 ^ 50 -> uniform p -> elides p (shortenPath p (of_Z m)).
Proof.
  intros Hm Hp Hu. pose proof (len_candidate p). rewrite shortenPath_int by lia.
  apply shorten_int_elides; [lia|done].
Qed.

Lemma shortenPath_elides_witness :
  elides (js "D:/very/long/example/path/file.txt") (shortenPath (js "D:/very/long/example/path/file.txt") (of_Z 20)).
Proof.
  apply (shortenPath_elides _ 20); [lia|change (len _) with 34; lia|].
  left. apply (bool_decide_eq_true_1 _). vm_compute. reflexivity.
Defined.

(** Below 13 the limit is not respected: a path of three or more segments
    that needs the centred form is shown with 13 units, whatever the limit. *)
Theorem shortenPath_small_limit p m :
  3 <= m < 13 -> 13 <= len p <= 2 ^ 50 -> (2 < length (split_on is_sep p))%nat ->
  m < len (candidate_of p) -> len (shortenPath p (of_Z m)) = 13.
Proof.
  intros Hm Hp Hs Hc. pose proof (len_candidate p). rewrite shortenPath_int by lia.
  unfold shorten_int. destruct (Z.leb_spec (len p) m); [lia|].
  destruct (Nat.leb_spec (length (split_on is_sep p)) 2); [lia|].
  destruct (Z.leb_spec (len (candidate_of p)) m); [lia|]. apply len_centred_small; lia.
Qed.

Lemma shortenPath_small_limit_witness :
  len (shortenPath (js "D:/projects/report-final.txt") (of_Z 11)) = 13.
Proof.
  apply (shortenPath_small_limit _ 11); [lia|..].
  - change (len _) with 28. lia.
  - vm_compute. lia.
  - change (len _) with 32. lia.
Defined.

(** The directory shown while scanning: everything before the last separator
    of the scanned path, and the path itself when its only separator, if any, is
    its first unit. *)
Theorem scanDirOf_spec p : len p <= 2 ^ 53 ->
  (scanDirOf p = p /\ Forall (fun c => is_sep c = false) (tail p)) \/
  exists c name, p = scanDirOf p ++ c :: name /\ is_sep c = true
    /\ Forall (fun c => is_sep c = false) name /\ scanDirOf p <> [].
Proof.
  intros Hp. unfold scanDirOf. destruct (last_sep_split p) as [[-> H]|(a & c & b & E & Hc & Hb & ->)].
  - left. split; [done|]. by destruct H.
  - destruct a as [|x a]; [left; rewrite E; by split|right]. exists c, b.
    assert (0 < len (x :: a)) by (unfold len; simpl; lia).
    rewrite (proj2 (Z.ltb_lt _ _)) by done.
    assert (safe (len (x :: a))) by (rewrite E, len_app in Hp; pose proof (len_nonneg (c :: b)); safe_lia).
    rewrite slice_prefix by lia || done. unfold len at 1 2. rewrite Nat2Z.id, E, take_app_length. done.
Qed.

Lemma scanDirOf_spec_witness :
  (scanDirOf (js "D:/a/b.txt") = js "D:/a") /\
  (let p := js "D:/a/b.txt" in
   (scanDirOf p = p /\ Forall (fun c => is_sep c = false) (tail p)) \/
   exists c name, p = scanDirOf p ++ c :: name /\ is_sep c = true
     /\ Forall (fun c => is_sep c = false) name /\ scanDirOf p <> []).
Proof. split; [vm_compute; reflexivity|]. apply scanDirOf_spec. change (len _) with 10. lia. Defined.
