(* ===== verification/SizeUtil.v ===== *)
(** * utils/size.ts: byte counts

    [formatBytes] prints a size with a binary unit, [toBytesMb] turns the
    megabytes typed in a filter into bytes.  Dividing and multiplying by 1024 is
    exact on doubles, so the printed decimals are those of the exact quotient. *)

From S2P Require Import Prelude JsNumber JsString JsConvert.
#[local] Open Scope Z_scope.

(** The optional digit counts of the second parameter ([opts?.digitsX]). *)
Record format_opts := {
  digitsB : option Z;
  digitsKB : option Z;
  digitsMB : option Z;
  digitsGB : option Z;
  digitsTB : option Z;
}.

Definition no_opts : format_opts := Build_format_opts None None None None None.

(** [units]. *)
Inductive size_unit := KB | MB | GB | TB.
Definition unit_name (u : size_unit) : jsstr :=
  match u with KB => js "KB" | MB => js "MB" | GB => js "GB" | TB => js "TB" end.
Definition units : list size_unit := [KB; MB; GB; TB].

(** [while (val >= 1024 && idx < units.length - 1) { val /= 1024; idx++ }]: the
    first argument is [units.length - 1 - idx], which bounds the loop. *)
Fixpoint scale_loop (left : nat) (val : number) (idx : nat) : number * nat :=
  match left with
  | O => (val, idx)
  | S left' =>
      if leb (of_Z 1024) val then scale_loop left' (div val (of_Z 1024)) (S idx)
      else (val, idx)
  end.

Definition digits_for (opts : format_opts) (u : size_unit) : Z :=
  match u with
  | KB => default 0 (digitsKB opts)
  | MB => default 2 (digitsMB opts)
  | GB => default 2 (digitsGB opts)
  | TB => default 2 (digitsTB opts)
  end.

Definition formatBytes (bytes : number) (opts : format_opts) : jsstr :=
  if negb (isFinite bytes) then js "-"
  else
    let a := abs bytes in
    if ltb a (of_Z 1024) then to_string (round bytes) ++ js " B"
    else
      let '(val, idx) := scale_loop (length units - 1) (div a (of_Z 1024)) 0 in
      let unit := nth idx units TB in
      let sign := if ltb bytes (of_Z 0) then js "-" else [] in
      sign ++ toFixed val (digits_for opts unit) ++ js " " ++ unit_name unit.

(** [Math.round(mb * 1024 * 1024)]. *)
Definition toBytesMb (mb : number) : number :=
  round (mul (mul mb (of_Z 1024)) (of_Z 1024)).

(** ** Exact scaling by 1024 *)

Lemma of_Z_1024 : of_Z 1024 = Fin (2 ^ 10 * one).
Proof. by apply of_Z_small. Qed.

Lemma div_1024 k : rep k -> one <= Z.abs k ->
  exists v, k = v * 2 ^ 10 /\ rep v /\ div (Fin k) (of_Z 1024) = Fin v.
Proof.
  intros Hk H1. pose proof one_pos. destruct (rep_unscale k 10 ltac:(lia) Hk H1) as (v & E & Hv).
  exists v. split_and!; [done|done|]. rewrite of_Z_1024. apply div_exact; [lia| |done].
  rewrite E at 1. ring.
Qed.

Lemma mul_1024 k : rep k -> Z.abs k * 2 ^ 10 < top -> mul (Fin k) (of_Z 1024) = Fin (k * 2 ^ 10).
Proof.
  intros Hk Ht. rewrite of_Z_1024. apply mul_exact; [ring|]. apply rep_scale; [done|lia|done].
Qed.

Lemma ge_1024 k : 0 <= k -> leb (of_Z 1024) (Fin k) = (2 ^ 10 * one <=? k).
Proof. intros. rewrite of_Z_1024. simpl. bool_cases; simpl; lia || done. Qed.

(** The loop stops at the unit that leaves less than 1024 of it, or at TB. *)
Lemma scale_loop_spec left v idx : rep v -> one <= v ->
  exists w i, scale_loop left (Fin v) idx = (Fin w, (idx + i)%nat) /\ (i <= left)%nat
    /\ v = w * 2 ^ (10 * Z.of_nat i) /\ rep w /\ one <= w
    /\ (w < 2 ^ 10 * one \/ i = left).
Proof.
  revert v idx. induction left as [|left IH]; intros v idx Hv H1; simpl scale_loop.
  { exists v, 0%nat. rewrite Nat.add_0_r. split_and!; [done|lia|lia|done|done|by right]. }
  pose proof one_pos. rewrite ge_1024 by lia. destruct (Z.leb_spec (2 ^ 10 * one) v) as [Hge|Hlt].
  - destruct (div_1024 v Hv) as (u & E & Hu & ->); [lia|].
    destruct (IH u (S idx) Hu ltac:(lia)) as (w & i & -> & Hi & Ew & Hw & Hw1 & Hstop).
    exists w, (S i). split_and!; [f_equal; lia|lia| |done|done|].
    + rewrite E, Ew. replace (10 * Z.of_nat (S i)) with (10 * Z.of_nat i + 10) by lia.
      rewrite Z.pow_add_r by lia. ring.
    + destruct Hstop; [by left|right; lia].
  - exists v, 0%nat. rewrite Nat.add_0_r. split_and!; [done|lia|lia|done|done|by left].
Qed.

(** ** What [toFixed] prints: the digits of the nearest multiple of [10^-f] *)

Definition fixed_int (k f : Z) : Z := (2 * k * 10 ^ f + one) / (2 * one).

Lemma fixed_int_nearest k f : 2 * Z.abs (fixed_int k f * one - k * 10 ^ f) <= one.
Proof.
  unfold fixed_int. pose proof one_pos.
  pose proof (Z.div_mod (2 * k * 10 ^ f + one) (2 * one) ltac:(lia)).
  pose proof (Z.mod_pos_bound (2 * k * 10 ^ f + one) (2 * one) ltac:(lia)). lia.
Qed.

Lemma fixed_int_nonneg k f : 0 <= k -> 0 <= f -> 0 <= fixed_int k f.
Proof.
  intros. unfold fixed_int. pose proof one_pos. pose proof (Z.pow_nonneg 10 f ltac:(lia)).
  apply Z.div_pos; nia.
Qed.

Lemma filter_digits s : Forall (fun c => is_digit c = true) s -> filterb is_digit s = s.
Proof. apply filterb_all. Qed.

Lemma undigits_zeros n s : undigits (zeros n ++ s) = undigits s.
Proof.
  unfold zeros. induction (Z.to_nat n) as [|m IH]; [done|]. simpl. exact IH.
Qed.

Lemma zeros_digits n : Forall (fun c => is_digit c = true) (zeros n).
Proof. unfold zeros. by apply Forall_replicate. Qed.

(** Dropping the point, the digits printed are those of [fixed_int]. *)
Lemma fixed_mag_digits k f : 0 <= k -> 0 <= f ->
  undigits (filterb is_digit (fixed_mag k f)) = fixed_int k f.
Proof.
  intros Hk Hf. pose proof (fixed_int_nonneg k f Hk Hf) as Hn.
  pose proof (dec_digits _ Hn) as Hd. unfold fixed_mag. fold (fixed_int k f). cbv zeta.
  destruct (f =? 0); [by rewrite filter_digits, dec_undigits|].
  set (m := zeros _ ++ dec (fixed_int k f)). set (cut := Z.to_nat _).
  assert (Forall (fun c => is_digit c = true) m) as Hm
    by (apply Forall_app; auto using zeros_digits).
  rewrite !List.filter_app. simpl (filterb is_digit (js ".")). rewrite app_nil_l, <- List.filter_app.
  rewrite take_drop, filter_digits by done. unfold m. by rewrite undigits_zeros, dec_undigits.
Qed.

(** ** The printed form *)

Definition unit_bytes (i : nat) : Z := 2 ^ (10 * Z.of_nat (S i)).

Lemma formatBytes_form k o : rep k -> 2 ^ 10 * one <= Z.abs k < 2 ^ 64 * one ->
  exists i u v, units !! i = Some u /\ Z.abs k = v * unit_bytes i
    /\ one <= v /\ (v < 2 ^ 10 * one \/ u = TB)
    /\ formatBytes (Fin k) o
       = (if k <? 0 then js "-" else []) ++ fixed_mag v (digits_for o u) ++ js " " ++ unit_name u.
Proof.
  intros Hk Hr. pose proof one_pos. unfold formatBytes.
  change (isFinite (Fin k)) with true. cbv iota beta zeta delta [negb]. change (abs (Fin k)) with (Fin (Z.abs k)).
  assert (ltb (Fin (Z.abs k)) (of_Z 1024) = false) as ->
    by (rewrite of_Z_1024; apply Z.ltb_ge; lia).
  destruct (div_1024 (Z.abs k)) as (v & Ev & Hv & ->); [by apply rep_abs|lia|].
  destruct (scale_loop_spec (length units - 1) v 0 Hv ltac:(lia))
    as (w & i & -> & Hi & Ew & Hw & Hw1 & Hstop).
  simpl length in Hi, Hstop. assert (is_Some (units !! i)) as [u Hu]
    by (apply lookup_lt_is_Some; simpl; lia).
  exists i, u, w. split_and!; [done| |done| |].
  - rewrite Ev, Ew. unfold unit_bytes.
    replace (10 * Z.of_nat (S i)) with (10 * Z.of_nat i + 10) by lia. rewrite Z.pow_add_r by lia. ring.
  - destruct Hstop as [?| ->]; [by left|right]. by simplify_eq/=.
  - rewrite (nth_lookup_Some _ _ _ _ Hu).
    assert (ltb (Fin k) (of_Z 0) = (k <? 0)) as -> by (by rewrite of_Z_small).
    assert (1 <= 2 ^ (10 * Z.of_nat i)) by (pose proof (pow2_pos (10 * Z.of_nat i) ltac:(lia)); lia).
    unfold toFixed. rewrite (proj2 (Z.leb_gt _ _)) by nia.
    rewrite (proj2 (Z.ltb_ge w 0)) by lia. by rewrite Z.abs_eq by lia.
Qed.

(** ** Properties *)

(** A size of at least 1 KiB is printed with the binary unit it has at least
    one of and less than 1024 of (TB beyond), and the digits printed are, in that
    unit, within half of the last printed place of the exact size: no error
    builds up in the scaling loop. *)
Theorem formatBytes_correct k o :
  rep k -> 2 ^ 10 * one <= Z.abs k < 2 ^ 64 * one -> (forall u, 0 <= digits_for o u) ->
  exists i u num, units !! i = Some u
    /\ formatBytes (Fin k) o = (if k <? 0 then js "-" else []) ++ num ++ js " " ++ unit_name u
    /\ unit_bytes i * one <= Z.abs k /\ (Z.abs k < 2 ^ 10 * unit_bytes i * one \/ u = TB)
    /\ 2 * Z.abs (undigits (filterb is_digit num) * unit_bytes i * one
                  - Z.abs k * 10 ^ digits_for o u) <= unit_bytes i * one.
Proof.
  intros Hk Hr Hd. destruct (formatBytes_form k o Hk Hr) as (i & u & v & Hu & Ek & Hv & Hstop & E).
  pose proof one_pos. pose proof (pow2_pos (10 * Z.of_nat (S i)) ltac:(lia)) as Hp. fold (unit_bytes i) in Hp.
  exists i, u, (fixed_mag v (digits_for o u)). split_and!; [done|done|nia|destruct Hstop; [left; nia|by right]|].
  rewrite fixed_mag_digits by (lia || apply Hd). pose proof (fixed_int_nearest v (digits_for o u)).
  rewrite Ek. set (n := fixed_int _ _) in *. set (t := 10 ^ _) in *.
  replace (n * unit_bytes i * one - v * unit_bytes i * t) with ((n * one - v * t) * unit_bytes i) by ring.
  rewrite Z.abs_mul, (Z.abs_eq (unit_bytes i)) by lia. nia.
Qed.

Lemma formatBytes_correct_witness :
  formatBytes (of_Z 1536) no_opts = js "2 KB" /\
  exists i u num, units !! i = Some u
    /\ formatBytes (Fin (1536 * one)) no_opts = (if 1536 * one <? 0 then js "-" else []) ++ num ++ js " " ++ unit_name u
    /\ unit_bytes i * one <= Z.abs (1536 * one) /\ (Z.abs (1536 * one) < 2 ^ 10 * unit_bytes i * one \/ u = TB)
    /\ 2 * Z.abs (undigits (filterb is_digit num) * unit_bytes i * one
                  - Z.abs (1536 * one) * 10 ^ digits_for no_opts u) <= unit_bytes i * one.
Proof.
  split; [vm_compute; reflexivity|]. pose proof one_pos.
  apply (formatBytes_correct (1536 * one) no_opts).
  - apply rep_int. lia.
  - rewrite Z.abs_eq by lia. lia.
  - intros []; simpl; lia.
Defined.

(** Sizes below 1 KiB are printed as a whole number of bytes, and a value that
    is not a finite number as a dash. *)
Theorem formatBytes_small z o :
  Z.abs z < 1024 ->
  formatBytes (of_Z z) o = (if z <? 0 then js "-" else []) ++ dec (Z.abs z) ++ js " B"
  /\ formatBytes NaN o = js "-" /\ (forall b, formatBytes (Infinity b) o = js "-").
Proof.
  intros Hz. pose proof one_pos. split; [|done]. rewrite of_Z_small by lia. unfold formatBytes.
  change (isFinite (Fin (z * one))) with true. cbv iota beta zeta delta [negb].
  assert (ltb (abs (Fin (z * one))) (of_Z 1024) = true) as ->
    by (rewrite of_Z_1024; apply Z.ltb_lt; rewrite Z.abs_mul, (Z.abs_eq one) by lia; nia).
  assert (round (Fin (z * one)) = Fin (z * one)) as ->.
  { unfold round. pose proof half_pos. pose proof one_half.
    rewrite (Z.add_comm _ half), Z.div_add, Z.div_small by lia. done. }
  rewrite to_string_int by lia. by rewrite <- app_assoc.
Qed.

Lemma formatBytes_small_witness : formatBytes (of_Z (-37)) no_opts = js "-37 B".
Proof. rewrite (proj1 (formatBytes_small (-37) no_opts ltac:(lia))). reflexivity. Defined.

(** Megabytes to bytes: the two multiplications are exact, so the result is
    the integer nearest to [mb * 2^20] (ties up); for a whole number of
    megabytes it is exactly that product. *)
Theorem toBytesMb_correct k :
  rep k -> Z.abs k * 2 ^ 20 < top ->
  (exists n, toBytesMb (Fin k) = Fin (n * one) /\ 2 * Z.abs (n * one - k * 2 ^ 20) <= one)
  /\ (forall z, k = z * one -> toBytesMb (Fin k) = Fin (z * 2 ^ 20 * one)).
Proof.
  intros Hk Ht. assert (toBytesMb (Fin k) = round (Fin (k * 2 ^ 20))) as ->.
  { unfold toBytesMb. rewrite mul_1024; [|done|lia]. rewrite mul_1024.
    - f_equal. f_equal. lia.
    - apply rep_scale; [done|lia|lia].
    - lia. }
  pose proof one_pos. pose proof half_pos. pose proof one_half. unfold round. split.
  - exists ((k * 2 ^ 20 + half) / one). split; [done|].
    pose proof (Z.div_mod (k * 2 ^ 20 + half) one ltac:(lia)).
    pose proof (Z.mod_pos_bound (k * 2 ^ 20 + half) one ltac:(lia)). lia.
  - intros z ->. f_equal. rewrite <- Z.mul_assoc, (Z.mul_comm one), Z.mul_assoc.
    rewrite (Z.add_comm _ half), Z.div_add, Z.div_small by lia. done.
Qed.

Lemma toBytesMb_correct_witness : toBytesMb (of_Z 500) = of_Z 524288000.
Proof.
  rewrite !of_Z_small by lia. destruct (toBytesMb_correct (500 * one)) as [_ H].
  - apply rep_int. lia.
  - rewrite top_one. pose proof one_pos. rewrite Z.abs_eq by lia.
    assert (2 ^ 30 < 2 ^ 1024) by (apply Z.pow_lt_mono_r; lia). nia.
  - rewrite (H 500 eq_refl). reflexivity.
Defined.

(** The unit is chosen before rounding: one byte less than a mebibyte is
    printed with the unit below, as 1024 of it. *)
Theorem formatBytes_unit_edge :
  formatBytes (of_Z (2 ^ 20 - 1)) no_opts = js "1024 KB" /\
  formatBytes (of_Z (2 ^ 20)) no_opts = js "1.00 MB".
Proof. split; vm_compute; reflexivity. Qed.
