(* ===== verification/DateUtil.v ===== *)
(** * utils/date.ts: timestamps

    [formatTs] prints a Unix timestamp in seconds, [formatRelativeTs] prints how
    long ago it was.  The text of a date depends on the locale of the machine:
    it is a parameter, a function of the time value in milliseconds.  The
    current time is an argument. *)

From S2P Require Import Prelude JsNumber JsString JsConvert.
#[local] Open Scope Z_scope.

Section Date.
(** [toLocaleString] of a valid date, from its time value in milliseconds. *)
Variable locale : Z -> jsstr.

(** [new Date(ms).toLocaleString()]: a time value is an integer of magnitude at
    most 8.64e15, anything else is an invalid date. *)
Definition date_text (ms : number) : jsstr :=
  match ms with
  | Fin k => if Z.abs k <=? 8640000000000000 * one then locale (Z.quot k one) else js "Invalid Date"
  | _ => js "Invalid Date"
  end.

(** ** utils/date.ts *)

(** The [ts?] parameter: [None] is [undefined] (or [null]). *)
Definition formatTs (ts : option number) : jsstr :=
  match ts with
  | None => js "-"
  | Some t =>
      if negb (isFinite t) then js "-"
      else date_text (mul t (of_Z 1000))
  end.

Definition formatRelativeTs (now : number) (ts : option number) : jsstr :=
  match ts with
  | None => js "-"
  | Some t =>
      if negb (isFinite t) then js "-"
      else
        let ms := mul t (of_Z 1000) in
        let diffMs := sub now ms in
        if ltb diffMs (of_Z 0) then formatTs ts
        else
          let sec := floor (div diffMs (of_Z 1000)) in
          if ltb sec (of_Z 5) then js "刚刚"
          else if ltb sec (of_Z 60) then to_string sec ++ js " 秒前"
          else
            let min := floor (div sec (of_Z 60)) in
            if ltb min (of_Z 60) then to_string min ++ js " 分钟前"
            else
              let hr := floor (div min (of_Z 60)) in
              if ltb hr (of_Z 24) then to_string hr ++ js " 小时前"
              else
                let day := floor (div hr (of_Z 24)) in
                if ltb day (of_Z 30) then to_string day ++ js " 天前"
                else formatTs ts
  end.

(** ** Reference: the age in milliseconds read against fixed bands *)

Definition age_label (absolute : jsstr) (d : Z) : jsstr :=
  if d <? 0 then absolute
  else if d <? 5000 then js "刚刚"
  else if d <? 60000 then dec (d / 1000) ++ js " 秒前"
  else if d <? 3600000 then dec (d / 60000) ++ js " 分钟前"
  else if d <? 86400000 then dec (d / 3600000) ++ js " 小时前"
  else if d <? 2592000000 then dec (d / 86400000) ++ js " 天前"
  else absolute.

Lemma to_string_nonneg z : 0 <= z <= 2 ^ 53 -> to_string (of_Z z) = dec z.
Proof.
  intros Hz. rewrite of_Z_small, to_string_int by lia.
  rewrite (proj2 (Z.ltb_ge z 0)) by lia. by rewrite app_nil_l, Z.abs_eq by lia.
Qed.

(** One step of the unit chain: dividing a count and comparing it. *)
Lemma ltb_div d a b : 0 < a -> 0 < b -> (d / a <? b) = (d <? a * b).
Proof.
  intros Ha Hb. apply eq_true_iff_eq. rewrite !Z.ltb_lt. split.
  - intros H. apply Z.lt_nge. intros Hge.
    assert (b <= d / a) by (apply Z.div_le_lower_bound; lia). lia.
  - intros H. apply Z.div_lt_upper_bound; lia.
Qed.

Lemma div_step d a b : 0 <= d <= 2 ^ 52 -> 0 < a <= 2 ^ 53 -> 0 < b <= 2 ^ 53 ->
  floor (div (of_Z (d / a)) (of_Z b)) = of_Z (d / (a * b)).
Proof.
  intros Hd Ha Hb. assert (0 <= d / a <= d)
    by (split; [apply Z.div_pos|apply Z.div_le_upper_bound]; nia).
  rewrite floor_div_of_Z by lia. by rewrite Z.div_div by lia.
Qed.

Lemma div_safe d a : 0 <= d <= 2 ^ 52 -> 0 < a -> 0 <= d / a <= 2 ^ 52.
Proof. intros. split; [apply Z.div_pos|apply Z.div_le_upper_bound]; nia. Qed.

(** ** Properties *)

(** C35. The relative label is the age in milliseconds read against fixed bands:
    the chain of divisions and floors on doubles computes the exact integer
    quotients, for any whole timestamp and clock within the range of dates. *)
Theorem formatRelativeTs_bands now ts :
  0 <= now <= 2 ^ 52 -> Z.abs ts <= 2 ^ 42 -> now - ts * 1000 <= 2 ^ 52 ->
  formatRelativeTs (of_Z now) (Some (of_Z ts))
  = age_label (formatTs (Some (of_Z ts))) (now - ts * 1000).
Proof.
  intros Hnow Hts Hd. unfold formatRelativeTs.
  assert (isFinite (of_Z ts) = true) as -> by (rewrite of_Z_small by lia; done).
  cbv iota beta zeta delta [negb]. rewrite mul_of_Z by safe_lia. rewrite sub_of_Z by safe_lia.
  set (d := now - ts * 1000) in *. rewrite ltb_of_Z by safe_lia.
  unfold age_label. destruct (Z.ltb_spec d 0); [done|].
  rewrite floor_div_of_Z by lia.
  rewrite (div_step d 1000 60) by lia. change (1000 * 60) with 60000.
  rewrite (div_step d 60000 60) by lia. change (60000 * 60) with 3600000.
  rewrite (div_step d 3600000 24) by lia. change (3600000 * 24) with 86400000.
  pose proof (div_safe d 1000 ltac:(lia) ltac:(lia)). pose proof (div_safe d 60000 ltac:(lia) ltac:(lia)).
  pose proof (div_safe d 3600000 ltac:(lia) ltac:(lia)). pose proof (div_safe d 86400000 ltac:(lia) ltac:(lia)).
  rewrite !ltb_of_Z by safe_lia. rewrite !to_string_nonneg by lia. rewrite !ltb_div by lia. done.
Qed.
End Date.

Lemma formatRelativeTs_bands_witness :
  formatRelativeTs (fun _ => js "?") (of_Z 1700000090000) (Some (of_Z 1700000000)) = js "1 分钟前".
Proof.
  rewrite (formatRelativeTs_bands (fun _ => js "?") 1700000090000 1700000000) by lia. reflexivity.
Defined.

(** A missing timestamp, NaN and the infinities are shown as a dash by both
    functions, whatever the clock and the locale. *)
Theorem formatTs_missing locale now ts :
  (forall k, ts <> Some (Fin k)) ->
  formatTs locale ts = js "-" /\ formatRelativeTs locale now ts = js "-".
Proof. intros H. destruct ts as [[| |k]|]; try done. by destruct (H k). Qed.

Lemma formatTs_missing_witness :
  formatTs (fun _ => []) None = js "-" /\ formatRelativeTs (fun _ => []) NaN None = js "-".
Proof. apply formatTs_missing. done. Defined.
