(* ===== verification/FileSystem.v ===== *)
(** * Files

    The file system as the scripts and the back end use it: a set of directories
    and a map from paths to contents, with operations the operating system may
    refuse; a refused write can leave the file damaged.  A computation on files takes the disk and returns an error text or
    a value, and the disk it leaves. *)

From stdpp Require Import gmap.
From S2P Require Import Prelude JsNumber JsString.

Section Io.
Context {buffer : Type}.

Record disk := { dirs : gset jsstr; contents : gmap jsstr buffer }.

(** The operations the operating system refuses, with the text of the error.  A
    write empties the file before it writes: one that fails after that leaves
    something else in the file. *)
Record system := {
  refuses_write : jsstr -> option (jsstr * option buffer);
  refuses_mkdir : jsstr -> option jsstr;
  refuses_read : jsstr -> option jsstr;
  refuses_remove : jsstr -> option jsstr;
}.
Context (sys : system).

(** Exceptions, or Rust's errors, carry their text. *)
Definition io (A : Type) : Type := disk -> (jsstr + A) * disk.

Definition io_ret {A} (a : A) : io A := fun d => (inr a, d).
Definition io_throw {A} (e : jsstr) : io A := fun d => (inl e, d).
Definition io_bind {A B} (m : io A) (f : A -> io B) : io B :=
  fun d => match m d with (inl e, d') => (inl e, d') | (inr a, d') => f a d' end.
(** The result of a library call. *)
Definition io_lift {A} (r : jsstr + A) : io A := fun d => (r, d).
(** [let _ = m], an error ignored. *)
Definition io_ignore {A} (m : io A) : io unit := fun d => (inr tt, snd (m d)).

(** A path names a directory or a file. *)
Definition path_exists (p : jsstr) : io bool :=
  fun d => (inr (bool_decide (p ∈ dirs d) || bool_decide (is_Some (contents d !! p))), d).
(** A directory with its parents; one that exists stays. *)
Definition make_dir (p : jsstr) : io unit :=
  fun d => match refuses_mkdir sys p with
           | Some e => (inl e, d)
           | None => (inr tt, {| dirs := {[p]} ∪ dirs d; contents := contents d |})
           end.
Definition read_file (p : jsstr) : io buffer :=
  fun d => (match refuses_read sys p with
            | Some e => inl e
            | None => match contents d !! p with Some b => inr b | None => inl (js "ENOENT") end
            end, d).
Definition write_file (p : jsstr) (b : buffer) : io unit :=
  fun d => match refuses_write sys p with
           | Some (e, None) => (inl e, d)
           | Some (e, Some left_) => (inl e, {| dirs := dirs d; contents := <[p := left_]> (contents d) |})
           | None => (inr tt, {| dirs := dirs d; contents := <[p := b]> (contents d) |})
           end.
Definition remove_file (p : jsstr) : io unit :=
  fun d => match refuses_remove sys p, contents d !! p with
           | Some e, _ => (inl e, d)
           | None, None => (inl (js "ENOENT"), d)
           | None, Some _ => (inr tt, {| dirs := dirs d; contents := delete p (contents d) |})
           end.

(** [for (const x of l) { body(x) }]. *)
Fixpoint for_each {A} (l : list A) (body : A -> io unit) : io unit :=
  match l with [] => io_ret tt | x :: l' => io_bind (body x) (fun _ => for_each l' body) end.

(** [main().catch(err => { ...; process.exit(1) })]: the exit code. *)
Definition exit_code {A} (m : io A) (d : disk) : Z * disk :=
  match m d with (inl _, d') => (1%Z, d') | (inr _, d') => (0%Z, d') end.

(** A write touches no other file, whatever comes of it. *)
Lemma write_file_other p b d q : q <> p -> contents (snd (write_file p b d)) !! q = contents d !! q.
Proof.
  intros H. unfold write_file. destruct (refuses_write sys p) as [[e [left_|]]|]; simpl; [|done|]; by rewrite lookup_insert_ne.
Qed.

Lemma write_file_ok p b d d' : write_file p b d = (inr tt, d') ->
  refuses_write sys p = None /\ d' = {| dirs := dirs d; contents := <[p := b]> (contents d) |}.
Proof. unfold write_file. destruct (refuses_write sys p) as [[e [left_|]]|]; [done..|]. by intros [= <-]. Qed.
End Io.

#[global] Arguments system buffer : clear implicits.
#[global] Arguments disk buffer : clear implicits.
#[global] Arguments io buffer A : clear implicits.

Declare Scope io_scope.
Delimit Scope io_scope with io.
Notation "x <- m ;; k" := (io_bind m (fun x => k)) (at level 100, m at next level, right associativity) : io_scope.
Notation "m ;; k" := (io_bind m (fun _ => k)) (at level 100, right associativity) : io_scope.
