(* ===== verification/RustStd.v ===== *)
(** * Rust's standard library, as the back end uses it

    Strings cross the bridge as JSON text, so a Rust string is the same list of
    code units as the JavaScript string. *)

From S2P Require Import Prelude JsNumber JsString.
#[local] Open Scope Z_scope.

(** ** Strings *)

(** [char::is_whitespace]: the White_Space property. *)
Definition rust_space (c : Z) : bool :=
  ((9 <=? c) && (c <=? 13)) || (c =? 32) || (c =? 133) || (c =? 160) || (c =? 5760)
  || ((8192 <=? c) && (c <=? 8202)) || (c =? 8232) || (c =? 8233) || (c =? 8239) || (c =? 8287) || (c =? 12288).

(** [s.trim().is_empty()]. *)
Definition blank (s : jsstr) : bool := forallb rust_space s.

Fixpoint starts_with (p s : jsstr) : bool :=
  match p, s with
  | [], _ => true
  | a :: p', b :: s' => (a =? b) && starts_with p' s'
  | _ :: _, [] => false
  end.

(** [s.contains(p)]. *)
Fixpoint contains (s p : jsstr) : bool :=
  starts_with p s || match s with [] => false | _ :: s' => contains s' p end.

Definition ascii_lower (c : Z) : Z := if (65 <=? c) && (c <=? 90) then c + 32 else c.
Definition eq_ignore_ascii_case (a b : jsstr) : bool := bool_decide (map ascii_lower a = map ascii_lower b).

(** ** Paths *)

(** [base.join(name)] for a relative name; a base that is a bare drive is not
    considered. *)
Definition join_path (windows : bool) (base name : jsstr) : jsstr :=
  match last base with
  | None => name
  | Some c => if (c =? 47) || (windows && (c =? 92)) then base ++ name
              else base ++ (if windows then [92] else [47]) ++ name
  end.

(** ** Properties *)

Lemma starts_with_spec p s : starts_with p s = true <-> exists r, s = p ++ r.
Proof.
  revert s. induction p as [|a p IH]; intros [|b s]; simpl.
  - split; [by exists []|done].
  - split; [by exists (b :: s)|done].
  - split; [done|by intros [r [=]]].
  - rewrite andb_true_iff, Z.eqb_eq, IH. split.
    + intros [-> [r ->]]. by exists r.
    + intros [r [= -> ->]]. split; [done|by exists r].
Qed.

(** Containing is having an occurrence. *)
Lemma contains_spec s p : contains s p = true <-> exists a b, s = a ++ p ++ b.
Proof.
  induction s as [|c s IH]; simpl; rewrite orb_true_iff, starts_with_spec.
  - split.
    + intros [[r H]|[=]]. symmetry in H. apply app_eq_nil in H as [-> _]. by exists [], [].
    + intros (a & b & H). symmetry in H. apply app_eq_nil in H as [-> H]. apply app_eq_nil in H as [-> ->].
      left. by exists [].
  - rewrite IH. split.
    + intros [[r H]|(a & b & ->)]; [by exists [], r|by exists (c :: a), b].
    + intros ([|x a] & b & H); [by left; exists b|]. injection H as -> ->. right. by exists a, b.
Qed.

(** The empty pattern is contained everywhere. *)
Lemma contains_nil s : contains s [] = true.
Proof. by destruct s. Qed.

Lemma blank_elem s c : c ∈ s -> rust_space c = false -> blank s = false.
Proof.
  intros Hc Hs. apply not_true_iff_false. unfold blank. rewrite forallb_forall. intros H.
  apply list_elem_of_In, H in Hc. congruence.
Qed.

(** Joining keeps the name. *)
Lemma join_path_elem windows base name c : c ∈ name -> c ∈ join_path windows base name.
Proof. intros Hc. unfold join_path. destruct (last base); [|done]. destruct (_ || _); set_solver. Qed.

Lemma blank_join windows base name c : c ∈ name -> rust_space c = false -> blank (join_path windows base name) = false.
Proof. eauto using blank_elem, join_path_elem. Qed.

Lemma eq_ignore_ascii_case_refl a : eq_ignore_ascii_case a a = true.
Proof. by apply bool_decide_eq_true. Qed.
