(* ===== verification/IconScripts.v ===== *)
(** * scripts/: making the icons

    Two command-line scripts that write icon files: generate-icons.mjs draws
    them, resize-ico-from-256.mjs makes smaller ones from an existing one.  The
    image libraries (sharp, png-to-ico, icojs) are parameters that return a value
    or an error.  A script is a computation on files ([fs.existsSync],
    [fs.mkdirSync], [fs.readFileSync], [fs.writeFileSync]); its result is the exit
    code and the files it leaves. *)

From stdpp Require Import gmap.
From S2P Require Import Prelude JsNumber JsString JsConvert FileSystem.
#[local] Open Scope Z_scope.
#[local] Open Scope io_scope.

(** ** scripts/generate-icons.mjs *)

Definition quote (s : jsstr) : jsstr := [34] ++ s ++ [34].
(** [ name="value"]. *)
Definition xml_attr (name : string) (value : jsstr) : jsstr := js " " ++ js name ++ js "=" ++ quote value.
Definition newline : jsstr := [10].

Definition bgColor : jsstr := js "#000000".
Definition icon_text : jsstr := js "SE".
Definition textColor : jsstr := js "#25D090".
Definition cornerRadiusPx : number := of_Z 6.
Definition generated_sizes : list Z := [16].

(** [Math.round(size * 0.68)]. *)
Definition fontSize (size : Z) : number := round (mul (of_Z size) (of_string (js "0.68"))).

Definition svgForSize (size : Z) : jsstr :=
  let n := to_string (of_Z size) in
  js "<?xml" ++ xml_attr "version" (js "1.0") ++ xml_attr "encoding" (js "UTF-8") ++ js "?>" ++ newline
  ++ js "<svg" ++ xml_attr "xmlns" (js "http://www.w3.org/2000/svg") ++ xml_attr "width" n ++ xml_attr "height" n
  ++ xml_attr "viewBox" (js "0 0 " ++ n ++ js " " ++ n) ++ js ">" ++ newline
  ++ js "  <rect" ++ xml_attr "x" (js "0") ++ xml_attr "y" (js "0") ++ xml_attr "width" n ++ xml_attr "height" n
  ++ xml_attr "rx" (to_string cornerRadiusPx) ++ xml_attr "ry" (to_string cornerRadiusPx)
  ++ xml_attr "fill" bgColor ++ js "/>" ++ newline
  ++ js "  <text" ++ xml_attr "x" (js "50%") ++ xml_attr "y" (js "50%") ++ xml_attr "dy" (js "0.3em")
  ++ xml_attr "fill" textColor ++ xml_attr "font-size" (to_string (fontSize size)) ++ xml_attr "font-weight" (js "700")
  ++ xml_attr "font-family" (js "Inter, Segoe UI, Arial, sans-serif") ++ xml_attr "text-anchor" (js "middle")
  ++ xml_attr "dominant-baseline" (js "central") ++ xml_attr "alignment-baseline" (js "central") ++ js ">"
  ++ icon_text ++ js "</text>" ++ newline
  ++ js "</svg>".

Section Scripts.
Context {buffer : Type} (sys : system buffer).
(** The icons directory, an absolute path, and the separator of the platform. *)
Context (iconsDir sep : jsstr).
Definition path_join (name : jsstr) : jsstr := iconsDir ++ sep ++ name.

(** [sharp(Buffer.from(svg)).png(...).toBuffer()]. *)
Context (sharp_png : jsstr -> jsstr + buffer).
(** [pngToIco] of one image or of several. *)
Context (pngToIco : list buffer -> jsstr + buffer).

Definition icon_name (size : Z) : jsstr := js "icon-" ++ to_string (of_Z size) ++ js ".ico".
Definition icon_path (size : Z) : jsstr := path_join (icon_name size).
Definition main_icon_path : jsstr := path_join (js "icon.ico").

Definition generatePngBuffer (size : Z) : io buffer buffer := io_lift (sharp_png (svgForSize size)).

(** [pngBuffersBySize]: a [Map] filled once per size. *)
Fixpoint png_buffers (sizes : list Z) : io buffer (gmap Z buffer) :=
  match sizes with
  | [] => io_ret ∅
  | s :: rest => b <- generatePngBuffer s ;; m <- png_buffers rest ;; io_ret (<[s := b]> m)
  end.

Definition ensure_dir : io buffer unit :=
  e <- path_exists iconsDir ;; if (e : bool) then io_ret tt else make_dir sys iconsDir.

Definition write_icon (size : Z) (png : option buffer) : io buffer unit :=
  ico <- io_lift (match png with Some b => pngToIco [b] | None => inl (js "no image") end) ;;
  write_file sys (icon_path size) ico.

Definition generate_main : io buffer unit :=
  ensure_dir ;;
  m <- png_buffers generated_sizes ;;
  for_each generated_sizes (fun s => write_icon s (m !! s)) ;;
  ico <- io_lift (pngToIco (omap (fun s => m !! s) generated_sizes)) ;;
  write_file sys main_icon_path ico.

(** ** scripts/resize-ico-from-256.mjs *)

Record image := { width : Z; height : Z; image_buffer : buffer }.

(** [parseICO(buf, 'image/png')] and [sharp(png).resize(size, size, ...).png(...)]. *)
Context (parseICO : buffer -> jsstr + list image).
Context (sharp_resize : buffer -> Z -> jsstr + buffer).

Definition sourceIco : jsstr := path_join (js "icon-256.ico").
Definition resized_sizes : list Z := [128; 64; 32; 16].

(** [images.reduce((acc, cur) => area(cur) > area(acc) ? cur : acc)]. *)
Definition area (i : image) : Z := width i * height i.
Definition largest (first : image) (rest : list image) : image :=
  fold_left (fun acc cur => if area acc <? area cur then cur else acc) rest first.

Definition loadBasePngBuffer : io buffer buffer :=
  found <- path_exists sourceIco ;;
  let icoPath := if (found : bool) then sourceIco else main_icon_path in
  present <- path_exists icoPath ;;
  if (present : bool) then
    buf <- read_file sys icoPath ;;
    images <- io_lift (parseICO buf) ;;
    match images with
    | [] => io_throw (js "Failed to parse ICO: no images extracted")
    | i :: rest => io_ret (image_buffer (largest i rest))
    end
  else io_throw (js "No ICO source found in src-tauri/icons (icon-256.ico or icon.ico)").

Definition resize_icon (basePng : buffer) (size : Z) : io buffer unit :=
  resizedPng <- io_lift (sharp_resize basePng size) ;;
  icoBuf <- io_lift (pngToIco [resizedPng]) ;;
  write_file sys (icon_path size) icoBuf.

Definition resize_main : io buffer unit :=
  ensure_dir ;;
  basePng <- loadBasePngBuffer ;;
  for_each resized_sizes (resize_icon basePng).

(** ** Properties *)

(** *** Loops that write one icon per size *)

Definition writes (body : Z -> io buffer unit) (f : Z -> jsstr + buffer) : Prop :=
  forall s d, body s d = match f s with inl e => (inl e, d) | inr b => write_file sys (icon_path s) b d end.

Definition untouched (paths : list jsstr) (d d' : disk buffer) : Prop :=
  forall p, p ∉ paths -> contents d' !! p = contents d !! p.

Lemma for_each_untouched body f sizes d : writes body f ->
  untouched (map icon_path sizes) d (snd (for_each sizes body d)).
Proof.
  intros Hb. revert d. induction sizes as [|s sizes IH]; intros d p Hp; simpl; [done|].
  unfold io_bind. rewrite Hb. destruct (f s) as [e|b]; [done|]. apply not_elem_of_cons in Hp as [Hne Hp].
  pose proof (write_file_other sys (icon_path s) b d p Hne) as Hw.
  destruct (write_file sys (icon_path s) b d) as [[e|[]] d1]; [done|]. cbn [snd] in Hw. by rewrite IH.
Qed.

Lemma for_each_written body f sizes d d' : writes body f -> NoDup (map icon_path sizes) ->
  for_each sizes body d = (inr tt, d') ->
  forall s, s ∈ sizes -> exists b, f s = inr b /\ contents d' !! icon_path s = Some b.
Proof.
  intros Hb. revert d. induction sizes as [|s sizes IH]; intros d Hd; simpl; [by intros _ s Hs%elem_of_nil|].
  apply NoDup_cons in Hd as [Hs Hd]. unfold io_bind. rewrite Hb.
  destruct (f s) as [e|b] eqn:Ef; [done|]. destruct (write_file sys (icon_path s) b d) as [[e|[]] d1] eqn:Ew; [done|].
  apply write_file_ok in Ew as [_ ->]. intros E s' [->|Hs']%elem_of_cons; [|by eapply IH].
  exists b. split; [done|]. pose proof (for_each_untouched body f sizes
    {| dirs := dirs d; contents := <[icon_path s := b]> (contents d) |} Hb (icon_path s) Hs) as U.
  rewrite E in U. cbn [snd] in U. rewrite U. simpl. by rewrite lookup_insert_eq.
Qed.

Lemma icon_paths_distinct sizes : NoDup (map icon_name sizes) -> NoDup (map icon_path sizes).
Proof.
  intros H. replace (map icon_path sizes) with (map path_join (map icon_name sizes)) by apply map_map.
  apply NoDup_fmap_2; [|done]. intros x y E. unfold path_join in E. by do 2 apply app_inv_head in E.
Qed.

Lemma resized_names_distinct : NoDup (map icon_name resized_sizes).
Proof. apply (bool_decide_eq_true_1 _). vm_compute. reflexivity. Qed.

Lemma main_icon_distinct : icon_path 16 <> main_icon_path.
Proof.
  unfold icon_path, main_icon_path, path_join. intros E. do 2 apply app_inv_head in E. revert E.
  apply (bool_decide_eq_true_1 _). vm_compute. reflexivity.
Qed.

Lemma resize_writes base : writes (resize_icon base)
  (fun s => match sharp_resize base s with inl e => inl e | inr png => pngToIco [png] end).
Proof.
  intros s d. unfold resize_icon, io_bind, io_lift. destruct (sharp_resize base s); [done|]. by destruct (pngToIco _).
Qed.

Lemma ensure_dir_contents d : contents (snd (ensure_dir d)) = contents d.
Proof.
  unfold ensure_dir, io_bind, path_exists, make_dir. destruct (_ || _); [done|]. by destruct (refuses_mkdir sys iconsDir).
Qed.

(** *** The image the smaller icons are made from *)

(** The first of the largest images. *)
Lemma largest_spec first rest :
  exists pre post, first :: rest = pre ++ largest first rest :: post
    /\ Forall (fun i => area i < area (largest first rest)) pre
    /\ Forall (fun i => area i <= area (largest first rest)) post.
Proof.
  unfold largest. assert (H : forall done acc todo,
    Forall (fun i => area i < area acc) done ->
    forall skipped, Forall (fun i => area i <= area acc) skipped ->
    let m := fold_left (fun acc cur => if area acc <? area cur then cur else acc) todo acc in
    exists pre post, done ++ acc :: skipped ++ todo = pre ++ m :: post
      /\ Forall (fun i => area i < area m) pre /\ Forall (fun i => area i <= area m) post).
  { intros l acc todo. revert l acc. induction todo as [|i todo IH]; intros l acc Hl sk Hsk; simpl.
    - exists l, sk. by rewrite app_nil_r.
    - destruct (Z.ltb_spec (area acc) (area i)).
      + destruct (IH (l ++ acc :: sk) i) with (skipped := @nil image) as (pre & post & E & H1 & H2); [|done|].
        * apply Forall_app; split; [|constructor; [lia|]]; (eapply Forall_impl; [eassumption|]; simpl; lia).
        * exists pre, post. split; [|done]. by rewrite <- E, <- app_assoc.
      + destruct (IH l acc) with (skipped := sk ++ [i]) as (pre & post & E & H1 & H2); [done| |].
        * apply Forall_app. split; [done|]. constructor; [lia|done].
        * exists pre, post. split; [|done]. by rewrite <- E, <- app_assoc. }
  exact (H [] first rest ltac:(constructor) [] ltac:(constructor)).
Qed.

(** What [loadBasePngBuffer] returns, from the files there are. *)
Definition base_image (d : disk buffer) (b : buffer) : Prop :=
  exists buf first rest,
    (contents d !! sourceIco = Some buf
     \/ (contents d !! sourceIco = None /\ contents d !! main_icon_path = Some buf))
    /\ parseICO buf = inr (first :: rest) /\ b = image_buffer (largest first rest).

(** No directory has the name of an icon file. *)
Definition plain (d : disk buffer) : Prop := (sourceIco ∉ dirs d) /\ (main_icon_path ∉ dirs d).

Lemma load_base d : plain d ->
  snd (loadBasePngBuffer d) = d /\ forall b, fst (loadBasePngBuffer d) = inr b -> base_image d b.
Proof.
  intros [H1 H2]. unfold loadBasePngBuffer, io_bind, path_exists.
  rewrite (bool_decide_false (sourceIco ∈ _)) by done. cbn [orb].
  set (path := if bool_decide (is_Some (contents d !! sourceIco)) then sourceIco else main_icon_path).
  assert (Hd : path ∉ dirs d) by (unfold path; by destruct (bool_decide _)).
  rewrite (bool_decide_false (path ∈ dirs d)) by done. cbn [orb].
  destruct (contents d !! path) as [buf|] eqn:Hp; [|done]. rewrite bool_decide_true by done.
  unfold read_file, io_lift. rewrite Hp. destruct (refuses_read sys path); [done|].
  destruct (parseICO buf) as [e|[|i rest]] eqn:E; [done..|]. split; [done|]. intros b [= <-].
  exists buf, i, rest. split_and!; [|done|done]. unfold path in Hp. case_bool_decide as Hs; [by left|right].
  split; [|done]. by apply eq_None_not_Some.
Qed.

Lemma path_join_ne name : name <> [] -> path_join name <> iconsDir.
Proof.
  intros Hn E. apply (f_equal length) in E. unfold path_join in E. rewrite !length_app in E.
  destruct name; [done|]. simpl in E. lia.
Qed.

Lemma ensure_dir_plain d : plain d -> plain (snd (ensure_dir d)).
Proof.
  intros [H1 H2]. unfold ensure_dir, io_bind, path_exists, make_dir. destruct (_ || _); [done|].
  destruct (refuses_mkdir sys iconsDir); [done|].
  split; cbn [snd dirs]; (apply not_elem_of_union; split; [|done]); apply not_elem_of_singleton, path_join_ne; done.
Qed.

Lemma base_image_contents d d' b : contents d' = contents d -> base_image d b -> base_image d' b.
Proof. intros E (buf & i & rest & H & Hp). exists buf, i, rest. by rewrite E. Qed.

(** resize-ico-from-256.mjs, on every outcome: no file but the four icons it
    makes is touched; without a usable source icon it exits with 1 and changes
    nothing; when it exits with 0 each of the four files is the icon of the
    resized image, and the image resized is the first of the largest ones of
    icon-256.ico, or of icon.ico where there is no icon-256.ico. *)
Theorem resize_icons_correct d code d' :
  plain d -> exit_code resize_main d = (code, d') ->
  untouched (map icon_path resized_sizes) d d'
  /\ ((forall b, ~ base_image d b) -> code = 1 /\ contents d' = contents d)
  /\ (code = 0 -> exists base, base_image d base /\
       forall size, size ∈ resized_sizes -> exists png ico,
         sharp_resize base size = inr png /\ pngToIco [png] = inr ico /\ contents d' !! icon_path size = Some ico).
Proof.
  intros Hp. unfold exit_code, resize_main, io_bind at 1.
  pose proof (ensure_dir_contents d) as E1. pose proof (ensure_dir_plain d Hp) as P1.
  destruct (ensure_dir d) as [[e|[]] d1]; cbn [snd] in *.
  { intros [= <- <-]. split_and!; [by intros p _; rewrite E1|done|done]. }
  unfold io_bind. destruct (load_base d1 P1) as [L1 L2].
  destruct (loadBasePngBuffer d1) as [[e|base] d2]; cbn [fst snd] in *; subst d2.
  { intros [= <- <-]. split_and!; [by intros p _; rewrite E1|done|done]. }
  specialize (L2 base eq_refl). assert (Hb : base_image d base) by (by apply (base_image_contents d1)).
  pose proof (for_each_untouched _ _ resized_sizes d1 (resize_writes base)) as U.
  destruct (for_each resized_sizes (resize_icon base) d1) as [[e|[]] d3] eqn:E; cbn [snd] in U; intros [= <- <-].
  - split_and!; [by intros p Hq; rewrite U, E1|by intros H; destruct (H base)|done].
  - split_and!; [by intros p Hq; rewrite U, E1|by intros H; destruct (H base)|].
    intros _. exists base. split; [done|]. intros size Hs.
    destruct (for_each_written _ _ _ _ _ (resize_writes base)
      (icon_paths_distinct resized_sizes resized_names_distinct) E size Hs) as (ico & Hi & Hc).
    destruct (sharp_resize base size) as [|png]; [done|]. by exists png, ico.
Qed.

(** generate-icons.mjs: it only writes icon-16.ico and icon.ico; when it exits
    with 0 both are the icon of the one drawing, so icon.ico has a single size. *)
Lemma generate_icons_correct d code d' :
  exit_code generate_main d = (code, d') ->
  untouched [icon_path 16; main_icon_path] d d'
  /\ (code = 0 -> exists png ico,
       sharp_png (svgForSize 16) = inr png /\ pngToIco [png] = inr ico
       /\ contents d' !! icon_path 16 = Some ico /\ contents d' !! main_icon_path = Some ico).
Proof.
  unfold exit_code, generate_main, io_bind at 1. pose proof (ensure_dir_contents d) as E1.
  destruct (ensure_dir d) as [[e|[]] d1]; cbn [snd] in *.
  { intros [= <- <-]. split; [by intros p _; rewrite E1|done]. }
  unfold generated_sizes, png_buffers, generatePngBuffer, io_bind, io_lift, io_ret, for_each, write_icon.
  destruct (sharp_png (svgForSize 16)) as [e|png] eqn:Ep.
  { intros [= <- <-]. split; [by intros p _; rewrite E1|done]. }
  rewrite lookup_insert_eq. cbn [omap list_omap]. rewrite lookup_insert_eq.
  destruct (pngToIco [png]) as [e|ico] eqn:Ei.
  { intros [= <- <-]. split; [by intros p _; rewrite E1|done]. }
  assert (Ho : forall p, p ∉ [icon_path 16; main_icon_path] -> p <> icon_path 16 /\ p <> main_icon_path)
    by (intros p; rewrite !not_elem_of_cons; tauto).
  pose proof (fun p => write_file_other sys (icon_path 16) ico d1 p) as Hw1.
  unfold io_bind, io_lift, io_ret.
  destruct (write_file sys (icon_path 16) ico d1) as [[e|[]] d2] eqn:Ew1; cbn [snd] in Hw1.
  { intros [= <- <-]. split; [|done]. intros p Hp; destruct (Ho p Hp) as [H1 H2]. by rewrite Hw1, E1. }
  pose proof (fun p => write_file_other sys main_icon_path ico d2 p) as Hw2.
  destruct (write_file sys main_icon_path ico d2) as [[e|[]] d3] eqn:Ew2; cbn [snd] in Hw2; intros [= <- <-];
    (split; [intros p Hp; destruct (Ho p Hp) as [H1 H2]; by rewrite Hw2, Hw1, E1|]); [done|].
  apply write_file_ok in Ew1 as [_ ->], Ew2 as [_ ->]. cbn [contents]. pose proof main_icon_distinct.
  intros _. exists png, ico. split_and!; [done..| |by rewrite lookup_insert_eq].
  by rewrite lookup_insert_ne, lookup_insert_eq.
Qed.

(** The two in a row, without an icon-256.ico: the 128, 64 and 32 pixel icons are
    made from the 16 pixel drawing. *)
Lemma resize_after_generate d d' b :
  exit_code generate_main d = (0, d') -> contents d !! sourceIco = None -> base_image d' b ->
  exists png ico first rest,
    sharp_png (svgForSize 16) = inr png /\ pngToIco [png] = inr ico /\ parseICO ico = inr (first :: rest)
    /\ b = image_buffer (largest first rest).
Proof.
  intros Hg Hs (buf & first & rest & Hbuf & Hp & ->).
  destruct (generate_icons_correct d 0 d' Hg) as [U H]. destruct (H eq_refl) as (png & ico & H1 & H2 & _ & H4).
  assert (contents d' !! sourceIco = None) as Hs'.
  { rewrite U; [done|]. unfold sourceIco, icon_path, main_icon_path, path_join.
    rewrite !not_elem_of_cons. split_and!; [| |apply not_elem_of_nil];
      intros E; do 2 apply app_inv_head in E; revert E; apply (bool_decide_eq_true_1 _); vm_compute; reflexivity. }
  exists png, ico, first, rest. split_and!; [done..| |done].
  destruct Hbuf as [Hbuf|[_ Hbuf]]; congruence.
Qed.
End Scripts.

(** ** A run of the second script *)

Definition demo_system : system Z := {| refuses_write _ := None; refuses_mkdir _ := None; refuses_read _ := None; refuses_remove _ := None |}.
Definition demo_disk : disk Z := {| dirs := {[js "d"]}; contents := {[js "d/icon-256.ico" := 7]} |}.
Definition demo_parse (b : Z) : jsstr + list image :=
  inr [{| width := 16; height := 16; image_buffer := b |}; {| width := 256; height := 256; image_buffer := b + 1 |}].
Definition demo_resize (b size : Z) : jsstr + Z := inr (b * size).
Definition demo_ico (l : list Z) : jsstr + Z := inr (default 0 (head l) + 1).
Definition demo_run : Z * disk Z :=
  exit_code (resize_main demo_system (js "d") (js "/") demo_ico demo_parse demo_resize) demo_disk.

Lemma resize_icons_correct_witness :
  fst demo_run = 0 /\
  exists base, base_image (js "d") (js "/") demo_parse demo_disk base /\
    forall size, size ∈ resized_sizes -> exists png ico,
      demo_resize base size = inr png /\ demo_ico [png] = inr ico
      /\ contents (snd demo_run) !! icon_path (js "d") (js "/") size = Some ico.
Proof.
  assert (E : fst demo_run = 0) by (vm_compute; reflexivity). split; [exact E|].
  apply (resize_icons_correct demo_system (js "d") (js "/") demo_ico demo_parse demo_resize demo_disk
           (fst demo_run) (snd demo_run)); [|apply surjective_pairing|exact E].
  split; apply (bool_decide_eq_true_1 _); vm_compute; reflexivity.
Defined.
