(* ===== verification/Types.v ===== *)
(** * types.ts: the data the front end exchanges with the back end

    One record per exported type, fields in the order of the source; a field
    [x?: T] is an [option].  Field names carry a prefix because several types
    share them. *)

From S2P Require Import Prelude JsNumber JsString.

Record FileMeta := {
  fm_path : jsstr;
  fm_file_name : jsstr;
  fm_ext : jsstr;
  fm_size : number;
  fm_modified_ts : number;
}.

Record SearchResult := {
  sr_path : jsstr;
  sr_name : jsstr;
  sr_ext : jsstr;
  sr_score : number;
  sr_size : option number;
  sr_modified_ts : option number;
  sr_summary : option jsstr;
}.

Record AppConfig := {
  search_mode : jsstr;
  scan_roots : list jsstr;
  exclude_patterns : list jsstr;
  index_dir : jsstr;
  path_max_len : option number;
  auto_scan_enabled : option bool;
}.

Inductive PageKey := PSearch | PIndex | PDup | PSettings | PAbout.

Inductive ThemeKey := Light | Dark | Eye | Tech | Sky | Purple | Gray.

Inductive DupKind := KHash | KName.

Record DupGroup := {
  kind : DupKind;
  key : jsstr;
  files : list jsstr;
}.

Record IndexProgressPayload := {
  ip_current : option number;
  ip_total : option number;
  ip_name : option jsstr;
  ip_path : option jsstr;
  ip_skipped : option bool;
}.

Record AutoScanStartPayload := { reason : option jsstr }.

Record SearchFilters := {
  sf_ext : option (list jsstr);
  sf_min_size : option number;
  sf_max_size : option number;
}.

Record SearchRequest := {
  sq_query : jsstr;
  sq_filters : option SearchFilters;
  sq_indexDir : jsstr;
}.

Record DiagnosticsReport := {
  dr_index_dir : jsstr;
  dr_index_open_ok : bool;
  dr_index_doc_count : option number;
  dr_schema_fields : option (list jsstr);
  dr_config_scan_roots_count : number;
  dr_config_auto_scan_enabled : bool;
  dr_pipeline_started : bool;
  dr_pipeline_completed : bool;
  dr_pipeline_last_day : option jsstr;
  dr_sys_cpu_avg : option number;
  dr_sys_total_mem_kib : option number;
  dr_sys_free_mem_kib : option number;
  dr_warnings : list jsstr;
}.

#[export] Instance FileMeta_eq_dec : EqDecision FileMeta.
Proof. solve_decision. Defined.
#[export] Instance SearchResult_eq_dec : EqDecision SearchResult.
Proof. solve_decision. Defined.
#[export] Instance PageKey_eq_dec : EqDecision PageKey.
Proof. solve_decision. Defined.
#[export] Instance ThemeKey_eq_dec : EqDecision ThemeKey.
Proof. solve_decision. Defined.
#[export] Instance DupKind_eq_dec : EqDecision DupKind.
Proof. solve_decision. Defined.
#[export] Instance DupGroup_eq_dec : EqDecision DupGroup.
Proof. solve_decision. Defined.
