(* ===== verification/SortResults.v ===== *)
(** * App.tsx, [sortedResults]: ordering the search results

    The comparator subtracts the chosen key of two results and multiplies by
    the direction; [Array.prototype.sort] is stable.  The sort is modelled by
    stable insertion; [stable_sort_unique] shows that any stable sort by a
    total preorder gives the same list, so the choice of algorithm is
    immaterial. *)

From stdpp Require Import sorting.
From S2P Require Import Prelude JsNumber JsString Types.
#[local] Open Scope Z_scope.

(** ** Stable sorting by a boolean comparison *)

Section StableSort.
Context {A : Type} (le : A -> A -> bool).

Fixpoint insert_stable (x : A) (l : list A) : list A :=
  match l with
  | [] => [x]
  | y :: l' => if le x y then x :: l else y :: insert_stable x l'
  end.

Fixpoint sort_stable (l : list A) : list A :=
  match l with
  | [] => []
  | x :: l' => insert_stable x (sort_stable l')
  end.

Definition eqv (x y : A) : bool := le x y && le y x.
Definition Le (x y : A) : Prop := le x y = true.

(** What a stable sort of [l] is: the elements of [l], ordered, and those
    equivalent to any [x] of [l] in the order they have in [l]. *)
Definition is_stable_sort (l l' : list A) : Prop :=
  Permutation l l' /\ StronglySorted Le l'
  /\ forall x, x ∈ l -> filterb (eqv x) l' = filterb (eqv x) l.

Definition total_on (P : A -> Prop) : Prop := forall x y, P x -> P y -> Le x y \/ Le y x.
Definition trans_on (P : A -> Prop) : Prop :=
  forall x y z, P x -> P y -> P z -> Le x y -> Le y z -> Le x z.

Lemma insert_stable_perm x l : Permutation (x :: l) (insert_stable x l).
Proof.
  induction l as [|y l IH]; simpl; [done|]. destruct (le x y); [done|].
  rewrite <- IH. apply perm_swap.
Qed.

Lemma sort_stable_perm l : Permutation l (sort_stable l).
Proof. induction l as [|x l IH]; simpl; [done|]. by rewrite <- insert_stable_perm, <- IH. Qed.

Section Ordered.
Variable P : A -> Prop.
Hypotheses (Htot : total_on P) (Htrans : trans_on P).

Lemma Le_refl x : P x -> Le x x.
Proof. intros Hx. by destruct (Htot x x). Qed.

Lemma insert_stable_sorted x l :
  P x -> Forall P l -> StronglySorted Le l -> StronglySorted Le (insert_stable x l).
Proof.
  intros Hx Hl Hs. induction Hs as [|y l Hs IH Hy]; simpl; [by repeat constructor|].
  apply Forall_cons in Hl as [Py Hl]. destruct (le x y) eqn:E.
  - constructor; [by constructor|]. constructor; [done|].
    rewrite Forall_forall in Hy, Hl |- *. intros z Hz. apply (Htrans x y z); auto.
  - constructor; [by apply IH|]. rewrite <- insert_stable_perm. constructor; [|done].
    destruct (Htot x y) as [H|H]; try done. unfold Le in H. congruence.
Qed.

Lemma insert_stable_filter x l z :
  P x -> P z -> Forall P l -> filterb (eqv z) (insert_stable x l) = filterb (eqv z) (x :: l).
Proof.
  intros Hx Hz Hl. induction l as [|y l IH]; [done|]. simpl insert_stable.
  apply Forall_cons in Hl as [Py Hl]. destruct (le x y) eqn:E; [done|].
  simpl. rewrite IH by done. simpl. destruct (eqv z x) eqn:Ex; [|done].
  destruct (eqv z y) eqn:Ey; [|done]. unfold eqv in *.
  apply andb_true_iff in Ex as [_ Hxz], Ey as [Hzy _].
  assert (Le x y) as H by (apply (Htrans x z y); done). unfold Le in H. congruence.
Qed.

Lemma sort_stable_Forall l : Forall P l -> Forall P (sort_stable l).
Proof. by rewrite (sort_stable_perm l) at 1. Qed.

Lemma sort_stable_sorted l : Forall P l -> StronglySorted Le (sort_stable l).
Proof.
  induction 1 as [|x l Hx Hl IH]; simpl; [constructor|].
  apply insert_stable_sorted; auto using sort_stable_Forall.
Qed.

Lemma sort_stable_filter l z : P z -> Forall P l -> filterb (eqv z) (sort_stable l) = filterb (eqv z) l.
Proof.
  intros Hz. induction 1 as [|x l Hx Hl IH]; simpl; [done|].
  rewrite insert_stable_filter by auto using sort_stable_Forall. simpl. by rewrite IH.
Qed.

(** Two ordered lists with the same equivalence classes, in order, are equal. *)
Lemma sorted_same_classes l1 l2 :
  Forall P l1 -> Forall P l2 -> StronglySorted Le l1 -> StronglySorted Le l2 ->
  (forall z, P z -> filterb (eqv z) l1 = filterb (eqv z) l2) -> l1 = l2.
Proof.
  assert (Hself : forall x, P x -> eqv x x = true)
    by (intros x Hx; pose proof (Le_refl x Hx) as H; unfold eqv, Le in *; by rewrite H).
  revert l2. induction l1 as [|x l1 IH]; intros l2 H1 H2 S1 S2 Hf.
  { destruct l2 as [|y l2]; [done|]. apply Forall_cons in H2 as [Py _].
    specialize (Hf y Py). simpl in Hf. rewrite (Hself y Py) in Hf. done. }
  apply Forall_cons in H1 as [Px H1]. destruct l2 as [|y l2].
  { specialize (Hf x Px). simpl in Hf. rewrite (Hself x Px) in Hf. done. }
  apply Forall_cons in H2 as [Py H2]. apply StronglySorted_inv in S1 as [S1 L1], S2 as [S2 L2].
  assert (Le y x) as Hyx.
  { assert (x ∈ filterb (eqv x) (y :: l2)) as Hin.
    { rewrite <- (Hf x Px). apply filterb_elem_of. split; [set_solver|auto]. }
    apply filterb_elem_of in Hin as [Hin _]. apply elem_of_cons in Hin as [->|Hin]; [by apply Le_refl|].
    rewrite Forall_forall in L2. auto. }
  assert (Le x y) as Hxy.
  { assert (y ∈ filterb (eqv y) (x :: l1)) as Hin.
    { rewrite (Hf y Py). apply filterb_elem_of. split; [set_solver|auto]. }
    apply filterb_elem_of in Hin as [Hin _]. apply elem_of_cons in Hin as [->|Hin]; [by apply Le_refl|].
    rewrite Forall_forall in L1. auto. }
  assert (x = y) as <-.
  { pose proof (Hf x Px) as Hx. simpl in Hx. rewrite (Hself x Px) in Hx.
    assert (eqv x y = true) as E by (unfold eqv, Le in *; by rewrite Hxy, Hyx).
    rewrite E in Hx. by simplify_eq. }
  f_equal. apply IH; try done. intros z Hz. specialize (Hf z Hz). simpl in Hf.
  destruct (eqv z x); by simplify_eq.
Qed.

Lemma sort_stable_is_stable_sort l : Forall P l -> is_stable_sort l (sort_stable l).
Proof.
  intros Hl. split_and!; [apply sort_stable_perm|by apply sort_stable_sorted|].
  intros x Hx. apply sort_stable_filter; [|done]. rewrite Forall_forall in Hl. auto.
Qed.
End Ordered.

(** Any stable sort is this one. *)
Lemma stable_sort_unique (P : A -> Prop) l l' :
  total_on P -> trans_on P -> Forall P l -> is_stable_sort l l' -> l' = sort_stable l.
Proof.
  intros Htot Htrans Hl (Hp & Hs & Hf). rewrite Forall_forall in Hl.
  apply (sorted_same_classes (fun x => x ∈ l)).
  - intros x y Hx Hy. apply Htot; auto.
  - intros x y z Hx Hy Hz. apply Htrans; auto.
  - apply Forall_forall. intros x. by rewrite Hp.
  - apply Forall_forall. intros x. by rewrite <- sort_stable_perm.
  - done.
  - apply (sort_stable_sorted P); try done. by apply Forall_forall.
  - intros z Hz. rewrite Hf by done. symmetry.
    apply (sort_stable_filter P); auto. by apply Forall_forall.
Qed.
End StableSort.

(** ** App.tsx *)

Inductive SortBy := ByScore | ByTime | BySize.
Inductive SortDir := Asc | Desc.

#[export] Instance SortBy_eq_dec : EqDecision SortBy.
Proof. solve_decision. Defined.
#[export] Instance SortDir_eq_dec : EqDecision SortDir.
Proof. solve_decision. Defined.

(** [a.score], [a.modified_ts ?? 0], [a.size ?? 0]. *)
Definition sort_key (by_ : SortBy) (r : SearchResult) : number :=
  match by_ with
  | ByScore => sr_score r
  | ByTime => default (of_Z 0) (sr_modified_ts r)
  | BySize => default (of_Z 0) (sr_size r)
  end.

Definition factor (dir : SortDir) : number :=
  match dir with Asc => of_Z 1 | Desc => of_Z (-1) end.

Definition compare_results (by_ : SortBy) (dir : SortDir) (a b : SearchResult) : number :=
  mul (sub (sort_key by_ a) (sort_key by_ b)) (factor dir).

(** [sort] keeps [a] before [b] unless the comparator is positive (a NaN counts
    as zero). *)
Definition results_le (by_ : SortBy) (dir : SortDir) (a b : SearchResult) : bool :=
  negb (ltb (of_Z 0) (compare_results by_ dir a b)).

(** [const arr = [...results]; arr.sort(...); return arr]: the sort works on a
    copy, [results] itself is not reordered. *)
Definition sortedResults (results : list SearchResult) (by_ : SortBy) (dir : SortDir)
  : list SearchResult := sort_stable (results_le by_ dir) results.

(** ** The comparator decides the order of the keys *)

(** The key of a result as an integer number of units. *)
Definition key_units (by_ : SortBy) (r : SearchResult) : Z :=
  match sort_key by_ r with Fin k => k | _ => 0 end.

(** The numbers of a result are finite doubles, as any number read from JSON. *)
Definition finite_num (x : number) : Prop := exists k, x = Fin k /\ rep k.
Definition result_ok (r : SearchResult) : Prop :=
  finite_num (sr_score r) /\ (forall t, sr_modified_ts r = Some t -> finite_num t)
  /\ (forall n, sr_size r = Some n -> finite_num n).

Lemma of_Z_0 : of_Z 0 = Fin 0.
Proof. by rewrite of_Z_small. Qed.

Lemma sort_key_finite by_ r : result_ok r -> sort_key by_ r = Fin (key_units by_ r).
Proof.
  assert (H0 : of_Z 0 = Fin 0) by apply of_Z_0.
  intros (Hs & Ht & Hz). unfold key_units. destruct by_; simpl.
  - by destruct Hs as (k & -> & _).
  - destruct (sr_modified_ts r) as [t|]; [|by rewrite H0]. simpl. by destruct (Ht t) as (k & -> & _).
  - destruct (sr_size r) as [t|]; [|by rewrite H0]. simpl. by destruct (Hz t) as (k & -> & _).
Qed.

(** Multiplying by the direction keeps or flips the sign. *)
Lemma mul_factor_sign n dir : sign_spec (match dir with Asc => n | Desc => - n end)
                                        (mul (round_units n) (factor dir)).
Proof.
  pose proof (round_units_sign n) as Hs. pose proof (round_units_wf n) as Hw. pose proof one_pos.
  assert (factor dir = Fin (match dir with Asc => one | Desc => - one end)) as ->
    by (destruct dir; simpl; rewrite of_Z_small by lia; f_equal; lia).
  destruct (round_units n) as [|b|k]; simpl in Hs.
  - done.
  - assert (mul (Infinity b) (Fin (match dir with Asc => one | Desc => - one end))
            = Infinity (match dir with Asc => b | Desc => negb b end)) as ->.
    { unfold mul. simpl. destruct dir; simpl.
      - rewrite (proj2 (Z.eqb_neq one 0)), (proj2 (Z.ltb_ge one 0)) by lia. by destruct b.
      - rewrite (proj2 (Z.eqb_neq (- one) 0)), (proj2 (Z.ltb_lt (- one) 0)) by lia. by destruct b. }
    destruct dir, b; simpl in *; lia.
  - rewrite (mul_exact _ _ (match dir with Asc => k | Desc => - k end)).
    + destruct dir; simpl; lia.
    + destruct dir; ring.
    + destruct dir; [done|by apply rep_opp].
Qed.

Lemma results_le_keys by_ dir a b : result_ok a -> result_ok b ->
  results_le by_ dir a b =
  match dir with
  | Asc => key_units by_ a <=? key_units by_ b
  | Desc => key_units by_ b <=? key_units by_ a
  end.
Proof.
  intros Ha Hb. unfold results_le, compare_results.
  rewrite (sort_key_finite by_ a Ha), (sort_key_finite by_ b Hb), of_Z_0.
  set (n := key_units by_ a - key_units by_ b).
  change (sub (Fin (key_units by_ a)) (Fin (key_units by_ b))) with (round_units n).
  pose proof (mul_factor_sign n dir) as Hs.
  destruct (mul _ _) as [|neg|k]; [done|destruct neg|]; destruct dir; simpl in *; subst n;
    bool_cases; simpl; lia || done.
Qed.

Lemma results_le_total by_ dir : total_on (results_le by_ dir) result_ok.
Proof.
  intros a b Ha Hb. unfold Le. rewrite !results_le_keys by done.
  destruct dir; rewrite !Z.leb_le; lia.
Qed.

Lemma results_le_trans by_ dir : trans_on (results_le by_ dir) result_ok.
Proof.
  intros a b c Ha Hb Hc. unfold Le. rewrite !results_le_keys by done.
  destruct dir; rewrite !Z.leb_le; lia.
Qed.

Definition key_le (dir : SortDir) (x y : Z) : Prop :=
  match dir with Asc => x <= y | Desc => y <= x end.

Lemma sorted_keys by_ dir l : Forall result_ok l -> StronglySorted (Le (results_le by_ dir)) l ->
  StronglySorted (key_le dir) (map (key_units by_) l).
Proof.
  intros Hl Hs. induction Hs as [|x l Hs IH Hx]; simpl; [constructor|].
  apply Forall_cons in Hl as [Hok Hl]. constructor; [by apply IH|].
  apply Forall_fmap. rewrite Forall_forall in Hx, Hl |- *. intros y Hy. specialize (Hx y Hy).
  unfold Le in Hx. rewrite results_le_keys in Hx by auto. destruct dir; simpl; lia.
Qed.

Lemma sortedResults_ok by_ dir l : Forall result_ok l -> Forall result_ok (sortedResults l by_ dir).
Proof. apply sort_stable_Forall. Qed.

(** A reversed ascending list is descending. *)
Lemma sorted_reverse l : StronglySorted (key_le Asc) l -> StronglySorted (key_le Desc) (reverse l).
Proof.
  induction 1 as [|x l Hs IH Hx]; [constructor|]. rewrite reverse_cons.
  apply StronglySorted_app_2; [|done|by repeat constructor].
  intros y z Hy Hz. rewrite elem_of_reverse in Hy. apply list_elem_of_singleton in Hz as ->.
  rewrite Forall_forall in Hx. simpl. by apply Hx.
Qed.

(** ** Properties *)

(** C24. The results shown are a stable sort of the results returned: the same
    results, ordered by the chosen key in the chosen direction (a missing time
    or size counts as zero), with equal keys in the order of the back end. *)
Theorem sortedResults_stable_sort by_ dir l :
  Forall result_ok l ->
  is_stable_sort (results_le by_ dir) l (sortedResults l by_ dir)
  /\ StronglySorted (key_le dir) (map (key_units by_) (sortedResults l by_ dir)).
Proof.
  intros Hl. assert (H : is_stable_sort (results_le by_ dir) l (sortedResults l by_ dir)).
  { apply (sort_stable_is_stable_sort _ result_ok); [apply results_le_total|apply results_le_trans|done]. }
  split; [done|]. apply sorted_keys; [by apply sortedResults_ok|apply H].
Qed.

(** The order shown does not depend on the sorting algorithm: whatever list is
    a stable sort of the results by the comparator is the list modelled. *)
Theorem sortedResults_unique by_ dir l l' :
  Forall result_ok l -> is_stable_sort (results_le by_ dir) l l' -> l' = sortedResults l by_ dir.
Proof. apply stable_sort_unique; [apply results_le_total|apply results_le_trans]. Qed.

(** Toggling the direction reverses the sequence of keys shown. *)
Theorem sortedResults_toggle by_ l :
  Forall result_ok l ->
  map (key_units by_) (sortedResults l by_ Desc) = reverse (map (key_units by_) (sortedResults l by_ Asc)).
Proof.
  intros Hl. apply (StronglySorted_unique_strong (key_le Desc)).
  - simpl. lia.
  - apply sorted_keys; [by apply sortedResults_ok|].
    by apply (sort_stable_sorted _ result_ok); [apply results_le_total|apply results_le_trans|].
  - apply sorted_reverse, sorted_keys; [by apply sortedResults_ok|].
    by apply (sort_stable_sorted _ result_ok); [apply results_le_total|apply results_le_trans|].
  - rewrite reverse_Permutation. apply Permutation_map.
    unfold sortedResults. by rewrite <- !sort_stable_perm.
Qed.

(** Three results used by the witnesses: two share a score. *)
Definition sample_result (name : string) (score : Z) (sz : option Z) : SearchResult :=
  {| sr_path := js name; sr_name := js name; sr_ext := []; sr_score := Fin score;
     sr_size := option_map Fin sz; sr_modified_ts := None; sr_summary := None |}.
Definition sample_results : list SearchResult :=
  [sample_result "a" 2 None; sample_result "b" 3 (Some 7); sample_result "c" 2 (Some 1)].

Lemma sample_results_ok : Forall result_ok sample_results.
Proof.
  repeat constructor; simpl; intros; simplify_eq/=; eexists; (split; [reflexivity|]); apply rep_small; lia.
Qed.

Lemma sortedResults_stable_sort_witness :
  map sr_name (sortedResults sample_results ByScore Desc) = [js "b"; js "a"; js "c"]
  /\ is_stable_sort (results_le ByScore Desc) sample_results (sortedResults sample_results ByScore Desc).
Proof.
  split; [vm_compute; reflexivity|]. apply sortedResults_stable_sort. apply sample_results_ok.
Defined.

Lemma sortedResults_unique_witness :
  sort_stable (results_le BySize Asc) sample_results = sortedResults sample_results BySize Asc.
Proof.
  apply sortedResults_unique; [apply sample_results_ok|].
  apply (sort_stable_is_stable_sort _ result_ok);
    [apply results_le_total|apply results_le_trans|apply sample_results_ok].
Defined.

Lemma sortedResults_toggle_witness :
  map (key_units BySize) (sortedResults sample_results BySize Desc)
  = reverse (map (key_units BySize) (sortedResults sample_results BySize Asc)).
Proof. apply sortedResults_toggle. apply sample_results_ok. Defined.
