(* ===== verification/Effects.v ===== *)
(** * Asynchronous functions as programs

    An [async] function of the front end is a finite tree: it performs
    synchronous actions ([Act]: a state setter, a log line, an unsubscription, a
    question nobody waits for) and suspends on outside calls ([Call]: the [await]s),
    whose answer the environment chooses.  [try_catch] and [try_finally] are the
    statements of the language.  The tree of a handler is computed from the values
    its closure captured.

    [runs] is the big-step semantics with its trace; [exec] evaluates a program
    against a scripted environment. *)

From S2P Require Import Prelude JsNumber JsString JsConvert Types.

(** ** Exceptions

    What a [catch (e)] receives: nothing ([undefined]), a string (the error of a
    back-end command), or an [Error] object. *)

Inductive err :=
| EUndefined
| EString (s : jsstr)
| EError (message : jsstr).

(** [e?.toString?.()]. *)
Definition err_toString (e : err) : option jsstr :=
  match e with
  | EUndefined => None
  | EString s => Some s
  | EError m => Some (js "Error: " ++ m)
  end.

(** [e?.toString?.() ?? fallback]. *)
Definition err_text (e : err) (fallback : string) : jsstr := default (js fallback) (err_toString e).

(** ** Outside calls *)

(** JavaScript values sent to the back end. *)
Inductive jsval :=
| VUndef
| VNull
| VBool (b : bool)
| VNum (n : number)
| VStr (s : jsstr)
| VArr (l : list jsval)
| VObj (fields : list (string * jsval)).

(** The type argument of [safeInvoke<T>]. *)
Inductive rty := RUnit | RConfig | RFiles | RResults | RGroups | RReport.
Definition den (t : rty) : Type :=
  match t with
  | RUnit => unit
  | RConfig => AppConfig
  | RFiles => list FileMeta
  | RResults => list SearchResult
  | RGroups => list DupGroup
  | RReport => DiagnosticsReport
  end.

(** One [invoke] of a back-end command, raced against a timer. *)
Record request := {
  rq_cmd : jsstr;
  rq_payload : jsval;
  rq_timeoutMs : number;
  rq_ret : rty;
}.

(** Which of [Promise.race([call, timeout])] settled first, and how. *)
Inductive settled (T : Type) :=
| Resolved (v : T)
| Rejected (e : err)
| TimerFired.
Arguments Resolved {T} v.
Arguments Rejected {T} e.
Arguments TimerFired {T}.

(** The value of the directory dialog: [null], a string or an array. *)
Inductive selection := SNull | SOne (s : jsstr) | SMany (l : list jsstr).

Inductive cmd :=
| Race (r : request)
| Listen (event : jsstr)
| OpenDialog (multiple : bool) (title : jsstr)
| Clipboard (text : jsstr).

Definition ans (c : cmd) : Type :=
  match c with
  | Race r => settled (den (rq_ret r))
  | Listen _ => err + nat
  | OpenDialog _ _ => err + selection
  | Clipboard _ => err + unit
  end%type.

(** ** Programs *)

Section Prog.
Context {act : Type}.

Inductive prog (A : Type) : Type :=
| Ret (a : A)
| Throw (e : err)
| Act (a : act) (k : prog A)
| Call (c : cmd) (k : ans c -> prog A).

#[global] Arguments Ret {A} a.
#[global] Arguments Throw {A} e.
#[global] Arguments Act {A} a k.
#[global] Arguments Call {A} c k.

Fixpoint bind {A B} (p : prog A) (f : A -> prog B) : prog B :=
  match p with
  | Ret a => f a
  | Throw e => Throw e
  | Act a k => Act a (bind k f)
  | Call c k => Call c (fun r => bind (k r) f)
  end.

(** [try { p } catch (e) { h e }]. *)
Fixpoint try_catch {A} (p : prog A) (h : err -> prog A) : prog A :=
  match p with
  | Ret a => Ret a
  | Throw e => h e
  | Act a k => Act a (try_catch k h)
  | Call c k => Call c (fun r => try_catch (k r) h)
  end.

(** [try { p } finally { q }]: [q] runs on both ways out. *)
Fixpoint try_finally {A} (p : prog A) (q : prog unit) : prog A :=
  match p with
  | Ret a => bind q (fun _ => Ret a)
  | Throw e => bind q (fun _ => Throw e)
  | Act a k => Act a (try_finally k q)
  | Call c k => Call c (fun r => try_finally (k r) q)
  end.

Definition do_act (a : act) : prog unit := Act a (Ret tt).

(** An awaited call that may throw. *)
Definition await_sum {T} (c : cmd) (get : ans c -> err + T) : prog T :=
  Call c (fun r => match get r with inl e => Throw e | inr v => Ret v end).

(** ** Traces *)

Inductive event :=
| EvAct (a : act)
| EvCall (c : cmd) (r : ans c).

Inductive outcome (A : Type) := Returned (a : A) | Threw (e : err).
#[global] Arguments Returned {A} a.
#[global] Arguments Threw {A} e.

(** [runs p tr o]: with the answers recorded in [tr], [p] performs exactly the
    events of [tr] and ends as [o]. *)
Fixpoint runs {A} (p : prog A) (tr : list event) (o : outcome A) : Prop :=
  match p with
  | Ret a => tr = [] /\ o = Returned a
  | Throw e => tr = [] /\ o = Threw e
  | Act a k => exists tr', tr = EvAct a :: tr' /\ runs k tr' o
  | Call c k => exists r tr', tr = EvCall c r :: tr' /\ runs (k r) tr' o
  end.

(** Execution against an environment that answers the [n]-th call. *)
Fixpoint exec {A} (env : nat -> forall c, ans c) (n : nat) (p : prog A) : list event * outcome A :=
  match p with
  | Ret a => ([], Returned a)
  | Throw e => ([], Threw e)
  | Act a k => let '(tr, o) := exec env n k in (EvAct a :: tr, o)
  | Call c k => let '(tr, o) := exec env (S n) (k (env n c)) in (EvCall c (env n c) :: tr, o)
  end.

Lemma exec_runs {A} env n (p : prog A) : runs p (fst (exec env n p)) (snd (exec env n p)).
Proof.
  revert n. induction p as [a|e|a k IH|c k IH]; intros n; simpl; [done..| |].
  - specialize (IH n). destruct (exec env n k). eauto.
  - specialize (IH (env n c) (S n)). destruct (exec env (S n) (k (env n c))). eauto.
Qed.

(** ** Runs of the composed forms *)

Lemma runs_bind {A B} (p : prog A) (f : A -> prog B) tr o :
  runs (bind p f) tr o <->
  (exists e, runs p tr (Threw e) /\ o = Threw e) \/
  (exists a t1 t2, tr = t1 ++ t2 /\ runs p t1 (Returned a) /\ runs (f a) t2 o).
Proof.
  revert tr. induction p as [a|e|a k IH|c k IH]; intros tr; simpl.
  - split; [intros H; right; by exists a, [], tr|].
    intros [(e & [_ [=]] & _)|(a' & t1 & t2 & -> & [-> [= ->]] & Hf)]; done.
  - split; [intros [-> ->]; left; by exists e|].
    intros [(e' & [-> [= ->]] & ->)|(a' & t1 & t2 & -> & [_ [=]] & Hf)]; done.
  - setoid_rewrite IH. split.
    + intros (t & -> & [(e & H & ->)|(b & t1 & t2 & -> & H1 & H2)]); [left; eauto|].
      right. exists b, (EvAct a :: t1), t2. eauto 6.
    + intros [(e & (t & -> & H) & ->)|(b & t1 & t2 & -> & (t & -> & H1) & H2)].
      * exists t. eauto 6.
      * exists (t ++ t2). split; [done|]. right. eauto 8.
  - setoid_rewrite IH. split.
    + intros (r & t & -> & [(e & H & ->)|(b & t1 & t2 & -> & H1 & H2)]); [left; eauto 6|].
      right. exists b, (EvCall c r :: t1), t2. eauto 8.
    + intros [(e & (r & t & -> & H) & ->)|(b & t1 & t2 & -> & (r & t & -> & H1) & H2)].
      * exists r, t. eauto 6.
      * exists r, (t ++ t2). split; [done|]. right. eauto 8.
Qed.

Lemma bind_assoc_runs {A B C} (p : prog A) (f : A -> prog B) (g : B -> prog C) tr o :
  runs (bind (bind p f) g) tr o <-> runs (bind p (fun a => bind (f a) g)) tr o.
Proof.
  revert tr. induction p as [a|e|a k IH|c k IH]; intros tr; simpl; [done|done|by setoid_rewrite IH..].
Qed.

Lemma runs_catch {A} (p : prog A) h tr o :
  runs (try_catch p h) tr o <->
  (exists a, runs p tr (Returned a) /\ o = Returned a) \/
  (exists e t1 t2, tr = t1 ++ t2 /\ runs p t1 (Threw e) /\ runs (h e) t2 o).
Proof.
  revert tr. induction p as [a|e|a k IH|c k IH]; intros tr; simpl.
  - split; [intros [-> ->]; left; by exists a|].
    intros [(a' & [-> [= ->]] & ->)|(a' & t1 & t2 & -> & [_ [=]] & Hf)]; done.
  - split; [intros H; right; by exists e, [], tr|].
    intros [(a' & [_ [=]] & _)|(e' & t1 & t2 & -> & [-> [= ->]] & Hf)]; done.
  - setoid_rewrite IH. split.
    + intros (t & -> & [(b & H & ->)|(e & t1 & t2 & -> & H1 & H2)]); [left; eauto|].
      right. exists e, (EvAct a :: t1), t2. eauto 6.
    + intros [(b & (t & -> & H) & ->)|(e & t1 & t2 & -> & (t & -> & H1) & H2)].
      * exists t. eauto 6.
      * exists (t ++ t2). split; [done|]. right. eauto 8.
  - setoid_rewrite IH. split.
    + intros (r & t & -> & [(b & H & ->)|(e & t1 & t2 & -> & H1 & H2)]); [left; eauto 6|].
      right. exists e, (EvCall c r :: t1), t2. eauto 8.
    + intros [(b & (r & t & -> & H) & ->)|(e & t1 & t2 & -> & (r & t & -> & H1) & H2)].
      * exists r, t. eauto 6.
      * exists r, (t ++ t2). split; [done|]. right. eauto 8.
Qed.
End Prog.

#[global] Arguments prog act A : clear implicits.
#[global] Arguments event act : clear implicits.

Declare Scope prog_scope.
Delimit Scope prog_scope with prog.
Notation "x <- p ;; q" := (bind p (fun x => q))
  (at level 100, p at next level, right associativity) : prog_scope.
Notation "p ;; q" := (bind p (fun _ => q)) (at level 100, right associativity) : prog_scope.
