(* ===== verification/Invoke.v ===== *)
(** * services/api.ts and constants/: calling the back end

    [safeInvoke] races one [invoke] of a command against a timer and retries;
    the exported functions build the payload of each command.  The traces of
    [safeInvoke] are characterised at the end; what the commands accept is in
    Wire. *)

From S2P Require Import Prelude JsNumber JsString JsConvert Types Effects.
#[local] Open Scope Z_scope.
#[local] Open Scope prog_scope.

(** ** constants/runtime.ts and constants/ui.ts *)

(** [Number(import.meta.env?.X ?? globalThis.X)]: the values of an environment
    variable at build time and of a global, both strings when present. *)
Definition env_number (meta glob : option jsstr) : number :=
  match meta, glob with
  | Some s, _ => of_string s
  | None, Some s => of_string s
  | None, None => NaN
  end.

Record invoke_defaults := { timeoutMs : number; retries : number }.

Definition INVOKE_DEFAULTS (envTimeout envRetries : number) : invoke_defaults :=
  {| timeoutMs := if isFinite envTimeout && ltb (of_Z 0) envTimeout then envTimeout else of_Z 60000;
     retries := if isFinite envRetries && leb (of_Z 0) envRetries then envRetries else of_Z 0 |}.

(** [INVOKE_TIMEOUTS], in milliseconds. *)
Record invoke_timeouts := {
  t_readConfig : number;
  t_writeConfig : number;
  t_scanPaths : number;
  t_buildIndex : number;
  t_searchQuery : number;
  t_openLocation : number;
  t_pipelineStart : number;
  t_startAutoScanNow : number;
  t_diagnosticsReport : number;
}.

Definition INVOKE_TIMEOUTS : invoke_timeouts :=
  {| t_readConfig := of_Z 30000; t_writeConfig := of_Z 30000; t_scanPaths := of_Z 120000;
     t_buildIndex := of_Z 300000; t_searchQuery := of_Z 60000; t_openLocation := of_Z 30000;
     t_pipelineStart := of_Z 600000; t_startAutoScanNow := of_Z 60000;
     t_diagnosticsReport := of_Z 45000 |}.

Definition PATH_MAX_LEN (envLen : number) : number :=
  if isFinite envLen && ltb (of_Z 10) envLen then envLen else of_Z 80.

(** ** [safeInvoke] *)

Record invoke_options := { opt_timeoutMs : option number; opt_retries : option number }.

Section Api.
Context {act : Type}.
(** The defaults computed when the module is loaded. *)
Variable defaults : invoke_defaults.

Definition timeout_error (cmd : jsstr) (ms : number) : err :=
  EError (js "invoke " ++ cmd ++ js " timeout after " ++ to_string ms ++ js "ms").

(** The number of iterations [while (attempt <= retries)] can make from zero:
    one more than the integer part of [retries]; none when the test is false at
    once (a negative number or NaN).  An infinite [retries] does not occur: the
    defaults are finite and the only explicit value is 1. *)
Definition attempt_bound (retries : number) : nat :=
  match retries with Fin k => Z.to_nat (k / one + 1) | _ => O end.

Fixpoint invoke_loop (fuel : nat) (r : request) (retries : number) (attempt : Z) (lastErr : err)
  : prog act (den (rq_ret r)) :=
  match fuel with
  | O => Throw lastErr
  | S fuel' =>
      if leb (of_Z attempt) retries then
        let failed e :=
          let attempt' := attempt + 1 in
          if ltb retries (of_Z attempt') then Throw e
          else invoke_loop fuel' r retries attempt' e in
        Call (Race r) (fun s =>
          match s with
          | Resolved v => Ret v
          | Rejected e => failed e
          | TimerFired => failed (timeout_error (rq_cmd r) (rq_timeoutMs r))
          end)
      else Throw lastErr
  end.

Definition safeInvoke (T : rty) (cmd : jsstr) (payload : jsval) (opts : invoke_options)
  : prog act (den T) :=
  let ms := default (timeoutMs defaults) (opt_timeoutMs opts) in
  let n := default (retries defaults) (opt_retries opts) in
  invoke_loop (attempt_bound n)
    {| rq_cmd := cmd; rq_payload := payload; rq_timeoutMs := ms; rq_ret := T |} n 0 EUndefined.

Definition with_timeout (ms : number) : invoke_options :=
  {| opt_timeoutMs := Some ms; opt_retries := None |}.

(** ** Payloads *)

Definition opt_val {T} (f : T -> jsval) (o : option T) : jsval :=
  match o with Some x => f x | None => VUndef end.
Definition strs_val (l : list jsstr) : jsval := VArr (map VStr l).

Definition config_val (cfg : AppConfig) : jsval :=
  VObj [("search_mode", VStr (search_mode cfg));
        ("scan_roots", strs_val (scan_roots cfg));
        ("exclude_patterns", strs_val (exclude_patterns cfg));
        ("index_dir", VStr (index_dir cfg));
        ("path_max_len", opt_val VNum (path_max_len cfg));
        ("auto_scan_enabled", opt_val VBool (auto_scan_enabled cfg))]%string.

Definition file_val (f : FileMeta) : jsval :=
  VObj [("path", VStr (fm_path f)); ("file_name", VStr (fm_file_name f)); ("ext", VStr (fm_ext f));
        ("size", VNum (fm_size f)); ("modified_ts", VNum (fm_modified_ts f))]%string.

(** The [opts] of [scanPaths] and [scanPathsProgress]. *)
Record scan_opts := {
  so_roots : list jsstr;
  so_exclude_patterns : list jsstr;
  so_max_file_size_mb : number;
  so_follow_symlinks : bool;
}.

Definition scan_opts_val (o : scan_opts) : jsval :=
  VObj [("roots", strs_val (so_roots o)); ("exclude_patterns", strs_val (so_exclude_patterns o));
        ("max_file_size_mb", VNum (so_max_file_size_mb o));
        ("follow_symlinks", VBool (so_follow_symlinks o))]%string.

(** [{ index_dir: opts.indexDir, enable_content_parse: opts.enable_content_parse }]. *)
Definition rust_index_opts (indexDir : jsstr) (enable_content_parse : bool) : jsval :=
  VObj [("index_dir", VStr indexDir); ("enable_content_parse", VBool enable_content_parse)]%string.

(** ** The exported functions *)

Definition readConfig : prog act AppConfig :=
  safeInvoke RConfig (js "read_config") VUndef (with_timeout (t_readConfig INVOKE_TIMEOUTS)).

Definition writeConfig (cfg : AppConfig) : prog act unit :=
  safeInvoke RUnit (js "write_config") (VObj [("cfg"%string, config_val cfg)])
    (with_timeout (t_writeConfig INVOKE_TIMEOUTS)).

Definition resetConfig : prog act AppConfig :=
  safeInvoke RConfig (js "reset_config") VUndef (with_timeout (t_readConfig INVOKE_TIMEOUTS)).

Definition scanPaths (opts : scan_opts) : prog act (list FileMeta) :=
  safeInvoke RFiles (js "scan_paths") (VObj [("opts"%string, scan_opts_val opts)])
    (with_timeout (t_scanPaths INVOKE_TIMEOUTS)).

Definition scanPathsProgress (opts : scan_opts) : prog act (list FileMeta) :=
  safeInvoke RFiles (js "scan_paths_progress") (VObj [("opts"%string, scan_opts_val opts)])
    (with_timeout (t_scanPaths INVOKE_TIMEOUTS)).

Definition buildInvertedIndex (files : list FileMeta) (indexDir : jsstr) (enable_content_parse : bool)
  : prog act unit :=
  safeInvoke RUnit (js "build_inverted_index")
    (VObj [("files", VArr (map file_val files)); ("opts", rust_index_opts indexDir enable_content_parse)]%string)
    (with_timeout (t_buildIndex INVOKE_TIMEOUTS)).

Definition buildInvertedIndexProgress (files : list FileMeta) (indexDir : jsstr)
  (enable_content_parse : bool) : prog act unit :=
  safeInvoke RUnit (js "build_inverted_index_progress")
    (VObj [("files", VArr (map file_val files)); ("opts", rust_index_opts indexDir enable_content_parse)]%string)
    (with_timeout (t_buildIndex INVOKE_TIMEOUTS)).

Definition scanAndIndexPipeline (roots exclude : list jsstr) (indexDir : jsstr)
  (enable_content_parse : bool) : prog act unit :=
  let rustIndexOpts := rust_index_opts indexDir enable_content_parse in
  let opts := scan_opts_val {| so_roots := roots; so_exclude_patterns := exclude;
                               so_max_file_size_mb := of_Z 500; so_follow_symlinks := false |} in
  safeInvoke RUnit (js "scan_and_index_pipeline")
    (VObj [("opts", opts); ("index_opts", rustIndexOpts); ("indexOpts", rustIndexOpts)]%string)
    (with_timeout (t_pipelineStart INVOKE_TIMEOUTS)).

Definition startAutoScanNow : prog act unit :=
  safeInvoke RUnit (js "start_auto_scan_now") VUndef (with_timeout (t_startAutoScanNow INVOKE_TIMEOUTS)).

Definition filters_val (f : SearchFilters) : jsval :=
  VObj [("ext", opt_val strs_val (sf_ext f)); ("min_size", opt_val VNum (sf_min_size f));
        ("max_size", opt_val VNum (sf_max_size f))]%string.

Definition search_payload (req : SearchRequest) : jsval :=
  VObj [("req", VObj [("query", VStr (sq_query req));
                      ("filters", match sq_filters req with Some f => filters_val f | None => VNull end);
                      ("index_dir", VStr (sq_indexDir req))])]%string.

Definition searchQuery (req : SearchRequest) : prog act (list SearchResult) :=
  safeInvoke RResults (js "search_query") (search_payload req)
    {| opt_timeoutMs := Some (t_searchQuery INVOKE_TIMEOUTS); opt_retries := Some (of_Z 1) |}.

Definition openLocation (path : jsstr) : prog act unit :=
  safeInvoke RUnit (js "open_location") (VObj [("path"%string, VStr path)])
    (with_timeout (t_openLocation INVOKE_TIMEOUTS)).

Definition detectDuplicates (paths : list jsstr) : prog act (list DupGroup) :=
  safeInvoke RGroups (js "detect_duplicates") (VObj [("paths"%string, strs_val paths)])
    (with_timeout (t_searchQuery INVOKE_TIMEOUTS)).

Definition deleteFileAndIndex (path indexDir : jsstr) : prog act unit :=
  safeInvoke RUnit (js "delete_file_and_index")
    (VObj [("path", VStr path); ("index_dir", VStr indexDir); ("indexDir", VStr indexDir)]%string)
    (with_timeout (t_buildIndex INVOKE_TIMEOUTS)).

Definition diagnosticsReport : prog act DiagnosticsReport :=
  safeInvoke RReport (js "diagnostics_report") VUndef (with_timeout (t_diagnosticsReport INVOKE_TIMEOUTS)).
End Api.

(** ** Behaviour of the retry loop *)

(** The exception a settled attempt leads to, if it failed. *)
Definition failure (r : request) (s : settled (den (rq_ret r))) : option err :=
  match s with
  | Resolved _ => None
  | Rejected e => Some e
  | TimerFired => Some (timeout_error (rq_cmd r) (rq_timeoutMs r))
  end.

Definition all_failed (r : request) (l : list (settled (den (rq_ret r)))) : Prop :=
  Forall (fun s => is_Some (failure r s)) l.

(** Answers that drive a loop with [m] retries left to an outcome: failures, at
    most [m] of them, and a success; or [m + 1] failures, the last one thrown. *)
Definition retry_outcome (r : request) (m : nat) (l : list (settled (den (rq_ret r))))
  (o : outcome (den (rq_ret r))) : Prop :=
  (exists fs v, l = fs ++ [Resolved v] /\ all_failed r fs /\ (length fs <= m)%nat /\ o = Returned v) \/
  (exists fs s e, l = fs ++ [s] /\ all_failed r fs /\ length fs = m /\ failure r s = Some e /\ o = Threw e).

Section RetryLoop.
Context {act : Type} (r : request) (k : Z) (n : nat).
Hypotheses (Hn : k / one = Z.of_nat n) (Hmax : Z.of_nat n < 2 ^ 53).

Lemma attempt_le a : 0 <= a <= Z.of_nat n -> leb (of_Z a) (Fin k) = true.
Proof.
  intros Ha. pose proof one_pos. rewrite of_Z_small by lia. simpl.
  pose proof (Z.mul_div_le k one ltac:(lia)). destruct (Z.ltb_spec k (a * one)); [nia|done].
Qed.

Lemma attempt_over a : 0 <= a <= Z.of_nat n + 1 -> ltb (Fin k) (of_Z a) = (Z.of_nat n <? a).
Proof.
  intros Ha. pose proof one_pos. rewrite of_Z_small by lia. simpl.
  pose proof (Z.mul_div_le k one ltac:(lia)). pose proof (Z.mul_succ_div_gt k one ltac:(lia)).
  unfold Z.succ in *. bool_cases; try done; nia.
Qed.

Lemma retry_outcome_fail m s e l o : failure r s = Some e ->
  retry_outcome r m l o -> retry_outcome r (S m) (s :: l) o.
Proof.
  intros Hs [(fs & v & -> & Hf & Hl & ->)|(fs & t & e' & -> & Hf & Hl & Ht & ->)]; [left|right].
  - exists (s :: fs), v. split_and!; [done|constructor; [by rewrite Hs|done]|simpl; lia|done].
  - exists (s :: fs), t, e'. split_and!; [done|constructor; [by rewrite Hs|done]|simpl; lia|done|done].
Qed.

Lemma retry_outcome_inv m s l o : retry_outcome r (S m) (s :: l) o ->
  (exists v, s = Resolved v /\ l = [] /\ o = Returned v) \/
  (exists e, failure r s = Some e /\ retry_outcome r m l o).
Proof.
  intros [(fs & v & E & Hf & Hl & ->)|(fs & t & e' & E & Hf & Hl & Ht & ->)];
    (destruct fs as [|x fs]; simplify_eq/=).
  - left. eauto.
  - apply Forall_cons in Hf as [[e He] Hf]. right. exists e. split; [done|]. left.
    exists fs, v. split_and!; [done|done|lia|done].
  - apply Forall_cons in Hf as [[e He] Hf]. right. exists e. split; [done|]. right.
    exists fs, t, e'. done.
Qed.

Definition race_events (l : list (settled (den (rq_ret r)))) : list (event act) :=
  map (EvCall (act := act) (Race r)) l.

Lemma invoke_loop_runs m a lastErr tr o : 0 <= a -> a + Z.of_nat m = Z.of_nat n ->
  runs (invoke_loop (act := act) (S m) r (Fin k) a lastErr) tr o <->
  exists l, tr = race_events l /\ retry_outcome r m l o.
Proof.
  revert a lastErr tr. induction m as [|m IH]; intros a lastErr tr Ha E; cbn [invoke_loop];
    rewrite attempt_le, attempt_over by lia.
  - rewrite (proj2 (Z.ltb_lt _ _)) by lia. simpl. split.
    + intros (s & tr' & -> & H). exists [s]. destruct s as [v|e|]; destruct H as [-> ->]; (split; [done|]).
      * left. exists [], v. split_and!; [done|constructor|done|done].
      * right. eexists [], _, _. split_and!; [done|constructor|done..].
      * right. eexists [], _, _. split_and!; [done|constructor|done..].
    + intros (l & -> & [(fs & v & -> & Hf & Hl & ->)|(fs & s & e & -> & Hf & Hl & Hs & ->)]).
      * destruct fs; [|simpl in Hl; lia]. exists (Resolved v), []. done.
      * destruct fs; [|done]. exists s, []. by destruct s; simplify_eq/=.
  - rewrite (proj2 (Z.ltb_ge _ _)) by lia. cbn [runs]. split.
    + intros (s & tr' & -> & H). destruct s as [v|e|].
      * destruct H as [-> ->]. exists [Resolved v]. split; [done|]. left. exists [], v.
        split_and!; [done|constructor|simpl; lia|done].
      * apply IH in H as (l & -> & H); [|lia..]. exists (Rejected e :: l). split; [done|].
        by eapply retry_outcome_fail.
      * apply IH in H as (l & -> & H); [|lia..]. exists (TimerFired :: l). split; [done|].
        by eapply retry_outcome_fail.
    + intros (l & -> & H). destruct l as [|s l].
      { destruct H as [(fs & ? & E' & _)|(fs & ? & ? & E' & _)]; by destruct fs. }
      exists s, (race_events l). split; [done|].
      apply retry_outcome_inv in H as [(v & -> & -> & ->)|(e & He & H)]; [done|].
      destruct s as [v|e'|]; [done|apply IH; [lia|lia|eauto]..].
Qed.
End RetryLoop.

(** ** Properties of the calls *)

Definition invoke_request (d : invoke_defaults) (T : rty) (cmd : jsstr) (payload : jsval)
  (opts : invoke_options) : request :=
  {| rq_cmd := cmd; rq_payload := payload;
     rq_timeoutMs := default (timeoutMs d) (opt_timeoutMs opts); rq_ret := T |}.

Lemma safeInvoke_runs {act} d T cmd payload opts k n tr o :
  default (retries d) (opt_retries opts) = Fin k -> k / one = Z.of_nat n ->
  Z.of_nat n < 2 ^ 53 ->
  runs (safeInvoke (act := act) d T cmd payload opts) tr o <->
  exists l, tr = race_events (invoke_request d T cmd payload opts) l
    /\ retry_outcome (invoke_request d T cmd payload opts) n l o.
Proof.
  intros Hr Hn Hmax. unfold safeInvoke. rewrite Hr. unfold attempt_bound.
  replace (Z.to_nat (k / one + 1)) with (S n) by lia.
  fold (invoke_request d T cmd payload opts).
  apply (invoke_loop_runs (invoke_request d T cmd payload opts) k n Hn Hmax n 0); lia.
Qed.

(** C21. [safeInvoke] with [n] whole retries: it calls the command between 1 and
    [n + 1] times, always with the same command, payload and timeout; it returns
    the first success and stops there, and it throws only when all [n + 1]
    attempts failed or timed out, and then the error of the last one.  Every such
    sequence of answers is possible and no other behaviour is. *)
Theorem safeInvoke_retries {act} d T cmd payload opts k n tr o :
  default (retries d) (opt_retries opts) = Fin k -> k / one = Z.of_nat n ->
  Z.of_nat n < 2 ^ 53 ->
  let r := invoke_request d T cmd payload opts in
  runs (safeInvoke (act := act) d T cmd payload opts) tr o <->
  exists l, tr = map (EvCall (act := act) (Race r)) l /\
    ((exists fs v, l = fs ++ [Resolved v] /\ all_failed r fs /\ (length fs <= n)%nat /\ o = Returned v) \/
     (exists fs s e, l = fs ++ [s] /\ all_failed r fs /\ length fs = n /\ failure r s = Some e /\ o = Threw e)).
Proof. apply safeInvoke_runs. Qed.

Lemma safeInvoke_retries_witness :
  let d := INVOKE_DEFAULTS NaN NaN in
  let r := invoke_request d RResults (js "search_query") VUndef
             {| opt_timeoutMs := None; opt_retries := Some (of_Z 1) |} in
  runs (safeInvoke (act := unit) d RResults (js "search_query") VUndef
          {| opt_timeoutMs := None; opt_retries := Some (of_Z 1) |})
    [EvCall (Race r) TimerFired; EvCall (Race r) (Resolved [])] (Returned []).
Proof.
  pose proof one_pos.
  apply (safeInvoke_retries (INVOKE_DEFAULTS NaN NaN) RResults (js "search_query") VUndef
           {| opt_timeoutMs := None; opt_retries := Some (of_Z 1) |} (1 * one) 1).
  - simpl. by apply of_Z_small.
  - rewrite Z.div_mul by lia. reflexivity.
  - lia.
  - exists [TimerFired; Resolved []]. split; [reflexivity|]. left. exists [TimerFired], [].
    split_and!; [done|by repeat constructor|simpl; lia|done].
Defined.

(** The run-time constants are usable whatever the environment holds: the
    timeout is a positive finite number, the retries a non-negative finite
    number, the path limit a finite number above 10. *)
Theorem runtime_constants_sane t n l :
  let d := INVOKE_DEFAULTS (env_number (fst t) (snd t)) (env_number (fst n) (snd n)) in
  (isFinite (timeoutMs d) = true /\ ltb (of_Z 0) (timeoutMs d) = true)
  /\ (isFinite (retries d) = true /\ leb (of_Z 0) (retries d) = true)
  /\ isFinite (PATH_MAX_LEN (env_number (fst l) (snd l))) = true
  /\ ltb (of_Z 10) (PATH_MAX_LEN (env_number (fst l) (snd l))) = true.
Proof.
  assert (F : forall z, safe z -> isFinite (of_Z z) = true) by (intros; by rewrite of_Z_small).
  unfold INVOKE_DEFAULTS, PATH_MAX_LEN. simpl. split_and!; case_match; rewrite ?andb_true_iff in *;
    destruct_and?; try done; rewrite ?F, ?ltb_of_Z, ?leb_of_Z by safe_lia; done.
Qed.
