(* ===== verification/Wire.v ===== *)
(** * The command interface of the back end

    The commands registered in src-tauri/src/main.rs with the arguments they
    deserialize.  A payload object is sent as JSON: an undefined field is
    dropped, a number that is not finite becomes null.  Argument names are the
    camel-case form of the Rust parameters, as Tauri expects by default; window
    and application handles are not arguments. *)

From S2P Require Import Prelude JsNumber JsString JsConvert Types Effects Invoke.
#[local] Open Scope Z_scope.

(** ** What a Rust type deserializes from *)

Inductive shape :=
| SStr
| SBool
| SUint (bits : Z)
| SInt (bits : Z)
| SArr (s : shape)
| SOpt (s : shape)
| SDefault (s : shape)
| SStruct (fields : list (string * shape)).

(** The JSON form of a value: [None] when it is dropped. *)
Definition json_of (v : jsval) : option jsval :=
  match v with
  | VUndef => None
  | VNum NaN | VNum (Infinity _) => Some VNull
  | _ => Some v
  end.

Fixpoint field_of (fields : list (string * jsval)) (name : string) : option jsval :=
  match fields with
  | [] => None
  | (n, v) :: rest => if String.eqb n name then json_of v else field_of rest name
  end.

Definition int_in (lo hi : Z) (x : number) : bool :=
  match x with
  | Fin k => ((k / one) * one =? k) && (lo <=? k / one) && (k / one <? hi)
  | _ => false
  end.

#[global] Arguments int_in : simpl never.

Fixpoint accepts (s : shape) (v : option jsval) {struct s} : bool :=
  match s, v with
  | SStr, Some (VStr _) => true
  | SBool, Some (VBool _) => true
  | SUint bits, Some (VNum x) => int_in 0 (2 ^ bits) x
  | SInt bits, Some (VNum x) => int_in (- 2 ^ (bits - 1)) (2 ^ (bits - 1)) x
  | SArr s', Some (VArr l) => forallb (fun x => accepts s' (json_of x)) l
  | SOpt _, None => true
  | SOpt _, Some VNull => true
  | SOpt s', _ => accepts s' v
  | SDefault _, None => true
  | SDefault s', _ => accepts s' v
  | SStruct fields, Some (VObj fs) =>
      forallb (fun p => accepts (snd p) (field_of fs (fst p))) fields
  | _, _ => false
  end.

(** ** The structs *)

Definition ScanOptions : shape :=
  SStruct [("roots", SArr SStr); ("exclude_patterns", SArr SStr);
           ("max_file_size_mb", SOpt (SUint 64)); ("follow_symlinks", SBool)]%string.
Definition IndexOptions : shape :=
  SStruct [("index_dir", SStr); ("enable_content_parse", SBool)]%string.
Definition FileMetaShape : shape :=
  SStruct [("path", SStr); ("file_name", SStr); ("ext", SStr); ("size", SUint 64);
           ("modified_ts", SInt 64)]%string.
Definition SearchFiltersShape : shape :=
  SStruct [("ext", SOpt (SArr SStr)); ("min_size", SOpt (SUint 64)); ("max_size", SOpt (SUint 64))]%string.
Definition QueryRequest : shape :=
  SStruct [("query", SStr); ("filters", SOpt SearchFiltersShape); ("index_dir", SStr)]%string.
Definition AppConfigShape : shape :=
  SStruct [("search_mode", SDefault SStr); ("scan_roots", SDefault (SArr SStr));
           ("exclude_patterns", SDefault (SArr SStr)); ("index_dir", SDefault SStr);
           ("path_max_len", SDefault (SUint 32)); ("auto_scan_enabled", SDefault SBool)]%string.

(** ** main.rs, [generate_handler!] *)

Definition registered_commands : list (jsstr * shape) :=
  [(js "scan_paths", SStruct [("opts", ScanOptions)]%string);
   (js "scan_paths_progress", SStruct [("opts", ScanOptions)]%string);
   (js "build_inverted_index", SStruct [("files", SArr FileMetaShape); ("opts", IndexOptions)]%string);
   (js "build_inverted_index_progress", SStruct [("files", SArr FileMetaShape); ("opts", IndexOptions)]%string);
   (js "scan_and_index_pipeline", SStruct [("opts", ScanOptions); ("indexOpts", IndexOptions)]%string);
   (js "start_auto_scan_now", SStruct []);
   (js "diagnostics_report", SStruct []);
   (js "search_query", SStruct [("req", QueryRequest)]%string);
   (js "detect_duplicates", SStruct [("paths", SArr SStr)]%string);
   (js "read_config", SStruct []);
   (js "write_config", SStruct [("cfg", AppConfigShape)]%string);
   (js "reset_config", SStruct []);
   (js "open_location", SStruct [("path", SStr)]%string);
   (js "delete_file_and_index", SStruct [("path", SStr); ("indexDir", SStr)]%string)].

Fixpoint command_shape (table : list (jsstr * shape)) (name : jsstr) : option shape :=
  match table with
  | [] => None
  | (n, s) :: rest => if bool_decide (n = name) then Some s else command_shape rest name
  end.

(** The call reaches a registered command with arguments it can deserialize; no
    payload counts as an empty one. *)
Definition accepted (r : request) : Prop :=
  match command_shape registered_commands (rq_cmd r) with
  | Some s => accepts s (Some (match rq_payload r with VUndef => VObj [] | v => v end)) = true
  | None => False
  end.

(** ** The back-end calls of a program *)

Fixpoint only_races {act A} (Q : request -> Prop) (p : prog act A) : Prop :=
  match p with
  | Ret _ | Throw _ => True
  | Act _ k => only_races Q k
  | Call c k => match c with Race r => Q r | _ => True end /\ forall a, only_races Q (k a)
  end.

Lemma only_races_bind {act A B} Q (p : prog act A) (f : A -> prog act B) :
  only_races Q p -> (forall a, only_races Q (f a)) -> only_races Q (bind p f).
Proof.
  intros Hp Hf. induction p as [a|e|a k IH|c k IH]; simpl in *; auto.
  destruct Hp as [Hc Hk]. auto.
Qed.

Lemma only_races_catch {act A} Q (p : prog act A) h :
  only_races Q p -> (forall e, only_races Q (h e)) -> only_races Q (try_catch p h).
Proof.
  intros Hp Hf. induction p as [a|e|a k IH|c k IH]; simpl in *; auto.
  destruct Hp as [Hc Hk]. auto.
Qed.

Lemma only_races_finally {act A} Q (p : prog act A) q :
  only_races Q p -> only_races Q q -> only_races Q (try_finally p q).
Proof.
  intros Hp Hq. induction p as [a|e|a k IH|c k IH]; simpl in *.
  - by apply only_races_bind.
  - by apply only_races_bind.
  - auto.
  - destruct Hp as [Hc Hk]. auto.
Qed.

#[export] Hint Resolve only_races_bind only_races_catch only_races_finally : app.

(** [safeInvoke] only issues its own request. *)
Lemma only_races_loop {act} (Q : request -> Prop) fuel r n a e :
  Q r -> only_races Q (invoke_loop (act := act) fuel r n a e).
Proof.
  intros Hr. revert a e. induction fuel as [|fuel IH]; intros a e; simpl; [done|].
  destruct (leb _ _); simpl; [|done]. split; [done|]. intros [v|e'|]; [done|..]; by destruct (ltb _ _).
Qed.

Lemma only_races_invoke {act} (Q : request -> Prop) d T cmd payload opts :
  Q (invoke_request d T cmd payload opts) ->
  only_races Q (safeInvoke (act := act) d T cmd payload opts).
Proof. apply only_races_loop. Qed.

(** ** Payloads are accepted *)

(** A struct is accepted when its fields are. *)
Lemma accepts_struct fields fs :
  Forall (fun p => accepts (snd p) (field_of fs (fst p)) = true) fields ->
  accepts (SStruct fields) (Some (VObj fs)) = true.
Proof. intros H. cbn [accepts]. rewrite forallb_forall. by rewrite Forall_forall in H; intros x Hx%list_elem_of_In; apply H. Qed.

Lemma accepts_strs l : accepts (SArr SStr) (Some (strs_val l)) = true.
Proof. simpl. induction l; simpl; auto. Qed.

Lemma accepts_opt_strs o : accepts (SOpt (SArr SStr)) (json_of (opt_val strs_val o)) = true.
Proof. destruct o as [l|]; [|done]. apply accepts_strs. Qed.

Definition uint_ok (bits : Z) (o : option number) : Prop :=
  forall x, o = Some x -> int_in 0 (2 ^ bits) x = true.

Lemma accepts_uint bits o : uint_ok bits o ->
  accepts (SOpt (SUint bits)) (json_of (opt_val VNum o)) = true
  /\ accepts (SDefault (SUint bits)) (json_of (opt_val VNum o)) = true.
Proof.
  intros H. destruct o as [x|]; [|done]. specialize (H x eq_refl).
  by destruct x.
Qed.

Definition file_ok (f : FileMeta) : Prop :=
  int_in 0 (2 ^ 64) (fm_size f) = true /\ int_in (- 2 ^ 63) (2 ^ 63) (fm_modified_ts f) = true.

Lemma accepts_file f : file_ok f -> accepts FileMetaShape (Some (file_val f)) = true.
Proof.
  intros [H1 H2]. destruct f as [p n e s m]. cbn [fm_size fm_modified_ts] in H1, H2.
  destruct s as [| |k]; [done..|]. destruct m as [| |j]; [done..|].
  apply accepts_struct. repeat constructor; assumption.
Qed.

Lemma accepts_files l : Forall file_ok l -> accepts (SArr FileMetaShape) (Some (VArr (map file_val l))) = true.
Proof.
  intros Hl. cbn [accepts]. rewrite forallb_forall. intros v Hv.
  apply in_map_iff in Hv as (f & <- & Hf). rewrite Forall_forall in Hl.
  apply (accepts_file f), Hl. by apply list_elem_of_In.
Qed.

Definition request_ok (f : SearchFilters) : Prop := uint_ok 64 (sf_min_size f) /\ uint_ok 64 (sf_max_size f).

Lemma accepts_query req : (forall f, sq_filters req = Some f -> request_ok f) ->
  accepts (SStruct [("req"%string, QueryRequest)]) (Some (search_payload req)) = true.
Proof.
  intros H. destruct req as [q [f|] d]; [|done]. destruct (H f eq_refl) as [H1 H2].
  destruct (accepts_uint 64 _ H1) as [E1 _]. destruct (accepts_uint 64 _ H2) as [E2 _].
  pose proof (accepts_opt_strs (sf_ext f)) as E3.
  assert (accepts SearchFiltersShape (Some (filters_val f)) = true) as E.
  { apply accepts_struct. repeat constructor; assumption. }
  apply accepts_struct. constructor; [|constructor]. apply accepts_struct.
  repeat constructor. exact E.
Qed.

Lemma accepts_config cfg : uint_ok 32 (path_max_len cfg) ->
  accepts (SStruct [("cfg"%string, AppConfigShape)]) (Some (VObj [("cfg"%string, config_val cfg)])) = true.
Proof.
  intros H. apply accepts_struct. constructor; [|constructor]. apply accepts_struct.
  destruct (accepts_uint 32 _ H) as [_ E]. pose proof (accepts_strs (scan_roots cfg)).
  pose proof (accepts_strs (exclude_patterns cfg)).
  repeat constructor; try assumption. by destruct (auto_scan_enabled cfg).
Qed.

Lemma accepts_scan_opts o : uint_ok 64 (Some (so_max_file_size_mb o)) ->
  accepts ScanOptions (Some (scan_opts_val o)) = true.
Proof.
  intros H. destruct (accepts_uint 64 _ H) as [E _].
  pose proof (accepts_strs (so_roots o)). pose proof (accepts_strs (so_exclude_patterns o)).
  apply accepts_struct. repeat constructor; assumption.
Qed.

Lemma uint_ok_of_Z bits z : 0 <= z < 2 ^ bits -> safe z -> uint_ok bits (Some (of_Z z)).
Proof.
  intros Hz Hs x [= <-]. pose proof one_pos. rewrite of_Z_small by done. unfold int_in.
  rewrite Z.div_mul by lia. rewrite !andb_true_iff, Z.eqb_eq, Z.leb_le, Z.ltb_lt. lia.
Qed.

Lemma uint_ok_500 : uint_ok 64 (Some (of_Z 500)).
Proof. apply uint_ok_of_Z; [lia|safe_lia]. Qed.

Lemma accepted_intro r s :
  command_shape registered_commands (rq_cmd r) = Some s ->
  accepts s (Some (match rq_payload r with VUndef => VObj [] | v => v end)) = true -> accepted r.
Proof. intros E H. unfold accepted. by rewrite E. Qed.

(** Reduces [only_races accepted] of an API function to the acceptance of its
    payload by the shape of its command. *)
Ltac accepted_call :=
  match goal with
  | |- only_races accepted (safeInvoke ?d ?T ?name ?payload ?opts) =>
      let sh := eval vm_compute in (command_shape registered_commands name) in
      match sh with
      | Some ?s =>
          apply (only_races_invoke accepted d T name payload opts);
          apply (accepted_intro _ s); cbn [rq_cmd rq_payload invoke_request]; [vm_compute; reflexivity|]
      end
  end.

(** ** The functions of the API *)

Section Accepted.
Context {act : Type} (d : invoke_defaults).
#[local] Abbreviation ok p := (only_races (act := act) accepted p).

Lemma readConfig_accepted : ok (readConfig d).
Proof. unfold readConfig. accepted_call. reflexivity. Qed.

Lemma writeConfig_accepted cfg : uint_ok 32 (path_max_len cfg) -> ok (writeConfig d cfg).
Proof. intros H. unfold writeConfig. accepted_call. by apply accepts_config. Qed.

Lemma resetConfig_accepted : ok (resetConfig d).
Proof. unfold resetConfig. accepted_call. reflexivity. Qed.

Lemma accepts_opts o : uint_ok 64 (Some (so_max_file_size_mb o)) ->
  accepts (SStruct [("opts"%string, ScanOptions)]) (Some (VObj [("opts"%string, scan_opts_val o)])) = true.
Proof. intros H. apply accepts_struct. constructor; [|constructor]. by apply accepts_scan_opts. Qed.

Lemma scanPaths_accepted o : uint_ok 64 (Some (so_max_file_size_mb o)) -> ok (scanPaths d o).
Proof. intros H. unfold scanPaths. accepted_call. by apply accepts_opts. Qed.

Lemma scanPathsProgress_accepted o : uint_ok 64 (Some (so_max_file_size_mb o)) -> ok (scanPathsProgress d o).
Proof. intros H. unfold scanPathsProgress. accepted_call. by apply accepts_opts. Qed.

Lemma buildInvertedIndex_accepted fs dir b : Forall file_ok fs -> ok (buildInvertedIndex d fs dir b).
Proof.
  intros H. unfold buildInvertedIndex. accepted_call. apply accepts_struct. repeat constructor. by apply accepts_files.
Qed.

Lemma buildInvertedIndexProgress_accepted fs dir b : Forall file_ok fs -> ok (buildInvertedIndexProgress d fs dir b).
Proof.
  intros H. unfold buildInvertedIndexProgress. accepted_call. apply accepts_struct. repeat constructor.
  by apply accepts_files.
Qed.

Lemma scanAndIndexPipeline_accepted rs ex dir b : ok (scanAndIndexPipeline d rs ex dir b).
Proof.
  unfold scanAndIndexPipeline. accepted_call. apply accepts_struct. repeat constructor.
  by apply accepts_scan_opts, uint_ok_500.
Qed.

Lemma startAutoScanNow_accepted : ok (startAutoScanNow d).
Proof. unfold startAutoScanNow. accepted_call. reflexivity. Qed.

Lemma searchQuery_accepted q : (forall f, sq_filters q = Some f -> request_ok f) -> ok (searchQuery d q).
Proof. intros H. unfold searchQuery. accepted_call. by apply accepts_query. Qed.

Lemma openLocation_accepted p : ok (openLocation d p).
Proof. unfold openLocation. accepted_call. reflexivity. Qed.

Lemma detectDuplicates_accepted ps : ok (detectDuplicates d ps).
Proof.
  unfold detectDuplicates. accepted_call. apply accepts_struct. constructor; [|constructor]. apply accepts_strs.
Qed.

Lemma deleteFileAndIndex_accepted p dir : ok (deleteFileAndIndex d p dir).
Proof. unfold deleteFileAndIndex. accepted_call. reflexivity. Qed.

Lemma diagnosticsReport_accepted : ok (diagnosticsReport d).
Proof. unfold diagnosticsReport. accepted_call. reflexivity. Qed.
End Accepted.

(** ** Properties *)

(** Every call the API makes reaches a registered command with arguments the
    Rust side deserializes: command names, argument names (camel case), struct
    fields and their types agree.  What the caller must provide is that the
    numbers it sends are integers of the width the Rust field has. *)
Theorem api_requests_accepted {act} d :
  only_races (act := act) accepted (readConfig d)
  /\ (forall cfg, uint_ok 32 (path_max_len cfg) -> only_races (act := act) accepted (writeConfig d cfg))
  /\ only_races (act := act) accepted (resetConfig d)
  /\ (forall o, uint_ok 64 (Some (so_max_file_size_mb o)) ->
       only_races (act := act) accepted (scanPaths d o) /\ only_races (act := act) accepted (scanPathsProgress d o))
  /\ (forall fs dir b, Forall file_ok fs ->
       only_races (act := act) accepted (buildInvertedIndex d fs dir b)
       /\ only_races (act := act) accepted (buildInvertedIndexProgress d fs dir b))
  /\ (forall rs ex dir b, only_races (act := act) accepted (scanAndIndexPipeline d rs ex dir b))
  /\ only_races (act := act) accepted (startAutoScanNow d)
  /\ (forall q, (forall f, sq_filters q = Some f -> request_ok f) ->
       only_races (act := act) accepted (searchQuery d q))
  /\ (forall p, only_races (act := act) accepted (openLocation d p))
  /\ (forall ps, only_races (act := act) accepted (detectDuplicates d ps))
  /\ (forall p dir, only_races (act := act) accepted (deleteFileAndIndex d p dir))
  /\ only_races (act := act) accepted (diagnosticsReport d).
Proof.
  exact (conj (readConfig_accepted d) (conj (writeConfig_accepted d) (conj (resetConfig_accepted d)
    (conj (fun o H => conj (scanPaths_accepted d o H) (scanPathsProgress_accepted d o H))
    (conj (fun fs dir b H => conj (buildInvertedIndex_accepted d fs dir b H)
                                  (buildInvertedIndexProgress_accepted d fs dir b H))
    (conj (scanAndIndexPipeline_accepted d) (conj (startAutoScanNow_accepted d)
    (conj (searchQuery_accepted d) (conj (openLocation_accepted d) (conj (detectDuplicates_accepted d)
    (conj (deleteFileAndIndex_accepted d) (diagnosticsReport_accepted d)))))))))))).
Qed.

(** The Rust side stores the path limit as a 32-bit unsigned integer, the
    settings page keeps whatever number is typed: a fractional limit is a
    configuration the command rejects. *)
Theorem fractional_path_len_rejected {act} d cfg k :
  path_max_len cfg = Some (Fin k) -> ~ (one | k) ->
  only_races (act := act) (fun r => ~ accepted r) (writeConfig d cfg).
Proof.
  intros Hl Hk. apply (only_races_invoke (fun r => ~ accepted r) d RUnit).
  unfold accepted. cbn [rq_cmd rq_payload invoke_request].
  replace (command_shape registered_commands (js "write_config"))
    with (Some (SStruct [("cfg"%string, AppConfigShape)])) by (vm_compute; reflexivity).
  intros E. apply Hk. simpl in E. rewrite Hl in E. simpl in E.
  rewrite !andb_true_iff in E. unfold int_in in E. rewrite !andb_true_iff in E.
  destruct_and?. exists (k / one). symmetry. by apply Z.eqb_eq.
Qed.

Lemma fractional_path_len_rejected_witness :
  only_races (act := unit) (fun r => ~ accepted r)
    (writeConfig (INVOKE_DEFAULTS NaN NaN)
       {| search_mode := js "inverted"; scan_roots := []; exclude_patterns := []; index_dir := [];
          path_max_len := Some (Fin (41 * half)); auto_scan_enabled := None |}).
Proof.
  apply (fractional_path_len_rejected _ _ (41 * half)); [reflexivity|].
  intros [j Hj]. pose proof half_pos. rewrite one_half in Hj.
  assert (41 = 2 * j) by (apply (Z.mul_reg_r _ _ half); lia). lia.
Defined.
