(* ===== verification/TauriEvents.v ===== *)
(** * hooks/useTauriEvents.ts: subscribing to back-end events

    The effect starts an asynchronous loop that subscribes to one event after
    the other, retrying with a doubling delay; its cleanup cancels it.  The loop
    suspends in an awaited subscription or in a timer, and cleanups and renders
    happen in between, so the hook is a transition system: [instance_step] is
    one resumption of one loop, [step] interleaves the loops of all the effects
    a component ran, its renders and its unmounting. *)

From stdpp Require Import gmap.
From S2P Require Import Prelude JsNumber.
#[local] Open Scope Z_scope.

(** ** One run of the effect *)

(** Where the loop is suspended: in [await fn()] of subscription [i], in the
    timer that precedes attempt [attempt] of it, or past the end. *)
Inductive loop_pc :=
| AwaitFn (i : nat) (attempt : Z)
| AwaitTimer (i : nat) (attempt : Z) (ms : number)
| Finished.

Record instance := {
  fns : nat;                (* subscribeFns.length *)
  retries : number;
  backoffMs : number;
  cancelled : bool;
  unlisteners : list nat;   (* the listeners the pushed functions remove *)
  errors : list nat;        (* the indices onError was called with, last first *)
  pc : loop_pc;
}.

Definition with_pc (p : loop_pc) (s : instance) : instance :=
  {| fns := fns s; retries := retries s; backoffMs := backoffMs s; cancelled := cancelled s;
     unlisteners := unlisteners s; errors := errors s; pc := p |}.
Definition push_unlistener (un : nat) (s : instance) : instance :=
  {| fns := fns s; retries := retries s; backoffMs := backoffMs s; cancelled := cancelled s;
     unlisteners := if cancelled s then unlisteners s else unlisteners s ++ [un];
     errors := errors s; pc := pc s |}.
Definition call_onError (i : nat) (s : instance) : instance :=
  {| fns := fns s; retries := retries s; backoffMs := backoffMs s; cancelled := cancelled s;
     unlisteners := unlisteners s; errors := i :: errors s; pc := pc s |}.
Definition cancel (s : instance) : instance :=
  {| fns := fns s; retries := retries s; backoffMs := backoffMs s; cancelled := true;
     unlisteners := []; errors := errors s; pc := pc s |}.

(** The head of the [for] loop with [todo] subscriptions left; the [while] test
    fails at once when [retries] is negative or NaN. *)
Fixpoint enter_for (retries : number) (todo i : nat) : loop_pc :=
  match todo with
  | O => Finished
  | S todo' => if leb (of_Z 0) retries then AwaitFn i 0 else enter_for retries todo' (S i)
  end.

Definition next_fn (s : instance) (i : nat) : loop_pc := enter_for (retries s) (fns s - S i) (S i).

(** The effect body up to its first suspension. *)
Definition start (n : nat) (retries backoffMs : number) : instance :=
  {| fns := n; retries := retries; backoffMs := backoffMs; cancelled := false;
     unlisteners := []; errors := []; pc := enter_for retries n 0 |}.

(** [const un = await fn()] resolved with the listener [un]. *)
Definition resolved (i : nat) (un : nat) (s : instance) : instance :=
  with_pc (next_fn s i) (push_unlistener un s).

(** The [catch] branch: [onError], the attempt counter, the back-off timer. *)
Definition rejected (i : nat) (attempt : Z) (s : instance) : instance :=
  let s := call_onError i s in
  let attempt := attempt + 1 in
  with_pc (if ltb (retries s) (of_Z attempt) then next_fn s i
           else AwaitTimer i attempt (mul (backoffMs s) (of_Z (2 ^ (attempt - 1))))) s.

(** The timer fired; the [while] test is made again. *)
Definition timer (i : nat) (attempt : Z) (s : instance) : instance :=
  with_pc (if leb (of_Z attempt) (retries s) then AwaitFn i attempt else next_fn s i) s.

(** What a resumption was. *)
Inductive label :=
| LResolved (i un : nat)
| LRejected (i : nat)
| LTimer (i : nat) (ms : number).

(** The listener a resumption registered. *)
Definition registered (l : label) : option nat :=
  match l with LResolved _ un => Some un | _ => None end.

Inductive instance_step : instance -> label -> instance -> Prop :=
| step_resolved s i a un :
    pc s = AwaitFn i a -> instance_step s (LResolved i un) (resolved i un s)
| step_rejected s i a :
    pc s = AwaitFn i a -> instance_step s (LRejected i) (rejected i a s)
| step_timer s i a ms :
    pc s = AwaitTimer i a ms -> instance_step s (LTimer i ms) (timer i a s).

(** ** The hook over the life of its component *)

(** The arguments of one call of the hook; arrays and functions are compared by
    identity, [Object.is], so they are references. *)
Record args := {
  active : bool;
  subscribeFns : nat;          (* reference *)
  subscribeFns_length : nat;
  onError : option nat;        (* reference *)
  opt_retries : option number;
  opt_backoffMs : option number;
}.

(** The dependency array of the effect. *)
Definition deps (a : args) : bool * nat * option nat * option number * option number :=
  (active a, subscribeFns a, onError a, opt_retries a, opt_backoffMs a).

Record hook := {
  table : gset nat;            (* listeners registered with the back end *)
  next : nat;                  (* identifiers handed out so far *)
  instances : list instance;   (* every run of the effect, oldest first *)
  current : option nat;        (* the run whose cleanup is pending *)
  last : option args;          (* arguments of the last render *)
}.

Definition initial : hook :=
  {| table := ∅; next := O; instances := []; current := None; last := None |}.

(** The cleanup function of the current run. *)
Definition cleanup (h : hook) : hook :=
  match current h with
  | Some j =>
      match instances h !! j with
      | Some s => {| table := table h ∖ list_to_set (unlisteners s); next := next h;
                     instances := <[j := cancel s]> (instances h); current := None; last := last h |}
      | None => h
      end
  | None => h
  end.

(** The effect of a call with arguments [a]. *)
Definition run_effect (a : args) (h : hook) : hook :=
  if active a then
    {| table := table h; next := next h;
       instances := instances h ++ [start (subscribeFns_length a) (default (of_Z 2) (opt_retries a))
                                          (default (of_Z 500) (opt_backoffMs a))];
       current := Some (length (instances h)); last := last h |}
  else h.

Definition set_last (l : option args) (h : hook) : hook :=
  {| table := table h; next := next h; instances := instances h; current := current h; last := l |}.

(** A committed render: the effect runs again when a dependency changed. *)
Definition render (a : args) (h : hook) : hook :=
  set_last (Some a)
    (match last h with
     | Some b => if bool_decide (deps b = deps a) then h else run_effect a (cleanup h)
     | None => run_effect a h
     end).

Definition unmount (h : hook) : hook := set_last None (cleanup h).

Definition deliver (j : nat) (un : option nat) (s : instance) (h : hook) : hook :=
  {| table := match un with Some l => {[l]} ∪ table h | None => table h end;
     next := match un with Some _ => S (next h) | None => next h end;
     instances := <[j := s]> (instances h); current := current h; last := last h |}.

(** The back end hands out each listener identifier once. *)
Definition fresh (l : label) (h : hook) : Prop :=
  match registered l with Some un => un = next h | None => True end.

Inductive step : hook -> hook -> Prop :=
| step_render h a : step h (render a h)
| step_unmount h : step h (unmount h)
| step_instance h j s l s' :
    instances h !! j = Some s -> instance_step s l s' -> fresh l h ->
    step h (deliver j (registered l) s' h).

(** The loop of the run whose cleanup is pending is past its end. *)
Definition settled (h : hook) : Prop :=
  forall j s, current h = Some j -> instances h !! j = Some s -> pc s = Finished.

(** Steps in which no cleanup cuts a running loop short. *)
Inductive calm_step : hook -> hook -> Prop :=
| calm_render h a : settled h -> calm_step h (render a h)
| calm_unmount h : settled h -> calm_step h (unmount h)
| calm_instance h j s l s' :
    instances h !! j = Some s -> instance_step s l s' -> fresh l h ->
    calm_step h (deliver j (registered l) s' h).

Definition reachable (h : hook) : Prop := rtc step initial h.
Definition calmly_reachable (h : hook) : Prop := rtc calm_step initial h.

(** App.tsx lines 101-129: every render builds the array and the callback anew. *)
Definition App_args (inTauri : bool) (fns_ref onError_ref : nat) : args :=
  {| active := inTauri; subscribeFns := fns_ref; subscribeFns_length := 4;
     onError := Some onError_ref; opt_retries := Some (of_Z 3); opt_backoffMs := Some (of_Z 600) |}.

(** ** The loop of one run *)

(** [loop_runs s tr s']: the resumptions [tr] lead from [s] to [s']; the cleanup
    may happen at any point in between. *)
Inductive loop_runs : instance -> list label -> instance -> Prop :=
| runs_refl s : loop_runs s [] s
| runs_step s l s1 tr s2 : instance_step s l s1 -> loop_runs s1 tr s2 -> loop_runs s (l :: tr) s2
| runs_cancel s tr s2 : loop_runs (cancel s) tr s2 -> loop_runs s tr s2.

(** [k] failed attempts from attempt [a] on, each followed by its delay. *)
Fixpoint backed_off (b : number) (i : nat) (a : Z) (k : nat) : list label :=
  match k with
  | O => []
  | S k' => LRejected i :: LTimer i (mul b (of_Z (2 ^ a))) :: backed_off b i (a + 1) k'
  end.

(** How subscription [i] can go from attempt [a] on, with [m] retries: it
    succeeds after some failures, or its last attempt fails too. *)
Definition served (b : number) (m i : nat) (a : Z) (tr : list label) : Prop :=
  (exists k un, a + Z.of_nat k <= Z.of_nat m /\ tr = backed_off b i a k ++ [LResolved i un])
  \/ tr = backed_off b i a (Z.to_nat (Z.of_nat m - a)) ++ [LRejected i].

Section Loop.
Context (m : nat) (Hm : Z.of_nat m + 1 <= 2 ^ 53).

(** The subscriptions [i], [i + 1], ..., each served from its first attempt. *)
Definition served_from (b : number) (n i : nat) (tr : list label) : Prop :=
  exists parts, length parts = (n - i)%nat /\ tr = concat parts
    /\ forall j part, parts !! j = Some part -> served b m (i + j) 0 part.

(** What is left to happen, read off the program counter. *)
Definition rest_ok (s : instance) (tr : list label) : Prop :=
  match pc s with
  | AwaitFn i a => exists t1 t2, tr = t1 ++ t2 /\ served (backoffMs s) m i a t1
      /\ served_from (backoffMs s) (fns s) (S i) t2
  | AwaitTimer i a ms => exists t1 t2, tr = LTimer i ms :: t1 ++ t2 /\ served (backoffMs s) m i a t1
      /\ served_from (backoffMs s) (fns s) (S i) t2
  | Finished => tr = []
  end.

(** The program counter stays within its bounds. *)
Definition pc_ok (s : instance) : Prop :=
  retries s = of_Z (Z.of_nat m) /\
  match pc s with
  | AwaitFn i a => (i < fns s)%nat /\ 0 <= a <= Z.of_nat m
  | AwaitTimer i a ms => (i < fns s)%nat /\ 1 <= a <= Z.of_nat m
      /\ ms = mul (backoffMs s) (of_Z (2 ^ (a - 1)))
  | Finished => True
  end.

Lemma enter_for_m todo i : enter_for (of_Z (Z.of_nat m)) todo i = match todo with O => Finished | S _ => AwaitFn i 0 end.
Proof.
  destruct todo; simpl; [done|]. rewrite leb_of_Z by safe_lia.
  by rewrite (proj2 (Z.leb_le _ _)) by lia.
Qed.

Lemma next_fn_m s i : retries s = of_Z (Z.of_nat m) ->
  next_fn s i = if bool_decide (S i < fns s)%nat then AwaitFn (S i) 0 else Finished.
Proof.
  intros E. unfold next_fn. rewrite E, enter_for_m.
  case_bool_decide; destruct (fns s - S i)%nat eqn:Ef; [lia|done|done|lia].
Qed.

Lemma start_ok n b : pc_ok (start n (of_Z (Z.of_nat m)) b).
Proof. split; [done|]. simpl. rewrite enter_for_m. destruct n; [done|]. lia. Qed.

Lemma pc_ok_next s i : retries s = of_Z (Z.of_nat m) -> pc_ok (with_pc (next_fn s i) s).
Proof. intros E. split; [done|]. simpl. rewrite next_fn_m by done. case_bool_decide; lia. Qed.

(** The two outcomes of a rejection. *)
Lemma rejected_cases s i a : retries s = of_Z (Z.of_nat m) -> 0 <= a <= Z.of_nat m ->
  rejected i a s =
    with_pc (if a =? Z.of_nat m then next_fn s i
             else AwaitTimer i (a + 1) (mul (backoffMs s) (of_Z (2 ^ a)))) (call_onError i s).
Proof.
  intros E Ha. unfold rejected. simpl. rewrite E, ltb_of_Z by safe_lia.
  replace (a + 1 - 1) with a by lia. f_equal.
  destruct (Z.ltb_spec (Z.of_nat m) (a + 1)); destruct (Z.eqb_spec a (Z.of_nat m)); first [lia|done].
Qed.

Lemma timer_case s i a : retries s = of_Z (Z.of_nat m) -> 1 <= a <= Z.of_nat m ->
  timer i a s = with_pc (AwaitFn i a) s.
Proof.
  intros E Ha. unfold timer. rewrite E, leb_of_Z by safe_lia.
  by rewrite (proj2 (Z.leb_le _ _)) by lia.
Qed.

Lemma pc_ok_step s l s' : pc_ok s -> instance_step s l s' -> pc_ok s'.
Proof.
  intros [E H] St. destruct St as [s i a un Hp|s i a Hp|s i a ms Hp]; rewrite Hp in H; destruct H as [Hi H].
  - by apply (pc_ok_next (push_unlistener un s) i).
  - rewrite rejected_cases by done. destruct (Z.eqb_spec a (Z.of_nat m)).
    + by apply (pc_ok_next (call_onError i s) i).
    + split; [done|]. simpl. split_and!; [done|lia|lia|]. by replace (a + 1 - 1) with a by lia.
  - destruct H as [Ha ->]. rewrite timer_case by done. split; [done|]. simpl. lia.
Qed.

Lemma served_from_nil b n i : (n <= i)%nat -> served_from b n i [].
Proof. intros H. exists []. split_and!; [simpl; lia|done|done]. Qed.

(** Reaching the head of the [for] loop leaves the later subscriptions. *)
Lemma rest_next s i tr : retries s = of_Z (Z.of_nat m) -> (i < fns s)%nat ->
  rest_ok (with_pc (next_fn s i) s) tr -> served_from (backoffMs s) (fns s) (S i) tr.
Proof.
  intros E Hi. unfold rest_ok. simpl. rewrite next_fn_m by done. case_bool_decide as Hn.
  - intros (t1 & t2 & -> & H1 & parts & Hl & -> & Hp). exists (t1 :: parts). split_and!.
    + simpl. lia.
    + done.
    + intros [|j] part; simpl; [intros [= <-]; by rewrite Nat.add_0_r|].
      intros Hj. rewrite <- Nat.add_succ_comm. by apply Hp.
  - intros ->. apply served_from_nil. lia.
Qed.

Lemma served_fail b i a t : a < Z.of_nat m -> 0 <= a ->
  served b m i (a + 1) t -> served b m i a (LRejected i :: LTimer i (mul b (of_Z (2 ^ a))) :: t).
Proof.
  intros Ha H0 [(k & un & Hk & ->)| ->]; [left; exists (S k), un|right].
  - split; [lia|done].
  - by replace (Z.to_nat (Z.of_nat m - a)) with (S (Z.to_nat (Z.of_nat m - (a + 1)))) by lia.
Qed.

Lemma rest_step s l s' tr : pc_ok s -> instance_step s l s' -> rest_ok s' tr -> rest_ok s (l :: tr).
Proof.
  intros [E H] St R. destruct St as [s i a un Hp|s i a Hp|s i a ms Hp]; rewrite Hp in H;
    destruct H as [Hi H]; unfold rest_ok; rewrite Hp.
  - apply (rest_next (push_unlistener un s)) in R; [|done..]. exists [LResolved i un], tr.
    split_and!; [done| |done]. left. exists O, un. split; [lia|done].
  - rewrite rejected_cases in R by done. destruct (Z.eqb_spec a (Z.of_nat m)) as [->|Hne].
    + apply (rest_next (call_onError i s)) in R; [|done..]. exists [LRejected i], tr.
      split_and!; [done| |done]. right. by rewrite Z.sub_diag.
    + destruct R as (t1 & t2 & -> & H1 & H2). simpl in H1, H2.
      eexists (LRejected i :: LTimer i _ :: t1), t2. split_and!; [done| |done].
      apply served_fail; [lia|lia|done].
  - destruct H as [Ha ->]. rewrite timer_case in R by done. simpl in R.
    destruct R as (t1 & t2 & -> & H1 & H2). by exists t1, t2.
Qed.

Lemma loop_rest s tr s' : loop_runs s tr s' -> pc_ok s -> pc s' = Finished -> rest_ok s tr.
Proof.
  induction 1 as [s|s l s1 tr s2 St _ IH|s tr s2 _ IH]; intros Hok Hf.
  - unfold rest_ok. by rewrite Hf.
  - eapply rest_step; [done|done|]. apply IH; [by eapply pc_ok_step|done].
  - by apply (IH Hok).
Qed.

(** Resumptions left at most. *)
Definition fuel_left (s : instance) : Z :=
  let per := 2 * Z.of_nat m + 1 in
  match pc s with
  | AwaitFn i a => (Z.of_nat (fns s) - Z.of_nat i) * per - 2 * a
  | AwaitTimer i a _ => (Z.of_nat (fns s) - Z.of_nat i) * per - 2 * a + 1
  | Finished => 0
  end.

Lemma fuel_left_nonneg s : pc_ok s -> 0 <= fuel_left s.
Proof. intros [_ H]. unfold fuel_left. destruct (pc s); destruct_and?; nia. Qed.

Lemma fuel_next s i : retries s = of_Z (Z.of_nat m) -> (i < fns s)%nat ->
  fuel_left (with_pc (next_fn s i) s) = (Z.of_nat (fns s) - Z.of_nat i - 1) * (2 * Z.of_nat m + 1).
Proof.
  intros E Hi. unfold fuel_left. simpl. rewrite next_fn_m by done. case_bool_decide; [lia|].
  replace (Z.of_nat (fns s) - Z.of_nat i - 1) with 0 by lia. lia.
Qed.

Lemma fuel_step s l s' : pc_ok s -> instance_step s l s' -> fuel_left s' < fuel_left s.
Proof.
  intros [E H] St. destruct St as [s i a un Hp|s i a Hp|s i a ms Hp]; rewrite Hp in H; destruct H as [Hi H].
  - pose proof (fuel_next (push_unlistener un s) i E Hi) as F.
    apply (Z.le_lt_trans _ _ _ (Z.eq_le_incl _ _ F)). unfold fuel_left. rewrite Hp. simpl. nia.
  - rewrite rejected_cases by done. destruct (Z.eqb_spec a (Z.of_nat m)).
    + pose proof (fuel_next (call_onError i s) i E Hi) as F.
      apply (Z.le_lt_trans _ _ _ (Z.eq_le_incl _ _ F)). unfold fuel_left. rewrite Hp. simpl. nia.
    + unfold fuel_left. rewrite Hp. simpl. lia.
  - rewrite timer_case by tauto. unfold fuel_left. rewrite Hp. simpl. lia.
Qed.

Lemma loop_fuel s tr s' : loop_runs s tr s' -> pc_ok s -> Z.of_nat (length tr) + fuel_left s' <= fuel_left s.
Proof.
  induction 1 as [s|s l s1 tr s2 St _ IH|s tr s2 _ IH]; intros Hok; [simpl; lia| |exact (IH Hok)].
  pose proof (fuel_step _ _ _ Hok St). specialize (IH (pc_ok_step _ _ _ Hok St)). simpl. lia.
Qed.

Lemma loop_pc_ok s tr s' : loop_runs s tr s' -> pc_ok s -> pc_ok s'.
Proof.
  induction 1 as [s|s l s1 tr s2 St _ IH|s tr s2 _ IH]; intros Hok; [done| |exact (IH Hok)].
  by apply IH, (pc_ok_step s l).
Qed.
End Loop.

(** An unfinished loop has a resumption to wait for. *)
Lemma loop_progress s : pc s <> Finished -> exists l s', instance_step s l s'.
Proof.
  destruct (pc s) as [i a|i a ms|] eqn:E; intros H; [| |done].
  - eexists _, _. by eapply (step_rejected s i a).
  - eexists _, _. by eapply step_timer.
Qed.

(** C23. The subscription loop with [m] retries serves the subscriptions in order,
    each exactly once: subscription [i] is attempted until it succeeds, at most
    [m + 1] times, attempt [a + 1] being delayed by [backoffMs * 2^a]; one that
    keeps failing does not keep the later ones from being tried. *)
Theorem subscribe_loop_correct m n b tr s :
  Z.of_nat m + 1 <= 2 ^ 53 ->
  loop_runs (start n (of_Z (Z.of_nat m)) b) tr s -> pc s = Finished ->
  exists parts, length parts = n /\ tr = concat parts
    /\ forall i part, parts !! i = Some part -> served b m i 0 part.
Proof.
  intros Hm Hr Hf. pose proof (loop_rest m Hm _ _ _ Hr (start_ok m Hm n b) Hf) as R.
  unfold rest_ok in R. simpl in R. rewrite enter_for_m in R by done. destruct n as [|n].
  - subst tr. by exists [].
  - destruct R as (t1 & t2 & -> & H1 & parts & Hl & -> & Hp). exists (t1 :: parts).
    split_and!; [simpl in *; lia|done|]. intros [|i] part; simpl; [by intros [= <-]|apply Hp].
Qed.

Lemma subscribe_loop_correct_witness :
  exists parts, length parts = 1%nat /\ [LRejected 0; LTimer 0 (mul (of_Z 500) (of_Z 1)); LResolved 0 7] = concat parts
    /\ forall i part, parts !! i = Some part -> served (of_Z 500) 2 i 0 part.
Proof.
  set (b := of_Z 500). set (s0 := start 1 (of_Z 2) b). set (s1 := rejected 0 0 s0).
  set (s2 := timer 0 1 s1).
  assert (E0 : pc s0 = AwaitFn 0 0) by (apply (enter_for_m 2); lia).
  assert (E1 : s1 = with_pc (AwaitTimer 0 1 (mul b (of_Z 1))) (call_onError 0 s0))
    by (apply (rejected_cases 2); [lia|reflexivity|lia]).
  assert (E2 : s2 = with_pc (AwaitFn 0 1) s1)
    by (apply (timer_case 2); [lia|by rewrite E1|lia]).
  apply (subscribe_loop_correct 2 1 b _ (resolved 0 7 s2)); [lia| |reflexivity].
  eapply runs_step; [by apply (step_rejected s0 0 0)|].
  eapply runs_step; [apply (step_timer s1 0 1); by rewrite E1|].
  eapply runs_step; [apply (step_resolved s2 0 1); by rewrite E2|]. apply runs_refl.
Defined.

(** The loop ends: whatever the back end answers and whenever the cleanup
    comes, no run of it resumes more than [n * (2 * m + 1)] times, and as long as
    it is not past its end there is a resumption it waits for. *)
Theorem subscribe_loop_ends m n b tr s :
  Z.of_nat m + 1 <= 2 ^ 53 ->
  loop_runs (start n (of_Z (Z.of_nat m)) b) tr s ->
  (length tr <= n * (2 * m + 1))%nat /\ (pc s <> Finished -> exists l s', instance_step s l s').
Proof.
  intros Hm Hr. split; [|apply loop_progress].
  pose proof (loop_fuel m Hm _ _ _ Hr (start_ok m Hm n b)) as F.
  pose proof (fuel_left_nonneg m s (loop_pc_ok m Hm _ _ _ Hr (start_ok m Hm n b))).
  unfold fuel_left in F at 2. simpl in F. rewrite enter_for_m in F by done. destruct n; simpl in F; lia.
Qed.

Lemma subscribe_loop_ends_witness :
  (0 <= 4 * (2 * 3 + 1))%nat /\
  (pc (start 4 (of_Z 3) (of_Z 600)) <> Finished -> exists l s', instance_step (start 4 (of_Z 3) (of_Z 600)) l s').
Proof.
  apply (subscribe_loop_ends 3 4 (of_Z 600) []); [lia|]. apply runs_refl.
Defined.

(** ** The hook *)

Definition unlisteners_of (h : hook) (j : nat) : list nat :=
  match instances h !! j with Some s => unlisteners s | None => [] end.

Definition current_unlisteners (h : hook) : gset nat :=
  match current h with Some j => list_to_set (unlisteners_of h j) | None => ∅ end.

(** Invariant of calm histories: old runs are over, the current one owns the
    registered listeners. *)
Record calm_inv (h : hook) : Prop := {
  ci_old : forall j s, instances h !! j = Some s -> current h <> Some j -> pc s = Finished;
  ci_current : forall j, current h = Some j ->
    exists s, instances h !! j = Some s /\ cancelled s = false;
  ci_table : table h = current_unlisteners h;
  ci_last : last h = None -> current h = None;
}.

Lemma calm_cleanup h : calm_inv h -> settled h -> calm_inv (cleanup h) /\ table (cleanup h) = ∅ /\ current (cleanup h) = None.
Proof.
  intros [Ho Hc Ht Hl] Hs. unfold cleanup. destruct (current h) as [j|] eqn:E.
  - destruct (Hc j eq_refl) as (s & Hj & Hcan). rewrite Hj.
    assert (table h ∖ list_to_set (unlisteners s) = ∅) as T.
    { rewrite Ht. unfold current_unlisteners, unlisteners_of. rewrite E, Hj. set_solver. }
    split_and!; [|done|done]. split; simpl; [|done|done|done].
    intros k s' Hk _. apply list_lookup_insert_Some in Hk as [(-> & <- & _)|[Hne Hk]].
    + by apply (Hs k s).
    + apply (Ho k s' Hk). congruence.
  - split_and!; [split; [by rewrite E|by rewrite E|done|done]| |done].
    rewrite Ht. unfold current_unlisteners. by rewrite E.
Qed.

Lemma calm_set_last l h : calm_inv h -> (l = None -> current h = None) -> calm_inv (set_last l h).
Proof. by intros [Ho Hc Ht Hl] H. Qed.

Lemma calm_run_effect a h : calm_inv h -> table h = ∅ -> current h = None ->
  calm_inv (set_last (Some a) (run_effect a h)).
Proof.
  intros [Ho Hc Ht Hl] T E. unfold run_effect.
  destruct (active a); [|by apply calm_set_last]. split; simpl; [..|done].
  - intros j s Hj Hne. apply lookup_app_Some in Hj as [Hj|[Hle Hj]]; [by apply (Ho j s); rewrite ?E|].
    apply list_lookup_singleton_Some in Hj as [Hj _]. destruct Hne. f_equal. lia.
  - intros j [= <-]. rewrite lookup_app_r, Nat.sub_diag by done. by eexists.
  - rewrite T. unfold current_unlisteners, unlisteners_of. simpl.
    rewrite lookup_app_r, Nat.sub_diag by done. done.
Qed.

Lemma calm_deliver h j s l s' : calm_inv h -> instances h !! j = Some s -> instance_step s l s' ->
  calm_inv (deliver j (registered l) s' h).
Proof.
  intros [Ho Hc Ht Hl] Hj St.
  assert (current h = Some j) as E.
  { destruct (decide (current h = Some j)) as [|Hne]; [done|]. specialize (Ho j s Hj Hne).
    destruct St; congruence. }
  destruct (Hc j E) as (s0 & Hj' & Hcan). rewrite Hj in Hj'. injection Hj' as <-.
  assert (j < length (instances h))%nat by (by eapply lookup_lt_Some).
  assert (unlisteners s' = unlisteners s ++ match registered l with Some un => [un] | None => [] end
          /\ cancelled s' = false) as [Eu Ec].
  { destruct St; simpl; rewrite ?Hcan, ?app_nil_r; done. }
  split; simpl.
  - intros k t Hk Hne. apply list_lookup_insert_Some in Hk as [(-> & _ & _)|[_ Hk]]; [congruence|].
    by apply (Ho k t).
  - intros k Hk. exists s'. rewrite E in Hk. injection Hk as <-. by rewrite list_lookup_insert_eq.
  - rewrite Ht. unfold current_unlisteners, unlisteners_of. simpl. rewrite E, Hj.
    rewrite list_lookup_insert_eq by done. rewrite Eu.
    destruct (registered l); set_solver.
  - auto.
Qed.

Lemma calm_inv_reachable h : calmly_reachable h -> calm_inv h.
Proof.
  apply (rtc_ind_r calm_inv initial); [by split|]. intros h1 h2 _ St IH.
  destruct St as [h1 a Hs|h1 Hs|h1 j s l s' Hj St _].
  - destruct (calm_cleanup h1 IH Hs) as (IH' & T & E). unfold render.
    destruct (last h1) as [b|] eqn:El; [case_bool_decide; [by apply calm_set_last|by apply calm_run_effect]|].
    pose proof (ci_last _ IH El) as Ec. apply calm_run_effect; [done| |done].
    rewrite (ci_table _ IH). unfold current_unlisteners. by rewrite Ec.
  - destruct (calm_cleanup h1 IH Hs) as (IH' & T & E). by apply calm_set_last.
  - by eapply calm_deliver.
Qed.

(** When no cleanup cuts a loop short, the registered listeners are exactly
    those of the current run, and unmounting leaves none behind. *)
Theorem calm_history_no_leak h : calmly_reachable h ->
  table h = current_unlisteners h /\ (settled h -> table (unmount h) = ∅).
Proof.
  intros Hr. pose proof (calm_inv_reachable h Hr) as Hi. split; [apply Hi|]. intros Hs.
  by apply (calm_cleanup h Hi Hs).
Qed.

(** Every identifier in use was handed out. *)
Definition ids_inv (h : hook) : Prop :=
  forall j s u, instances h !! j = Some s -> u ∈ unlisteners s -> (u < next h)%nat.

Lemma instance_step_unlisteners s l s' u : instance_step s l s' -> u ∈ unlisteners s' ->
  u ∈ unlisteners s \/ (registered l = Some u /\ cancelled s = false).
Proof. destruct 1; simpl; [|auto..]. destruct (cancelled s); set_solver. Qed.

(** No step but the registration itself gives a listener to a run. *)
Lemma step_unlisteners h h' j s' u : step h h' -> instances h' !! j = Some s' -> u ∈ unlisteners s' ->
  (exists s, instances h !! j = Some s /\ u ∈ unlisteners s) \/ (u = next h /\ next h' = S (next h)).
Proof.
  assert (Hcl : forall h j s', instances (cleanup h) !! j = Some s' -> u ∈ unlisteners s' ->
            exists s, instances h !! j = Some s /\ u ∈ unlisteners s).
  { intros g k t. unfold cleanup. destruct (current g) as [c|]; [|eauto].
    destruct (instances g !! c) eqn:Ec; [|eauto]. simpl.
    intros [(-> & <- & _)|[_ Hk]]%list_lookup_insert_Some; simpl; [set_solver|eauto]. }
  assert (Hre : forall h a, instances (run_effect a h) !! j = Some s' -> u ∈ unlisteners s' ->
            exists s, instances h !! j = Some s /\ u ∈ unlisteners s).
  { intros g a. unfold run_effect. destruct (active a); [simpl|eauto].
    intros [Hk|[_ Hk]]%lookup_app_Some; [eauto|].
    apply list_lookup_singleton_Some in Hk as [_ <-]. simpl. set_solver. }
  intros St Hj Hu. destruct St as [h a|h|h k s l t Hk St Hf].
  - left. unfold render in Hj. simpl in Hj. destruct (last h); [case_bool_decide; [eauto|]|eauto].
    destruct (Hre _ _ Hj Hu) as (s1 & H1 & H2). eauto.
  - left. eauto.
  - simpl in Hj. apply list_lookup_insert_Some in Hj as [(-> & <- & _)|[_ Hj]]; [|eauto].
    destruct (instance_step_unlisteners _ _ _ _ St Hu) as [|[E _]]; [eauto|].
    right. unfold fresh in Hf. simpl. rewrite E in *. by subst.
Qed.

Lemma cleanup_next h : next (cleanup h) = next h.
Proof. unfold cleanup. destruct (current h); [|done]. by destruct (instances h !! _). Qed.

Lemma run_effect_next a h : next (run_effect a h) = next h.
Proof. unfold run_effect. by destruct (active a). Qed.

Lemma run_effect_table a h : table (run_effect a h) = table h.
Proof. unfold run_effect. by destruct (active a). Qed.

Lemma step_next h h' : step h h' -> (next h <= next h')%nat.
Proof.
  destruct 1 as [h a|h|h j s l s' _ _ _]; simpl.
  - destruct (last h); [case_bool_decide|]; rewrite ?run_effect_next, ?cleanup_next; lia.
  - by rewrite cleanup_next.
  - destruct (registered l); lia.
Qed.

Lemma ids_inv_reachable h : reachable h -> ids_inv h.
Proof.
  apply (rtc_ind_r ids_inv initial); [done|]. intros h1 h2 _ St IH j s u Hj Hu.
  destruct (step_unlisteners _ _ _ _ _ St Hj Hu) as [(t & Ht & Hu')|[-> E]]; [|lia].
  pose proof (step_next _ _ St). specialize (IH j t u Ht Hu'). lia.
Qed.

(** A registered listener that no cleanup will ever remove. *)
Definition orphan (u : nat) (h : hook) : Prop :=
  u ∈ table h /\ (u < next h)%nat /\ forall j s, instances h !! j = Some s -> u ∉ unlisteners s.

Lemma orphan_cleanup_table u h : orphan u h -> u ∈ table (cleanup h).
Proof.
  intros (Ht & _ & Hu). unfold cleanup. destruct (current h) as [j|]; [|done].
  destruct (instances h !! j) as [s|] eqn:E; [|done]. specialize (Hu j s E). set_solver.
Qed.

Lemma orphan_step u h h' : step h h' -> orphan u h -> orphan u h'.
Proof.
  intros St Ho. pose proof (orphan_cleanup_table u h Ho). destruct Ho as (Ht & Hn & Hu). split_and!.
  - destruct St as [h a|h|h j s l s' _ _ _]; simpl; [|done|destruct (registered l); set_solver].
    destruct (last h); [case_bool_decide|]; by rewrite ?run_effect_table.
  - pose proof (step_next _ _ St). lia.
  - intros j s Hj Hin. destruct (step_unlisteners _ _ _ _ _ St Hj Hin) as [(t & Hk & Hin')|[-> _]]; [|lia].
    by apply (Hu j t).
Qed.

Lemma orphan_steps u h h' : rtc step h h' -> orphan u h -> orphan u h'.
Proof. induction 1 as [|h0 h1 h2 St _ IH]; [done|]. intros Ho. by eapply IH, orphan_step. Qed.

Lemma cancelled_leak h j s i a h' :
  reachable h -> instances h !! j = Some s -> cancelled s = true -> pc s = AwaitFn i a ->
  rtc step (deliver j (Some (next h)) (resolved i (next h) s) h) h' ->
  next h ∈ table h'.
Proof.
  intros Hr Hj Hc Hp Hs. pose proof (ids_inv_reachable h Hr) as Hi.
  assert (orphan (next h) (deliver j (Some (next h)) (resolved i (next h) s) h)) as Ho.
  { split_and!; simpl; [set_solver|lia|]. intros k t Hk Hin.
    apply list_lookup_insert_Some in Hk as [(-> & <- & _)|[_ Hk]].
    - simpl in Hin. rewrite Hc in Hin. specialize (Hi k s _ Hj Hin). lia.
    - specialize (Hi k t _ Hk Hin). lia. }
  by apply (orphan_steps _ _ _ Hs Ho).
Qed.

(** A cleanup that comes while a subscription is awaited leaks it: the
    listener it then resolves to is registered, belongs to no run, and stays
    registered whatever happens later, the unmounting included. *)
Theorem cancelled_subscription_leaks h j s i a h' :
  reachable h -> instances h !! j = Some s -> cancelled s = true -> pc s = AwaitFn i a ->
  rtc step (deliver j (Some (next h)) (resolved i (next h) s) h) h' ->
  next h ∈ table h'.
Proof. apply cancelled_leak. Qed.

(** Two renders of the application: the second one, with new references, cancels
    the run of the first while its first subscription is awaited. *)
Definition after_two_renders : hook :=
  render (App_args true 2 3) (render (App_args true 0 1) initial).

Lemma after_two_renders_reachable : reachable after_two_renders.
Proof. eapply rtc_l; [apply step_render|]. eapply rtc_l; [apply step_render|]. apply rtc_refl. Qed.

Lemma after_two_renders_first :
  instances after_two_renders !! 0%nat = Some (cancel (start 4 (of_Z 3) (of_Z 600))).
Proof. reflexivity. Qed.

Lemma start_awaits : pc (cancel (start 4 (of_Z 3) (of_Z 600))) = AwaitFn 0 0.
Proof. apply (enter_for_m 3). lia. Qed.

Lemma cancelled_subscription_leaks_witness :
  0%nat ∈ table (unmount (deliver 0 (Some 0%nat)
                            (resolved 0 0 (cancel (start 4 (of_Z 3) (of_Z 600)))) after_two_renders)).
Proof.
  apply (cancelled_subscription_leaks after_two_renders 0 (cancel (start 4 (of_Z 3) (of_Z 600))) 0 0).
  - apply after_two_renders_reachable.
  - apply after_two_renders_first.
  - reflexivity.
  - apply start_awaits.
  - apply rtc_once, step_unmount.
Defined.

(** The application passes a new array and a new callback on every render, so
    every render with the back end present ends the current run and starts all
    four subscriptions again; nothing is kept across renders. *)
Theorem App_resubscribes_every_render h f o f' o' j s :
  last h = Some (App_args true f o) -> current h = Some j -> instances h !! j = Some s -> f <> f' ->
  let h' := render (App_args true f' o') h in
  instances h' !! j = Some (cancel s)
  /\ current h' = Some (length (instances h))
  /\ instances h' !! length (instances h) = Some (start 4 (of_Z 3) (of_Z 600)).
Proof.
  intros Hl Hc Hj Hf. assert (j < length (instances h))%nat by (by eapply lookup_lt_Some).
  unfold render. rewrite Hl. rewrite bool_decide_false
    by (intros E; apply Hf; exact (f_equal (fun d => d.1.1.1.2) E)).
  unfold cleanup. rewrite Hc, Hj. simpl. rewrite length_insert. split_and!; [|done|].
  - rewrite lookup_app_l by (by rewrite length_insert). by apply list_lookup_insert_eq.
  - by rewrite lookup_app_r, length_insert, Nat.sub_diag by (by rewrite length_insert).
Qed.

Lemma App_resubscribes_every_render_witness :
  let h' := after_two_renders in
  instances h' !! 0%nat = Some (cancel (start 4 (of_Z 3) (of_Z 600)))
  /\ current h' = Some 1%nat
  /\ instances h' !! 1%nat = Some (start 4 (of_Z 3) (of_Z 600)).
Proof.
  apply (App_resubscribes_every_render (render (App_args true 0 1) initial) 0 1 2 3 0
           (start 4 (of_Z 3) (of_Z 600))); [reflexivity..|lia].
Defined.

(** The calm history of the witness: one render whose loop runs to its end. *)
Definition calm_example : hook :=
  let h1 := render {| active := true; subscribeFns := 0; subscribeFns_length := 1; onError := None;
                      opt_retries := None; opt_backoffMs := None |} initial in
  deliver 0 (Some 0%nat) (resolved 0 0 (start 1 (of_Z 2) (of_Z 500))) h1.

Lemma calm_example_reachable : calmly_reachable calm_example.
Proof.
  eapply rtc_l; [by apply calm_render|]. eapply rtc_l; [|apply rtc_refl].
  eapply (calm_instance _ 0 (start 1 (of_Z 2) (of_Z 500)) (LResolved 0 0)); [reflexivity| |reflexivity].
  apply (step_resolved _ 0 0). apply (enter_for_m 2). lia.
Qed.

Lemma calm_history_no_leak_witness :
  table calm_example = current_unlisteners calm_example
  /\ (settled calm_example -> table (unmount calm_example) = ∅).
Proof. apply (calm_history_no_leak calm_example), calm_example_reachable. Defined.
