(* ===== verification/Highlight.v ===== *)
(** * utils/highlight.tsx: marking the query in a text

    [String.prototype.split] with a regular expression follows the standard's
    algorithm over a sticky matcher.  The two escaping modes build a pattern
    text; [parse_group] reads the fragment of the pattern grammar they stay in
    (one group of alternatives of literal characters), so that the escaping is
    part of what is verified.  Patterns typed by the user (the /.../ mode) are
    compiled by an engine that is a parameter, and so are the Unicode case
    tables. *)

From S2P Require Import Prelude JsNumber JsString.
#[local] Open Scope Z_scope.

(** ** Case tables *)

(** [canonicalize]: the code unit under which the [i] flag compares;
    [toLowerCase]: the string method. *)
Class CaseTables := {
  canonicalize : Z -> Z;
  toLowerCase : jsstr -> jsstr;
}.

(** The two agree on the strings over [dom]. *)
Class CaseAgree (C : CaseTables) (dom : Z -> Prop) : Prop := {
  case_agree : forall s t, Forall dom s -> Forall dom t ->
    (map canonicalize s = map canonicalize t <-> toLowerCase s = toLowerCase t);
}.

(** ** Regular expressions *)

(** A sticky matcher: [exec s q] is the end of the match at [q] and its capture
    groups. *)
Definition matcher : Type := jsstr -> nat -> option (nat * list (option jsstr)).

Definition piece (s : jsstr) (p q : nat) : jsstr := take (q - p) (drop p s).

(** AdvanceStringIndex: with the [u] flag a surrogate pair is one step. *)
Definition advance (unicode : bool) (s : jsstr) (q : nat) : nat :=
  match s !! q, s !! S q with
  | Some c, Some d =>
      if unicode && ((55296 <=? c) && (c <=? 56319)) && ((56320 <=? d) && (d <=? 57343))
      then S (S q) else S q
  | _, _ => S q
  end.

(** The loop of RegExp.prototype[Symbol.split], from the end [p] of the last
    match and the position [q]. *)
Fixpoint split_loop (u : bool) (exec : matcher) (fuel : nat) (s : jsstr) (p q : nat) : list (option jsstr) :=
  match fuel with
  | O => [Some (drop p s)]
  | S fuel' =>
      if bool_decide (q < length s)%nat then
        match exec s q with
        | None => split_loop u exec fuel' s p (advance u s q)
        | Some (e, captures) =>
            let e := Nat.min e (length s) in
            if bool_decide (e = p) then split_loop u exec fuel' s p (advance u s q)
            else Some (piece s p q) :: captures ++ split_loop u exec fuel' s e e
        end
      else [Some (drop p s)]
  end.

(** [s.split(re)].  Each position is visited at most twice. *)
Definition split_re (u : bool) (exec : matcher) (s : jsstr) : list (option jsstr) :=
  match s with
  | [] => match exec [] O with Some _ => [] | None => [Some []] end
  | _ => split_loop u exec (S (2 * length s)) s 0 0
  end.

(** [/\s+/]: the maximal run of white space at [q]. *)
Fixpoint space_run (s : jsstr) : nat :=
  match s with c :: s' => if is_space c then S (space_run s') else O | [] => O end.
Definition match_spaces : matcher := fun s q =>
  match space_run (drop q s) with O => None | n => Some ((q + n)%nat, []) end.

(** ** Literal patterns *)

(** [.*+?^${}()|[\]\]. *)
Definition syntax_char (c : Z) : bool :=
  existsb (Z.eqb c) (js ".*+?^${}()|[]\").

(** [t.replace(/[.*+?^${}()|[\]\\]/g, '\\$&')]. *)
Fixpoint escape (t : jsstr) : jsstr :=
  match t with
  | [] => []
  | c :: t' => (if syntax_char c then js "\" ++ [c] else [c]) ++ escape t'
  end.

(** The part of a pattern up to the closing parenthesis of its only group, as a
    list of alternatives of literal characters: [\c] for a syntax character is
    that character, [|] separates, other characters stand for themselves. *)
Fixpoint parse_alternatives (fuel : nat) (p : jsstr) (cur : jsstr) : option (list jsstr) :=
  match fuel with
  | O => None
  | S fuel' =>
      match p with
      | [] => None
      | c :: p' =>
          if c =? 92 (* \ *) then
            match p' with
            | d :: p'' => if syntax_char d then parse_alternatives fuel' p'' (cur ++ [d]) else None
            | [] => None
            end
          else if c =? 124 (* | *) then
            match parse_alternatives fuel' p' [] with Some l => Some (cur :: l) | None => None end
          else if c =? 41 (* close *) then match p' with [] => Some [cur] | _ => None end
          else if syntax_char c then None
          else parse_alternatives fuel' p' (cur ++ [c])
      end
  end.

Definition parse_group (p : jsstr) : option (list jsstr) :=
  match p with
  | c :: p' => if c =? 40 (* open *) then parse_alternatives (S (length p')) p' [] else None
  | [] => None
  end.

Section Highlight.
Context {C : CaseTables}.

Fixpoint prefix_ci (t s : jsstr) : bool :=
  match t, s with
  | [], _ => true
  | a :: t', b :: s' => (canonicalize a =? canonicalize b) && prefix_ci t' s'
  | _ :: _, [] => false
  end.

(** [(alt1|alt2|...)] with the flag [i]: the first alternative that matches. *)
Definition match_alternatives (alts : list jsstr) : matcher := fun s q =>
  match find (fun t => prefix_ci t (drop q s)) alts with
  | Some t => Some ((q + length t)%nat, [Some (piece s q (q + length t))])
  | None => None
  end.

(** ** What is displayed *)

Inductive view :=
| Plain (text : jsstr)
| Pieces (l : list (bool * option jsstr)).  (* true: <mark>; None: undefined *)

Definition shown (v : view) : jsstr :=
  match v with
  | Plain t => t
  | Pieces l => concat (map (fun p => default [] (snd p)) l)
  end.

(** An undefined piece would throw in [p.toLowerCase()]. *)
Definition mark_pieces (terms : list jsstr) (parts : list (option jsstr)) : option view :=
  ps ← mapM (fun x => x) parts;
  Some (Pieces (map (fun p =>
    (existsb (fun t => bool_decide (toLowerCase p = toLowerCase t)) terms, Some p)) ps)).

(** [new RegExp(pattern, 'gi')] for a pattern of the literal fragment, the
    split and the marking; [None] outside the fragment. *)
Definition highlight_terms (text pattern : jsstr) (terms : list jsstr) : option view :=
  match parse_group pattern with
  | Some alts => mark_pieces terms (split_re false (match_alternatives alts) text)
  | None => None
  end.

(** The phrase between the outer quotation marks, [quoted[1]]. *)
Definition quoted (q : jsstr) : option jsstr :=
  match q with
  | c :: rest =>
      match reverse rest with
      | d :: mid => if (c =? 34) && (d =? 34) then Some (reverse mid) else None
      | [] => None
      end
  | [] => None
  end.

Definition line_terminator (c : Z) : bool := (c =? 10) || (c =? 13) || (c =? 8232) || (c =? 8233).

(** A query that starts with a slash and has another: [regexMatch[1]] is what
    precedes the last slash, [regexMatch[2]] what follows it; the dot of the
    pattern matches no line terminator. *)
Definition regexMatch (q : jsstr) : option (jsstr * jsstr) :=
  match q with
  | c :: rest =>
      let i := lastIndexOf rest 47 in
      if (c =? 47) && (0 <=? i) && forallb (fun d => negb (line_terminator d)) rest
      then Some (take (Z.to_nat i) rest, drop (S (Z.to_nat i)) rest) else None
  | [] => None
  end.

Definition or_i (s : jsstr) : jsstr := if truthy s then s else js "i".
Definition safe_flags (flags : jsstr) : jsstr :=
  or_i (filterb (fun c => existsb (Z.eqb c) (js "gimsuy")) (or_i flags)).

(** [terms]: the words of the query. *)
Definition query_terms (q : jsstr) : option (list jsstr) :=
  ps ← mapM (fun x => x) (split_re false match_spaces q);
  Some (filterb truthy (map trim ps)).

(** The default mode. *)
Definition highlight_words (text q : jsstr) : option view :=
  terms ← query_terms q;
  match terms with
  | [] => Some (Plain text)
  | _ => highlight_terms text (js "(" ++ join (js "|") (map escape terms) ++ js ")") terms
  end.

(** The quoted mode. *)
Definition highlight_phrase (text phrase : jsstr) : option view :=
  if truthy phrase then highlight_terms text (js "(" ++ escape phrase ++ js ")") [phrase]
  else Some (Plain text).

(** [new RegExp(pattern, flags)]: [None] when it throws. *)
Context (compile : jsstr -> jsstr -> option matcher).

(** The position of the first match at or after [q]. *)
Fixpoint search_from (u : bool) (exec : matcher) (fuel : nat) (s : jsstr) (q : nat) : option nat :=
  match fuel with
  | O => None
  | S fuel' =>
      if bool_decide (q <= length s)%nat then
        match exec s q with Some (e, _) => Some e | None => search_from u exec fuel' s (advance u s q) end
      else None
  end.

(** [re.test(p)] with the [lastIndex] the [g] and [y] flags keep. *)
Definition test_re (flags : jsstr) (exec : matcher) (lastIndex : nat) (p : option jsstr) : bool * nat :=
  let s := default (js "undefined") p in
  let sticky := existsb (Z.eqb 121) flags in
  let keeps := existsb (Z.eqb 103) flags || sticky in
  let from := if keeps then lastIndex else O in
  if bool_decide (length s < from)%nat then (false, if keeps then O else lastIndex)
  else match search_from (existsb (Z.eqb 117) flags) exec (if sticky then 1 else S (length s - from)) s from with
       | Some e => (true, if keeps then e else lastIndex)
       | None => (false, if keeps then O else lastIndex)
       end.

Fixpoint test_parts (flags : jsstr) (exec : matcher) (lastIndex : nat) (parts : list (option jsstr))
  : list (bool * option jsstr) :=
  match parts with
  | [] => []
  | p :: rest =>
      let '(b, lastIndex') := test_re flags exec lastIndex p in
      (b, p) :: test_parts flags exec lastIndex' rest
  end.

(** The regular-expression mode; [None]: the construction threw. *)
Definition highlight_regex (text pattern flags : jsstr) : option view :=
  match compile (js "(" ++ pattern ++ js ")") (safe_flags flags) with
  | Some exec => Some (Pieces (test_parts (safe_flags flags) exec 0
      (split_re (existsb (Z.eqb 117) (safe_flags flags)) exec text)))
  | None => None
  end.

(** [highlight(text, q)]. *)
Definition highlight (text q : jsstr) : option view :=
  if truthy q then
    match quoted q with
    | Some phrase => highlight_phrase text phrase
    | None =>
        match regexMatch q with
        | Some (pattern, flags) =>
            match highlight_regex text pattern flags with
            | Some v => Some v
            | None => highlight_words text q
            end
        | None => highlight_words text q
        end
    end
  else Some (Plain text).
End Highlight.

(** ** Escaping and the pattern grammar *)

Lemma syntax_char_false c : syntax_char c = false -> c <> 92 /\ c <> 124 /\ c <> 41.
Proof. intros H. split_and!; intros ->; vm_compute in H; done. Qed.

(** Reading back an escaped term takes one step per character. *)
Lemma parse_escape t f rest cur :
  parse_alternatives (length t + f) (escape t ++ rest) cur = parse_alternatives f rest (cur ++ t).
Proof.
  revert cur. induction t as [|c t IH]; intros cur; cbn [length Nat.add escape]; [by rewrite app_nil_r|].
  destruct (syntax_char c) eqn:Hc.
  - change (js "\") with [92]. simpl. rewrite Hc, IH. by rewrite <- app_assoc.
  - destruct (syntax_char_false c Hc) as (H1 & H2 & H3). simpl.
    rewrite (proj2 (Z.eqb_neq _ _) H1), (proj2 (Z.eqb_neq _ _) H2), (proj2 (Z.eqb_neq _ _) H3), Hc, IH.
    by rewrite <- app_assoc.
Qed.

Lemma parse_more f f' p cur l : (f <= f')%nat ->
  parse_alternatives f p cur = Some l -> parse_alternatives f' p cur = Some l.
Proof.
  revert f' p cur l. induction f as [|f IH]; intros [|f'] p cur l Hf; simpl; try done; [lia|].
  assert (f <= f')%nat by lia.
  destruct p as [|c p]; [done|]. destruct (c =? 92).
  { destruct p as [|d p]; [done|]. destruct (syntax_char d); [by apply IH|done]. }
  destruct (c =? 124).
  { destruct (parse_alternatives f p []) as [l'|] eqn:E; [|done]. by rewrite (IH f' _ _ _ ltac:(lia) E). }
  destruct (c =? 41); [done|]. destruct (syntax_char c); [done|by apply IH].
Qed.

(** The number of characters to read back. *)
Definition steps_of (terms : list jsstr) : nat := sum_list_with (fun t => S (length t)) terms.

Lemma parse_join t terms :
  parse_alternatives (steps_of (t :: terms)) (join (js "|") (map escape (t :: terms)) ++ js ")") []
  = Some (t :: terms).
Proof.
  revert t. induction terms as [|t' terms IH]; intros t.
  - change (steps_of [t]) with (S (length t) + 0)%nat. rewrite Nat.add_succ_comm.
    change (join (js "|") (map escape [t])) with (escape t). by rewrite parse_escape.
  - change (steps_of (t :: t' :: terms)) with (S (length t) + steps_of (t' :: terms))%nat.
    rewrite Nat.add_succ_comm. cbn [map]. rewrite join_cons by done. rewrite <- !app_assoc.
    rewrite parse_escape. change (js "|") with [124]. cbn [app parse_alternatives].
    change (124 =? 92) with false. change (124 =? 124) with true. cbv iota.
    specialize (IH t'). cbn [map] in IH. change (js "|") with [124] in IH. by rewrite IH.
Qed.

Lemma escape_length t : (length t <= length (escape t))%nat.
Proof. induction t as [|c t IH]; simpl; [done|]. destruct (syntax_char c); simpl; lia. Qed.

Lemma steps_of_bound t terms :
  (steps_of (t :: terms) <= S (length (join (js "|") (map escape (t :: terms)))))%nat.
Proof.
  revert t. induction terms as [|t' terms IH]; intros t; unfold steps_of in *; simpl.
  - pose proof (escape_length t). lia.
  - cbn [map] in IH. specialize (IH t'). rewrite !length_app. pose proof (escape_length t). simpl in *. lia.
Qed.

(** The pattern built from terms denotes exactly those terms. *)
Lemma parse_group_terms t terms :
  parse_group (js "(" ++ join (js "|") (map escape (t :: terms)) ++ js ")") = Some (t :: terms).
Proof.
  unfold parse_group. change (js "(") with [40]. cbn [app]. change (40 =? 40) with true. cbv iota.
  eapply parse_more; [|apply parse_join]. rewrite length_app. pose proof (steps_of_bound t terms).
  change (length (js ")")) with 1%nat. lia.
Qed.

(** ** Splitting *)

Section Split.
Context (exec : matcher) (s : jsstr).

(** [segmented p l]: from [p] on, [l] is the text up to the next match, the
    captures of that match, and so on to the end. *)
Inductive segmented : nat -> list (option jsstr) -> Prop :=
| seg_end p : (p <= length s)%nat -> (forall k, (p <= k < length s)%nat -> exec s k = None) ->
    segmented p [Some (drop p s)]
| seg_match p q e captures l :
    (p <= q < length s)%nat -> (forall k, (p <= k < q)%nat -> exec s k = None) ->
    exec s q = Some (e, captures) -> segmented e l ->
    segmented p (Some (piece s p q) :: captures ++ l).

(** Matches lie in the text and are not empty. *)
Context (Hexec : forall q e captures, exec s q = Some (e, captures) -> (q < e <= length s)%nat).

Lemma advance_false q : advance false s q = S q.
Proof. unfold advance. by destruct (s !! q), (s !! S q). Qed.

Lemma split_loop_segmented fuel p q :
  (length s - q < fuel)%nat -> (p <= q <= length s)%nat ->
  (forall k, (p <= k < q)%nat -> exec s k = None) -> segmented p (split_loop false exec fuel s p q).
Proof.
  revert p q. induction fuel as [|fuel IH]; intros p q Hf Hq Hk; [lia|]. simpl.
  case_bool_decide as Hlt; [|apply seg_end; [lia|intros; apply Hk; lia]].
  destruct (exec s q) as [[e caps]|] eqn:E.
  - destruct (Hexec _ _ _ E). rewrite Nat.min_l by lia. rewrite bool_decide_false by lia.
    eapply seg_match; [lia|done|done|]. apply IH; lia.
  - rewrite advance_false. apply IH; [lia|lia|]. intros k Hk'.
    destruct (decide (k = q)) as [->|]; [done|apply Hk; lia].
Qed.

End Split.

Lemma split_re_segmented exec s :
  (forall q e captures, exec s q = Some (e, captures) -> (q < e <= length s)%nat) ->
  segmented exec s 0 (split_re false exec s).
Proof.
  intros Hexec.
  unfold split_re. destruct s as [|c s']; [|apply split_loop_segmented; simpl in *; auto with lia].
  destruct (exec [] O) as [[e caps]|] eqn:E; [|apply (seg_end exec [] 0); simpl; lia].
  apply Hexec in E. simpl in E. lia.
Qed.


(** ** Pieces *)

Lemma piece_drop s p q : (p <= q)%nat -> piece s p q ++ drop q s = drop p s.
Proof.
  intros H. unfold piece. rewrite <- (take_drop (q - p) (drop p s)) at 2. f_equal.
  rewrite drop_drop. f_equal. lia.
Qed.

Lemma piece_lookup s p q k c : piece s p q !! k = Some c -> s !! (p + k)%nat = Some c /\ (p + k < q)%nat.
Proof.
  unfold piece. intros H. pose proof (lookup_lt_Some _ _ _ H) as Hl. rewrite length_take in Hl.
  rewrite lookup_take_lt in H by lia. rewrite lookup_drop in H. split; [done|lia].
Qed.

Lemma piece_length s p q : (p <= q <= length s)%nat -> length (piece s p q) = (q - p)%nat.
Proof. intros H. unfold piece. rewrite length_take, length_drop. lia. Qed.

(** When every match is captured whole, the pieces make up the text. *)
Lemma segmented_concat exec s p l : segmented exec s p l ->
  (forall q e captures, exec s q = Some (e, captures) ->
     (q <= e)%nat /\ captures = [Some (piece s q e)]) ->
  exists ps, l = map Some ps /\ concat ps = drop p s.
Proof.
  intros Hs H. induction Hs as [p Hp Hn|p q e captures l Hq Hn E _ (ps & -> & Hc)].
  - exists [drop p s]. simpl. by rewrite app_nil_r.
  - destruct (H _ _ _ E) as [He ->]. exists (piece s p q :: piece s q e :: ps). split; [done|].
    simpl. rewrite Hc, piece_drop by lia. apply piece_drop. lia.
Qed.

Lemma mapM_Some_id {A} (l : list A) : mapM (fun x => x) (map Some l) = Some l.
Proof. induction l as [|x l IH]; simpl; [done|]. by rewrite IH. Qed.

(** ** The words of a query *)

Lemma space_run_spec s : exists w r, s = w ++ r /\ length w = space_run s
  /\ Forall (fun c => is_space c = true) w /\ (forall c, head r = Some c -> is_space c = false).
Proof.
  induction s as [|c s (w & r & -> & Hl & Hw & Hr)]; [by exists [], []|]. simpl. destruct (is_space c) eqn:E.
  - exists (c :: w), r. simpl. rewrite Hl. auto.
  - exists [], (c :: w ++ r). split_and!; [done..|]. intros d [= <-]. done.
Qed.

Lemma match_spaces_range s q e captures : match_spaces s q = Some (e, captures) ->
  (q < e <= length s)%nat.
Proof.
  unfold match_spaces. destruct (space_run_spec (drop q s)) as (w & r & E & Hl & _).
  apply (f_equal length) in E. rewrite length_app, length_drop in E.
  destruct (space_run (drop q s)) as [|n]; [done|]. intros [= <- <-]. lia.
Qed.

Lemma match_spaces_none s p q : (forall k, (p <= k < q)%nat -> match_spaces s k = None) ->
  Forall (fun c => is_space c = false) (piece s p q).
Proof.
  intros H. apply Forall_lookup. intros k c Hk. apply piece_lookup in Hk as [Hk Hlt].
  specialize (H (p + k)%nat ltac:(lia)). unfold match_spaces in H.
  rewrite (drop_S _ _ _ Hk) in H. simpl in H. by destruct (is_space c).
Qed.

Lemma split_on_spaces w r : Forall (fun c => is_space c = true) w ->
  filterb truthy (split_on is_space (w ++ r)) = filterb truthy (split_on is_space r).
Proof. induction 1 as [|c w Hc _ IH]; simpl; [done|]. by rewrite Hc. Qed.

(** A word followed by white space. *)
Lemma words_cons u w r : Forall (fun c => is_space c = false) u ->
  Forall (fun c => is_space c = true) w -> w <> [] ->
  filterb truthy (split_on is_space (u ++ w ++ r))
  = filterb truthy [u] ++ filterb truthy (split_on is_space r).
Proof.
  intros Hu Hw Hne. destruct Hw as [|c w Hc Hw]; [done|]. cbn [app].
  rewrite split_on_app by done. simpl. rewrite split_on_spaces by done. by destruct (truthy u).
Qed.

Lemma trim_no_space u : Forall (fun c => is_space c = false) u -> trim u = u.
Proof.
  intros H. apply trim_id. rewrite Forall_forall in H. split; intros c Hc; apply H.
  - destruct u; simplify_eq/=; set_solver.
  - by apply last_Some_elem_of.
Qed.

Lemma segmented_words s p l : segmented match_spaces s p l ->
  exists ps, l = map Some ps /\ filterb truthy (map trim ps) = filterb truthy (split_on is_space (drop p s)).
Proof.
  induction 1 as [p Hp Hn|p q e captures l Hq Hn E _ (ps & -> & Hc)].
  - exists [drop p s]. split; [done|].
    assert (Forall (fun c => is_space c = false) (drop p s)) as Hw.
    { replace (drop p s) with (piece s p (length s)) by (unfold piece; apply take_ge; rewrite length_drop; lia).
      by apply match_spaces_none. }
    by rewrite split_on_none by done; cbn [map]; rewrite trim_no_space.
  - pose proof (match_spaces_none s p q Hn) as Hu. pose proof (match_spaces_range _ _ _ _ E) as He.
    assert (captures = []) as ->.
    { unfold match_spaces in E. by destruct (space_run _); simplify_eq. }
    exists (piece s p q :: ps). split; [done|]. cbn [map]. rewrite trim_no_space by done.
    rewrite <- (piece_drop s p q) by lia. rewrite <- (piece_drop s q e) by lia.
    assert (Forall (fun c => is_space c = true) (piece s q e)) as Hw.
    { unfold match_spaces in E. destruct (space_run_spec (drop q s)) as (w & r & Ew & Hl & Hw & _).
      destruct (space_run (drop q s)) as [|n]; [done|]. simplify_eq. unfold piece.
      rewrite Ew, Nat.add_sub_swap, Nat.sub_diag by lia. cbn [Nat.add]. rewrite <- Hl. by rewrite take_app_length. }
    rewrite words_cons; [|done|done|].
    + change (piece s p q :: map trim ps) with ([piece s p q] ++ map trim ps).
      by rewrite List.filter_app, Hc.
    + intros E'. apply (f_equal length) in E'. rewrite piece_length in E' by lia. simpl in E'. lia.
Qed.

Lemma query_terms_words q : query_terms q = Some (filterb truthy (split_on is_space q)).
Proof.
  unfold query_terms.
  destruct (segmented_words q 0 _ (split_re_segmented match_spaces q (match_spaces_range q))) as (ps & -> & E).
  rewrite mapM_Some_id. simpl. by rewrite E.
Qed.

(** ** Matching terms *)

Section Marks.
Context {C : CaseTables}.

Lemma prefix_ci_spec t s : prefix_ci t s = true <->
  exists m r, s = m ++ r /\ map canonicalize m = map canonicalize t.
Proof.
  revert s. induction t as [|a t IH]; intros s; simpl.
  - split; [intros _; by exists [], s|done].
  - destruct s as [|b s].
    + split; [done|]. intros (m & r & E & Hm). by destruct m.
    + rewrite andb_true_iff, Z.eqb_eq, IH. split.
      * intros (E & m & r & -> & Hm). exists (b :: m), r. simpl. by rewrite E, Hm.
      * intros (m & r & E & Hm). destruct m as [|b' m]; simplify_eq/=. split; [done|]. by exists m, r.
Qed.

Lemma prefix_ci_length t s : prefix_ci t s = true -> (length t <= length s)%nat.
Proof.
  intros (m & r & -> & Hm)%prefix_ci_spec. apply (f_equal length) in Hm. rewrite !length_map in Hm.
  rewrite length_app. lia.
Qed.

Lemma prefix_ci_take t s : prefix_ci t s = true ->
  map canonicalize (take (length t) s) = map canonicalize t.
Proof.
  intros (m & r & -> & Hm)%prefix_ci_spec. rewrite <- Hm. pose proof (f_equal length Hm) as Hl.
  rewrite !length_map in Hl. by rewrite <- Hl, take_app_length.
Qed.

Lemma match_alternatives_spec alts s q e captures : Forall (fun t => truthy t = true) alts ->
  match_alternatives alts s q = Some (e, captures) ->
  (q < e <= length s)%nat /\ captures = [Some (piece s q e)]
  /\ exists t, find (fun t => prefix_ci t (drop q s)) alts = Some t /\ e = (q + length t)%nat.
Proof.
  intros Ha. unfold match_alternatives. destruct (find _ alts) as [t|] eqn:E; [|done]. intros [= <- <-].
  pose proof (List.find_some _ _ E) as [Hin Hp]. apply prefix_ci_length in Hp. rewrite length_drop in Hp.
  rewrite Forall_forall in Ha. specialize (Ha t ltac:(by apply list_elem_of_In)).
  destruct t as [|c t]; [done|]. split_and!; [simpl in *; lia|simpl in *; lia|done|eauto].
Qed.

(** Some term starts at position [k]. *)
Definition occurs (terms : list jsstr) (s : jsstr) (k : nat) : Prop :=
  exists t, t ∈ terms /\ prefix_ci t (drop k s) = true.

Lemma match_alternatives_none alts s k : match_alternatives alts s k = None <-> ~ occurs alts s k.
Proof.
  unfold match_alternatives, occurs. destruct (find _ alts) as [t|] eqn:E.
  - apply List.find_some in E as [Hin Hp]. split; [done|]. intros H. destruct H. exists t.
    by rewrite list_elem_of_In.
  - split; [|done]. intros _ (t & Hin & Hp). rewrite list_elem_of_In in Hin.
    pose proof (List.find_none _ _ E t Hin). by simpl in *; congruence.
Qed.

(** The marking asked for: from [p] on, the text is cut at the leftmost
    occurrences of the terms, the first term in the order of the query being
    taken; what is cut out is marked and nothing else. *)
Inductive marked_up (terms : list jsstr) (s : jsstr) : nat -> list (bool * option jsstr) -> Prop :=
| marked_end p : (p <= length s)%nat -> (forall k, (p <= k < length s)%nat -> ~ occurs terms s k) ->
    marked_up terms s p [(false, Some (drop p s))]
| marked_match p q t l : (p <= q < length s)%nat -> (forall k, (p <= k < q)%nat -> ~ occurs terms s k) ->
    find (fun t => prefix_ci t (drop q s)) terms = Some t ->
    marked_up terms s (q + length t) l ->
    marked_up terms s p ((false, Some (piece s p q)) :: (true, Some (piece s q (q + length t))) :: l).

Context {dom : Z -> Prop} `{!CaseAgree C dom}.
Context (terms : list jsstr) (s : jsstr).
Context (Hne : Forall (fun t => truthy t = true) terms) (Hterms : Forall (Forall dom) terms) (Hs : Forall dom s).

Definition is_marked (p : jsstr) : bool :=
  existsb (fun t => bool_decide (toLowerCase p = toLowerCase t)) terms.

Lemma is_marked_spec p : Forall dom p ->
  is_marked p = true <-> exists t, t ∈ terms /\ map canonicalize p = map canonicalize t.
Proof.
  intros Hp. unfold is_marked. rewrite existsb_exists. rewrite Forall_forall in Hterms.
  split; intros (t & Hin & E); exists t; rewrite list_elem_of_In in *; (split; [done|]).
  - apply case_agree; [done|by apply Hterms; rewrite list_elem_of_In|]. by apply bool_decide_eq_true in E.
  - apply bool_decide_eq_true, case_agree; [done|by apply Hterms; rewrite list_elem_of_In|done].
Qed.

Lemma dom_piece p q : Forall dom (piece s p q).
Proof. by apply Forall_take, Forall_drop. Qed.

(** A stretch without occurrences is not marked. *)
Lemma unmarked u p r : Forall dom u -> drop p s = u ++ r ->
  (u <> [] -> ~ occurs terms s p) -> is_marked u = false.
Proof.
  intros Hu E Hn. apply not_true_iff_false. intros (t & Hin & Hm)%is_marked_spec; [|done].
  rewrite Forall_forall in Hne. apply Hn.
  - intros ->. specialize (Hne t Hin). by destruct t.
  - exists t. split; [done|]. apply prefix_ci_spec. by exists u, r.
Qed.

Lemma segmented_marked p l : segmented (match_alternatives terms) s p l ->
  exists ps, l = map Some ps /\ marked_up terms s p (map (fun x => (is_marked x, Some x)) ps).
Proof.
  induction 1 as [p Hp Hn|p q e captures l Hq Hn E _ (ps & -> & Hc)].
  - exists [drop p s]. split; [done|]. cbn [map]. rewrite (unmarked _ p []).
    + constructor; [done|]. intros. by apply match_alternatives_none, Hn.
    + by apply Forall_drop.
    + by rewrite app_nil_r.
    + intros Hd. apply match_alternatives_none, Hn. split; [done|].
      destruct (decide (p < length s)%nat); [done|]. destruct Hd. apply drop_ge. lia.
  - destruct (match_alternatives_spec _ _ _ _ _ Hne E) as (He & -> & t & Ef & ->).
    exists (piece s p q :: piece s q (q + length t) :: ps). split; [done|]. cbn [map].
    rewrite (unmarked (piece s p q) p (drop q s)); [|apply dom_piece|by rewrite piece_drop by lia|].
    2:{ intros Hd. apply match_alternatives_none, Hn. split; [done|].
        destruct (decide (p < q)%nat); [done|]. destruct Hd. unfold piece.
        by replace (q - p)%nat with O by lia. }
    rewrite (proj2 (is_marked_spec (piece s q (q + length t)) (dom_piece _ _))).
    + constructor; [done| |done|done]. intros. by apply match_alternatives_none, Hn.
    + apply List.find_some in Ef as [Hin Hp]. exists t. rewrite list_elem_of_In. split; [done|].
      unfold piece. replace (q + length t - q)%nat with (length t) by lia. by apply prefix_ci_take.
Qed.

Lemma highlight_terms_marked t0 : hd_error terms = Some t0 ->
  exists l, highlight_terms s (js "(" ++ join (js "|") (map escape terms) ++ js ")") terms = Some (Pieces l)
    /\ marked_up terms s 0 l.
Proof.
  intros Hhd. unfold highlight_terms.
  assert (parse_group (js "(" ++ join (js "|") (map escape terms) ++ js ")") = Some terms) as ->.
  { destruct terms as [|t ts]; [done|]. apply parse_group_terms. }
  unfold mark_pieces.
  destruct (segmented_marked 0 (split_re false (match_alternatives terms) s)) as (ps & -> & Hm).
  { apply split_re_segmented. intros q e caps E. by apply (match_alternatives_spec _ _ _ _ _ Hne E). }
  rewrite mapM_Some_id. eexists. split; [done|]. exact Hm.
Qed.
End Marks.

Lemma split_on_Forall (P : Z -> Prop) p s : Forall P s -> Forall (Forall P) (split_on p s).
Proof.
  induction 1 as [|c s Hc _ IH]; simpl; [by repeat constructor|].
  destruct (p c); [by constructor|]. destruct (split_on p s); inv IH; by repeat constructor.
Qed.

(** The words of a query. *)
Definition words (q : jsstr) : list jsstr := filterb truthy (split_on is_space q).

Lemma quoted_Forall (P : Z -> Prop) q phrase : Forall P q -> quoted q = Some phrase -> Forall P phrase.
Proof.
  destruct q as [|c rest]; [done|]. simpl. destruct (reverse rest) as [|d mid] eqn:E; [done|].
  intros Hq. case_match; [|done]. intros [= <-]. apply Forall_cons in Hq as [_ Hr].
  apply Forall_reverse in Hr. rewrite E in Hr. apply Forall_cons in Hr as [_ Hr]. by apply Forall_reverse.
Qed.

(** ** Any matcher *)

(** Every match is captured by exactly one group, the outer one. *)
Definition captures_whole (exec : matcher) (s : jsstr) : Prop :=
  forall q e captures, exec s q = Some (e, captures) ->
    (q <= e <= length s)%nat /\ captures = [Some (piece s q e)].

Lemma advance_range u s q : (q < advance u s q)%nat.
Proof. unfold advance. repeat case_match; lia. Qed.

Lemma advance_le u s q : (q < length s)%nat -> (advance u s q <= length s)%nat.
Proof.
  intros H. unfold advance. destruct (s !! q) eqn:E; [|lia]. destruct (s !! S q) eqn:E'; [|lia].
  apply lookup_lt_Some in E'. case_match; lia.
Qed.

Lemma split_loop_concat u exec fuel s p q : captures_whole exec s -> (p <= q <= length s)%nat ->
  exists ps, split_loop u exec fuel s p q = map Some ps /\ concat ps = drop p s.
Proof.
  intros Hx. revert p q. induction fuel as [|fuel IH]; intros p q Hq; simpl.
  { exists [drop p s]. simpl. by rewrite app_nil_r. }
  case_bool_decide; [|exists [drop p s]; simpl; by rewrite app_nil_r].
  pose proof (advance_range u s q). pose proof (advance_le u s q ltac:(done)).
  destruct (exec s q) as [[e caps]|] eqn:E; [|apply IH; lia].
  destruct (Hx _ _ _ E) as [He ->]. rewrite Nat.min_l by lia. case_bool_decide; [apply IH; lia|].
  destruct (IH e e ltac:(lia)) as (ps & -> & Hc). exists (piece s p q :: piece s q e :: ps).
  split; [done|]. simpl. rewrite Hc, piece_drop by lia. apply piece_drop. lia.
Qed.

(** The fuel of [split_re] is never used up: with more of it the result is the
    same. *)
Lemma split_loop_fuel u exec s f f' p q : captures_whole exec s -> (p <= q <= length s)%nat ->
  (2 * (length s - q) + (if decide (p = q) then 0 else 1) < f)%nat -> (f <= f')%nat ->
  split_loop u exec f' s p q = split_loop u exec f s p q.
Proof.
  intros Hx. revert f' p q. induction f as [|f IH]; intros [|f'] p q Hq Hf Hff; [lia..|]. simpl.
  case_bool_decide; [|done].
  pose proof (advance_range u s q). pose proof (advance_le u s q ltac:(done)).
  assert (split_loop u exec f' s p (advance u s q) = split_loop u exec f s p (advance u s q)) as Hadv.
  { apply IH; [lia| |lia]. destruct (decide (p = advance u s q)), (decide (p = q)); lia. }
  destruct (exec s q) as [[e caps]|] eqn:E; [|done].
  destruct (Hx _ _ _ E) as [He _]. rewrite Nat.min_l by lia. case_bool_decide; [done|].
  do 2 f_equal. apply IH; [lia| |lia].
  destruct (decide (p = q)) as [->|]; rewrite decide_True by done; lia.
Qed.

Lemma split_re_concat u exec s : captures_whole exec s ->
  concat (map (default []) (split_re u exec s)) = s.
Proof.
  intros Hx. unfold split_re. destruct s as [|c s]; [by destruct (exec [] O)|].
  destruct (split_loop_concat u exec (S (2 * length (c :: s))) (c :: s) 0 0 Hx) as (ps & -> & E); [lia|].
  rewrite drop_0 in E. rewrite <- E. clear E. induction ps; simpl; [done|]. by f_equal.
Qed.

Lemma test_parts_snd flags exec i parts : map snd (test_parts flags exec i parts) = parts.
Proof.
  revert i. induction parts as [|p parts IH]; intros i; simpl; [done|].
  destruct (test_re flags exec i p). simpl. by rewrite IH.
Qed.

Lemma shown_Pieces l : shown (Pieces l) = concat (map (default []) (map snd l)).
Proof. simpl. by rewrite map_map. Qed.

Section Shown.
Context {C : CaseTables} (compile : jsstr -> jsstr -> option matcher).

Lemma highlight_terms_shown text terms : terms <> [] -> Forall (fun t => truthy t = true) terms ->
  exists v, highlight_terms text (js "(" ++ join (js "|") (map escape terms) ++ js ")") terms = Some v
    /\ shown v = text.
Proof.
  intros Hne Ht. unfold highlight_terms.
  assert (parse_group (js "(" ++ join (js "|") (map escape terms) ++ js ")") = Some terms) as ->.
  { destruct terms as [|t ts]; [done|]. apply parse_group_terms. }
  assert (captures_whole (match_alternatives terms) text) as Hw.
  { intros q e caps E. destruct (match_alternatives_spec _ _ _ _ _ Ht E) as (? & ? & _). split; [lia|done]. }
  unfold mark_pieces. pose proof (split_re_concat false _ _ Hw) as Hc.
  destruct (segmented_concat (match_alternatives terms) text 0 (split_re false (match_alternatives terms) text))
    as (ps & E & Hps).
  - apply split_re_segmented. intros q e caps E. by apply (match_alternatives_spec _ _ _ _ _ Ht E).
  - intros q e caps E. destruct (Hw _ _ _ E). split; [lia|done].
  - rewrite E, mapM_Some_id. eexists. split; [done|]. rewrite shown_Pieces, map_map. simpl.
    rewrite map_map. simpl. rewrite map_id. by rewrite drop_0 in Hps.
Qed.

Lemma highlight_words_shown text q : exists v, highlight_words text q = Some v /\ shown v = text.
Proof.
  unfold highlight_words. rewrite query_terms_words. simpl.
  pose proof (filterb_Forall truthy (split_on is_space q)) as Ht.
  destruct (filterb truthy (split_on is_space q)) as [|t ts]; [by eexists|].
  by apply highlight_terms_shown.
Qed.

(** Highlighting never changes the text: in every mode the displayed pieces,
    marked or not, are the text in order, and a pattern that does not compile
    falls back to the words of the query.  For patterns typed by the user this
    takes that they open no capture group of their own. *)
Theorem highlight_keeps_text text q :
  (forall pattern flags exec, regexMatch q = Some (pattern, flags) ->
     compile (js "(" ++ pattern ++ js ")") (safe_flags flags) = Some exec -> captures_whole exec text) ->
  exists v, highlight compile text q = Some v /\ shown v = text.
Proof.
  intros Hx. unfold highlight. destruct (truthy q); [|by eexists].
  destruct (quoted q) as [phrase|].
  - unfold highlight_phrase. destruct (truthy phrase) eqn:Hp; [|by eexists].
    apply (highlight_terms_shown text [phrase]); [done|by constructor].
  - destruct (regexMatch q) as [[pattern flags]|]; [|apply highlight_words_shown].
    unfold highlight_regex. destruct (compile _ _) as [exec|] eqn:E; [|apply highlight_words_shown].
    eexists. split; [done|]. rewrite shown_Pieces, test_parts_snd.
    apply split_re_concat. by apply (Hx pattern flags).
Qed.
End Shown.

(** C22. What is marked: for texts and queries over characters whose case tables
    agree, a quoted query marks exactly the leftmost occurrences of the phrase
    and a plain query those of its words, ignoring case; special characters in
    the query are taken literally. *)
Theorem highlight_marks {C : CaseTables} {dom} (A : CaseAgree C dom) compile text q :
  Forall dom text -> Forall dom q ->
  (forall phrase, quoted q = Some phrase -> phrase <> [] ->
     exists l, highlight compile text q = Some (Pieces l) /\ marked_up [phrase] text 0 l)
  /\ (quoted q = None -> regexMatch q = None -> words q <> [] ->
     exists l, highlight compile text q = Some (Pieces l) /\ marked_up (words q) text 0 l).
Proof.
  intros Ht Hq. split.
  - intros phrase E Hne. unfold highlight, highlight_phrase.
    destruct q as [|c q]; [done|]. rewrite E. cbn [truthy]. destruct phrase as [|d phrase]; [done|].
    apply (highlight_terms_marked [d :: phrase] text) with (t0 := d :: phrase); [by constructor|..|done].
    + constructor; [|done]. by eapply quoted_Forall.
    + done.
  - intros E1 E2 Hne. unfold highlight. rewrite E1, E2. unfold highlight_words.
    rewrite query_terms_words. fold (words q). destruct q as [|c q]; [done|]. cbn [truthy].
    destruct (words (c :: q)) as [|t ts] eqn:E; [done|].
    change (Some (t :: ts) ≫= ?f) with (f (t :: ts)). cbv beta iota.
    apply (highlight_terms_marked (t :: ts) text) with (t0 := t); [..|done]; rewrite <- ?E; [| |done].
    + apply filterb_Forall.
    + by apply filterb_Forall_keep, split_on_Forall.
Qed.

(** The case tables restricted to the Latin letters of ASCII; characters without
    case, such as Chinese ones, are left alone by the real tables as well. *)
Definition ascii_upper (c : Z) : Z := if (97 <=? c) && (c <=? 122) then c - 32 else c.
Definition ascii_lower (c : Z) : Z := if (65 <=? c) && (c <=? 90) then c + 32 else c.
Definition ascii_case : CaseTables := {| canonicalize := ascii_upper; toLowerCase := map ascii_lower |}.

Lemma ascii_case_unit a b : ascii_upper a = ascii_upper b <-> ascii_lower a = ascii_lower b.
Proof. unfold ascii_upper, ascii_lower. bool_cases; simpl; lia. Qed.

#[export] Instance ascii_case_agree dom : CaseAgree ascii_case dom.
Proof.
  constructor. intros s t _ _. simpl. revert t.
  induction s as [|a s IH]; intros [|b t]; simpl; [done..|].
  split; intros [= H1 H2]; f_equal; solve [by apply ascii_case_unit|by apply IH].
Qed.

Definition no_engine : jsstr -> jsstr -> option matcher := fun _ _ => None.

Lemma highlight_keeps_text_witness :
  exists v, highlight (C := ascii_case) no_engine (js "a+b") (js "/(/") = Some v /\ shown v = js "a+b".
Proof. apply (highlight_keeps_text (C := ascii_case) no_engine). discriminate. Defined.

Lemma highlight_marks_witness :
  exists l, highlight (C := ascii_case) no_engine (js "Foo.bar") (js "foo .") = Some (Pieces l)
    /\ marked_up (C := ascii_case) (words (js "foo .")) (js "Foo.bar") 0 l.
Proof.
  apply (proj2 (highlight_marks (ascii_case_agree (fun _ => True)) no_engine (js "Foo.bar") (js "foo .")
           (Forall_true _ _ (fun _ => I)) (Forall_true _ _ (fun _ => I)))).
  - reflexivity.
  - reflexivity.
  - discriminate.
Defined.

(** Matching and marking compare case differently: two characters with the
    same upper case and different lower cases (the micro sign and the Greek mu)
    match each other, and the matched text is then displayed unmarked. *)
Theorem highlight_matched_unmarked {C : CaseTables} compile a b :
  is_space b = false -> b <> 47 ->
  canonicalize a = canonicalize b -> toLowerCase [a] <> toLowerCase [b] ->
  toLowerCase [] <> toLowerCase [b] ->
  occurs [[b]] [a] 0 /\
  highlight compile [a] [b] = Some (Pieces [(false, Some []); (false, Some [a]); (false, Some [])]).
Proof.
  intros Hb H47 Hc Hl Hl0. split.
  { exists [b]. split; [set_solver|]. simpl. by rewrite Hc, Z.eqb_refl. }
  assert (E : highlight_terms [a] (js "(" ++ join (js "|") (map escape [[b]]) ++ js ")") [[b]]
          = Some (Pieces [(false, Some []); (false, Some [a]); (false, Some [])])).
  { unfold highlight_terms. rewrite parse_group_terms. unfold split_re, match_alternatives. simpl.
    rewrite Hc, Z.eqb_refl. unfold mark_pieces. simpl.
    by rewrite !bool_decide_false by done. }
  unfold highlight. cbn [truthy]. change (quoted [b]) with (@None jsstr).
  assert (regexMatch [b] = None) as -> by (unfold regexMatch; by rewrite (proj2 (Z.eqb_neq _ _) H47)).
  unfold highlight_words. rewrite query_terms_words. cbn [split_on]. rewrite Hb. exact E.
Qed.

(** Upper and lower case of the micro sign and the Greek letter mu. *)
Definition mu_case : CaseTables :=
  {| canonicalize c := if (c =? 181) || (c =? 956) then 924 else c; toLowerCase s := s |}.

Lemma highlight_matched_unmarked_witness :
  occurs (C := mu_case) [[956]] [181] 0 /\
  highlight (C := mu_case) no_engine [181] [956]
  = Some (Pieces [(false, Some []); (false, Some [181]); (false, Some [])]).
Proof.
  apply (highlight_matched_unmarked (C := mu_case) no_engine 181 956);
    first [reflexivity | discriminate].
Defined.

(** A pattern with capture groups of its own displays their text twice. *)
Theorem highlight_groups_repeat {C : CaseTables} (compile : jsstr -> jsstr -> option matcher) exec :
  compile (js "((a)(b))") (js "i") = Some exec ->
  exec (js "ab") 0%nat = Some (2%nat, [Some (js "ab"); Some (js "a"); Some (js "b")]) ->
  exists v, highlight compile (js "ab") (js "/(a)(b)/") = Some v /\ shown v = js "abab".
Proof.
  intros Hc Hx. unfold highlight. change (truthy (js "/(a)(b)/")) with true.
  change (quoted (js "/(a)(b)/")) with (@None jsstr).
  change (regexMatch (js "/(a)(b)/")) with (Some (js "(a)(b)", js "")).
  unfold highlight_regex. change (js "(" ++ js "(a)(b)" ++ js ")") with (js "((a)(b))").
  change (safe_flags (js "")) with (js "i"). rewrite Hc. eexists. split; [done|].
  rewrite shown_Pieces, test_parts_snd.
  assert (split_re (existsb (Z.eqb 117) (js "i")) exec (js "ab")
          = [Some []; Some (js "ab"); Some (js "a"); Some (js "b"); Some []]) as ->.
  { unfold split_re. change (js "ab") with [97; 98] in *. simpl. by rewrite Hx. }
  done.
Qed.

(** The matcher of that pattern on its own text. *)
Definition ab_matcher : matcher := fun s q =>
  if bool_decide (take 2 (drop q s) = js "ab")
  then Some ((q + 2)%nat, [Some (js "ab"); Some (js "a"); Some (js "b")]) else None.

Lemma highlight_groups_repeat_witness :
  exists v, highlight (C := ascii_case) (fun _ _ => Some ab_matcher) (js "ab") (js "/(a)(b)/") = Some v
    /\ shown v = js "abab".
Proof. apply (highlight_groups_repeat (C := ascii_case) _ ab_matcher); reflexivity. Defined.
