(* ===== verification/ProgLogic.v ===== *)
(** * Reasoning about handler programs

    Predicates on the programs of [Effects] that hold of every way they can
    continue, with the rules for sequencing, [try_catch] and [try_finally]. *)

From S2P Require Import Prelude Effects Invoke.

Section ProgLogic.
Context {act : Type}.
Implicit Types A B : Type.

(** Every action satisfies [Q]. *)
Fixpoint acts_ok {A} (Q : act -> Prop) (p : prog act A) : Prop :=
  match p with
  | Ret _ | Throw _ => True
  | Act a k => Q a /\ acts_ok Q k
  | Call c k => forall r, acts_ok Q (k r)
  end.

(** Every outside call satisfies [R]. *)
Fixpoint calls_ok {A} (R : cmd -> Prop) (p : prog act A) : Prop :=
  match p with
  | Ret _ | Throw _ => True
  | Act _ k => calls_ok R k
  | Call c k => R c /\ forall r, calls_ok R (k r)
  end.

(** With answers as [G] allows, every action satisfies [Q] and what is returned
    satisfies [Phi]. *)
Fixpoint acts_wp {A} (G : forall c, ans c -> Prop) (Q : act -> Prop) (Phi : A -> Prop)
  (p : prog act A) : Prop :=
  match p with
  | Ret a => Phi a
  | Throw _ => True
  | Act a k => Q a /\ acts_wp G Q Phi k
  | Call c k => forall r, G c r -> acts_wp G Q Phi (k r)
  end.

(** The same with the outside calls: each satisfies [R]. *)
Fixpoint prog_wp {A} (G : forall c, ans c -> Prop) (R : cmd -> Prop) (Q : act -> Prop) (Phi : A -> Prop)
  (p : prog act A) : Prop :=
  match p with
  | Ret a => Phi a
  | Throw _ => True
  | Act a k => Q a /\ prog_wp G R Q Phi k
  | Call c k => R c /\ forall r, G c r -> prog_wp G R Q Phi (k r)
  end.

(** At most [n] outside calls, whatever they answer. *)
Fixpoint calls_le {A} (n : nat) (p : prog act A) : Prop :=
  match p with
  | Ret _ | Throw _ => True
  | Act _ k => calls_le n k
  | Call c k => match n with O => False | S n' => forall r, calls_le n' (k r) end
  end.

Lemma acts_ok_bind {A B} Q (p : prog act A) (f : A -> prog act B) :
  acts_ok Q p -> (forall a, acts_ok Q (f a)) -> acts_ok Q (bind p f).
Proof. intros Hp Hf. induction p as [a|e|a k IH|c k IH]; simpl in *; [done..|tauto|auto]. Qed.

Lemma acts_ok_catch {A} Q (p : prog act A) h :
  acts_ok Q p -> (forall e, acts_ok Q (h e)) -> acts_ok Q (try_catch p h).
Proof. intros Hp Hf. induction p as [a|e|a k IH|c k IH]; simpl in *; [done..|tauto|auto]. Qed.

Lemma acts_ok_finally {A} Q (p : prog act A) q :
  acts_ok Q p -> acts_ok Q q -> acts_ok Q (try_finally p q).
Proof.
  intros Hp Hq. induction p as [a|e|a k IH|c k IH]; simpl in *; [by apply acts_ok_bind..|tauto|auto].
Qed.

Lemma acts_ok_mono {A} (Q Q' : act -> Prop) (p : prog act A) :
  (forall a, Q a -> Q' a) -> acts_ok Q p -> acts_ok Q' p.
Proof. intros H. induction p as [a|e|a k IH|c k IH]; simpl; [done..|intuition|auto]. Qed.

Lemma acts_wp_bind {A B} G Q Phi Psi (p : prog act A) (f : A -> prog act B) :
  acts_wp G Q Phi p -> (forall a, Phi a -> acts_wp G Q Psi (f a)) -> acts_wp G Q Psi (bind p f).
Proof. intros Hp Hf. induction p as [a|e|a k IH|c k IH]; simpl in *; [auto|done|tauto|auto]. Qed.

Lemma acts_wp_catch {A} G Q Phi (p : prog act A) h :
  acts_wp G Q Phi p -> (forall e, acts_wp G Q Phi (h e)) -> acts_wp G Q Phi (try_catch p h).
Proof. intros Hp Hf. induction p as [a|e|a k IH|c k IH]; simpl in *; [done..|tauto|auto]. Qed.

Lemma acts_wp_finally {A} G Q Phi (p : prog act A) q :
  acts_wp G Q Phi p -> acts_wp G Q (fun _ => True) q -> acts_wp G Q Phi (try_finally p q).
Proof.
  intros Hp Hq. induction p as [a|e|a k IH|c k IH]; simpl in *; [| |tauto|auto];
    (eapply acts_wp_bind; [done|]; by intros).
Qed.

Lemma acts_ok_wp {A} G Q (p : prog act A) : acts_ok Q p -> acts_wp G Q (fun _ => True) p.
Proof. induction p as [a|e|a k IH|c k IH]; simpl; [done..|intuition|auto]. Qed.

Lemma acts_wp_mono {A} G Q (Phi Psi : A -> Prop) (p : prog act A) :
  (forall a, Phi a -> Psi a) -> acts_wp G Q Phi p -> acts_wp G Q Psi p.
Proof. intros H. induction p as [a|e|a k IH|c k IH]; simpl; [auto|done|intuition|auto]. Qed.

Lemma prog_wp_bind {A B} G R Q Phi Psi (p : prog act A) (f : A -> prog act B) :
  prog_wp G R Q Phi p -> (forall a, Phi a -> prog_wp G R Q Psi (f a)) -> prog_wp G R Q Psi (bind p f).
Proof. intros Hp Hf. induction p as [a|e|a k IH|c k IH]; simpl in *; [auto|done|tauto|]. destruct Hp. auto. Qed.

Lemma prog_wp_catch {A} G R Q Phi (p : prog act A) h :
  prog_wp G R Q Phi p -> (forall e, prog_wp G R Q Phi (h e)) -> prog_wp G R Q Phi (try_catch p h).
Proof. intros Hp Hf. induction p as [a|e|a k IH|c k IH]; simpl in *; [done..|tauto|]. destruct Hp. auto. Qed.

Lemma prog_wp_finally {A} G R Q Phi (p : prog act A) q :
  prog_wp G R Q Phi p -> prog_wp G R Q (fun _ => True) q -> prog_wp G R Q Phi (try_finally p q).
Proof.
  intros Hp Hq. induction p as [a|e|a k IH|c k IH]; simpl in *; [| |tauto|destruct Hp; auto];
    (eapply prog_wp_bind; [done|]; by intros).
Qed.

Lemma prog_wp_of {A} G R Q (p : prog act A) : acts_ok Q p -> calls_ok R p -> prog_wp G R Q (fun _ => True) p.
Proof. induction p as [a|e|a k IH|c k IH]; simpl; [done..|intuition|intros H []; auto]. Qed.

Lemma calls_ok_mono {A} (R R' : cmd -> Prop) (p : prog act A) :
  (forall c, R c -> R' c) -> calls_ok R p -> calls_ok R' p.
Proof. intros H. induction p as [a|e|a k IH|c k IH]; simpl; [done..|intuition]. Qed.

Lemma calls_ok_bind {A B} R (p : prog act A) (f : A -> prog act B) :
  calls_ok R p -> (forall a, calls_ok R (f a)) -> calls_ok R (bind p f).
Proof. intros Hp Hf. induction p as [a|e|a k IH|c k IH]; simpl in *; [done..|auto|intuition]. Qed.

Lemma calls_ok_catch {A} R (p : prog act A) h :
  calls_ok R p -> (forall e, calls_ok R (h e)) -> calls_ok R (try_catch p h).
Proof. intros Hp Hf. induction p as [a|e|a k IH|c k IH]; simpl in *; [done..|auto|intuition]. Qed.

Lemma calls_ok_finally {A} R (p : prog act A) q :
  calls_ok R p -> calls_ok R q -> calls_ok R (try_finally p q).
Proof.
  intros Hp Hq. induction p as [a|e|a k IH|c k IH]; simpl in *; [by apply calls_ok_bind..|auto|intuition].
Qed.

Lemma calls_le_mono {A} n m (p : prog act A) : (n <= m)%nat -> calls_le n p -> calls_le m p.
Proof.
  revert n m. induction p as [a|e|a k IH|c k IH]; intros n m Hle; simpl; [done..|by apply IH|].
  destruct n as [|n]; [done|]. destruct m as [|m]; [lia|]. intros H r. apply (IH r n); [lia|done].
Qed.

Lemma calls_le_bind {A B} n m (p : prog act A) (f : A -> prog act B) :
  calls_le n p -> (forall a, calls_le m (f a)) -> calls_le (n + m) (bind p f).
Proof.
  revert n. induction p as [a|e|a k IH|c k IH]; intros n Hp Hf; simpl in *; [|done|auto|].
  - apply (calls_le_mono m); [lia|done].
  - destruct n as [|n]; [done|]. simpl. auto.
Qed.

Lemma calls_le_catch {A} n m (p : prog act A) h :
  calls_le n p -> (forall e, calls_le m (h e)) -> calls_le (n + m) (try_catch p h).
Proof.
  revert n. induction p as [a|e|a k IH|c k IH]; intros n Hp Hf; simpl in *; [done| |auto|].
  - apply (calls_le_mono m); [lia|done].
  - destruct n as [|n]; [done|]. simpl. auto.
Qed.

Lemma calls_le_finally {A} n m (p : prog act A) q :
  calls_le n p -> calls_le m q -> calls_le (n + m) (try_finally p q).
Proof.
  intros Hp Hq. revert n Hp. induction p as [a|e|a k IH|c k IH]; intros n Hp; simpl in *.
  - apply (calls_le_mono (m + 0)); [lia|]. by apply calls_le_bind.
  - apply (calls_le_mono (m + 0)); [lia|]. by apply calls_le_bind.
  - auto.
  - destruct n as [|n]; [done|]. simpl. auto.
Qed.

(** ** Calls of the back end *)

Lemma acts_ok_invoke Q d T cmd payload opts : acts_ok Q (safeInvoke (act := act) d T cmd payload opts).
Proof.
  unfold safeInvoke. generalize (attempt_bound (default (retries d) (opt_retries opts))) as fuel. intros fuel.
  generalize 0%Z as a. generalize EUndefined as e.
  induction fuel as [|fuel IH]; intros e a; simpl; [done|]. destruct (JsNumber.leb _ _); simpl; [|done].
  intros [v|e'|]; [done|by destruct (JsNumber.ltb _ _)..].
Qed.

(** A call returns what an allowed success carries. *)
Lemma acts_wp_invoke (G : forall c, ans c -> Prop) Q d T name payload opts (Phi : den T -> Prop) :
  (forall v, G (Race (invoke_request d T name payload opts)) (Resolved v) -> Phi v) ->
  acts_wp G Q Phi (safeInvoke (act := act) d T name payload opts).
Proof.
  intros HR. unfold safeInvoke. fold (invoke_request d T name payload opts).
  generalize (attempt_bound (default (retries d) (opt_retries opts))) as fuel. intros fuel.
  generalize 0%Z as a. generalize EUndefined as e.
  induction fuel as [|fuel IH]; intros e a; simpl; [done|]. destruct (JsNumber.leb _ _); simpl; [|done].
  intros [v|e'|] HG; [by apply HR|by destruct (JsNumber.ltb _ _)..].
Qed.

Lemma prog_wp_invoke (G : forall c, ans c -> Prop) R Q d T name payload opts (Phi : den T -> Prop) :
  R (Race (invoke_request d T name payload opts)) ->
  (forall v, G (Race (invoke_request d T name payload opts)) (Resolved v) -> Phi v) ->
  prog_wp G R Q Phi (safeInvoke (act := act) d T name payload opts).
Proof.
  intros Hr HR. unfold safeInvoke. fold (invoke_request d T name payload opts).
  generalize (attempt_bound (default (retries d) (opt_retries opts))) as fuel. intros fuel.
  generalize 0%Z as a. generalize EUndefined as e.
  induction fuel as [|fuel IH]; intros e a; simpl; [done|]. destruct (JsNumber.leb _ _); simpl; [|done].
  split; [done|]. intros [v|e'|] HG; [by apply HR|by destruct (JsNumber.ltb _ _)..].
Qed.

Lemma calls_ok_invoke (R : cmd -> Prop) d T cmd payload opts :
  R (Race (invoke_request d T cmd payload opts)) ->
  calls_ok R (safeInvoke (act := act) d T cmd payload opts).
Proof.
  intros HR. unfold safeInvoke. fold (invoke_request d T cmd payload opts).
  generalize (attempt_bound (default (retries d) (opt_retries opts))) as fuel. intros fuel.
  generalize 0%Z as a. generalize EUndefined as e.
  induction fuel as [|fuel IH]; intros e a; simpl; [done|]. destruct (JsNumber.leb _ _); simpl; [|done].
  split; [done|]. intros [v|e'|]; [done|by destruct (JsNumber.ltb _ _)..].
Qed.

Lemma calls_le_invoke d T cmd payload opts :
  calls_le (attempt_bound (default (retries d) (opt_retries opts)))
    (safeInvoke (act := act) d T cmd payload opts).
Proof.
  unfold safeInvoke. generalize (attempt_bound (default (retries d) (opt_retries opts))) as fuel. intros fuel.
  generalize 0%Z as a. generalize EUndefined as e.
  induction fuel as [|fuel IH]; intros e a; simpl; [done|]. destruct (JsNumber.leb _ _); simpl; [|done].
  intros [v|e'|]; [done|by destruct (JsNumber.ltb _ _)..].
Qed.
End ProgLogic.

#[export] Hint Resolve acts_ok_bind acts_ok_catch acts_ok_finally acts_ok_invoke : app.
#[export] Hint Resolve calls_ok_bind calls_ok_catch calls_ok_finally calls_ok_invoke : app.
