(* ===== verification/AppState.v ===== *)
(** * App.tsx: the state of the application

    One field per [useState] of [App], with its initial value, and one
    constructor of [setter] per way the code calls the corresponding setter.
    [apply] is what a setter does to the state; the updates a handler makes
    between two suspensions are applied together, in order, as React does. *)

From S2P Require Import Prelude JsNumber JsString JsConvert Types Effects SortResults.

Inductive ViewMode := Table | Card.
Inductive Lang := Zh | En.

#[export] Instance ViewMode_eq_dec : EqDecision ViewMode.
Proof. solve_decision. Defined.

Record App := {
  indexDir : jsstr;
  roots : jsstr;
  exclude : jsstr;
  scanned : list FileMeta;
  scanCount : number;
  scanDir : jsstr;
  query : jsstr;
  results : list SearchResult;
  busy : bool;
  msg : jsstr;
  enableContentParse : bool;
  page : PageKey;
  theme : ThemeKey;
  autoScanEnabled : bool;
  viewMode : ViewMode;
  selected : option SearchResult;
  extFilter : jsstr;
  minSize : jsstr;
  maxSize : jsstr;
  sortBy : SortBy;
  sortDir : SortDir;
  lang : Lang;
  idxCurrent : number;
  idxTotal : number;
  idxRunning : bool;
  lastScanTotal : number;
  dupGroups : list DupGroup;
  dupIncludeHash : bool;
  dupIncludeName : bool;
  diag : option DiagnosticsReport;
  showRelativeTime : bool;
  pathMaxLen : number;
}.

(** The first render; [PATH_MAX_LEN] is computed when its module is loaded. *)
Definition initial_state (PATH_MAX_LEN : number) : App :=
  {| indexDir := js "indexes/main"; roots := js "D:/";
     exclude := js "\Windows, \Program Files, \AppData";
     scanned := []; scanCount := of_Z 0; scanDir := []; query := []; results := []; busy := false;
     msg := []; enableContentParse := false; page := PSearch; theme := Eye; autoScanEnabled := true;
     viewMode := Table; selected := None; extFilter := []; minSize := []; maxSize := [];
     sortBy := ByScore; sortDir := Desc; lang := Zh; idxCurrent := of_Z 0; idxTotal := of_Z 0;
     idxRunning := false; lastScanTotal := of_Z 0; dupGroups := []; dupIncludeHash := true;
     dupIncludeName := true; diag := None; showRelativeTime := false; pathMaxLen := PATH_MAX_LEN |}.

Inductive setter :=
| SetIndexDir (v : jsstr)
| SetRoots (v : jsstr)
| SetExclude (v : jsstr)
| SetScanned (v : list FileMeta)
| SetScanCount (v : number)
| SetScanDir (v : jsstr)
| SetQuery (v : jsstr)
| SetResults (v : list SearchResult)
| SetBusy (v : bool)
| SetMsg (v : jsstr)
| SetEnableContentParse (v : bool)
| SetPage (v : PageKey)
| SetTheme (v : ThemeKey)
| SetAutoScanEnabled (v : bool)
| SetViewMode (v : ViewMode)
| SetSelected (v : option SearchResult)
| SetExtFilter (v : jsstr)
| SetMinSize (v : jsstr)
| SetMaxSize (v : jsstr)
| SetSortBy (v : SortBy)
| SetSortDir (v : SortDir)
| SetLang (v : Lang)
| SetIdxCurrent (v : number)
| SetIdxTotal (v : number)
| SetIdxRunning (v : bool)
| SetLastScanTotal (v : number)
| SetDupGroups (v : list DupGroup)
| RemoveDupFile (path : jsstr)          (* setDupGroups(prev => ...) of handleDelete *)
| SetDupIncludeHash (v : bool)
| SetDupIncludeName (v : bool)
| SetDiag (v : option DiagnosticsReport)
| ToggleRelativeTime                    (* setShowRelativeTime(v => !v) *)
| SetPathMaxLen (v : number).

(** [prev.map(g => ({ ...g, files: g.files.filter(p => p !== path) })).filter(g => g.files.length > 1)]. *)
Definition remove_dup_file (path : jsstr) (prev : list DupGroup) : list DupGroup :=
  filterb (fun g => bool_decide (1 < length (files g))%nat)
    (map (fun g => {| kind := kind g; key := key g;
                      files := filterb (fun p => negb (bool_decide (p = path))) (files g) |}) prev).

Definition apply (x : setter) (s : App) : App :=
  {| indexDir := match x with SetIndexDir v => v | _ => indexDir s end;
     roots := match x with SetRoots v => v | _ => roots s end;
     exclude := match x with SetExclude v => v | _ => exclude s end;
     scanned := match x with SetScanned v => v | _ => scanned s end;
     scanCount := match x with SetScanCount v => v | _ => scanCount s end;
     scanDir := match x with SetScanDir v => v | _ => scanDir s end;
     query := match x with SetQuery v => v | _ => query s end;
     results := match x with SetResults v => v | _ => results s end;
     busy := match x with SetBusy v => v | _ => busy s end;
     msg := match x with SetMsg v => v | _ => msg s end;
     enableContentParse := match x with SetEnableContentParse v => v | _ => enableContentParse s end;
     page := match x with SetPage v => v | _ => page s end;
     theme := match x with SetTheme v => v | _ => theme s end;
     autoScanEnabled := match x with SetAutoScanEnabled v => v | _ => autoScanEnabled s end;
     viewMode := match x with SetViewMode v => v | _ => viewMode s end;
     selected := match x with SetSelected v => v | _ => selected s end;
     extFilter := match x with SetExtFilter v => v | _ => extFilter s end;
     minSize := match x with SetMinSize v => v | _ => minSize s end;
     maxSize := match x with SetMaxSize v => v | _ => maxSize s end;
     sortBy := match x with SetSortBy v => v | _ => sortBy s end;
     sortDir := match x with SetSortDir v => v | _ => sortDir s end;
     lang := match x with SetLang v => v | _ => lang s end;
     idxCurrent := match x with SetIdxCurrent v => v | _ => idxCurrent s end;
     idxTotal := match x with SetIdxTotal v => v | _ => idxTotal s end;
     idxRunning := match x with SetIdxRunning v => v | _ => idxRunning s end;
     lastScanTotal := match x with SetLastScanTotal v => v | _ => lastScanTotal s end;
     dupGroups := match x with SetDupGroups v => v
                  | RemoveDupFile path => remove_dup_file path (dupGroups s) | _ => dupGroups s end;
     dupIncludeHash := match x with SetDupIncludeHash v => v | _ => dupIncludeHash s end;
     dupIncludeName := match x with SetDupIncludeName v => v | _ => dupIncludeName s end;
     diag := match x with SetDiag v => v | _ => diag s end;
     showRelativeTime := match x with ToggleRelativeTime => negb (showRelativeTime s)
                         | _ => showRelativeTime s end;
     pathMaxLen := match x with SetPathMaxLen v => v | _ => pathMaxLen s end |}.

Definition apply_all (l : list setter) (s : App) : App := fold_left (fun s x => apply x s) l s.

(** ** Actions of handlers *)

(** A synchronous effect of a handler: a setter, a line of [logError], or the
    call of the function a subscription returned. *)
Inductive action :=
| Set_ (x : setter)
| Log (e : err) (context : jsstr)
| Unlisten (id : nat)
| Ask (text : jsstr).          (* [confirm(text)] is called *)

Definition prog_ := prog action unit.

Definition set (x : setter) : prog_ := do_act (Set_ x).
Definition logError (e : err) (context : string) : prog_ := do_act (Log e (js context)).

(** The setters of a list of events, in order. *)
Definition setters_of (tr : list (event action)) : list setter :=
  omap (fun ev => match ev with EvAct (Set_ x) => Some x | _ => None end) tr.
