(* ===== verification/Handlers.v ===== *)
(** * App.tsx: the handlers

    Each handler of [App] and of its pages is a program over the state its
    closure captured.  Handlers start with the guard on [inTauri], mark the
    application busy, and end in the [finally] clause that clears the mark.  The
    callbacks of subscriptions are lists of setters. *)

From S2P Require Import Prelude JsNumber JsString JsConvert StringUtil PathUtil SizeUtil Types Effects SortResults Invoke AppState.
#[local] Open Scope Z_scope.
#[local] Open Scope prog_scope.

(** ** Pieces the handlers share *)

(** [await onEvent(name, handler)]: the identifier stands for [unlisten]. *)
Definition onEvent (name : string) : prog action nat := await_sum (Listen (js name)) (fun r => r).

(** [String(list.length)]. *)
Definition count_text {A} (l : list A) : jsstr := to_string (of_Z (Z.of_nat (length l))).

(** [finally { setBusy(false) }]. *)
Definition finally_idle (p : prog_) : prog_ := try_finally p (set (SetBusy false)).

(** [catch (e) { logError(e, context); setMsg(e?.toString?.() ?? text) }]. *)
Definition catch_report (p : prog_) (context text : string) : prog_ :=
  try_catch p (fun e => logError e context ;; set (SetMsg (err_text e text))).

(** [setBusy(true)], [setMsg(text)] and the clauses around the body. *)
Definition busy_handler (text context failure : string) (body : prog_) : prog_ :=
  set (SetBusy true) ;; set (SetMsg (js text)) ;;
  finally_idle (catch_report body context failure).

(** ** Callbacks of subscriptions *)

(** [scan_progress], in [doScan] and [runDetect]. *)
Record ScanProgress := { sp_current : option number; sp_path : option jsstr }.

Definition on_scan_progress (payload : ScanProgress) : list setter :=
  (match sp_current payload with Some n => [SetScanCount n] | None => [] end) ++
  (match sp_path payload with
   | Some p => if truthy p then [SetScanDir (scanDirOf p)] else []
   | None => []
   end).

Definition on_index_progress (payload : IndexProgressPayload) : list setter :=
  let current := default (of_Z 0) (ip_current payload) in
  let total := default (of_Z 0) (ip_total payload) in
  [SetIdxCurrent current; SetIdxTotal total; SetIdxRunning true;
   SetMsg (js "索引中：" ++ to_string current ++ js "/" ++ to_string total ++ js " - "
           ++ default [] (ip_name payload))].

Definition on_index_done : list setter := [SetIdxRunning false; SetMsg (js "索引构建完成")].

Definition on_scan_done (total : option number) : list setter :=
  match total with Some n => [SetIdxTotal n; SetLastScanTotal n] | None => [] end.

Definition on_auto_scan_start (payload : AutoScanStartPayload) : list setter :=
  [SetMsg (js "已触发自动扫描（原因：" ++ default (js "未知") (reason payload) ++ js "）")].

(** ** The host's [confirm] *)

(** What [confirm(text)] returns at once: the answer, when the dialog blocks the
    page, or a promise of it. *)
Inductive confirm_value := Answered (b : bool) | Promised.
Definition truthy_value (v : confirm_value) : bool := match v with Answered b => b | Promised => true end.

Class Host := { confirm_returns : jsstr -> confirm_value }.

(** Tauri 1 (Cargo.toml) replaces [window.confirm] by a function that sends a
    message to the host and returns a promise. *)
#[export] Instance tauri : Host := {| confirm_returns _ := Promised |}.

(** ** Handlers *)

Section Handlers.
Context {H : Host}.
(** Defaults of [safeInvoke]; whether the back end is present; the captured
    state. *)
Context (defaults : invoke_defaults) (inTauri : bool) (s : App).

Definition scan_options : scan_opts :=
  {| so_roots := parseCSV (roots s); so_exclude_patterns := parseCSV (exclude s);
     so_max_file_size_mb := of_Z 500; so_follow_symlinks := false |}.

Definition when_tauri (p : prog_) : prog_ := if inTauri then p else Ret tt.

(** Subscribe to the progress of a scan, scan, unsubscribe. *)
Definition scan_with_progress : prog action (list FileMeta) :=
  un <- onEvent "scan_progress" ;;
  res <- scanPathsProgress defaults scan_options ;;
  do_act (Unlisten un) ;;
  Ret res.

Definition doScan : prog_ := when_tauri (
  busy_handler "扫描中..." "scan_paths" "扫描失败" (
    set (SetScanCount (of_Z 0)) ;;
    set (SetScanDir []) ;;
    res <- scan_with_progress ;;
    set (SetScanned res) ;;
    set (SetLastScanTotal (of_Z (Z.of_nat (length res)))) ;;
    set (SetMsg (js "扫描完成：" ++ count_text res ++ js " 个文件")))).

Definition doIndex : prog_ := when_tauri (
  busy_handler "索引构建中..." "build_inverted_index" "索引失败" (
    buildInvertedIndex defaults (scanned s) (indexDir s) (enableContentParse s) ;;
    set (SetMsg (js "索引构建完成")))).

Definition doScanAndIndex : prog_ := when_tauri (
  set (SetBusy true) ;; set (SetIdxCurrent (of_Z 0)) ;; set (SetIdxTotal (of_Z 0)) ;;
  set (SetIdxRunning true) ;; set (SetMsg (js "扫描并构建索引中...")) ;;
  finally_idle (try_catch
    (scanAndIndexPipeline defaults (parseCSV (roots s)) (parseCSV (exclude s)) (indexDir s)
       (enableContentParse s))
    (fun e => logError e "scan_and_index_pipeline" ;; set (SetMsg (err_text e "扫描索引失败")) ;;
              set (SetIdxRunning false)))).

Definition saved_config : AppConfig :=
  {| search_mode := js "inverted"; scan_roots := parseCSV (roots s);
     exclude_patterns := parseCSV (exclude s); index_dir := indexDir s;
     path_max_len := Some (pathMaxLen s); auto_scan_enabled := Some (autoScanEnabled s) |}.

Definition doSaveConfig : prog_ := when_tauri (
  busy_handler "保存配置中..." "write_config" "保存失败" (
    writeConfig defaults saved_config ;;
    set (SetMsg (js "默认配置已保存")))).

(** The setters that show a configuration, in the effect that loads it and in
    [doResetConfig]. *)
Definition show_config (cfg : AppConfig) (text : string) : prog_ :=
  set (SetIndexDir (if truthy (index_dir cfg) then index_dir cfg else js "indexes/main")) ;;
  set (SetRoots (joinCSV (scan_roots cfg))) ;;
  set (SetExclude (joinCSV (exclude_patterns cfg))) ;;
  (match path_max_len cfg with
   | Some n => if isFinite n then set (SetPathMaxLen n) else Ret tt
   | None => Ret tt
   end) ;;
  (match auto_scan_enabled cfg with
   | Some b => set (SetAutoScanEnabled b)
   | None => Ret tt
   end) ;;
  set (SetMsg (js text)).

Definition load_config_effect : prog_ := when_tauri (
  try_catch (cfg <- readConfig defaults ;; show_config cfg "已加载默认配置") (fun _ => Ret tt)).

Definition doResetConfig : prog_ := when_tauri (
  busy_handler "恢复默认配置中..." "reset_config" "恢复默认失败" (
    cfg <- resetConfig defaults ;; show_config cfg "已恢复默认配置")).

(** [x.trim() ? Number(x) : undefined], then bytes unless it is NaN. *)
Definition size_filter (text : jsstr) : option number :=
  if truthy (trim text) then
    let n := of_string text in
    if isNaN n then None else Some (toBytesMb n)
  else None.

Definition search_filters : option SearchFilters :=
  let extArr := parseCSV (extFilter s) in
  let minBytes := size_filter (minSize s) in
  let maxBytes := size_filter (maxSize s) in
  match extArr, minBytes, maxBytes with
  | [], None, None => None
  | _, _, _ => Some {| sf_ext := match extArr with [] => None | _ => Some extArr end;
                       sf_min_size := minBytes; sf_max_size := maxBytes |}
  end.

Definition doSearch : prog_ := when_tauri (
  busy_handler "检索中..." "search_query" "检索失败" (
    res <- searchQuery defaults
             {| sq_query := query s; sq_filters := search_filters; sq_indexDir := indexDir s |} ;;
    set (SetResults res) ;;
    set (SetMsg (js "返回 " ++ count_text res ++ js " 条结果")) ;;
    set (SetPage PSearch) ;;
    set (SetSelected (head res)))).

Definition clearQuery : prog_ :=
  set (SetQuery []) ;; set (SetResults []) ;; set (SetSelected None) ;; set (SetMsg (js "查询已清空")).

Definition resetFilters : prog_ :=
  set (SetExtFilter []) ;; set (SetMinSize []) ;; set (SetMaxSize []) ;;
  set (SetSortBy ByScore) ;; set (SetSortDir Desc) ;; set (SetViewMode Table) ;;
  set (SetMsg (js "筛选与视图已重置为默认")).

(** *** The index page *)

Definition fetch_diagnostics : prog_ :=
  r <- diagnosticsReport defaults ;;
  set (SetDiag (Some r)) ;;
  set (SetMsg (js "诊断完成")).

(** The effect that runs when the page is shown. *)
Definition diagnostics_effect : prog_ := when_tauri (
  match diag s with
  | Some _ => Ret tt
  | None => catch_report (set (SetMsg (js "运行诊断中...")) ;; fetch_diagnostics)
              "diagnostics_report" "诊断失败"
  end).

Definition runDiagnostics : prog_ := when_tauri (
  set (SetMsg (js "运行诊断中...")) ;;
  catch_report fetch_diagnostics "diagnostics_report" "诊断失败").

Definition openDialog (multiple : bool) (title : string) : prog action selection :=
  await_sum (OpenDialog multiple (js title)) (fun r => r).

Definition pickRoots : prog_ := when_tauri (catch_report (
    selection <- openDialog true "选择扫描根目录（可多选）" ;;
    (match selection with
     | SMany l => set (SetRoots (joinCSV l))
     | SOne d => set (SetRoots d)
     | SNull => Ret tt
     end) ;;
    set (SetMsg (js "已选择目录根")))
  "pick_roots" "选择目录根失败").

Definition pickIndexDir : prog_ := when_tauri (catch_report (
    selection <- openDialog false "选择索引目录" ;;
    match selection with
    | SOne d => set (SetIndexDir d) ;; set (SetMsg (js "已选择索引目录"))
    | _ => Ret tt
    end)
  "pick_index_dir" "选择索引目录失败").

(** The button that starts an automatic scan. *)
Definition start_auto_scan : prog_ := when_tauri (
  try_catch (startAutoScanNow defaults) (fun e => logError e "start_auto_scan_now")).

(** *** The page of duplicates *)

Definition runDetect : prog_ := when_tauri (
  busy_handler "扫描中..." "detect_duplicates" "重复检测失败" (
    paths <- (match scanned s with
              | [] => res <- scan_with_progress ;; set (SetScanned res) ;; Ret (map fm_path res)
              | _ => Ret (map fm_path (scanned s))
              end) ;;
    set (SetMsg (js "正在分析重复...")) ;;
    groups <- detectDuplicates defaults paths ;;
    set (SetDupGroups groups) ;;
    set (SetMsg (js "检测完成：发现 " ++ count_text groups ++ js " 组重复")))).

Definition filteredGroups : list DupGroup :=
  filterb (fun g => (dupIncludeHash s && bool_decide (kind g = KHash))
                    || (dupIncludeName s && bool_decide (kind g = KName))) (dupGroups s).

(** [confirm(text)] is not awaited: the code tests what the call returns. *)
Definition confirm (text : jsstr) : prog action confirm_value := Act (Ask text) (Ret (confirm_returns text)).

Definition confirm_text (path : jsstr) : jsstr := js "确认删除该文件并移除索引记录？" ++ [10] ++ path.

Definition handleDelete (path : jsstr) : prog_ := when_tauri (
  v <- confirm (confirm_text path) ;;
  if truthy_value v then
    busy_handler "删除中..." "delete_file_and_index" "删除失败" (
      deleteFileAndIndex defaults path (indexDir s) ;;
      set (RemoveDupFile path) ;;
      set (SetMsg (js "已删除并移除索引记录")))
  else Ret tt).

(** [onClick={() => openLocation(p)}]: not guarded. *)
Definition locate_file (path : jsstr) : prog_ := openLocation defaults path.

(** *** The search page *)

Definition open_selected : prog_ :=
  match selected s with
  | Some r => when_tauri (openLocation defaults (sr_path r))
  | None => Ret tt
  end.

(** [navigator.clipboard?.writeText?.(path).then(...).catch(...)]; [has_clipboard]
    tells whether the method exists. *)
Definition copy_path (has_clipboard : bool) : prog_ :=
  match selected s with
  | Some r =>
      if has_clipboard then
        try_catch (await_sum (Clipboard (sr_path r)) (fun x => x) ;; set (SetMsg (js "已复制路径")))
          (fun _ => set (SetMsg (js "复制失败")))
      else Ret tt
  | None => Ret tt
  end.

(** Keys on the view tabs. *)
Definition view_tabs_key (key : jsstr) : prog_ :=
  if bool_decide (key = js "ArrowRight") || bool_decide (key = js "ArrowLeft") then
    set (SetViewMode (match viewMode s with Table => Card | Card => Table end))
  else if bool_decide (key = js "Home") then set (SetViewMode Table)
  else if bool_decide (key = js "End") then set (SetViewMode Card)
  else Ret tt.

Definition toggle_sort_dir : prog_ :=
  set (SetSortDir (match sortDir s with Asc => Desc | Desc => Asc end)).

(** Enter in the search field. *)
Definition search_key (key : jsstr) : prog_ :=
  if bool_decide (key = js "Enter") then doSearch else Ret tt.

(** The notice of the browser preview. *)
Definition preview_effect : prog_ :=
  if inTauri then Ret tt
  else set (SetMsg (js "当前在浏览器预览模式。后端命令不可用，请使用 Tauri 开发模式进行端到端联调。")).

(** The body of the search-as-you-type timer. *)
Definition debounced : prog_ := if truthy (trim (query s)) then doSearch else Ret tt.
End Handlers.
