(* ===== verification/AppSystem.v ===== *)
(** * App.tsx: the application as a transition system

    Handlers run up to their next suspension; while they are suspended, other
    handlers start, answers arrive, back-end events are delivered and the
    search timer fires.  [step] interleaves all of it.  A handler is started by
    an element of the page ([ui]), when the element is displayed and not
    disabled, with the state of the last render as its closure.

    The back end and the dialogs choose the answers; the class [Backend] says
    which ones are possible. *)

From stdpp Require Import relations.
From S2P Require Import Prelude JsNumber JsString JsConvert StringUtil PathUtil SizeUtil Types Effects SortResults Invoke Wire ProgLogic AppState Handlers.
#[local] Open Scope Z_scope.
#[local] Open Scope prog_scope.

(** ** The elements of the pages *)

(** The values of the file-type list of the search page. *)
Definition ext_options : list jsstr :=
  map js [""; "pdf"; "ofd"; "doc,docx"; "xls,xlsx"; "ppt,pptx"; "txt"; "png,jpg,jpeg"; "mp3,wav";
          "mp4,mkv"; "gif,bmp,svg"; "flac,m4a"; "avi,mov,webm"; "csv"; "md,markdown"; "rtf";
          "html,htm"; "json"; "xml"; "zip,rar,7z"; "log"]%string.

(** The elements of [SearchPage], [IndexPage], [DupPage] and [SettingsPage]. *)
Inductive search_ui :=
| TypeQuery (v : jsstr)
| QueryKey (key : jsstr)
| ClickSearch
| ChooseExt (v : jsstr)
| ViewKey (key : jsstr)
| ChooseView (v : ViewMode)
| ChooseSort (v : SortBy)
| ClickSortDir
| ClickRelativeTime
| ClickResult (r : SearchResult)
| ClickOpen
| ClickCopy.

Inductive index_ui :=
| EditRoots (v : jsstr)
| ClickPickRoots
| EditExclude (v : jsstr)
| EditIndexDir (v : jsstr)
| ClickPickIndexDir
| ClickScanAndIndex
| CheckContentParse (v : bool)
| ClickSave
| ClickReset
| ClickAutoScan
| ClickDiagnostics.

Inductive dup_ui :=
| CheckDupHash (v : bool)
| CheckDupName (v : bool)
| ClickDetect
| ClickLocate (path : jsstr)
| ClickDelete (path : jsstr).

Inductive settings_ui :=
| ChooseTheme (v : ThemeKey)
| ChooseLang (v : Lang)
| EditPathMaxLen (text : jsstr)
| ClickSaveSettings
| CheckAutoScan (v : bool).

(** The pages, the buttons of [Sidebar] and the theme menu of [Header]. *)
Inductive ui :=
| SearchUI (u : search_ui)
| IndexUI (u : index_ui)
| DupUI (u : dup_ui)
| SettingsUI (u : settings_ui)
| Navigate (p : PageKey)
| PickTheme (v : ThemeKey).

Coercion SearchUI : search_ui >-> ui.
Coercion IndexUI : index_ui >-> ui.
Coercion DupUI : dup_ui >-> ui.
Coercion SettingsUI : settings_ui >-> ui.

Section System.
Context (defaults : invoke_defaults) (inTauri has_clipboard : bool).

Definition on (p : PageKey) (s : App) : bool := bool_decide (page s = p).
Definition idle (s : App) : bool := negb (busy s || negb inTauri).

(** Displayed and not disabled. *)
Definition search_enabled (u : search_ui) (s : App) : bool :=
  match u with
  | TypeQuery _ | QueryKey _ | ViewKey _ | ChooseView _ | ChooseSort _ | ClickSortDir
  | ClickRelativeTime => true
  | ChooseExt v => bool_decide (v ∈ ext_options)
  | ClickSearch => idle s
  | ClickResult r => bool_decide (r ∈ sortedResults (results s) (sortBy s) (sortDir s))
  | ClickOpen | ClickCopy => match selected s with Some _ => true | None => false end
  end.

Definition index_enabled (u : index_ui) (s : App) : bool :=
  match u with
  | EditRoots _ | EditExclude _ | EditIndexDir _ | CheckContentParse _ => true
  | ClickPickRoots | ClickPickIndexDir | ClickDiagnostics => inTauri
  | ClickScanAndIndex | ClickSave | ClickReset | ClickAutoScan => idle s
  end.

Definition dup_enabled (u : dup_ui) (s : App) : bool :=
  match u with
  | CheckDupHash _ | CheckDupName _ => true
  | ClickDetect => idle s
  | ClickLocate path | ClickDelete path =>
      existsb (fun g => bool_decide (path ∈ files g)) (filteredGroups s)
  end.

Definition settings_enabled (u : settings_ui) (s : App) : bool :=
  match u with
  | ChooseTheme _ | ChooseLang _ | EditPathMaxLen _ | CheckAutoScan _ => true
  | ClickSaveSettings => idle s
  end.

(** [renderContent] shows one page; header and sidebar are always there. *)
Definition enabled (u : ui) (s : App) : bool :=
  match u with
  | SearchUI u => on PSearch s && search_enabled u s
  | IndexUI u => on PIndex s && index_enabled u s
  | DupUI u => on PDup s && dup_enabled u s
  | SettingsUI u => on PSettings s && settings_enabled u s
  | Navigate _ | PickTheme _ => true
  end.

(** What the element runs. *)
Definition search_react (u : search_ui) (s : App) : prog_ :=
  match u with
  | TypeQuery v => set (SetQuery v)
  | QueryKey key => search_key defaults inTauri s key
  | ClickSearch => doSearch defaults inTauri s
  | ChooseExt v => set (SetExtFilter v)
  | ViewKey key => view_tabs_key s key
  | ChooseView v => set (SetViewMode v)
  | ChooseSort v => set (SetSortBy v)
  | ClickSortDir => toggle_sort_dir s
  | ClickRelativeTime => set ToggleRelativeTime
  | ClickResult r => set (SetSelected (Some r))
  | ClickOpen => open_selected defaults inTauri s
  | ClickCopy => copy_path s has_clipboard
  end.

Definition index_react (u : index_ui) (s : App) : prog_ :=
  match u with
  | EditRoots v => set (SetRoots v)
  | ClickPickRoots => pickRoots inTauri
  | EditExclude v => set (SetExclude v)
  | EditIndexDir v => set (SetIndexDir v)
  | ClickPickIndexDir => pickIndexDir inTauri
  | ClickScanAndIndex => doScanAndIndex defaults inTauri s
  | CheckContentParse v => set (SetEnableContentParse v)
  | ClickSave => doSaveConfig defaults inTauri s
  | ClickReset => doResetConfig defaults inTauri
  | ClickAutoScan => start_auto_scan defaults inTauri
  | ClickDiagnostics => runDiagnostics defaults inTauri
  end.

Definition dup_react (u : dup_ui) (s : App) : prog_ :=
  match u with
  | CheckDupHash v => set (SetDupIncludeHash v)
  | CheckDupName v => set (SetDupIncludeName v)
  | ClickDetect => runDetect defaults inTauri s
  | ClickLocate path => locate_file defaults path
  | ClickDelete path => handleDelete defaults inTauri s path
  end.

Definition settings_react (u : settings_ui) (s : App) : prog_ :=
  match u with
  | ChooseTheme v => set (SetTheme v)
  | ChooseLang v => set (SetLang v)
  | EditPathMaxLen text => set (SetPathMaxLen (of_string text))
  | ClickSaveSettings => doSaveConfig defaults inTauri s
  | CheckAutoScan v => set (SetAutoScanEnabled v)
  end.

Definition react (u : ui) (s : App) : prog_ :=
  match u with
  | SearchUI u => search_react u s
  | IndexUI u => index_react u s
  | DupUI u => dup_react u s
  | SettingsUI u => settings_react u s
  | Navigate p => set (SetPage p)
  | PickTheme v => set (SetTheme v)
  end.

(** ** Worlds *)

Record world := {
  app : App;
  tasks : list prog_;            (* suspended handlers, each at an outside call *)
  listeners : list nat;          (* scan_progress subscriptions still registered *)
  next_id : nat;
  debounce : option App;         (* the search timer with the state its callback captured *)
}.

(** A handler up to its next suspension. *)
Fixpoint advance (p : prog_) (a : App) (ls : list nat) : App * list nat * option prog_ :=
  match p with
  | Ret _ | Throw _ => (a, ls, None)
  | Act (Set_ x) k => advance k (apply x a) ls
  | Act (Log _ _) k | Act (Ask _) k => advance k a ls
  | Act (Unlisten id) k => advance k a (filterb (fun j => negb (Nat.eqb j id)) ls)
  | Call _ _ => (a, ls, Some p)
  end.

(** The dependencies of the search-as-you-type effect. *)
Definition search_deps (s : App) : jsstr * jsstr * jsstr * jsstr * PageKey :=
  (query s, extFilter s, minSize s, maxSize s, page s).

(** A render: the effect clears the timer and sets it again when a dependency
    changed. *)
Definition rerender (old new : App) (d : option App) : option App :=
  if bool_decide (search_deps old = search_deps new) then d
  else if inTauri && on PSearch new then Some new else None.

(** Run a handler; when it suspends it becomes a task. *)
Definition run (p : prog_) (w : world) : world :=
  let '(a, ls, t) := advance p (app w) (listeners w) in
  {| app := a; tasks := tasks w ++ option_list t; listeners := ls; next_id := next_id w;
     debounce := rerender (app w) a (debounce w) |}.

Definition with_tasks (l : list prog_) (w : world) : world :=
  {| app := app w; tasks := l; listeners := listeners w; next_id := next_id w; debounce := debounce w |}.
Definition with_debounce (d : option App) (w : world) : world :=
  {| app := app w; tasks := tasks w; listeners := listeners w; next_id := next_id w; debounce := d |}.

(** A subscription that succeeded is registered under a new identifier. *)
Definition subscribed (c : cmd) (r : ans c) (w : world) : world :=
  match c, r with
  | Listen _, inr id =>
      {| app := app w; tasks := tasks w; listeners := id :: listeners w; next_id := S (next_id w);
         debounce := debounce w |}
  | _, _ => w
  end.

Definition fresh_answer (c : cmd) (r : ans c) (w : world) : Prop :=
  match c, r with Listen _, inr id => id = next_id w | _, _ => True end.

(** The handlers of the events [App] subscribes to with [useTauriEvents]. *)
Inductive backend_event :=
| IndexProgress (p : IndexProgressPayload)
| IndexDone
| ScanDone (total : option number)
| AutoScanStart (p : AutoScanStartPayload).

Definition on_event (e : backend_event) : list setter :=
  match e with
  | IndexProgress p => on_index_progress p
  | IndexDone => on_index_done
  | ScanDone total => on_scan_done total
  | AutoScanStart p => on_auto_scan_start p
  end.

Fixpoint run_setters (l : list setter) : prog_ :=
  match l with [] => Ret tt | x :: l' => Act (Set_ x) (run_setters l') end.

(** What the outside may answer, which events it emits, and what a scan reports. *)
Class Backend := {
  answers : forall c : cmd, ans c -> Prop;
  emits : backend_event -> Prop;
  reports : ScanProgress -> Prop;
}.
Context {B : Backend}.

Inductive step : world -> world -> Prop :=
| step_ui w u : enabled u (app w) = true -> step w (run (react u (app w)) w)
| step_answer w l1 l2 c k r :
    tasks w = l1 ++ Call c k :: l2 -> answers c r -> fresh_answer c r w ->
    step w (run (k r) (subscribed c r (with_tasks (l1 ++ l2) w)))
| step_event w e : inTauri = true -> emits e -> step w (run (run_setters (on_event e)) w)
| step_scan_progress w id payload :
    id ∈ listeners w -> reports payload -> step w (run (run_setters (on_scan_progress payload)) w)
| step_timer w snapshot :
    debounce w = Some snapshot ->
    step w (run (debounced defaults inTauri snapshot) (with_debounce None w))
| step_index_page w :
    page (app w) = PIndex -> step w (run (diagnostics_effect defaults inTauri (app w)) w).

(** The world after the first render: the effects have run. *)
Definition mount (path_max_len : number) : world :=
  let s := initial_state path_max_len in
  run (load_config_effect defaults inTauri)
    (run (preview_effect inTauri)
       {| app := s; tasks := []; listeners := []; next_id := O;
          debounce := if inTauri then Some s else None |}).

Context (path_max_len : number).
Definition reachable (w : world) : Prop := rtc step (mount path_max_len) w.

(** ** Invariants of states and tasks *)

Lemma advance_suspended p a ls a' ls' q : advance p a ls = (a', ls', Some q) ->
  exists c k, q = Call c k.
Proof.
  revert a ls. induction p as [x|e|act k IH|c k IH]; intros a ls; simpl; try done.
  - destruct act; apply IH.
  - intros [= _ _ <-]. eauto.
Qed.

(** Actions that keep a property of the state. *)
Lemma wp_advance (J : App -> Prop) G R (Q : action -> Prop) p a ls a' ls' t :
  (forall x s, Q (Set_ x) -> J s -> J (apply x s)) -> J a -> prog_wp G R Q (fun _ => True) p -> advance p a ls = (a', ls', t) ->
  J a' /\ forall q, t = Some q -> prog_wp G R Q (fun _ => True) q.
Proof.
  intros HQ. revert a ls. induction p as [x|e|act k IH|c k IH]; intros a ls Ha Hp; simpl.
  - by intros [= <- _ <-].
  - by intros [= <- _ <-].
  - destruct Hp as [Hact Hp]. destruct act as [x| | |]; [|by apply IH..]. apply IH; [|done]. by apply HQ.
  - intros [= <- _ <-]. split; [done|]. by intros q [= <-].
Qed.

(** A property [J] of the state and [P] of the programs started from such
    states, kept by running a program up to its next suspension. *)
Record inductive (J : App -> Prop) (P : prog_ -> Prop) : Prop := {
  ind_initial : J (initial_state path_max_len);
  ind_answer : forall c k r, P (Call c k) -> answers c r -> P (k r);
  ind_advance : forall p a ls a' ls' t, J a -> P p -> advance p a ls = (a', ls', t) ->
    J a' /\ forall q, t = Some q -> P q;
  ind_react : forall u s ls a' ls' t, J s -> enabled u s = true ->
    advance (react u s) s ls = (a', ls', t) -> J a' /\ forall q, t = Some q -> P q;
  ind_debounced : forall s, J s -> P (debounced defaults inTauri s);
  ind_diagnostics : forall s, J s -> P (diagnostics_effect defaults inTauri s);
  ind_event : forall e, inTauri = true -> emits e -> P (run_setters (on_event e));
  ind_progress : forall payload, reports payload -> P (run_setters (on_scan_progress payload));
  ind_preview : P (preview_effect inTauri);
  ind_load : P (load_config_effect defaults inTauri);
}.

Definition holds (J : App -> Prop) (P : prog_ -> Prop) (w : world) : Prop :=
  J (app w) /\ Forall P (tasks w) /\ forall snapshot, debounce w = Some snapshot -> J snapshot.

Section Inductive.
Context {J : App -> Prop} {P : prog_ -> Prop} (HI : inductive J P).

Lemma holds_run' p w : holds J P w ->
  (forall ls a' ls' t, advance p (app w) ls = (a', ls', t) -> J a' /\ forall q, t = Some q -> P q) ->
  holds J P (run p w).
Proof.
  intros (HJ & HP & HD) Hp. unfold run. destruct (advance p (app w) (listeners w)) as [[a ls] t] eqn:E.
  destruct (Hp _ _ _ _ E) as [HJ' Ht]. split_and!; simpl; [done| |].
  - apply Forall_app. split; [done|]. destruct t as [q|]; simpl; [|done]. constructor; [by apply Ht|done].
  - intros snapshot. unfold rerender. case_bool_decide; [apply HD|].
    destruct (inTauri && on PSearch a); [by intros [= <-]|done].
Qed.

Lemma holds_run p w : holds J P w -> P p -> holds J P (run p w).
Proof.
  intros Hw Hp. apply holds_run'; [done|]. intros ls a' ls' t E.
  exact (ind_advance _ _ HI _ _ _ _ _ _ (proj1 Hw) Hp E).
Qed.

Lemma holds_step w w' : step w w' -> holds J P w -> holds J P w'.
Proof.
  intros St Hw. pose proof Hw as (HJ & HP & HD).
  destruct St as [w u Hu|w l1 l2 c k r E Hr Hf|w e HT He|w id payload Hid Hpay|w snap Hs|w Hp].
  - apply holds_run'; [done|]. intros ls a' ls' t. by apply (ind_react _ _ HI).
  - rewrite E in HP. apply Forall_app in HP as [H1 [Hc H2]%Forall_cons].
    apply holds_run; [|by eapply (ind_answer _ _ HI)].
    assert (holds J P (with_tasks (l1 ++ l2) w)) as Hw'.
    { split_and!; simpl; [done|by apply Forall_app|done]. }
    destruct c; try done. by destruct r.
  - apply holds_run; [done|]. by apply (ind_event _ _ HI).
  - apply holds_run; [done|]. by apply (ind_progress _ _ HI).
  - apply holds_run; [by split_and!|]. apply (ind_debounced _ _ HI). by apply HD.
  - apply holds_run; [done|]. by apply (ind_diagnostics _ _ HI).
Qed.

Lemma holds_mount : holds J P (mount path_max_len).
Proof.
  unfold mount. apply holds_run; [|apply (ind_load _ _ HI)].
  apply holds_run; [|apply (ind_preview _ _ HI)].
  split_and!; simpl; [apply (ind_initial _ _ HI)|done|].
  destruct inTauri; [|done]. intros ? [= <-]. apply (ind_initial _ _ HI).
Qed.

Lemma holds_reachable w : reachable w -> holds J P w.
Proof.
  apply (rtc_ind_r (holds J P) (mount path_max_len)); [apply holds_mount|].
  intros w1 w2 _ St Hw. by eapply holds_step.
Qed.
End Inductive.
End System.

#[global] Arguments world : clear implicits.
