(* ===== verification/Views.v ===== *)
(** * App.tsx and components/ThemeDropdown.tsx: what is displayed

    The texts of the pages as functions of the state, the theme menu as a small
    state machine, and the sequence of hooks a render calls.  Markup, styles and
    class names that do not depend on the state are left out. *)

From S2P Require Import Prelude JsNumber JsString JsConvert PathUtil SizeUtil DateUtil Types Effects SortResults Highlight AppState Handlers.
#[local] Open Scope Z_scope.

Section Views.
Context {C : CaseTables} (compile : jsstr -> jsstr -> option matcher).
Context (locale : Z -> jsstr) (now : number).

(** ** Results *)

(** [r.size != null ? formatBytes(r.size) : '-']. *)
Definition size_text (size : option number) : jsstr :=
  match size with Some n => formatBytes n no_opts | None => js "-" end.

(** [showRelativeTime ? formatRelativeTs(ts) : formatTs(ts)]. *)
Definition time_text (s : App) (ts : option number) : jsstr :=
  if showRelativeTime s then formatRelativeTs locale now ts else formatTs locale ts.

(** One row of the table, or one card. *)
Record result_row := {
  row_selected : bool;
  row_name : option view;
  row_summary : option (option view);   (* displayed when the result has one *)
  row_title : jsstr;                    (* the full path, on hover *)
  row_path : jsstr;
  row_ext : jsstr;
  row_score : jsstr;
  row_size : jsstr;
  row_time : jsstr;
}.

Definition same_path (o : option SearchResult) (r : SearchResult) : bool :=
  match o with Some x => bool_decide (sr_path x = sr_path r) | None => false end.

Definition result_view (s : App) (r : SearchResult) : result_row :=
  {| row_selected := same_path (selected s) r;
     row_name := highlight compile (sr_name r) (query s);
     row_summary := match sr_summary r with
                    | Some t => if truthy t then Some (highlight compile t (query s)) else None
                    | None => None
                    end;
     row_title := sr_path r;
     row_path := shortenPath (sr_path r) (pathMaxLen s);
     row_ext := sr_ext r;
     row_score := toFixed (sr_score r) 4;
     row_size := size_text (sr_size r);
     row_time := time_text s (sr_modified_ts r) |}.

(** Both layouts list the sorted results; the table has cells, a card one line. *)
Definition result_rows (s : App) : list result_row :=
  map (result_view s) (sortedResults (results s) (sortBy s) (sortDir s)).

Definition card_line (row : result_row) : jsstr :=
  js "分数 " ++ row_score row ++ js " · 大小 " ++ row_size row ++ js " · 时间 " ++ row_time row.

Definition empty_notice (s : App) : option jsstr :=
  match results s with [] => Some (js "暂无结果，试试输入关键词并点击搜索") | _ => None end.

(** The lines of the detail pane. *)
Definition detail_lines (s : App) : list jsstr :=
  match selected s with
  | Some r =>
      [sr_name r; js "类型：" ++ sr_ext r; js "路径：" ++ shortenPath (sr_path r) (pathMaxLen s);
       js "分数：" ++ toFixed (sr_score r) 4; js "大小：" ++ size_text (sr_size r);
       js "时间：" ++ time_text s (sr_modified_ts r)]
  | None => [js "请选择左侧结果查看详情"]
  end.

Definition detail_preview (s : App) : option (option view) :=
  match selected s with
  | Some r => match sr_summary r with
              | Some t => if truthy t then Some (highlight compile t (query s))
                          else Some (Some (Plain (js "预览占位（文本片段/缩略图）")))
              | None => Some (Some (Plain (js "预览占位（文本片段/缩略图）")))
              end
  | None => None
  end.

(** ** The index page *)

(** [Math.min(100, Math.round(idxCurrent / Math.max(1, idxTotal) * 100))]. *)
Definition progress_percent (s : App) : number :=
  min (of_Z 100) (round (mul (div (idxCurrent s) (max (of_Z 1) (idxTotal s))) (of_Z 100))).

Definition progress_lines (s : App) : list jsstr :=
  if ltb (of_Z 0) (idxTotal s) then
    [js "索引进度：" ++ to_string (idxCurrent s) ++ js "/" ++ to_string (idxTotal s);
     js "已构建：" ++ to_string (idxCurrent s) ++ js " · 待构建："
       ++ to_string (max (of_Z 0) (sub (idxTotal s) (idxCurrent s)))]
  else [].

Definition scanned_line (s : App) : jsstr :=
  js "已扫描文件："
  ++ to_string (if busy s || idxRunning s then scanCount s
                else match scanned s with [] => lastScanTotal s | l => of_Z (Z.of_nat (length l)) end)
  ++ (if busy s && truthy (scanDir s) then js " · 正在扫描：" ++ shortenPath (scanDir s) (pathMaxLen s) else []).

Definition yes_no (b : bool) (yes no : string) : jsstr := js (if b then yes else no).
Definition or_dash {A} (f : A -> jsstr) (o : option A) : jsstr :=
  match o with Some x => f x | None => js "-" end.
Definition mib (n : number) : jsstr := to_string (round (div n (of_Z 1024))) ++ js " MiB".

Definition diagnostics_lines (s : App) : list jsstr :=
  match diag s with
  | None => [js "点击“运行诊断”以查看系统与索引状态"]
  | Some r =>
      [js "索引目录：" ++ dr_index_dir r;
       js "索引可打开：" ++ yes_no (dr_index_open_ok r) "是" "否"
         ++ js " · 文档数：" ++ or_dash to_string (dr_index_doc_count r)
         ++ js " · 字段：" ++ to_string (match dr_schema_fields r with
                                       | Some l => of_Z (Z.of_nat (length l)) | None => of_Z 0 end);
       js "扫描根数：" ++ to_string (dr_config_scan_roots_count r)
         ++ js " · 自动扫描：" ++ yes_no (dr_config_auto_scan_enabled r) "已启用" "未启用";
       js "管道：" ++ yes_no (dr_pipeline_started r) "进行中" "未进行"
         ++ js " · 已完成：" ++ yes_no (dr_pipeline_completed r) "是" "否"
         ++ js " · 上次日期：" ++ or_dash (fun x => x) (dr_pipeline_last_day r);
       js "系统：CPU 平均 " ++ or_dash (fun n => toFixed n 1 ++ js "%") (dr_sys_cpu_avg r)
         ++ js " · 内存 总 " ++ or_dash mib (dr_sys_total_mem_kib r)
         ++ js " / 可用 " ++ or_dash mib (dr_sys_free_mem_kib r)]
      ++ match dr_warnings r with [] => [js "未发现警告"] | ws => js "警告：" :: ws end
  end.

(** ** The page of duplicates *)

Definition dup_header (s : App) : jsstr := if truthy (msg s) then msg s else js "重复文件".

Definition dup_busy_line (s : App) : option jsstr :=
  if busy s then
    Some (js "正在扫描重复文件，请稍候… 已扫描：" ++ to_string (scanCount s)
          ++ (if truthy (scanDir s) then js " · 当前目录：" ++ shortenPath (scanDir s) (pathMaxLen s) else []))
  else None.

Record dup_card := { card_title : jsstr; card_badge : jsstr; card_files : list (jsstr * jsstr) }.

Definition dup_cards (s : App) : list dup_card :=
  map (fun g => {| card_title := (match kind g with KHash => js "内容哈希" | KName => js "文件名" end)
                                 ++ js "：" ++ key g ++ js " ";
                   card_badge := count_text (files g) ++ js " 个";
                   card_files := map (fun p => (p, shortenPath p (pathMaxLen s))) (files g) |})
    (filteredGroups s).

(** ** Navigation *)

Definition sidebar_items : list (PageKey * jsstr) :=
  [(PSearch, js "全局搜索"); (PIndex, js "索引状态"); (PDup, js "重复文件"); (PSettings, js "系统设置");
   (PAbout, js "关于产品")].

Definition sidebar (s : App) : list (jsstr * bool) :=
  map (fun it => (snd it, bool_decide (page s = fst it))) sidebar_items.
End Views.

(** ** constants/themes.ts and the theme menu *)

Definition themeOptions : list (ThemeKey * (jsstr * jsstr)) :=
  [(Eye, (js "护眼", js "#2ecc71")); (Light, (js "明亮", js "#3A7AFE")); (Dark, (js "暗黑", js "#6C5CE7"));
   (Tech, (js "科技", js "#00e0ff")); (Sky, (js "天蓝", js "#3A7AFE")); (Purple, (js "暗紫", js "#8b5cf6"));
   (Gray, (js "暗灰", js "#64748b"))].

Inductive menu_event :=
| ClickButton                 (* setOpen(v => !v) *)
| ClickItem (k : ThemeKey)    (* onChange(opt.key); setOpen(false) *)
| ClickDocument (inside : bool)
| AppRender.                  (* App renders again *)

(** [Header] is a function declared in the body of [App], so each render of
    [App] passes a new component type: the old menu is unmounted and a new one
    starts closed. *)
Definition menu_step (e : menu_event) (open : bool) (theme : ThemeKey) : bool * ThemeKey :=
  match e with
  | ClickButton => (negb open, theme)
  | ClickItem k => if open then (false, k) else (open, theme)
  | ClickDocument inside => (if inside then open else false, theme)
  | AppRender => (false, theme)
  end.

Definition menu_items (theme : ThemeKey) (open : bool) : list (jsstr * bool) :=
  if open then map (fun o => (fst (snd o), bool_decide (theme = fst o))) themeOptions else [].

(** ** The hooks of a render *)

Inductive hook_kind := UseMemo | UseState | UseRef | UseEffect.

#[export] Instance hook_kind_eq_dec : EqDecision hook_kind.
Proof. solve_decision. Defined.

Definition useTauriEvents_hooks : list hook_kind := [UseEffect].
Definition useGlobalErrorLogging_hooks : list hook_kind := [UseEffect].
Definition useFocusDebug_hooks : list hook_kind := [UseState; UseEffect; UseEffect].

(** The calls made while [App] renders, in order; [renderContent] calls the
    function of the displayed page, it does not mount a component, so the hooks
    of [IndexPage] are hooks of [App]. *)
Definition IndexPage_hooks : list hook_kind := [UseEffect].

Definition App_hooks (p : PageKey) : list hook_kind :=
  [UseMemo] ++ replicate 14 UseState ++ [UseRef] ++ replicate 18 UseState ++ replicate 7 UseRef
  ++ [UseEffect; UseEffect; UseEffect] ++ useGlobalErrorLogging_hooks ++ useTauriEvents_hooks
  ++ [UseEffect; UseEffect] ++ useFocusDebug_hooks ++ [UseEffect; UseMemo]
  ++ match p with PIndex => IndexPage_hooks | _ => [] end.

(** ** Non-negative numbers *)

Definition nonneg (x : number) : Prop :=
  match x with NaN => False | Infinity neg => neg = false | Fin k => 0 <= k end.

Lemma nonneg_round_qr q r d : 0 <= q -> 0 <= r < d -> nonneg (round_qr false q r d).
Proof.
  intros Hq Hr. unfold round_qr, signed. pose proof (proj2 (round_mag_rep q r d Hq)).
  by destruct (_ <? top).
Qed.

Lemma nonneg_div a b : 0 <= a -> 0 < b -> nonneg (div (Fin a) (Fin b)).
Proof.
  intros Ha Hb. unfold div. rewrite (proj2 (Z.eqb_neq b 0)) by lia.
  rewrite (proj2 (Z.ltb_ge a 0)), (proj2 (Z.ltb_ge b 0)) by lia. cbn [xorb].
  pose proof one_pos. rewrite Z.abs_eq, (Z.abs_eq b) by lia. apply nonneg_round_qr.
  - apply Z.div_pos; nia.
  - apply Z.mod_pos_bound. lia.
Qed.

Lemma nonneg_mul x b : nonneg x -> 0 < b -> nonneg (mul x (Fin b)).
Proof.
  intros Hx Hb. destruct x as [|neg|a]; simpl in Hx; [done| |].
  - subst neg. unfold mul, is_zero, neg_of. cbn [orb xorb]. rewrite (proj2 (Z.eqb_neq b 0)) by lia. by rewrite (proj2 (Z.ltb_ge b 0)) by lia.
  - unfold mul. rewrite (proj2 (Z.ltb_ge (a * b) 0)) by nia.
    rewrite Z.shiftr_div_pow2, Z.shiftl_mul_pow2 by lia. rewrite <- one_eq. pose proof one_pos.
    apply nonneg_round_qr; [apply Z.div_pos; lia|].
    pose proof (Z.mod_pos_bound (Z.abs (a * b)) one ltac:(lia)).
    pose proof (Z.div_mod (Z.abs (a * b)) one ltac:(lia)). lia.
Qed.

Lemma clamp_100 x : nonneg x -> exists p, min (of_Z 100) (round x) = of_Z p /\ 0 <= p <= 100.
Proof.
  intros Hx. pose proof one_pos. pose proof half_pos. pose proof one_half.
  destruct x as [|neg|k]; simpl in Hx; [done| |].
  - subst neg. exists 100. split; [|lia]. unfold min, round. rewrite of_Z_small by lia. reflexivity.
  - assert (0 <= (k + half) / one) by (apply Z.div_pos; lia).
    unfold min, round. rewrite of_Z_small by lia. cbn [ltb].
    destruct (Z.ltb_spec ((k + half) / one * one) (100 * one)).
    + exists ((k + half) / one). rewrite of_Z_small by nia. split; [reflexivity|nia].
    + exists 100. rewrite of_Z_small by lia. split; [reflexivity|lia].
Qed.

(** ** Properties *)

(** The progress bar stays between 0 and 100 per cent, as a whole number, for
    non-negative counts, also a total of zero; a finished build shows 100. *)
Lemma progress_percent_range s a b :
  idxCurrent s = Fin a -> idxTotal s = Fin b -> 0 <= a -> 0 <= b ->
  (exists p, progress_percent s = of_Z p /\ 0 <= p <= 100)
  /\ (a = b -> one <= b -> progress_percent s = of_Z 100).
Proof.
  intros Ea Eb Ha Hb. pose proof one_pos. unfold progress_percent. rewrite Ea, Eb.
  assert (Em : max (of_Z 1) (Fin b) = Fin (Z.max one b)).
  { rewrite of_Z_small by lia. unfold max. cbn [ltb]. rewrite Z.mul_1_l.
    destruct (Z.ltb_spec one b); f_equal; lia. }
  rewrite Em, (of_Z_small 100) by lia. split.
  - rewrite <- (of_Z_small 100) by lia. apply clamp_100. rewrite of_Z_small by lia.
    apply nonneg_mul; [apply nonneg_div; lia|lia].
  - intros -> Hle. rewrite Z.max_r by lia.
    rewrite (div_exact b b (1 * one)) by (lia || (apply rep_int; lia)).
    rewrite mul_ints by lia. unfold round. pose proof half_pos. pose proof one_half.
    replace ((1 * 100 * one + half) / one) with 100
      by (apply (Z.div_unique_pos _ _ _ half); lia).
    unfold min. cbn [ltb]. by rewrite Z.ltb_irrefl.
Qed.

Section Rows.
Context {C : CaseTables} (compile : jsstr -> jsstr -> option matcher) (locale : Z -> jsstr) (now : number).

(** The list of results is complete: each result is displayed exactly once,
    with its full path on hover; the notice of an empty list appears exactly when
    there is nothing to list; and with a whole path limit of at least 13 every
    displayed path fits the limit. *)
Theorem result_rows_complete s :
  Permutation (map row_title (result_rows compile locale now s)) (map sr_path (results s))
  /\ (result_rows compile locale now s = [] <-> is_Some (empty_notice s))
  /\ (forall m, pathMaxLen s = of_Z m -> 13 <= m <= 2 ^ 50 ->
        Forall (fun r => len (sr_path r) <= 2 ^ 50) (results s) ->
        Forall (fun row => len (row_path row) <= m) (result_rows compile locale now s)).
Proof.
  pose proof (sort_stable_perm (results_le (sortBy s) (sortDir s)) (results s)) as Hp.
  unfold result_rows. split_and!.
  - rewrite map_map. simpl. apply Permutation_map. symmetry. exact Hp.
  - unfold empty_notice, sortedResults. split.
    + intros E%map_eq_nil. rewrite E in Hp. apply Permutation_sym, Permutation_nil in Hp. by rewrite Hp.
    + destruct (results s); [done|]. by intros [? [=]].
  - intros m Hm Hr Hl. apply Forall_fmap, Forall_forall. intros r Hin. simpl.
    assert (r ∈ results s) as Hin' by (by rewrite Hp). rewrite Forall_forall in Hl. specialize (Hl r Hin').
    pose proof (len_candidate (sr_path r)). rewrite Hm, shortenPath_int by lia. apply len_shorten_int. lia.
Qed.
End Rows.

(** The theme menu offers every theme exactly once and checks the current one
    and no other; picking an item closes the menu with that theme. *)
Theorem theme_menu_correct theme :
  NoDup (map fst themeOptions) /\ (forall k, k ∈ map fst themeOptions)
  /\ map snd (menu_items theme true) = map (fun k => bool_decide (theme = k)) (map fst themeOptions)
  /\ length (filterb snd (menu_items theme true)) = 1%nat
  /\ (forall k, menu_step (ClickItem k) true theme = (false, k)).
Proof.
  split_and!; [| |by destruct theme|by destruct theme|done].
  - apply (bool_decide_eq_true_1 _). vm_compute. reflexivity.
  - intros k. apply (bool_decide_eq_true_1 _). destruct k; vm_compute; reflexivity.
Qed.

(** The renders of the application do not all call the same hooks: the index
    page adds one, so navigating to it or away from it changes the number of
    hooks of the same component, which React refuses. *)
Theorem hooks_differ_on_index_page p q :
  App_hooks p = App_hooks q <-> (p = PIndex <-> q = PIndex).
Proof.
  split.
  - intros E. apply (f_equal length) in E. destruct p, q; vm_compute in E; try done; by split.
  - intros H. destruct p, q; try done; destruct H as [H1 H2]; by first [specialize (H1 eq_refl)|specialize (H2 eq_refl)].
Qed.
