(* ===== verification/Markup.v ===== *)
(** * The elements a render returns

    What JSX builds: a tree of elements with their properties, event handlers
    and children.  A handler is the command it gives the application; the tree is
    polymorphic in commands.  [offers] says which commands the user can give with
    the displayed elements, [texts] what can be read. *)

From S2P Require Import Prelude JsNumber JsString Highlight.

(** Some element of a list satisfies a predicate, as a disjunction that
    computes. *)
Fixpoint any {A} (P : A -> Prop) (l : list A) : Prop :=
  match l with [] => False | x :: l' => P x \/ any P l' end.

Lemma any_exists {A} (P : A -> Prop) l : any P l <-> exists x, x ∈ l /\ P x.
Proof.
  induction l as [|y l IH]; simpl.
  - split; [done|]. intros (x & Hx & _). by apply not_elem_of_nil in Hx.
  - rewrite IH. split.
    + intros [H|(x & Hx & H)]; [exists y|exists x]; (split; [|done]); [left|by right].
    + intros (x & [->|Hx]%elem_of_cons & H); [by left|right; eauto].
Qed.

Lemma any_app {A} (P : A -> Prop) l l' : any P (l ++ l') <-> any P l \/ any P l'.
Proof. induction l; simpl; tauto. Qed.

Lemma any_map {A B} (P : B -> Prop) (f : A -> B) l : any P (map f l) <-> exists x, x ∈ l /\ P (f x).
Proof. rewrite <- any_exists. induction l; simpl; tauto. Qed.

Section Markup.
Context {command : Type}.

Inductive handler :=
| OnClick (c : command)
| OnInput (f : jsstr -> command)           (* onChange of a field, with its text *)
| OnSelect (f : jsstr -> option command)   (* onChange of a list, with the value chosen *)
| OnCheck (f : bool -> command)            (* onChange of a checkbox *)
| OnKeyDown (f : jsstr -> command).

Record attributes := {
  disabled : bool;
  handlers : list handler;
  props : list (string * jsstr);
}.

Inductive node :=
| Text (s : jsstr)
| Highlighted (v : option view)            (* the element [highlight] returns *)
| El (tag : string) (a : attributes) (children : list node).

(** Elements written with properties only, with handlers, with [disabled]. *)
Definition el (tag : string) (ps : list (string * jsstr)) (ch : list node) : node :=
  El tag {| disabled := false; handlers := []; props := ps |} ch.
Definition elh (tag : string) (hs : list handler) (ps : list (string * jsstr)) (ch : list node) : node :=
  El tag {| disabled := false; handlers := hs; props := ps |} ch.
Definition button (d : bool) (c : command) (ps : list (string * jsstr)) (ch : list node) : node :=
  El "button" {| disabled := d; handlers := [OnClick c]; props := ps |} ch.
(** A button without a handler. *)
Definition inert_button (d : bool) (ps : list (string * jsstr)) (ch : list node) : node :=
  El "button" {| disabled := d; handlers := []; props := ps |} ch.

(** [{ b && n }]. *)
Definition shown_if (b : bool) (n : node) : list node := if b then [n] else [].

Fixpoint prop (name : string) (ps : list (string * jsstr)) : option jsstr :=
  match ps with
  | [] => None
  | (k, v) :: ps' => if String.eqb k name then Some v else prop name ps'
  end.

(** The values of the [option] children of a list. *)
Definition option_values (ch : list node) : list jsstr :=
  omap (fun n => match n with
                 | El tag a _ => if String.eqb tag "option" then prop "value" (props a) else None
                 | _ => None
                 end) ch.

(** The commands a handler can give; [vs] are the values of its list. *)
Definition fires (vs : list jsstr) (c : command) (h : handler) : Prop :=
  match h with
  | OnClick c' => c = c'
  | OnInput f => exists t, c = f t
  | OnSelect f => exists t, t ∈ vs /\ f t = Some c
  | OnCheck f => exists b, c = f b
  | OnKeyDown f => exists k, c = f k
  end.

(** The commands the elements that are not disabled can give. *)
Fixpoint offers (c : command) (n : node) : Prop :=
  match n with
  | El _ a ch => (disabled a = false /\ any (fires (option_values ch) c) (handlers a)) \/ any (offers c) ch
  | _ => False
  end.

Fixpoint texts (n : node) : list jsstr :=
  match n with
  | Text s => [s]
  | Highlighted v => match v with Some x => [Highlight.shown x] | None => [] end
  | El _ _ ch => flat_map texts ch
  end.

End Markup.

#[global] Arguments handler command : clear implicits.
#[global] Arguments node command : clear implicits.

(** ** Reasoning about [offers]

    [offers] of a tree computes to a disjunction over its elements.
    [offers_elim] takes such a disjunction apart, [offers_intro] finds the
    element that gives a command. *)

Ltac offers_elim :=
  repeat match goal with
  | H : False |- _ => destruct H
  | H : true = false |- _ => discriminate H
  | H : _ \/ _ |- _ => destruct H as [H|H]
  | H : _ /\ _ |- _ => destruct H
  | H : exists _, _ |- _ => destruct H
  end.

Ltac offers_intro leaf :=
  first [ solve [leaf] | left; offers_intro leaf | right; offers_intro leaf ].
