(* ===== verification/Pages.v ===== *)
(** * App.tsx, pages/AboutPage.tsx, components/ThemeDropdown.tsx: the pages

    What [App] returns from a render, as a tree of elements: every page with its
    texts, properties and handlers.  Inline styles, icons and refs are left out;
    the width of the progress bar is kept.

    [AppSystem] states which elements the user can operate as a boolean function
    of the state; here that function is shown to agree with the rendered tree. *)

From S2P Require Import Prelude JsNumber JsString JsConvert StringUtil PathUtil SizeUtil DateUtil Types Effects SortResults Highlight Invoke AppState Handlers AppSystem Views Markup.
#[local] Open Scope Z_scope.

(** A command of the user: to an element of the application, or to the button of
    the theme menu, whose state is local. *)
Inductive command := Give (u : ui) | ToggleMenu.

Abbreviation html := (node command).

(** ** Values of the lists *)

Definition view_values : list (jsstr * ViewMode) := [(js "table", Table); (js "card", Card)].
Definition sort_values : list (jsstr * SortBy) := [(js "score", ByScore); (js "time", ByTime); (js "size", BySize)].
Definition theme_values : list (jsstr * ThemeKey) :=
  [(js "light", Light); (js "dark", Dark); (js "eye", Eye); (js "tech", Tech); (js "sky", Sky);
   (js "purple", Purple); (js "gray", Gray)].
Definition lang_values : list (jsstr * Lang) := [(js "zh", Zh); (js "en", En)].

(** The meaning of a value, and the value of a choice. *)
Fixpoint meaning {A} (l : list (jsstr * A)) (v : jsstr) : option A :=
  match l with [] => None | (k, a) :: l' => if bool_decide (k = v) then Some a else meaning l' v end.
Definition value_of {A} `{EqDecision A} (l : list (jsstr * A)) (a : A) : jsstr :=
  default [] (fst <$> List.find (fun p => bool_decide (snd p = a)) l).

#[export] Instance Lang_eq_dec : EqDecision Lang.
Proof. solve_decision. Defined.

(** ** Shorthands *)

Definition T (s : string) : html := Text (js s).
Definition className (s : string) : string * jsstr := ("className"%string, js s).
(** [`base ${b ? name : ''}`]. *)
Definition class_if (base : string) (b : bool) (name : string) : string * jsstr :=
  ("className"%string, js base ++ js " " ++ (if b then js name else [])).
Definition option_el (value : jsstr) (label : string) : html := el "option" [("value"%string, value)] [T label].
Definition choose {A} (l : list (jsstr * A)) (f : A -> ui) : handler command :=
  OnSelect (fun v => Give ∘ f <$> meaning l v).
Definition bool_text (b : bool) : jsstr := js (if b then "true" else "false").

(** A button of a list of tabs: [aria-selected], [tabIndex] and the class follow
    whether it is the current one. *)
Definition tab (current : bool) (u : ui) (label : string) : html :=
  button false (Give u)
    [class_if "ghost" current "active"; ("role"%string, js "tab"); ("aria-selected"%string, bool_text current);
     ("tabIndex"%string, js (if current then "0" else "-1"))] [T label].

Section Pages.
Context {C : CaseTables} (compile : jsstr -> jsstr -> option matcher).
Context (locale : Z -> jsstr) (now : number).
Context (inTauri : bool) (lastFocus : jsstr).

(** [disabled={busy || !inTauri}]. *)
Definition blocked (s : App) : bool := busy s || negb inTauri.

(** ** Header and sidebar *)

Definition ThemeDropdown (open : bool) (s : App) : html :=
  el "div" [className "dropdown"]
    (button false ToggleMenu [class_if "theme-btn" open "active"] [el "span" [className "theme-dot"] []; T " 主题"]
     :: shown_if open (el "div" [className "dropdown-menu"]
          (map (fun o : ThemeKey * (jsstr * jsstr) =>
             elh "div" [OnClick (Give (PickTheme (fst o)))] [className "dropdown-item"]
               ([el "span" [className "theme-dot"; ("background"%string, snd (snd o))] [];
                 el "span" [] [Text (fst (snd o))]]
                ++ shown_if (bool_decide (theme s = fst o)) (el "span" [className "check"] [T "✓"])))
             themeOptions))).

Definition Header (open : bool) (s : App) : html :=
  el "header" [className "app-header"]
    [el "div" [className "brand"] [el "span" [className "logo"] [T "SE"]; el "span" [className "title"] [T "SearchEvery"]];
     el "div" [className "actions"] [ThemeDropdown open s]].

Definition Sidebar (s : App) : html :=
  el "aside" [className "app-sidebar"]
    (map (fun it : PageKey * jsstr =>
       button false (Give (Navigate (fst it))) [class_if "nav-item" (bool_decide (page s = fst it)) "active"]
         [Text (snd it)]) sidebar_items).

(** ** The search page *)

Definition ext_labels : list (string * string) :=
  [("", "文件类型"); ("pdf", "pdf"); ("ofd", "ofd"); ("doc,docx", "doc/docx"); ("xls,xlsx", "xls/xlsx");
   ("ppt,pptx", "ppt/pptx"); ("txt", "txt"); ("png,jpg,jpeg", "图片"); ("mp3,wav", "音频"); ("mp4,mkv", "视频");
   ("gif,bmp,svg", "图片（gif/bmp/svg）"); ("flac,m4a", "音频（flac/m4a）"); ("avi,mov,webm", "视频（avi/mov/webm）");
   ("csv", "csv"); ("md,markdown", "md/markdown"); ("rtf", "rtf"); ("html,htm", "html/htm"); ("json", "json");
   ("xml", "xml"); ("zip,rar,7z", "压缩包（zip/rar/7z）"); ("log", "log")]%string.

Definition search_bar (s : App) : html :=
  el "div" [className "panel-header"]
    [el "div" [className "row"]
       [elh "input" [OnInput (fun v => Give (TypeQuery v)); OnKeyDown (fun k => Give (QueryKey k))]
          [("value"%string, query s); ("placeholder"%string, js "搜索您的一切")] [];
        button (blocked s) (Give ClickSearch) [] [T "搜一搜"]];
     el "div" [className "status"] [Text (msg s)];
     el "div" [className "muted"] [Text (js "焦点：" ++ (if truthy lastFocus then lastFocus else js "未知"))]].

Definition mode_line (s : App) : html :=
  el "div" [className "mode-line"]
    [el "span" [className "muted"] [T "模式：倒排索引"];
     elh "select" [OnSelect (fun v => Some (Give (ChooseExt v)))] [className "chip-input"; ("value"%string, extFilter s)]
       (map (fun o => option_el (js (fst o)) (snd o)) ext_labels);
     el "div" [className "view-toggle"]
       [elh "div" [OnKeyDown (fun k => Give (ViewKey k))]
          [className "tabs"; ("role"%string, js "tablist"); ("aria-label"%string, js "视图切换")]
          [tab (bool_decide (viewMode s = Table)) (ChooseView Table) "表格";
           tab (bool_decide (viewMode s = Card)) (ChooseView Card) "卡片"];
        elh "select" [choose view_values ChooseView]
          [className "tabs-select"; ("value"%string, value_of view_values (viewMode s))]
          [option_el (js "table") "表格"; option_el (js "card") "卡片"];
        el "span" [className "divider"] [];
        el "span" [className "muted"] [T "排序："];
        el "div" [className "tabs tabs-sort"; ("role"%string, js "tablist"); ("aria-label"%string, js "排序切换")]
          [tab (bool_decide (sortBy s = ByScore)) (ChooseSort ByScore) "综合";
           tab (bool_decide (sortBy s = ByTime)) (ChooseSort ByTime) "时间";
           tab (bool_decide (sortBy s = BySize)) (ChooseSort BySize) "大小"];
        elh "select" [choose sort_values ChooseSort]
          [className "tabs-select tabs-select-sort"; ("value"%string, value_of sort_values (sortBy s))]
          [option_el (js "score") "综合"; option_el (js "time") "时间"; option_el (js "size") "大小"];
        button false (Give ClickSortDir) [className "ghost"]
          [T (match sortDir s with Asc => "升序" | Desc => "降序" end)];
        el "span" [className "divider"] [];
        button false (Give ClickRelativeTime) [className "ghost"]
          [Text (js "时间显示：" ++ js (if showRelativeTime s then "相对" else "绝对"))]]].

Abbreviation row_of := (result_view compile locale now).

Definition result_tr (s : App) (r : SearchResult) : html :=
  let row := row_of s r in
  elh "tr" [OnClick (Give (ClickResult r))] [className (if row_selected row then "selected" else "")]
    [el "td" [className "name"]
       (el "div" [] [Highlighted (row_name row)]
        :: match row_summary row with Some v => [el "div" [className "muted"] [Highlighted v]] | None => [] end);
     el "td" [className "path"; ("title"%string, row_title row)] [Text (row_path row)];
     el "td" [] [Text (row_ext row)]; el "td" [] [Text (row_score row)]; el "td" [] [Text (row_size row)];
     el "td" [] [Text (row_time row)]].

Definition empty_nodes (s : App) (wrap : html -> html) : list html :=
  match empty_notice s with Some t => [wrap (Text t)] | None => [] end.

Definition results_table (s : App) : html :=
  el "table" [className "table"]
    [el "thead" [] [el "tr" [] [el "th" [] [T "名称"]; el "th" [] [T "路径"]; el "th" [] [T "类型"]; el "th" [] [T "分数"];
                                el "th" [] [T "大小"]; el "th" [] [T "时间"]]];
     el "tbody" []
       (map (result_tr s) (sortedResults (results s) (sortBy s) (sortDir s))
        ++ empty_nodes s (fun t => el "tr" [] [el "td" [className "empty"; ("colSpan"%string, js "6")] [t]]))].

Definition result_card (s : App) (r : SearchResult) : html :=
  let row := row_of s r in
  elh "div" [OnClick (Give (ClickResult r))] [class_if "card" (row_selected row) "selected"]
    (el "div" [className "card-title"] [Highlighted (row_name row); el "span" [className "badge"] [Text (row_ext row)]]
     :: match row_summary row with Some v => [el "div" [className "card-path"] [Highlighted v]] | None => [] end
     ++ [el "div" [className "card-path"; ("title"%string, row_title row)] [Text (row_path row)];
         el "div" [className "card-score"] [Text (card_line row)]]).

Definition results_cards (s : App) : html :=
  el "div" [className "cards"]
    (map (result_card s) (sortedResults (results s) (sortBy s) (sortDir s))
     ++ empty_nodes s (fun t => el "div" [className "empty"] [t])).

Definition detail_pane (s : App) : html :=
  el "aside" [className "detail"]
    (match selected s with
     | Some r =>
         [el "div" [className "detail-box"]
            [el "div" [className "detail-title"] [Text (sr_name r)];
             el "div" [className "detail-meta"]
               [el "div" [] [Text (js "类型：" ++ sr_ext r)];
                el "div" [className "muted"; ("title"%string, sr_path r)]
                  [Text (js "路径：" ++ shortenPath (sr_path r) (pathMaxLen s))];
                el "div" [className "muted"] [Text (js "分数：" ++ toFixed (sr_score r) 4)];
                el "div" [className "muted"] [Text (js "大小：" ++ size_text (sr_size r))];
                el "div" [className "muted"] [Text (js "时间：" ++ time_text locale now s (sr_modified_ts r))]];
             el "div" [className "detail-actions"]
               [button false (Give ClickOpen) [className "ghost"] [T "打开位置"];
                button false (Give ClickCopy) [className "ghost"] [T "复制路径"];
                inert_button false [className "ghost"] [T "收藏"]];
             el "div" [className "preview muted"]
               match detail_preview compile s with Some v => [Highlighted v] | None => [] end]]
     | None => [el "div" [className "empty"] [T "请选择左侧结果查看详情"]]
     end).

Definition SearchPage (s : App) : html :=
  el "div" [className "panel"]
    [search_bar s;
     el "div" [className "panel-body"]
       [mode_line s;
        el "div" [className "split"]
          [el "div" [className "primary"]
             [if bool_decide (viewMode s = Table) then results_table s else results_cards s];
           detail_pane s]]].

(** ** The index page *)

Definition checkbox (checked : bool) (f : bool -> ui) (label : string) : html :=
  el "label" [className "checkbox"]
    [elh "input" [OnCheck (fun b => Give (f b))] [("type"%string, js "checkbox"); ("checked"%string, bool_text checked)] [];
     T label].

Definition field (value : jsstr) (f : jsstr -> ui) (placeholder : string) : html :=
  elh "input" [OnInput (fun v => Give (f v))] [("value"%string, value); ("placeholder"%string, js placeholder)] [].

Definition index_form (s : App) : html :=
  el "div" [className "form-grid"]
    [el "label" [] [T "目录根（逗号分隔）";
       el "div" [className "row"]
         [field (roots s) EditRoots "如：D:/, E:/work（或点击右侧选择文件夹）";
          button (negb inTauri) (Give ClickPickRoots) [className "ghost"] [T "选择文件夹"]]];
     el "label" [] [T "排除模式"; field (exclude s) EditExclude "如：\\Windows, \\Program Files"];
     el "label" [] [T "索引目录";
       el "div" [className "row"]
         [field (indexDir s) EditIndexDir "indexes/main（或点击右侧选择文件夹）";
          button (negb inTauri) (Give ClickPickIndexDir) [className "ghost"] [T "选择索引目录"]]]].

Definition index_actions (s : App) : html :=
  el "div" [className "row"]
    [button (blocked s) (Give ClickScanAndIndex) [] [T "扫描并索引"];
     checkbox (enableContentParse s) CheckContentParse "启用内容解析（仅文本类）";
     button (blocked s) (Give ClickSave) [className "ghost"] [T "保存为默认配置"];
     button (blocked s) (Give ClickReset) [className "ghost"] [T "恢复默认配置"];
     button (blocked s) (Give ClickAutoScan) [className "ghost"] [T "立即自动扫描"]].

(** Shown while a total is known. *)
Definition index_progress (s : App) : html :=
  el "div" []
    [el "div" [className "status"]
       [Text (js "索引进度：" ++ to_string (idxCurrent s) ++ js "/" ++ to_string (idxTotal s))];
     el "div" [] [el "div" [("width"%string, to_string (progress_percent s) ++ js "%")] []];
     el "div" [className "status"]
       [Text (js "已构建：" ++ to_string (idxCurrent s) ++ js " · 待构建："
              ++ to_string (max (of_Z 0) (sub (idxTotal s) (idxCurrent s))))];
     el "div" [className "row"]
       [inert_button true [className "ghost"] [T "暂停（预留）"];
        inert_button true [className "ghost"] [T "继续（预留）"];
        inert_button (negb (idxRunning s)) [className "ghost"] [T "取消（预留）"]]].

(** The card of a report: a title, five lines, and the warnings or their absence. *)
Definition diagnostics_card (s : App) (r : DiagnosticsReport) : html :=
  el "div" [className "card"]
    (el "div" [className "card-title"] [T "索引与配置状态"]
     :: zip_with (fun c t => el "div" [className c] [Text t])
          ["card-path"; "card-score"; "card-score"; "card-score"; "card-score"]%string (diagnostics_lines s)
     ++ [match dr_warnings r with
         | [] => el "div" [className "muted"] [T "未发现警告"]
         | ws => el "div" [] [el "div" [className "muted"] [T "警告："];
                              el "ul" [className "muted"] (map (fun w => el "li" [] [Text w]) ws)]
         end]).

Definition diagnostics_panel (s : App) : html :=
  el "div" []
    [el "div" [className "row"]
       [el "div" [className "status"] [T "问题与诊断"];
        button (negb inTauri) (Give ClickDiagnostics) [className "ghost"] [T "运行诊断"]];
     match diag s with
     | Some r => diagnostics_card s r
     | None => el "div" [className "muted"] [T "点击“运行诊断”以查看系统与索引状态"]
     end].

Definition IndexPage (s : App) : html :=
  el "div" [className "panel"]
    [el "div" [className "panel-header"] [el "div" [className "status"] [Text (msg s)]];
     el "div" [className "panel-body"]
       ([index_form s; index_actions s]
        ++ shown_if (ltb (of_Z 0) (idxTotal s)) (index_progress s)
        ++ [el "div" [className "muted"] [Text (scanned_line s)]; diagnostics_panel s])].

(** ** The page of duplicates *)

Definition dup_card_el (s : App) (g : DupGroup) : html :=
  el "div" [className "card"]
    [el "div" [className "card-title"]
       [Text ((match kind g with KHash => js "内容哈希" | KName => js "文件名" end) ++ js "：" ++ key g ++ js " ");
        el "span" [className "badge"] [Text (count_text (files g) ++ js " 个")]];
     el "div" [className "detail-box"]
       (map (fun p : jsstr =>
          el "div" [className "row"]
            [el "span" [className "card-path"; ("title"%string, p)] [Text (shortenPath p (pathMaxLen s))];
             el "div" [className "detail-actions"]
               [button false (Give (ClickLocate p)) [className "ghost"] [T "定位"];
                button false (Give (ClickDelete p)) [className "ghost"] [T "删除"]]]) (files g))].

Definition dup_groups (s : App) (gs : list DupGroup) : html :=
  match gs with
  | [] => el "div" [className "empty"] [T "暂无重复分组。点击“扫描并检测重复”开始。"]
  | _ => el "div" [className "cards"] (map (dup_card_el s) gs)
  end.

Definition DupPage (s : App) : html :=
  el "div" [className "panel"]
    [el "div" [className "panel-header"]
       [el "div" [className "status"] [Text (dup_header s)];
        el "div" [className "row"]
          [checkbox (dupIncludeHash s) CheckDupHash "按内容哈希";
           checkbox (dupIncludeName s) CheckDupName "按文件名";
           button (blocked s) (Give ClickDetect) [className "ghost btn-tablike btn-fixed btn-outline-primary"]
             [T "扫描并检测重复"]]];
     el "div" [className "panel-body"]
       (match dup_busy_line s with Some t => [el "div" [className "muted"] [Text t]] | None => [] end
        ++ [dup_groups s (filteredGroups s)])].

(** ** The settings *)

(** The path of the preview. *)
Definition preview_path : jsstr := js "D:/very/long/example/path/with/many/subfolders/file.txt".

Definition number_input (kind : string) (s : App) : html :=
  elh "input" [OnInput (fun v => Give (EditPathMaxLen v))]
    [("type"%string, js kind); ("min"%string, js "20"); ("max"%string, js "200"); ("step"%string, js "5");
     ("value"%string, to_string (pathMaxLen s))] [].

Definition SettingsPage (s : App) : html :=
  el "div" [className "panel"]
    [el "div" [className "panel-header"] [el "div" [className "status"] [T "设置：主题与语言"]];
     el "div" [className "panel-body"]
       [el "div" [className "row"]
          [el "label" [] [T "主题色调";
             elh "select" [choose theme_values ChooseTheme] [("value"%string, value_of theme_values (theme s))]
               [option_el (js "light") "明亮色"; option_el (js "dark") "暗黑色"; option_el (js "eye") "护眼色";
                option_el (js "tech") "科技色"; option_el (js "sky") "天蓝色"; option_el (js "purple") "暗紫色";
                option_el (js "gray") "暗灰色"]];
           el "label" [] [T "语言";
             elh "select" [choose lang_values ChooseLang] [("value"%string, value_of lang_values (lang s))]
               [option_el (js "zh") "中文"; option_el (js "en") "English"]];
           el "label" [] [T "路径显示最大长度（20–200）";
             el "div" [className "row"]
               [number_input "range" s; number_input "number" s;
                button (blocked s) (Give ClickSaveSettings) [className "ghost"] [T "保存为默认配置"]];
             el "div" [className "muted"] [Text (js "预览：" ++ shortenPath preview_path (pathMaxLen s))]];
           checkbox (autoScanEnabled s) CheckAutoScan "启用每日自动扫描（系统空闲时）"]]].

(** ** pages/AboutPage.tsx *)

Definition items (cls : string) (l : list string) : html := el "ul" [className cls] (map (fun t => el "li" [] [T t]) l).
Definition heading (t : string) : html := el "div" [] [T t].

Definition AboutPage : html :=
  el "div" [className "panel"]
    [el "div" [className "panel-header"] [el "div" [className "status"] [T "关于产品"]];
     el "div" [className "panel-body about-body"]
       [el "img" [("alt"%string, js "skm"); className "skm-float"] [];
        items "about" ["产品名：SearchEvery"; "版本：预览版";
                       "技术栈：React + Vite 前端，Tauri + Rust 后端，Tantivy 搜索引擎"];
        el "div" []
          [heading "产品简介";
           el "div" [className "muted"]
             [T "SearchEvery 致力于在本地海量文件中快速检索与定位，提供稳定、可配置且易用的搜索体验。"];
           heading "功能说明";
           items "features"
             ["目录扫描与排除：可设置根目录与排除模式（如 \\Windows, \\Program Files）。";
              "索引构建：支持倒排索引，带实时进度事件与状态展示。";
              "内容解析：可选文本类文件解析以生成摘要（需启用）。";
              "检索与筛选：关键词搜索、精确短语与正则高亮、扩展名过滤、大小范围（MB 单位）、结果排序（综合/时间/大小）。";
              "结果查看：表格/卡片视图切换，支持打开文件所在位置。";
              "主题与语言：多主题（护眼/明亮/暗黑/科技/天蓝/暗紫/暗灰），中英文切换。";
              "重复文件：预留功能，后续将支持按组展示与清理策略。"];
           heading "隐私与许可";
           items "features"
             ["所有数据处理均在本地完成，除非用户手动分享，程序不会上传任何文件或索引。";
              "开源许可：MIT License；欢迎反馈与贡献。"];
           heading "路线图（预告）";
           items "features"
             ["更多内容类型解析与预览支持。"; "更细粒度的筛选维度与排序策略。"; "重复文件识别与清理策略落地。"]]];
     el "div" [className "panel-footer"]
       [el "div" [className "copyright"]
          [el "div" [className "copy-content"]
             [el "div" [className "copy-title"] [T "版权声明"];
              el "div" [] [T "© 2025 七夜工作室 · 保留所有权利"];
              el "div" [className "muted"]
                [T "MIT License · 联系：qiye2025@qq.com · 代码仓库：";
                 el "a" [("href"%string, js "https://github.com/smart-open/SearchEvery"); ("target"%string, js "_blank");
                         ("rel"%string, js "noopener noreferrer")] [T "github.com/smart-open/SearchEvery"]]]]]].

(** ** The shell *)

Definition renderContent (s : App) : html :=
  match page s with
  | PSearch => SearchPage s
  | PIndex => IndexPage s
  | PDup => DupPage s
  | PSettings => SettingsPage s
  | PAbout => AboutPage
  end.

(** What [App] returns; [open] is the state of the theme menu. *)
Definition render (open : bool) (s : App) : html :=
  el "div" [className "app-shell"]
    [Header open s;
     el "div" [className "app-body"] [Sidebar s; el "main" [className "app-main"] [renderContent s]]].

(** ** What each part offers *)

(** Parts that only display. *)
Lemma any_zip_silent {A B} (f : A -> B -> html) c l k :
  (forall x y, ~ offers c (f x y)) -> ~ any (offers c) (zip_with f l k).
Proof. intros H. revert k. induction l as [|x l IH]; intros [|y k]; simpl; try tauto. intros [E|E]; [by eapply H|by eapply IH]. Qed.

Lemma any_map_silent {A} (f : A -> html) c l : (forall x, ~ offers c (f x)) -> ~ any (offers c) (map f l).
Proof. intros H. rewrite any_map. intros (x & _ & E). by eapply H. Qed.

Ltac silent := intros; cbn -[js]; let H := fresh in intros H; offers_elim.

Lemma diagnostics_card_silent s r c : ~ offers c (diagnostics_card s r).
Proof.
  unfold diagnostics_card. cbn -[js zip_with map diagnostics_lines]. intros H. offers_elim.
  apply any_app in H as [H|H].
  - revert H. apply any_zip_silent. silent.
  - destruct (dr_warnings r); cbn -[js map] in H; offers_elim.
    revert H. apply (any_map_silent (fun w => el "li" [] [Text w])). silent.
Qed.

Lemma empty_nodes_silent s f c : (forall t, ~ offers c (f (Text t))) -> ~ any (offers c) (empty_nodes s f).
Proof. intros H. unfold empty_nodes. destruct (empty_notice s); simpl; [|tauto]. intros [E|[]]. by eapply H. Qed.

Lemma about_silent c : ~ offers c AboutPage.
Proof. cbn -[js]. intros H. offers_elim. Qed.

(** *** Header and sidebar *)

Lemma offers_header open s c :
  offers c (Header open s) <-> c = ToggleMenu \/ (open = true /\ exists k, c = Give (PickTheme k)).
Proof.
  unfold Header, ThemeDropdown. cbn -[js themeOptions map]. split.
  - intros H. offers_elim; try (left; assumption).
    destruct open; cbn -[js themeOptions map] in H; offers_elim.
    apply any_map in H as (x & _ & H). cbn -[js] in H. offers_elim; [right; eauto|].
    destruct (bool_decide _); cbn -[js] in H; offers_elim.
  - intros [->|[-> [k ->]]]; [offers_intro ltac:(split; [reflexivity|left; reflexivity])|].
    destruct k; cbn -[js]; offers_intro ltac:(split; [reflexivity|left; reflexivity]).
Qed.

Lemma offers_sidebar s c : offers c (Sidebar s) <-> exists p, c = Give (Navigate p).
Proof.
  unfold Sidebar. cbn -[js]. split; [intros H; offers_elim; eauto|]. intros [p ->].
  destruct p; offers_intro ltac:(split; [reflexivity|left; reflexivity]).
Qed.

(** *** The index page *)

Lemma offers_index s c :
  offers c (IndexPage s) <-> exists u, c = Give (IndexUI u) /\ index_enabled inTauri u s = true.
Proof.
  unfold IndexPage. cbn -[js ltb of_Z map zip_with progress_percent scanned_line]. split.
  - intros H. offers_elim.
    all: try (eexists; split; [eassumption|]; cbn; unfold idle, blocked in *;
              first [reflexivity|apply negb_false_iff; assumption|apply negb_true_iff; assumption]).
    apply any_app in H as [H|H].
    + destruct (ltb _ _); cbn -[js of_Z progress_percent] in H; offers_elim.
    + cbn -[js scanned_line] in H. offers_elim.
      * eexists; split; [eassumption|]. by apply negb_false_iff.
      * destruct (diag s) as [r|]; [by apply diagnostics_card_silent in H|cbn -[js] in H; offers_elim].
  - intros (u & -> & Hu). rewrite any_app. cbn -[js ltb of_Z map zip_with progress_percent scanned_line].
    destruct u; cbn in Hu; unfold idle in Hu; fold (blocked s) in Hu;
      rewrite <- ?negb_false_iff, ?negb_involutive in Hu;
      offers_intro ltac:(split; [first [reflexivity|assumption]|left; first [reflexivity|eexists; reflexivity]]).
Qed.

(** *** The page of duplicates *)

Lemma offers_dup_card s g c :
  offers c (dup_card_el s g) <-> exists p, p ∈ files g /\ (c = Give (ClickLocate p) \/ c = Give (ClickDelete p)).
Proof.
  unfold dup_card_el. cbn -[js map]. split.
  - intros H. offers_elim. apply any_map in H as (p & Hp & H). cbn -[js] in H. exists p. split; [done|].
    offers_elim; [by left|by right].
  - intros (p & Hp & H). right. right. left. right. apply any_map. exists p. split; [done|]. cbn -[js].
    destruct H as [-> | ->]; offers_intro ltac:(split; [reflexivity|left; reflexivity]).
Qed.

Lemma offers_dup_groups s gs c :
  offers c (dup_groups s gs) <->
  exists g p, g ∈ gs /\ p ∈ files g /\ (c = Give (ClickLocate p) \/ c = Give (ClickDelete p)).
Proof.
  transitivity (any (offers c) (map (dup_card_el s) gs)).
  - destruct gs as [|g gs]; unfold dup_groups; cbn -[js map]; intuition.
  - rewrite any_map. setoid_rewrite offers_dup_card. split; [intros (g & Hg & p & Hp & H); eauto|].
    intros (g & p & Hg & Hp & H). eauto.
Qed.

Lemma offers_dup s c :
  offers c (DupPage s) <-> exists u, c = Give (DupUI u) /\ dup_enabled inTauri u s = true.
Proof.
  unfold DupPage. cbn -[js map dup_header filteredGroups dup_busy_line dup_groups]. split.
  - intros H. offers_elim.
    all: try (eexists; split; [eassumption|]; cbn; unfold idle, blocked in *;
              first [reflexivity|apply negb_true_iff; assumption]).
    apply any_app in H as [H|H]; [destruct (dup_busy_line s); cbn -[js] in H; offers_elim|].
    destruct H as [H|[]]. apply offers_dup_groups in H as (g & p & Hg & Hp & H).
    destruct H as [-> | ->]; eexists; (split; [reflexivity|]); cbn; apply existsb_exists; exists g;
      (split; [by apply list_elem_of_In|by apply bool_decide_eq_true]).
  - intros (u & -> & Hu). rewrite any_app. cbn -[js map dup_header filteredGroups dup_busy_line dup_groups].
    destruct u as [v|v| |p|p]; cbn in Hu; unfold idle in Hu; fold (blocked s) in Hu; rewrite ?negb_true_iff in Hu.
    1-3: offers_intro ltac:(split; [first [reflexivity|assumption]|left; first [reflexivity|eexists; reflexivity]]).
    all: apply existsb_exists in Hu as (g & Hg%list_elem_of_In & Hp%bool_decide_eq_true).
    all: right; right; left; right; right; left; apply offers_dup_groups; eauto 6.
Qed.

(** *** The settings *)

Lemma offers_settings s c :
  offers c (SettingsPage s) <-> exists u, c = Give (SettingsUI u) /\ settings_enabled inTauri u s = true.
Proof.
  unfold SettingsPage. split.
  - cbn -[js to_string shortenPath meaning elem_of]. intros H. offers_elim.
    all: try (eexists; split; [eassumption|]; cbn; unfold idle, blocked in *;
              first [reflexivity|apply negb_true_iff; assumption]).
    + destruct (meaning theme_values _); [|done]. simplify_eq/=. by eexists.
    + destruct (meaning lang_values _); [|done]. simplify_eq/=. by eexists.
  - intros (u & -> & Hu). cbn -[js to_string shortenPath meaning elem_of].
    destruct u as [v|v| | |]; cbn in Hu; unfold idle in Hu; fold (blocked s) in Hu; rewrite ?negb_true_iff in Hu.
    3-5: offers_intro ltac:(split; [first [reflexivity|assumption]|left; first [reflexivity|eexists; reflexivity]]).
    + offers_intro ltac:(split; [reflexivity|]; left; exists (value_of theme_values v);
        split; [apply (bool_decide_eq_true_1 _)|]; destruct v; vm_compute; reflexivity).
    + offers_intro ltac:(split; [reflexivity|]; left; exists (value_of lang_values v);
        split; [apply (bool_decide_eq_true_1 _)|]; destruct v; vm_compute; reflexivity).
Qed.

(** *** The search page *)

Lemma offers_result_tr s r c : offers c (result_tr s r) <-> c = Give (ClickResult r).
Proof.
  unfold result_tr. cbn -[js row_of]. split.
  - intros H. offers_elim; [assumption|]. destruct (row_summary _); cbn in H; offers_elim.
  - intros ->. by left; split; [|left].
Qed.

Lemma offers_result_card s r c : offers c (result_card s r) <-> c = Give (ClickResult r).
Proof.
  unfold result_card. cbn -[js row_of card_line]. split.
  - intros H. offers_elim; [assumption|]. apply any_app in H as [H|H]; [destruct (row_summary _)|]; cbn in H; offers_elim.
  - intros ->. by left; split; [|left].
Qed.

Lemma offers_results s c :
  offers c (if bool_decide (viewMode s = Table) then results_table s else results_cards s) <->
  exists r, r ∈ sortedResults (results s) (sortBy s) (sortDir s) /\ c = Give (ClickResult r).
Proof.
  destruct (bool_decide _).
  - unfold results_table. cbn -[js map sortedResults empty_nodes]. setoid_rewrite any_app. rewrite any_map.
    setoid_rewrite offers_result_tr. split.
    + intros H. offers_elim; [by eexists|]. exfalso. revert H. apply empty_nodes_silent. silent.
    + intros H. right. right. left. right. by left.
  - unfold results_cards. cbn -[js map sortedResults empty_nodes]. setoid_rewrite any_app. rewrite any_map.
    setoid_rewrite offers_result_card. split.
    + intros H. offers_elim; [by eexists|]. exfalso. revert H. apply empty_nodes_silent. silent.
    + intros H. right. by left.
Qed.

Lemma offers_detail s c :
  offers c (detail_pane s) <-> is_Some (selected s) /\ (c = Give ClickOpen \/ c = Give ClickCopy).
Proof.
  unfold detail_pane. destruct (selected s) as [r|]; cbn -[js detail_preview size_text time_text toFixed shortenPath].
  - split.
    + intros H. offers_elim; try (split; [by eexists|]; auto; fail).
      destruct (detail_preview compile s); cbn in H; offers_elim.
    + intros [_ [-> | ->]]; offers_intro ltac:(split; [reflexivity|left; reflexivity]).
  - split; [intros H; offers_elim|]. by intros [[? [=]] _].
Qed.

Lemma offers_mode_line s c :
  offers c (mode_line s) <->
  (exists v, v ∈ ext_options /\ c = Give (ChooseExt v)) \/ (exists k, c = Give (ViewKey k))
  \/ (exists v, c = Give (ChooseView v)) \/ (exists v, c = Give (ChooseSort v))
  \/ c = Give ClickSortDir \/ c = Give ClickRelativeTime.
Proof.
  unfold mode_line. cbn -[js meaning map]. rewrite any_map. split.
  - intros H. offers_elim; eauto 10.
    all: try (match goal with H : _ <$> meaning ?l _ = Some _ |- _ => destruct (meaning l _); [|done]; simplify_eq/= end; eauto 10; fail).
    + left. simplify_eq/=. eexists. split; [eassumption|reflexivity].
    + cbn in *. offers_elim.
  - intros H. offers_elim; subst.
    + offers_intro ltac:(split; [reflexivity|]; left; eexists; split; [eassumption|reflexivity]).
    + offers_intro ltac:(split; [reflexivity|]; left; eexists; reflexivity).
    + destruct x; offers_intro ltac:(split; [reflexivity|left; reflexivity]).
    + destruct x; offers_intro ltac:(split; [reflexivity|left; reflexivity]).
    + offers_intro ltac:(split; [reflexivity|left; reflexivity]).
    + offers_intro ltac:(split; [reflexivity|left; reflexivity]).
Qed.

Lemma offers_search_bar s c :
  offers c (search_bar s) <->
  (exists v, c = Give (TypeQuery v)) \/ (exists k, c = Give (QueryKey k)) \/ (blocked s = false /\ c = Give ClickSearch).
Proof.
  unfold search_bar. cbn -[js]. split.
  - intros H. offers_elim; eauto 6.
  - intros H. offers_elim; subst.
    + offers_intro ltac:(split; [reflexivity|]; left; eexists; reflexivity).
    + offers_intro ltac:(split; [reflexivity|]; right; left; eexists; reflexivity).
    + offers_intro ltac:(split; [assumption|]; left; reflexivity).
Qed.

Lemma offers_search s c :
  offers c (SearchPage s) <-> exists u, c = Give (SearchUI u) /\ search_enabled inTauri u s = true.
Proof.
  transitivity (offers c (search_bar s) \/ offers c (mode_line s) \/
    offers c (if bool_decide (viewMode s = Table) then results_table s else results_cards s) \/ offers c (detail_pane s)).
  { unfold SearchPage. cbn [offers el any handlers disabled]. tauto. }
  rewrite offers_search_bar, offers_mode_line, offers_results, offers_detail. split.
  - intros H. offers_elim; subst; eexists; (split; [reflexivity|]); cbn; unfold idle, blocked in *;
      try reflexivity; try (by apply bool_decide_eq_true); try (by apply negb_true_iff).
    all: destruct H as [r ->]; reflexivity.
  - intros (u & -> & Hu). destruct u; cbn in Hu; unfold idle in Hu; fold (blocked s) in Hu;
      rewrite ?negb_true_iff, ?bool_decide_eq_true in Hu; try (destruct (selected s); [|done]);
      offers_intro ltac:(first [reflexivity|eexists; reflexivity|eexists; split; [eassumption|reflexivity]
        |split; [first [assumption|eexists; reflexivity]|first [reflexivity|left; reflexivity|right; reflexivity]]]).
Qed.

Lemma render_offers open s c :
  offers c (render open s) <->
  match c with
  | ToggleMenu => True
  | Give (PickTheme _) => open = true
  | Give u => enabled inTauri u s = true
  end.
Proof.
  transitivity (offers c (Header open s) \/ offers c (Sidebar s) \/ offers c (renderContent s)).
  { unfold render. cbn [offers el any handlers disabled]. tauto. }
  rewrite offers_header, offers_sidebar.
  assert (offers c (renderContent s) <->
          exists u, c = Give u /\ enabled inTauri u s = true
            /\ match u with Navigate _ | PickTheme _ => False | _ => True end) as ->.
  { unfold renderContent, enabled, on. destruct (page s);
      [rewrite offers_search|rewrite offers_index|rewrite offers_dup|rewrite offers_settings|].
    5: split; [by intros H%about_silent|]; intros (u & -> & Hu & Hk); by destruct u.
    all: split; [intros (u & -> & Hu); by eexists|]; intros (u & -> & Hu & Hk);
      destruct u as [u|u|u|u|?|?]; simpl in Hu; try done; eauto. }
  destruct c as [u|]; [|intuition]. split.
  - intros [[?|[-> [k [= ->]]]]|[[q [= ->]]|(u' & [= <-] & Hu & Hk)]]; try done. by destruct u.
  - intros H. destruct u as [u|u|u|u|q|k]; try (right; right; eexists; by split_and!).
    + right. left. by eexists.
    + left. right. eauto.
Qed.

(** C27. The guards of the transition system are what is displayed: in every
    state, with the theme menu open or closed, the commands the user can give
    with the rendered elements that are not disabled are exactly those the
    system accepts (a theme can be picked from the menu while it is open), and
    the button of the menu.  The page in [page] is the one displayed. *)
Theorem rendered_offers_enabled open s c :
  offers c (render open s) <->
  match c with
  | ToggleMenu => True
  | Give (PickTheme _) => open = true
  | Give u => enabled inTauri u s = true
  end.
Proof. apply render_offers. Qed.

(** ** The language *)

(** The settings page shows the language in its own list and nowhere else. *)
Lemma settings_texts_lang s l : texts (SettingsPage (apply (SetLang l) s)) = texts (SettingsPage s).
Proof. reflexivity. Qed.

(** The choice of a language changes nothing but that choice: whatever the
    state, the texts displayed and the commands offered are the same for every
    language. *)
Theorem language_has_no_effect open s l :
  texts (render open (apply (SetLang l) s)) = texts (render open s)
  /\ forall c, offers c (render open (apply (SetLang l) s)) <-> offers c (render open s).
Proof.
  split.
  - unfold render. cbn [texts el flat_map]. do 2 f_equal. f_equal. f_equal.
    unfold renderContent. change (page (apply (SetLang l) s)) with (page s).
    destruct (page s); try reflexivity.
  - intros c. rewrite !render_offers. by destruct c as [[u|u|u|u|?|?]|].
Qed.
End Pages.
