(* ===== verification/EventBus.v ===== *)
(** * services/events.ts: listening to back-end events

    Each function of the module awaits [listen] and returns what it resolves to.
    The host registers the callback at some moment and resolves the promise
    later; events may be delivered in between.  A subscription is followed
    through its history: registration, resolution, deliveries, unsubscription.

    The second part is the table of subscriptions of [App], from event names and
    JSON payloads to setters. *)

From S2P Require Import Prelude JsNumber JsString Types Effects AppState Handlers AppSystem.
#[local] Open Scope Z_scope.

Section Subscription.
(** The payloads of the event; the handler is called with one and may throw. *)
Context {payload : Type} (throws : payload -> bool).

(** What one call of a subscribing function can see happen. *)
Inductive moment :=
| Registered                   (* the host has the callback *)
| Resolves                     (* [await listen(...)] resumes: [unlisten] has its value *)
| Delivers (p : payload)       (* the host emits the event *)
| Unlistens.                   (* the caller calls the function it got *)

Record subscription := {
  listening : bool;            (* registered and not removed *)
  bound : bool;                (* the constant [unlisten] is initialised *)
  calls : list payload;        (* the calls of the handler, oldest first *)
  uncaught : nat;              (* exceptions thrown out of the callback *)
}.

Definition requested : subscription :=
  {| listening := false; bound := false; calls := []; uncaught := 0 |}.

(** [(event) => { handler(event.payload) }], of [onEvent], [onIndexProgress]
    and [onIndexDone] (whose handler ignores the payload). *)
Definition call_handler (p : payload) (s : subscription) : subscription :=
  {| listening := listening s; bound := bound s; calls := calls s ++ [p];
     uncaught := uncaught s + (if throws p then 1 else 0) |}.

(** [(event) => { handler(event.payload); unlisten() }], of [onEventOnce]: a
    handler that throws skips the second statement; before the constant is
    initialised the second statement throws. *)
Definition call_handler_once (p : payload) (s : subscription) : subscription :=
  let s := call_handler p s in
  if throws p then s
  else if bound s then {| listening := false; bound := true; calls := calls s; uncaught := uncaught s |}
  else {| listening := listening s; bound := false; calls := calls s; uncaught := S (uncaught s) |}.

Definition happens (once : bool) (s : subscription) (m : moment) : subscription :=
  match m with
  | Registered => {| listening := true; bound := bound s; calls := calls s; uncaught := uncaught s |}
  | Resolves => {| listening := listening s; bound := true; calls := calls s; uncaught := uncaught s |}
  | Delivers p => if listening s then (if once then call_handler_once p s else call_handler p s) else s
  | Unlistens => {| listening := false; bound := bound s; calls := calls s; uncaught := uncaught s |}
  end.

Definition history (once : bool) (l : list moment) : subscription := fold_left (happens once) l requested.

(** The payloads up to and including the first the handler does not throw on. *)
Fixpoint through_first_ok (l : list payload) : list payload :=
  match l with [] => [] | p :: l' => p :: (if throws p then through_first_ok l' else []) end.

Definition thrown_on (l : list payload) : nat := length (filterb throws l).

(** ** Deliveries in a row *)

Lemma thrown_on_cons p l : thrown_on (p :: l) = ((if throws p then 1 else 0) + thrown_on l)%nat.
Proof. unfold thrown_on. simpl. by destruct (throws p). Qed.

Lemma deliveries_ignored once l s : listening s = false -> fold_left (happens once) (map Delivers l) s = s.
Proof. intros H. induction l; simpl; [done|]. by rewrite H. Qed.

Lemma deliveries l s : listening s = true ->
  fold_left (happens false) (map Delivers l) s
  = {| listening := true; bound := bound s; calls := calls s ++ l; uncaught := uncaught s + thrown_on l |}.
Proof.
  revert s. induction l as [|p l IH]; intros s H; simpl.
  - rewrite app_nil_r, Nat.add_0_r. destruct s; simpl in *. by subst.
  - rewrite H, IH by done. unfold call_handler. simpl. rewrite thrown_on_cons, <- app_assoc, Nat.add_assoc. done.
Qed.

Lemma once_unbound l s : listening s = true -> bound s = false ->
  fold_left (happens true) (map Delivers l) s
  = {| listening := true; bound := false; calls := calls s ++ l; uncaught := uncaught s + length l |}.
Proof.
  revert s. induction l as [|p l IH]; intros s H Hb; simpl.
  - rewrite app_nil_r, Nat.add_0_r. destruct s; simpl in *. by subst.
  - rewrite H. unfold call_handler_once, call_handler. simpl. rewrite Hb. destruct (throws p); rewrite IH by done; simpl;
      rewrite <- app_assoc; f_equal; lia.
Qed.

Lemma once_bound l s : listening s = true -> bound s = true ->
  fold_left (happens true) (map Delivers l) s
  = {| listening := forallb throws l; bound := true; calls := calls s ++ through_first_ok l;
       uncaught := uncaught s + thrown_on (through_first_ok l) |}.
Proof.
  revert s. induction l as [|p l IH]; intros s H Hb; simpl.
  - rewrite app_nil_r, Nat.add_0_r. destruct s; simpl in *. by subst.
  - rewrite H. unfold call_handler_once, call_handler. simpl. rewrite Hb, thrown_on_cons. destruct (throws p) eqn:E; simpl.
    + rewrite IH by done. simpl. rewrite <- app_assoc. f_equal. lia.
    + rewrite deliveries_ignored by done. f_equal; lia.
Qed.

(** [onEvent] calls the handler exactly once per event, with its payload
    and in order, from the registration of the callback until the returned
    function is called; events before and after are not seen. *)
Theorem onEvent_calls before early late after :
  history false (map Delivers before ++ Registered :: map Delivers early ++ Resolves :: map Delivers late
                 ++ Unlistens :: map Delivers after)
  = {| listening := false; bound := true; calls := early ++ late; uncaught := thrown_on (early ++ late) |}.
Proof.
  unfold history. rewrite fold_left_app, deliveries_ignored by done. simpl.
  rewrite fold_left_app, deliveries by done. simpl. rewrite fold_left_app, deliveries by done. simpl.
  rewrite deliveries_ignored by done. unfold thrown_on. by rewrite List.filter_app, length_app.
Qed.

(** [onEventOnce] is called once only if nothing is delivered before
    [listen] resolves: every event in between calls the handler and then throws
    out of the callback, because the constant it uses to unsubscribe is not
    initialised; after the resolution the handler is called up to its first
    success, and the listener stays while it keeps throwing. *)
Theorem onEventOnce_calls before early late :
  history true (map Delivers before ++ Registered :: map Delivers early ++ Resolves :: map Delivers late)
  = {| listening := forallb throws late; bound := true; calls := early ++ through_first_ok late;
       uncaught := length early + thrown_on (through_first_ok late) |}.
Proof.
  unfold history. rewrite fold_left_app, deliveries_ignored by done. simpl.
  rewrite fold_left_app, once_unbound by done. simpl. by rewrite once_bound.
Qed.
End Subscription.

(** ** The events of the application *)

(** [payload?.name], and a field that is absent or null read as [None].  The
    type assertions of the source say which type a field that is present has. *)
Fixpoint get (fields : list (string * jsval)) (name : string) : jsval :=
  match fields with
  | [] => VUndef
  | (n, v) :: rest => if String.eqb n name then v else get rest name
  end.
Definition member (v : jsval) (name : string) : jsval := match v with VObj fields => get fields name | _ => VUndef end.
Definition num_member (v : jsval) (name : string) : option number :=
  match member v name with VNum n => Some n | _ => None end.
Definition str_member (v : jsval) (name : string) : option jsstr :=
  match member v name with VStr s => Some s | _ => None end.
Definition bool_member (v : jsval) (name : string) : option bool :=
  match member v name with VBool b => Some b | _ => None end.

Definition read_index_progress (v : jsval) : IndexProgressPayload :=
  {| ip_current := num_member v "current"; ip_total := num_member v "total"; ip_name := str_member v "name";
     ip_path := str_member v "path"; ip_skipped := bool_member v "skipped" |}.

Definition read_scan_progress (v : jsval) : ScanProgress :=
  {| sp_current := num_member v "current"; sp_path := str_member v "path" |}.

(** The subscriptions of [App], in the order of the array. *)
Definition App_subscriptions : list (string * (jsval -> backend_event)) :=
  [("index_progress"%string, fun v => IndexProgress (read_index_progress v));
   ("index_done"%string, fun _ => IndexDone);
   ("scan_done"%string, fun v => ScanDone (num_member v "total"));
   ("auto_scan_start"%string, fun v => AutoScanStart {| reason := str_member v "reason" |})].

(** An event of the back end: its name and payload. *)
Definition emission : Type := string * jsval.

(** What the subscriptions make of an emission; nothing for other events. *)
Definition received (e : emission) : list backend_event :=
  omap (fun s => if String.eqb (fst s) (fst e) then Some (snd s (snd e)) else None) App_subscriptions.

(** The setters an emission leads to, with [scanning] telling whether a scan of
    the application listens to its progress. *)
Definition emission_setters (scanning : bool) (e : emission) : list setter :=
  flat_map on_event (received e)
  ++ (if scanning && String.eqb (fst e) "scan_progress" then on_scan_progress (read_scan_progress (snd e)) else []).

Definition receive_all (scanning : bool) (es : list emission) (s : App) : App :=
  fold_left (fun s e => apply_all (emission_setters scanning e) s) es s.

Lemma receive_all_app scanning es es' s :
  receive_all scanning (es ++ es') s = receive_all scanning es' (receive_all scanning es s).
Proof. apply fold_left_app. Qed.

Lemma apply_all_app l l' s : apply_all (l ++ l') s = apply_all l' (apply_all l s).
Proof. apply fold_left_app. Qed.
