(* ===== verification/Logging.v ===== *)
(** * services/logging.ts, hooks/useGlobalErrorLogging.ts, utils/env.ts

    The line [logError] writes for anything that can be thrown; the two window
    listeners that report what no handler caught; and the test for the back
    end. *)

From S2P Require Import Prelude JsNumber JsString Types Effects EventBus.

(** ** What can be thrown *)

(** A JavaScript value as [logError] looks at it: its [message] property and
    its [toString] method.  [TPrim] is a string, number or boolean with its
    text; [TObject] an object other than an [Error], either of which it may
    lack. *)
Inductive thrown :=
| TUndefined
| TNull
| TPrim (text : jsstr)
| TError (name message : jsstr) (stack : option jsstr)
| TObject (message toString : option jsstr).

(** [error?.message ?? error?.toString?.() ?? String(error)]; [None] when the
    last step throws: an object without [toString] has no text. *)
Definition error_message (e : thrown) : option jsstr :=
  match e with
  | TUndefined => Some (js "undefined")
  | TNull => Some (js "null")
  | TPrim t => Some t
  | TError _ m _ => Some m
  | TObject (Some m) _ => Some m
  | TObject None s => s
  end.

(** [error?.stack]. *)
Definition error_stack (e : thrown) : option jsstr :=
  match e with TError _ _ stack => stack | _ => None end.

(** The exceptions of the handlers. *)
Definition thrown_of (e : err) (stack : option jsstr) : thrown :=
  match e with
  | EUndefined => TUndefined
  | EString s => TPrim s
  | EError m => TError (js "Error") m stack
  end.

(** ** Listeners of an event target *)

(** [addEventListener] does nothing for a listener that is there already;
    [removeEventListener] removes it. *)
Definition add_listener {L} `{EqDecision L} (l : L) (w : list L) : list L :=
  if bool_decide (l ∈ w) then w else w ++ [l].
Definition remove_listener {L} `{EqDecision L} (l : L) (w : list L) : list L :=
  filterb (fun x => negb (bool_decide (x = l))) w.

Lemma not_in_filter {A} `{EqDecision A} (x : A) l : x ∉ l -> filterb (fun y => negb (bool_decide (y = x))) l = l.
Proof.
  intros H. apply filterb_all, Forall_forall. intros y Hy. rewrite bool_decide_false; [done|]. by intros ->.
Qed.

(** An effect that adds two listeners and a cleanup that removes them are
    balanced, and adding them twice is adding them once. *)
Lemma listeners_balanced {L} `{EqDecision L} (a b : L) w : a <> b -> a ∉ w -> b ∉ w ->
  add_listener b (add_listener a w) = w ++ [a; b]
  /\ remove_listener b (remove_listener a (w ++ [a; b])) = w
  /\ add_listener b (add_listener a (w ++ [a; b])) = w ++ [a; b].
Proof.
  intros Hab Ha Hb. split_and!.
  - unfold add_listener. rewrite (bool_decide_false (a ∈ w)) by done.
    rewrite bool_decide_false; [by rewrite <- app_assoc|]. set_solver.
  - unfold remove_listener. rewrite !List.filter_app, (not_in_filter a w), (not_in_filter b w) by done. simpl.
    rewrite (bool_decide_true (a = a)), (bool_decide_false (b = a)) by done. simpl.
    rewrite bool_decide_true by done. simpl. by rewrite app_nil_r.
  - unfold add_listener. rewrite (bool_decide_true (a ∈ _)) by set_solver. by rewrite bool_decide_true by set_solver.
Qed.

(** ** Lines of the console *)

(** Fields of an object literal followed by [...extra]: a key of [extra]
    replaces a field of the same name, new keys are added. *)
Definition spread (fields extra : list (string * jsval)) : list (string * jsval) :=
  map (fun f => match List.find (fun x => String.eqb (fst x) (fst f)) extra with Some x => x | None => f end) fields
  ++ filterb (fun x => negb (existsb (fun f => String.eqb (fst f) (fst x)) fields)) extra.

Record line := {
  level : jsstr;
  time : jsstr;
  details : list (string * jsval);
}.

Section Logging.
(** [new Date().toISOString()]; [None] when it throws. *)
Context (iso : option jsstr).

Definition nowIso : jsstr := default [] iso.

Definition opt_str (o : option jsstr) : jsval := match o with Some s => VStr s | None => VUndef end.

Definition logInfo (message : jsstr) (context : option jsstr) (extra : list (string * jsval)) : line :=
  {| level := js "[INFO]"; time := nowIso;
     details := spread [("context"%string, opt_str context); ("message"%string, VStr message)] extra |}.

Definition logError (error : thrown) (context : option jsstr) (extra : list (string * jsval)) : option line :=
  message ← error_message error;
  Some {| level := js "[ERROR]"; time := nowIso;
          details := spread [("context"%string, opt_str context); ("message"%string, VStr message);
                             ("stack"%string, opt_str (error_stack error))] extra |}.

(** ** hooks/useGlobalErrorLogging.ts *)

(** [event.error ?? event.message] and [event.reason]. *)
Inductive window_event :=
| ErrorEvent (error : thrown) (message : jsstr)
| RejectionEvent (reason : thrown)
| OtherEvent.

Definition onError (error : thrown) (message : jsstr) : option line :=
  logError (match error with TUndefined | TNull => TPrim message | e => e end) (Some (js "window.onerror")) [].
Definition onUnhandled (reason : thrown) : option line :=
  logError reason (Some (js "window.onunhandledrejection")) [].

(** The listeners the effect adds to the window, and what the window does with
    an event.  Other listeners of the window are numbered. *)
Inductive listener := LError | LUnhandled | LOther (n : nat).

#[export] Instance listener_eq_dec : EqDecision listener.
Proof. solve_decision. Defined.

Definition mount_logging (w : list listener) : list listener := add_listener LUnhandled (add_listener LError w).
Definition unmount_logging (w : list listener) : list listener := remove_listener LUnhandled (remove_listener LError w).

Definition dispatch (w : list listener) (e : window_event) : list (option line) :=
  match e with
  | ErrorEvent error message => if bool_decide (LError ∈ w) then [onError error message] else []
  | RejectionEvent reason => if bool_decide (LUnhandled ∈ w) then [onUnhandled reason] else []
  | OtherEvent => []
  end.

(** ** utils/env.ts *)

(** Reading [window.__TAURI__] may throw. *)
Inductive window := NoWindow | Window (global : option bool).

Definition isTauri (w : window) : bool :=
  match w with NoWindow => false | Window g => default false g end.
End Logging.

(** ** Properties *)

Lemma get_app fs gs name :
  get (fs ++ gs) name = if existsb (fun f => String.eqb (fst f) name) fs then get fs name else get gs name.
Proof.
  induction fs as [|[n v] fs IH]; simpl; [done|]. by destruct (String.eqb n name).
Qed.

Lemma get_absent fs name : existsb (fun f => String.eqb (fst f) name) fs = false -> get fs name = VUndef.
Proof. induction fs as [|[n v] fs IH]; simpl; [done|]. by destruct (String.eqb n name). Qed.

(** Spreading keeps the fields whose key [extra] does not have. *)
Lemma get_spread fields extra name : existsb (fun x => String.eqb (fst x) name) extra = false ->
  get (spread fields extra) name = get fields name.
Proof.
  intros H. unfold spread. rewrite get_app.
  rewrite (get_absent (filterb _ extra)).
  2: { apply not_true_iff_false in H. apply not_true_iff_false. intros [x [Hx E]]%existsb_exists.
       apply filter_In in Hx as [Hx _]. apply H, existsb_exists. eauto. }
  induction fields as [|[n v] fields IH]; simpl; [done|].
  destruct (List.find _ extra) as [[k u]|] eqn:F; simpl.
  - apply find_some in F as [Hk E%String.eqb_eq]. simpl in E. subst k.
    destruct (String.eqb n name) eqn:E; [|exact IH]. apply not_true_iff_false in H. destruct H.
    apply existsb_exists. by exists (n, u).
  - by destruct (String.eqb n name).
Qed.

(** Keys an [extra] may have. *)
Definition own_keys (extra : list (string * jsval)) : bool :=
  forallb (fun x => negb (String.eqb (fst x) "context" || String.eqb (fst x) "message")) extra.

Lemma own_keys_absent extra : own_keys extra = true ->
  existsb (fun x => String.eqb (fst x) "context") extra = false
  /\ existsb (fun x => String.eqb (fst x) "message") extra = false.
Proof.
  induction extra as [|x extra IH]; simpl; [done|].
  rewrite andb_true_iff, negb_true_iff, orb_false_iff. intros [[-> ->] H]. by apply IH.
Qed.

(** The extra details of the calls in App.tsx. *)
Definition app_extras (filesCount index : number) (query extFilter indexDir path : jsstr) : list (list (string * jsval)) :=
  [[("index", VNum index)]; [("filesCount", VNum filesCount)];
   [("query", VStr query); ("extFilter", VStr extFilter); ("indexDir", VStr indexDir)];
   [("path", VStr path); ("indexDir", VStr indexDir)]; []]%string.

Lemma app_extras_own n i q x d p : Forall (fun extra => own_keys extra = true) (app_extras n i q x d p).
Proof. repeat constructor. Qed.

(** Whatever a handler catches is logged and shown consistently: [logError]
    never throws on it, its line has the context given and a message, whatever
    extra details are added (none of the application's overrides these fields),
    and the text displayed is that message, an [Error] being prefixed and
    nothing at all replaced by the handler's own text. *)
Theorem logged_as_shown iso e stack context fallback extra :
  own_keys extra = true ->
  exists l m, logError iso (thrown_of e stack) (Some context) extra = Some l
    /\ get (details l) "context" = VStr context /\ get (details l) "message" = VStr m
    /\ match e with
       | EUndefined => m = js "undefined" /\ err_text e fallback = js fallback
       | EString _ => err_text e fallback = m
       | EError _ => err_text e fallback = js "Error: " ++ m
       end.
Proof.
  intros [Hc Hm]%own_keys_absent.
  destruct e as [|s|m]; (eexists _, _; split; [reflexivity|]; cbn [details]; rewrite !get_spread by done; by repeat split).
Qed.

Lemma logged_as_shown_witness :
  exists l m, logError None (thrown_of (EError (js "boom")) None) (Some (js "search_query"))
                [("query"%string, VStr (js "a"))] = Some l
    /\ get (details l) "context" = VStr (js "search_query") /\ get (details l) "message" = VStr m
    /\ err_text (EError (js "boom")) "x" = js "Error: " ++ m.
Proof.
  apply (logged_as_shown None (EError (js "boom")) None (js "search_query") "x" [("query"%string, VStr (js "a"))]).
  reflexivity.
Defined.

(** An object without [message] and [toString] cannot be logged: [logError]
    throws, in the [catch] clause that called it. *)
Lemma unprintable_not_logged iso context extra : logError iso (TObject None None) context extra = None.
Proof. reflexivity. Qed.

(** ** The window listeners *)

(** Mounting and unmounting are balanced, also when React mounts twice: an
    uncaught error is reported exactly once while the hook is mounted, and the
    window is left as it was. *)
Lemma global_logging_balanced w : LError ∉ w -> LUnhandled ∉ w ->
  unmount_logging (mount_logging w) = w
  /\ mount_logging (mount_logging w) = mount_logging w
  /\ forall iso e m, dispatch iso (mount_logging w) (ErrorEvent e m) = [onError iso e m]
       /\ dispatch iso (mount_logging w) (RejectionEvent e) = [onUnhandled iso e]
       /\ dispatch iso w (ErrorEvent e m) = [] /\ dispatch iso w (RejectionEvent e) = [].
Proof.
  intros H1 H2. destruct (listeners_balanced LError LUnhandled w) as (E & Er & Ea); [done..|].
  unfold mount_logging, unmount_logging. rewrite E, Er, Ea. split_and!; [done..|].
  intros iso e m. unfold dispatch. rewrite !bool_decide_true by set_solver. by rewrite !bool_decide_false.
Qed.
