(* ===== verification/FocusDebug.v ===== *)
(** * hooks/useFocusDebug.ts and main.tsx: renders nobody asked for

    [useFocusDebug] keeps a description of the focused element in the state of
    [App], so moving the focus renders the application.  Together with the
    subscriptions of [useTauriEvents], which every render starts again, this file
    shows what moving the focus does.  [main.tsx] mounts [App] in strict mode,
    which in development mounts, unmounts and mounts again. *)

From stdpp Require Import gmap.
From S2P Require Import Prelude JsNumber JsString Highlight TauriEvents Logging.
#[local] Open Scope Z_scope.

(** ** The description of an element *)

Record element := { tagName : jsstr; id : jsstr; elClassName : jsstr }.

Section FocusDebug.
Context {C : CaseTables}.

Definition describe (t : option element) : jsstr :=
  match t with
  | Some e =>
      toLowerCase (tagName e)
      ++ (if truthy (id e) then js "#" ++ id e else [])
      ++ (if truthy (elClassName e) then js "." ++ join (js ".") (split_on (Z.eqb 32) (elClassName e)) else [])
  | None => js "unknown"
  end.

(** ** The hook in the application *)

(** The lines the hook writes: a description with its tag, or the active
    element. *)
Inductive focus_line :=
| FocusLine (tag desc : jsstr)
| ActiveElement (e : option element).

(** The two listeners on the document. *)
Inductive document_listener := LFocusIn | LFocusOut | LElse (n : nat).

#[export] Instance document_listener_eq_dec : EqDecision document_listener.
Proof. solve_decision. Defined.

(** The first effect and its cleanup. *)
Definition listen_focus (enabled : bool) (d : list document_listener) : list document_listener :=
  if enabled then add_listener LFocusOut (add_listener LFocusIn d) else d.
Definition unlisten_focus (enabled : bool) (d : list document_listener) : list document_listener :=
  if enabled then remove_listener LFocusOut (remove_listener LFocusIn d) else d.

(** The second effect, after every render. *)
Definition log_active (enabled : bool) (e : option element) : list focus_line :=
  if enabled then [ActiveElement e] else [].

Record focus_state := {
  lastFocus : jsstr;
  console : list focus_line;
  activeElement : option element;   (* of the document *)
  references : nat;           (* references handed out to arrays and callbacks so far *)
  events : hook;              (* the state of useTauriEvents *)
}.

(** A render of [App] with the back end present, which calls [useFocusDebug]
    with [true]: a new array and a new callback, a line with the active element. *)
Definition rerender_App (s : focus_state) : focus_state :=
  {| lastFocus := lastFocus s; console := console s ++ log_active true (activeElement s);
     activeElement := activeElement s; references := 2 + references s;
     events := render (App_args true (references s) (S (references s))) (events s) |}.

Definition mounted : focus_state :=
  rerender_App {| lastFocus := []; console := []; activeElement := None; references := 0; events := initial |}.

(** [onFocusIn]: the target of the event is the active element; the state setter
    renders the application, later, unless the value is the one it has. *)
Definition onFocusIn (s : focus_state) (t : option element) : focus_state :=
  let desc := describe t in
  let s' := {| lastFocus := desc; console := console s ++ [FocusLine (js "[focusin]") desc]; activeElement := t;
               references := references s; events := events s |} in
  if bool_decide (desc = lastFocus s) then s' else rerender_App s'.

(** [onFocusOut] only logs. *)
Definition onFocusOut (s : focus_state) (t : option element) : focus_state :=
  {| lastFocus := lastFocus s; console := console s ++ [FocusLine (js "[focusout]") (describe t)];
     activeElement := activeElement s;
     references := references s; events := events s |}.

(** The focus moves from element to element, never to one with the same
    description. *)
Fixpoint moves (from : jsstr) (l : list (option element)) : Prop :=
  match l with
  | [] => True
  | t :: l' => describe t <> from /\ moves (describe t) l'
  end.

(** What a move writes: the description, and the active element when the
    description is a new one. *)
Lemma onFocusIn_console s t :
  console (onFocusIn s t)
  = console s ++ FocusLine (js "[focusin]") (describe t)
      :: (if bool_decide (describe t = lastFocus s) then [] else [ActiveElement t]).
Proof. unfold onFocusIn. case_bool_decide; [done|]. cbn [rerender_App console activeElement log_active]. by rewrite <- app_assoc. Qed.

(** The listeners of the document are balanced, unlike the subscriptions. *)
Lemma focus_listeners_balanced enabled d : LFocusIn ∉ d -> LFocusOut ∉ d ->
  unlisten_focus enabled (listen_focus enabled d) = d
  /\ listen_focus enabled (listen_focus enabled d) = listen_focus enabled d.
Proof.
  intros H1 H2. destruct (listeners_balanced LFocusIn LFocusOut d) as (E & Er & Ea); [done..|].
  destruct enabled; [|done]. unfold listen_focus, unlisten_focus. by rewrite E, Er, Ea.
Qed.

(** ** What it does to the subscriptions *)

Abbreviation run0 := (start 4 (of_Z 3) (of_Z 600)).

(** After [k] interrupted runs. *)
Record interrupted (k : nat) (s : focus_state) : Prop := {
  in_instances : instances (events s) = replicate k (cancel run0) ++ [run0];
  in_current : current (events s) = Some k;
  in_table : table (events s) = ∅;
  in_next : next (events s) = 0%nat;
  in_last : exists f, last (events s) = Some (App_args true f (S f)) /\ (f < references s)%nat;
}.

Lemma mounted_interrupted : interrupted 0 mounted.
Proof. split; [done..|]. exists 0%nat. split; [done|]. simpl. lia. Qed.

Lemma render_interrupts f o h k :
  instances h = replicate k (cancel run0) ++ [run0] -> current h = Some k -> table h = ∅ ->
  (exists f', last h = Some (App_args true f' (S f')) /\ (f' < f)%nat) ->
  let h' := render (App_args true f o) h in
  instances h' = replicate (S k) (cancel run0) ++ [run0] /\ current h' = Some (S k) /\ table h' = ∅
  /\ next h' = next h /\ last h' = Some (App_args true f o).
Proof.
  intros Hi Hc Ht (f' & Hl & Hlt). simpl. unfold render. rewrite Hl. rewrite bool_decide_false
    by (intros E; assert (f' = f) by exact (f_equal (fun d => d.1.1.1.2) E); lia).
  unfold cleanup. rewrite Hc, Hi.
  assert (E : (replicate k (cancel run0) ++ [run0]) !! k = Some run0).
  { rewrite lookup_app_r, length_replicate by (by rewrite length_replicate). by rewrite Nat.sub_diag. }
  rewrite E. unfold run_effect. simpl.
  assert (E' : <[k:=cancel run0]> (replicate k (cancel run0) ++ [run0]) = replicate (S k) (cancel run0)).
  { rewrite insert_app_r_alt, length_replicate by (by rewrite length_replicate). rewrite Nat.sub_diag. simpl.
    by rewrite <- replicate_cons_app. }
  rewrite E'. split_and!; [done| |by rewrite Ht; set_solver|done|done].
  f_equal. simpl. by rewrite length_replicate.
Qed.

Lemma focus_interrupts k s t : interrupted k s -> describe t <> lastFocus s ->
  interrupted (S k) (onFocusIn s t) /\ lastFocus (onFocusIn s t) = describe t.
Proof.
  intros [Hi Hc Ht Hn Hl] Hd. unfold onFocusIn. rewrite bool_decide_false by done. split; [|done].
  destruct (render_interrupts (references s) (S (references s)) (events s) k Hi Hc Ht Hl) as (H1 & H2 & H3 & H4 & H5).
  split; cbn [rerender_App events references]; [done..|by rewrite H4|].
  exists (references s). split; [done|lia].
Qed.

Lemma moves_interrupt l k s : interrupted k s -> moves (lastFocus s) l ->
  interrupted (k + length l) (fold_left onFocusIn l s).
Proof.
  revert k s. induction l as [|t l IH]; intros k s Hs; simpl; [by rewrite Nat.add_0_r|]. intros [Hd Hm].
  destruct (focus_interrupts k s t Hs Hd) as [Hs' Hl]. rewrite <- Hl in Hm.
  specialize (IH (S k) _ Hs' Hm). by rewrite Nat.add_succ_r.
Qed.

(** *** The interrupted runs resolve their first subscription *)

Lemma resolved_cancelled un : resolved 0 un (cancel run0) = with_pc (next_fn run0 0) (cancel run0).
Proof. reflexivity. Qed.

Lemma resolve_one j n h :
  instances h = replicate j (resolved 0 0 (cancel run0)) ++ replicate (S n) (cancel run0) ++ [run0] -> next h = j ->
  step h (deliver j (Some j) (resolved 0 0 (cancel run0)) h).
Proof.
  intros Hi Hn. rewrite (resolved_cancelled 0), <- (resolved_cancelled j).
  apply (step_instance h j (cancel run0) (LResolved 0 j)); [| |by unfold fresh; simpl].
  - rewrite Hi, lookup_app_r, length_replicate, Nat.sub_diag by (by rewrite length_replicate). done.
  - apply (step_resolved _ 0 0), start_awaits.
Qed.

Lemma resolve_all n j h :
  instances h = replicate j (resolved 0 0 (cancel run0)) ++ replicate n (cancel run0) ++ [run0] ->
  current h = Some (j + n)%nat -> table h = list_to_set (seq 0 j) -> next h = j ->
  exists h', rtc step h h' /\ table h' = list_to_set (seq 0 (j + n)) /\ current h' = Some (j + n)%nat
    /\ instances h' !! (j + n)%nat = Some run0.
Proof.
  revert j h. induction n as [|n IH]; intros j h Hi Hc Ht Hn.
  - exists h. rewrite Nat.add_0_r in *. split_and!; [apply rtc_refl|done..|].
    rewrite Hi. by rewrite lookup_app_r, length_replicate, Nat.sub_diag by (by rewrite length_replicate).
  - rewrite <- Nat.add_succ_comm. destruct (IH (S j) (deliver j (Some j) (resolved 0 0 (cancel run0)) h))
      as (h' & Hs & Ht' & Hc' & Hi').
    + simpl instances. rewrite Hi, insert_app_r_alt, length_replicate, Nat.sub_diag by (by rewrite length_replicate).
      generalize (resolved 0 0 (cancel run0)) as c'. intros c'. simpl.
      by rewrite (app_comm_cons (replicate j c')), replicate_cons_app, <- app_assoc.
    + simpl. rewrite Hc. f_equal. lia.
    + cbn [table deliver]. rewrite Ht, seq_S, list_to_set_app_L, list_to_set_singleton_L.
      apply union_comm_L.
    + simpl. by rewrite Hn.
    + exists h'. split; [|done]. eapply rtc_l; [|exact Hs]. by eapply resolve_one.
Qed.

(** Moving the focus leaks subscriptions, one per move: after any sequence
    of [n] moves between elements with different descriptions, made before the
    subscriptions of the first render resolve, the application can end with
    exactly [n] listeners that stay registered after it is unmounted. *)
Theorem focus_moves_leak l :
  moves [] l ->
  exists h, rtc step (events (fold_left onFocusIn l mounted)) h /\ size (table (unmount h)) = length l.
Proof.
  intros Hm. destruct (moves_interrupt l 0 mounted mounted_interrupted Hm) as [Hi Hc Ht Hn _].
  destruct (resolve_all (length l) 0 _ Hi Hc Ht Hn) as (h & Hs & Ht' & Hc' & Hi').
  exists h. split; [exact Hs|]. unfold unmount, cleanup. simpl in *. rewrite Hc', Hi'. simpl.
  rewrite Ht', difference_empty_L, size_list_to_set by apply NoDup_seq. by rewrite length_seq.
Qed.
End FocusDebug.

(** A field and a button. *)
Definition demo_case : CaseTables := {| canonicalize := fun c => c; toLowerCase := fun s => s |}.
Definition demo_input : option element := Some {| tagName := js "INPUT"; id := []; elClassName := [] |}.
Definition demo_button : option element :=
  Some {| tagName := js "BUTTON"; id := []; elClassName := js "ghost active" |}.

Lemma focus_moves_leak_witness :
  describe (C := demo_case) demo_button = js "BUTTON.ghost.active"
  /\ exists h, rtc step (events (fold_left (onFocusIn (C := demo_case)) [demo_input; demo_button; demo_input] mounted)) h
       /\ size (table (unmount h)) = 3%nat.
Proof.
  split; [vm_compute; reflexivity|].
  apply (focus_moves_leak (C := demo_case) [demo_input; demo_button; demo_input]).
  cbn [moves]. refine (conj _ (conj _ (conj _ I))); intros H; vm_compute in H; discriminate H.
Defined.

(** ** main.tsx

    [<React.StrictMode>] in development: effects are set up, cleaned up and set
    up again when a component is mounted. *)
Definition strict_mount (a : args) : hook := render a (unmount (render a initial)).

Lemma strict_mount_reachable a : reachable (strict_mount a).
Proof.
  eapply rtc_l; [apply (step_render _ a)|]. eapply rtc_l; [apply step_unmount|].
  eapply rtc_l; [apply (step_render _ a)|]. apply rtc_refl.
Qed.

(** The run of the first set-up is cut short while its first subscription is
    awaited; the listener it resolves to is never removed. *)
Lemma strict_mode_leaks f o :
  let h := strict_mount (App_args true f o) in
  exists s, instances h !! 0%nat = Some s /\ cancelled s = true /\ pc s = AwaitFn 0 0
    /\ forall h', rtc step (deliver 0 (Some (next h)) (resolved 0 (next h) s) h) h' -> next h ∈ table h'.
Proof.
  intros h. exists (cancel (start 4 (of_Z 3) (of_Z 600))). split_and!; [reflexivity|reflexivity|apply start_awaits|].
  intros h' Hs. apply (cancelled_leak h 0 (cancel (start 4 (of_Z 3) (of_Z 600))) 0 0 h');
    [apply strict_mount_reachable|reflexivity|reflexivity|apply start_awaits|exact Hs].
Qed.
