(* ===== verification/HandlerSpecs.v ===== *)
(** * App.tsx: what the handlers do

    The exact traces of the handlers that make one back-end call, on success and
    on failure, and the agreement between saving and showing a configuration. *)

From S2P Require Import Prelude JsNumber JsString JsConvert StringUtil PathUtil SizeUtil Types Effects SortResults Invoke ProgLogic AppState Handlers AppSystem.
#[local] Open Scope Z_scope.
#[local] Open Scope prog_scope.

(** ** Traces of straight-line code *)

Fixpoint seq_acts (l : list action) : prog_ :=
  match l with [] => Ret tt | a :: l' => Act a (seq_acts l') end.

Lemma runs_seq l tr o : runs (seq_acts l) tr o <-> tr = map EvAct l /\ o = Returned tt.
Proof.
  revert tr. induction l as [|a l IH]; intros tr; simpl; [done|]. setoid_rewrite IH.
  split; [by intros (t & -> & -> & ->)|]. intros [-> ->]. by eexists.
Qed.

Lemma runs_finally_set {A} (p : prog action A) x tr o :
  runs (try_finally p (set x)) tr o <-> exists t, tr = t ++ [EvAct (Set_ x)] /\ runs p t o.
Proof.
  revert tr. induction p as [a|e|a k IH|c k IH]; intros tr; simpl.
  - split; [intros (t & -> & -> & ->); by exists []|]. intros (t & -> & -> & ->). by eexists.
  - split; [intros (t & -> & -> & ->); by exists []|]. intros (t & -> & -> & ->). by eexists.
  - setoid_rewrite IH. split.
    + intros (t & -> & t' & -> & H). by exists (EvAct a :: t'); eauto.
    + intros (t & -> & t' & -> & H). exists (t' ++ [EvAct (Set_ x)]). eauto.
  - setoid_rewrite IH. split.
    + intros (r & t & -> & t' & -> & H). by exists (EvCall c r :: t'); eauto 6.
    + intros (t & -> & r & t' & -> & H). exists r, (t' ++ [EvAct (Set_ x)]). eauto.
Qed.

Lemma catch_report_seq p context failure : catch_report p context failure =
  try_catch p (fun e => seq_acts [Log e (js context); Set_ (SetMsg (err_text e failure))]).
Proof. reflexivity. Qed.

(** ** Handlers around one call *)

Section OneCall.
Context (d : invoke_defaults) (T : rty) (name : jsstr) (payload : jsval) (opts : invoke_options).
Context (k : Z) (n : nat) (Hk : default (retries d) (opt_retries opts) = Fin k)
  (Hn : k / one = Z.of_nat n) (Hmax : Z.of_nat n < 2 ^ 53).

Let r := invoke_request d T name payload opts.

(** What follows the call: [after v] on success, the report on failure. *)
Definition aftermath (after : den T -> list action) (context failure : string) (oc : outcome (den T))
  : list action :=
  match oc with
  | Returned v => after v
  | Threw e => [Log e (js context); Set_ (SetMsg (err_text e failure))]
  end.

Lemma runs_report (after : den T -> list action) body context failure tr o :
  (forall v, body v = seq_acts (after v)) ->
  runs (catch_report (bind (safeInvoke d T name payload opts) body) context failure) tr o
  <-> exists l oc, tr = race_events r l ++ map EvAct (aftermath after context failure oc)
        /\ retry_outcome r n l oc /\ o = Returned tt.
Proof.
  intros Hbody. rewrite catch_report_seq, runs_catch.
  setoid_rewrite runs_bind. setoid_rewrite Hbody. setoid_rewrite runs_seq.
  setoid_rewrite (safeInvoke_runs d T name payload opts k n); [|done..]. split.
  - intros [([] & [(e & _ & [=])|(v & t1 & t2 & -> & (l & -> & Hl) & -> & _)] & ->)
           |(e & t1 & t2 & -> & [(e' & (l & -> & Hl) & [= <-])|(v & ? & ? & _ & _ & _ & [=])] & -> & ->)].
    + by exists l, (Returned v).
    + by exists l, (Threw e).
  - intros (l & [v|e] & -> & Hl & ->).
    + left. exists tt. split; [|done]. right. eexists v, _, _. split; [done|]. eauto.
    + right. eexists e, _, _. split; [done|]. split; [|done]. left. eauto.
Qed.

Lemma runs_busy_call text (after : den T -> list action) body context failure tr o :
  (forall v, body v = seq_acts (after v)) ->
  runs (busy_handler text context failure (bind (safeInvoke d T name payload opts) body)) tr o
  <-> exists l oc,
        tr = [EvAct (Set_ (SetBusy true)); EvAct (Set_ (SetMsg (js text)))] ++ race_events r l
             ++ map EvAct (aftermath after context failure oc) ++ [EvAct (Set_ (SetBusy false))]
        /\ retry_outcome r n l oc /\ o = Returned tt.
Proof.
  intros Hbody. unfold busy_handler, finally_idle. cbn [bind set do_act runs]. setoid_rewrite runs_finally_set.
  setoid_rewrite (fun t o => runs_report after body context failure t o Hbody). split.
  - intros (t & -> & t' & -> & t'' & -> & l & oc & -> & Hl & ->). exists l, oc.
    split_and!; [by rewrite <- app_assoc|done|done].
  - intros (l & oc & -> & Hl & ->). do 2 (eexists; split; [done|]). eexists.
    split; [by rewrite app_assoc|]. by exists l, oc.
Qed.
End OneCall.

(** ** Searching *)

Definition search_request (d : invoke_defaults) (s : App) : request :=
  invoke_request d RResults (js "search_query")
    (search_payload {| sq_query := query s; sq_filters := search_filters s; sq_indexDir := indexDir s |})
    {| opt_timeoutMs := Some (t_searchQuery INVOKE_TIMEOUTS); opt_retries := Some (of_Z 1) |}.

(** C20. [doSearch], on every branch: it marks the application busy, sends the
    query with its filters and the index directory once, or twice if the first
    attempt fails; on success it shows exactly the returned results, selects the
    first, and goes to the search page; on failure it logs and reports the last
    error and leaves the displayed results alone; it always ends by clearing the
    mark and never rejects. *)
Theorem doSearch_trace d s tr o :
  runs (doSearch d true s) tr o <->
  exists l oc,
    tr = [EvAct (Set_ (SetBusy true)); EvAct (Set_ (SetMsg (js "检索中...")))]
         ++ race_events (search_request d s) l
         ++ map EvAct (match oc with
                       | Returned res =>
                           [Set_ (SetResults res); Set_ (SetMsg (js "返回 " ++ count_text res ++ js " 条结果"));
                            Set_ (SetPage PSearch); Set_ (SetSelected (head res))]
                       | Threw e => [Log e (js "search_query"); Set_ (SetMsg (err_text e "检索失败"))]
                       end)
         ++ [EvAct (Set_ (SetBusy false))]
    /\ retry_outcome (search_request d s) 1 l oc /\ o = Returned tt.
Proof.
  pose proof one_pos.
  unfold doSearch, when_tauri, searchQuery.
  apply (runs_busy_call d RResults (js "search_query") _
    {| opt_timeoutMs := Some (t_searchQuery INVOKE_TIMEOUTS); opt_retries := Some (of_Z 1) |}
    (1 * one) 1 (of_Z_small 1 ltac:(lia)) (Z.div_mul 1 one ltac:(lia)) ltac:(lia) _
    (fun res => [Set_ (SetResults res); Set_ (SetMsg (js "返回 " ++ count_text res ++ js " 条结果"));
                 Set_ (SetPage PSearch); Set_ (SetSelected (head res))])).
  intros res. reflexivity.
Qed.

(** ** Deleting a duplicate *)

Definition delete_request (d : invoke_defaults) (s : App) (path : jsstr) : request :=
  invoke_request d RUnit (js "delete_file_and_index")
    (VObj [("path", VStr path); ("index_dir", VStr (indexDir s)); ("indexDir", VStr (indexDir s))]%string)
    (with_timeout (t_buildIndex INVOKE_TIMEOUTS)).

(** The events once the user has confirmed. *)
Definition delete_events (d : invoke_defaults) (s : App) (path : jsstr)
  (l : list (settled unit)) (oc : outcome unit) : list (event action) :=
  [EvAct (Set_ (SetBusy true)); EvAct (Set_ (SetMsg (js "删除中...")))]
  ++ race_events (delete_request d s path) l
  ++ map EvAct (match oc with
                | Returned _ => [Set_ (RemoveDupFile path); Set_ (SetMsg (js "已删除并移除索引记录"))]
                | Threw e => [Log e (js "delete_file_and_index"); Set_ (SetMsg (err_text e "删除失败"))]
                end)
  ++ [EvAct (Set_ (SetBusy false))].

Lemma confirmed_delete d s path k n tr o :
  retries d = Fin k -> k / one = Z.of_nat n -> Z.of_nat n < 2 ^ 53 ->
  runs (busy_handler "删除中..." "delete_file_and_index" "删除失败" (
      deleteFileAndIndex d path (indexDir s) ;;
      set (RemoveDupFile path) ;;
      set (SetMsg (js "已删除并移除索引记录")))) tr o
  <-> exists l oc, tr = delete_events d s path l oc
        /\ retry_outcome (delete_request d s path) n l oc /\ o = Returned tt.
Proof.
  intros Hk Hn Hmax.
  unfold deleteFileAndIndex.
  apply (runs_busy_call d RUnit (js "delete_file_and_index") _
    (with_timeout (t_buildIndex INVOKE_TIMEOUTS)) k n Hk Hn Hmax _
    (fun _ => [Set_ (RemoveDupFile path); Set_ (SetMsg (js "已删除并移除索引记录"))])).
  intros v. reflexivity.
Qed.

(** C17. [handleDelete], on every branch and in every host: the question is asked
    and what [confirm] returns is tested; nothing else happens unless it is truthy,
    as a promise always is; the file disappears from the groups only after the back
    end reported its deletion, and the groups are untouched when every attempt
    failed; the mark is cleared at the end. *)
Theorem handleDelete_trace (H : Host) d s path k n tr o :
  retries d = Fin k -> k / one = Z.of_nat n -> Z.of_nat n < 2 ^ 53 ->
  let t := confirm_text path in
  runs (handleDelete d true s path) tr o <->
  (confirm_returns t = Answered false /\ tr = [EvAct (Ask t)] /\ o = Returned tt)
  \/ ((confirm_returns t = Answered true \/ confirm_returns t = Promised)
      /\ exists l oc, tr = EvAct (Ask t) :: delete_events d s path l oc
        /\ retry_outcome (delete_request d s path) n l oc /\ o = Returned tt).
Proof.
  intros Hk Hn Hmax. cbv zeta. unfold handleDelete, when_tauri, confirm. cbn [bind runs].
  pose proof (fun t o => confirmed_delete d s path k n t o Hk Hn Hmax) as E.
  assert (Hv : confirm_returns (confirm_text path) = Answered false /\ truthy_value (confirm_returns (confirm_text path)) = false
    \/ (confirm_returns (confirm_text path) = Answered true \/ confirm_returns (confirm_text path) = Promised)
       /\ truthy_value (confirm_returns (confirm_text path)) = true)
    by (destruct (confirm_returns (confirm_text path)) as [[|]|]; auto).
  destruct Hv as [[Hr ->]|[Hr ->]]; split.
  - intros (t & -> & -> & ->). by left.
  - intros [(_ & -> & ->)|([Hr'|Hr'] & _)]; [by exists []|congruence..].
  - intros (t & -> & (l & oc & -> & Hl & ->)%E). right. split; [done|]. by exists l, oc.
  - intros [(Hr' & _)|(_ & l & oc & -> & Hl & ->)]; [destruct Hr; congruence|].
    exists (delete_events d s path l oc). split; [done|]. apply E. by exists l, oc.
Qed.

(** A host whose dialog blocks, and a user who declines. *)
Definition demo_host : Host := {| confirm_returns _ := Answered false |}.

Lemma handleDelete_trace_witness :
  let d := INVOKE_DEFAULTS NaN NaN in let s := initial_state (of_Z 80) in
  runs (handleDelete (H := demo_host) d true s (js "D:/a.txt")) [EvAct (Ask (confirm_text (js "D:/a.txt")))] (Returned tt).
Proof.
  apply (handleDelete_trace demo_host (INVOKE_DEFAULTS NaN NaN) (initial_state (of_Z 80)) (js "D:/a.txt") (0 * one) 0).
  - apply of_Z_small. lia.
  - reflexivity.
  - lia.
  - left. split; [|split]; reflexivity.
Defined.

Definition without (path : jsstr) (g : DupGroup) : list jsstr :=
  filterb (fun p => negb (bool_decide (p = path))) (files g).

(** Deleting a file keeps the rest of the list: the file is gone from every
    group; a group stays, at its place and with its kind and key, exactly when at
    least two other files are left of it, and those keep their order. *)
Theorem remove_dup_file_spec path prev :
  (forall g, (g ∈ remove_dup_file path prev) -> (path ∉ files g) /\ (2 <= length (files g))%nat)
  /\ map (fun g => (kind g, key g, files g)) (remove_dup_file path prev)
     = map (fun g => (kind g, key g, without path g))
         (filterb (fun g => bool_decide (2 <= length (without path g))%nat) prev).
Proof.
  unfold remove_dup_file. split.
  - intros g [Hg Hl%bool_decide_eq_true]%filterb_elem_of. split; [|lia].
    apply list_elem_of_fmap in Hg as (g0 & -> & _). simpl. intros [_ H]%filterb_elem_of.
    by rewrite bool_decide_true in H.
  - induction prev as [|g prev IH]; simpl; [done|]. fold (without path g).
    rewrite (bool_decide_ext (1 < length (without path g))%nat (2 <= length (without path g))%nat) by lia.
    by case_bool_decide; simpl; rewrite IH.
Qed.

(** ** Saving and showing the configuration *)

(** Showing a configuration and saving gives it back. *)
Lemma show_saved cfg text t ls :
  search_mode cfg = js "inverted" -> Forall csv_item (scan_roots cfg) ->
  Forall csv_item (exclude_patterns cfg) -> truthy (index_dir cfg) = true ->
  (exists n, path_max_len cfg = Some n /\ isFinite n = true) -> is_Some (auto_scan_enabled cfg) ->
  exists t', advance (show_config cfg text) t ls = (t', ls, None) /\ saved_config t' = cfg.
Proof.
  intros Hm Hr He Hd (n & Hn & Hfin) [b Hb]. unfold show_config.
  rewrite Hd, Hn, Hfin, Hb. eexists. split; [reflexivity|]. unfold saved_config. simpl.
  rewrite !parseCSV_join by done. destruct cfg. simpl in *. by subst.
Qed.

(** Saving and loading agree: showing any configuration whose lists a field
    can hold, in any state, and saving again gives back that configuration; and
    what is saved from a state is such a configuration when the index directory
    is not empty and the path limit is finite. *)
Theorem config_roundtrip :
  (forall cfg text t ls,
     search_mode cfg = js "inverted" -> Forall csv_item (scan_roots cfg) ->
     Forall csv_item (exclude_patterns cfg) -> truthy (index_dir cfg) = true ->
     (exists n, path_max_len cfg = Some n /\ isFinite n = true) -> is_Some (auto_scan_enabled cfg) ->
     exists t', advance (show_config cfg text) t ls = (t', ls, None) /\ saved_config t' = cfg)
  /\ (forall s, search_mode (saved_config s) = js "inverted"
        /\ Forall csv_item (scan_roots (saved_config s)) /\ Forall csv_item (exclude_patterns (saved_config s))).
Proof.
  split.
  - intros cfg text t ls. apply show_saved.
  - intros s. simpl. auto using parseCSV_items.
Qed.

(** ** Errors and termination *)

Fixpoint no_throw {A} (p : prog action A) : Prop :=
  match p with
  | Ret _ => True
  | Throw _ => False
  | Act _ k => no_throw k
  | Call c k => forall r, no_throw (k r)
  end.

Lemma no_throw_runs {A} (p : prog action A) tr e : no_throw p -> ~ runs p tr (Threw e).
Proof.
  revert tr. induction p as [a|e'|a k IH|c k IH]; intros tr Hp; simpl; [by intros [_ [=]]|done|..].
  - intros (t & _ & H). by apply (IH t).
  - intros (r & t & _ & H). by apply (IH r t).
Qed.

Lemma no_throw_catch {A} (p : prog action A) h : (forall e, no_throw (h e)) -> no_throw (try_catch p h).
Proof. intros Hh. induction p as [a|e|a k IH|c k IH]; simpl; auto. Qed.

Lemma no_throw_finally_set {A} (p : prog action A) x : no_throw p -> no_throw (try_finally p (set x)).
Proof. induction p as [a|e|a k IH|c k IH]; simpl; auto. Qed.

Lemma no_throw_report p context failure : no_throw (catch_report p context failure).
Proof. by apply no_throw_catch. Qed.

Lemma no_throw_busy text context failure body : no_throw (busy_handler text context failure body).
Proof. apply (no_throw_finally_set (catch_report _ _ _)), no_throw_report. Qed.

(** The handlers that catch their errors. *)
Definition guarded_handlers (d : invoke_defaults) (b : bool) (s : App) (path : jsstr) : list prog_ :=
  [doScan d b s; doIndex d b s; doScanAndIndex d b s; doSaveConfig d b s; load_config_effect d b;
   doResetConfig d b; doSearch d b s; diagnostics_effect d b s; runDiagnostics d b; pickRoots b;
   pickIndexDir b; start_auto_scan d b; runDetect d b s; handleDelete d b s path].

(** No failure of the back end or of a dialog escapes a handler: whatever the
    calls answer, these handlers return. *)
Theorem handlers_never_reject d b s path p tr e :
  p ∈ guarded_handlers d b s path -> ~ runs p tr (Threw e).
Proof.
  intros Hp. apply no_throw_runs. revert p Hp. apply Forall_forall. unfold guarded_handlers.
  destruct b.
  2:{ repeat (apply Forall_cons; split; [exact I|]). apply List.Forall_nil. }
  assert (Hq : forall (p : prog_) h, (forall e, no_throw (h e)) -> no_throw (try_catch p h)) by apply @no_throw_catch.
  repeat match goal with |- Forall _ (_ :: _) => apply Forall_cons; split end; [..|apply List.Forall_nil].
  all: unfold doScan, doIndex, doScanAndIndex, doSaveConfig, load_config_effect, doResetConfig, doSearch,
    diagnostics_effect, runDiagnostics, pickRoots, pickIndexDir, start_auto_scan, runDetect, handleDelete,
    when_tauri.
  all: try match goal with
       | |- no_throw (busy_handler _ _ _ _) => apply no_throw_busy
       | |- no_throw (catch_report _ _ _) => apply no_throw_report
       | |- no_throw (try_catch _ _) => apply Hq; intros e'; exact I
       end.
  - apply (no_throw_finally_set (try_catch _ _)), Hq. intros e'. exact I.
  - destruct (diag s); [exact I|apply no_throw_report].
  - apply no_throw_report.
  - exact (no_throw_busy "删除中..." "delete_file_and_index" "删除失败" _).
Qed.

Lemma handlers_never_reject_witness :
  ~ runs (pickRoots true) [EvCall (OpenDialog true (js "选择扫描根目录（可多选）")) (inl EUndefined)] (Threw EUndefined).
Proof.
  apply (handlers_never_reject (INVOKE_DEFAULTS NaN NaN) true (initial_state (of_Z 80)) []).
  unfold guarded_handlers. do 9 (apply list_elem_of_further). apply list_elem_of_here.
Defined.
