(* ===== verification/Config.v ===== *)
(** * src-tauri/src/config.rs: the configuration file

    The three commands behind the configuration: reading with repairs, writing,
    resetting.  The file holds JSON text written and read by serde_json, whose
    two directions are parameters; the class [Json] states that what was written
    is read back.  Composed with the fields of the pages: what a user saves is
    what the next start displays. *)

From stdpp Require Import gmap.
From S2P Require Import Prelude JsNumber JsString StringUtil Types Effects Invoke Wire Highlight AppState Handlers AppSystem HandlerSpecs FileSystem RustStd.
#[local] Open Scope Z_scope.
#[local] Open Scope io_scope.

(** ** The struct *)

Record config := {
  c_search_mode : jsstr;
  c_scan_roots : list jsstr;
  c_exclude_patterns : list jsstr;
  c_index_dir : jsstr;
  c_path_max_len : Z;             (* u32 *)
  c_auto_scan_enabled : bool;
}.

(** What the defaults depend on. *)
Record platform := {
  windows : bool;
  drive_exists : Z -> bool;       (* the drive with this letter *)
  home_dir : option jsstr;
  app_config_dir : option jsstr;
}.

(** Serialization: the fields in order. *)
Definition to_value (c : config) : jsval :=
  VObj [("search_mode", VStr (c_search_mode c)); ("scan_roots", strs_val (c_scan_roots c));
        ("exclude_patterns", strs_val (c_exclude_patterns c)); ("index_dir", VStr (c_index_dir c));
        ("path_max_len", VNum (of_Z (c_path_max_len c))); ("auto_scan_enabled", VBool (c_auto_scan_enabled c))]%string.

(** serde_json: [to_string_pretty] and [from_str] up to the value. *)
Class Json := {
  render_json : jsval -> jsstr;
  parse_json : jsstr -> option jsval;
  parse_render : forall c, parse_json (render_json (to_value c)) = Some (to_value c);
}.

Section Config.
Context {C : CaseTables} {J : Json} (os : platform) (sys : system jsstr).
(** The text of serde's error for a file. *)
Context (serde_error : jsstr -> jsstr).

(** ** Defaults *)

Definition default_search_mode : jsstr := js "inverted".

Definition default_scan_roots : list jsstr :=
  if windows os then
    match filterb (drive_exists os) (seqZ 65 26) with
    | [] => [js "C:/"]
    | drives => map (fun c => c :: js ":/") drives
    end
  else [default (js "~/") (home_dir os)].

Definition default_exclude_patterns : list jsstr :=
  [js "\Windows"; js "\Program Files"; js "\Program Files (x86)"; js "\AppData"; js "\ProgramData"; js "\Temp";
   js "\$Recycle.Bin"; js "\System Volume Information"; js "\node_modules"].

Definition default_index_dir : jsstr :=
  join_path (windows os) (join_path (windows os) (default (js "./") (home_dir os)) (js ".searchevery")) (js "indexs").

Definition default_path_max_len : Z := 80.
Definition default_auto_scan_enabled : bool := true.

Definition default_config : config :=
  {| c_search_mode := default_search_mode; c_scan_roots := default_scan_roots;
     c_exclude_patterns := default_exclude_patterns; c_index_dir := default_index_dir;
     c_path_max_len := default_path_max_len; c_auto_scan_enabled := default_auto_scan_enabled |}.

(** ** Deserialization, with the defaults of missing fields *)

Definition de_str (v : jsval) : option jsstr := match v with VStr s => Some s | _ => None end.
Definition de_strs (v : jsval) : option (list jsstr) := match v with VArr l => mapM de_str l | _ => None end.
Definition de_u32 (v : jsval) : option Z :=
  match v with VNum (Fin k) => if int_in 0 (2 ^ 32) (Fin k) then Some (k / one) else None | _ => None end.
Definition de_bool (v : jsval) : option bool := match v with VBool b => Some b | _ => None end.

(** [#[serde(default = ...)]]. *)
Definition serde_field {A} (de : jsval -> option A) (dflt : A) (v : option jsval) : option A :=
  match v with None => Some dflt | Some v => de v end.

(** The fields by position or by name. *)
Definition de_fields (slot : nat -> string -> option jsval) : option config :=
  m ← serde_field de_str default_search_mode (slot 0%nat "search_mode"%string);
  r ← serde_field de_strs default_scan_roots (slot 1%nat "scan_roots"%string);
  e ← serde_field de_strs default_exclude_patterns (slot 2%nat "exclude_patterns"%string);
  i ← serde_field de_str default_index_dir (slot 3%nat "index_dir"%string);
  n ← serde_field de_u32 default_path_max_len (slot 4%nat "path_max_len"%string);
  a ← serde_field de_bool default_auto_scan_enabled (slot 5%nat "auto_scan_enabled"%string);
  Some {| c_search_mode := m; c_scan_roots := r; c_exclude_patterns := e; c_index_dir := i;
          c_path_max_len := n; c_auto_scan_enabled := a |}.

Definition field_names : list string :=
  ["search_mode"; "scan_roots"; "exclude_patterns"; "index_dir"; "path_max_len"; "auto_scan_enabled"]%string.

Definition duplicated (fs : list (string * jsval)) (name : string) : bool :=
  bool_decide (1 < length (filterb (fun f => String.eqb (fst f) name) fs))%nat.

(** A struct is read from an object, whose unknown fields are ignored, or from an
    array with at most as many elements as it has fields. *)
Definition from_value (v : jsval) : option config :=
  match v with
  | VObj fs => if existsb (duplicated fs) field_names then None else de_fields (fun _ name => field_of fs name)
  | VArr l => if bool_decide (6 < length l)%nat then None else de_fields (fun i _ => l !! i)
  | _ => None
  end.

(** ** The commands *)

Definition config_path : io jsstr jsstr :=
  base <- io_lift (match app_config_dir os with Some b => inr b | None => inl (js "config dir not available") end) ;;
  make_dir sys base ;;
  io_ret (join_path (windows os) base (js "config.json")).

Definition in_src_tauri (dir : jsstr) : bool := contains (toLowerCase dir) (js "src-tauri").

(** The guard of both directions against index directories in the sources. *)
Definition redirect (c : config) : config :=
  if in_src_tauri (c_index_dir c)
  then {| c_search_mode := c_search_mode c; c_scan_roots := c_scan_roots c;
          c_exclude_patterns := c_exclude_patterns c; c_index_dir := default_index_dir;
          c_path_max_len := c_path_max_len c; c_auto_scan_enabled := c_auto_scan_enabled c |}
  else c.

(** Empty fields get their default. *)
Definition repair (c : config) : config :=
  {| c_search_mode := if blank (c_search_mode c) then default_search_mode else c_search_mode c;
     c_scan_roots := match c_scan_roots c with [] => default_scan_roots | l => l end;
     c_exclude_patterns := match c_exclude_patterns c with [] => default_exclude_patterns | l => l end;
     c_index_dir := if blank (c_index_dir c) then default_index_dir else c_index_dir c;
     c_path_max_len := if c_path_max_len c =? 0 then default_path_max_len else c_path_max_len c;
     c_auto_scan_enabled := c_auto_scan_enabled c |}.

Definition write_config (cfg : config) : io jsstr unit :=
  p <- config_path ;;
  write_file sys p (render_json (to_value (redirect cfg))).

Definition read_config : io jsstr config :=
  p <- config_path ;;
  e <- path_exists p ;;
  if (e : bool) then
    s <- read_file sys p ;;
    cfg <- io_lift (match v ← parse_json s; from_value v with Some c => inr c | None => inl (serde_error s) end) ;;
    io_ret (redirect (repair cfg))
  else
    write_config default_config ;;
    io_ret default_config.

Definition reset_config : io jsstr config :=
  p <- config_path ;;
  e <- path_exists p ;;
  (if (e : bool) then io_ignore (remove_file sys p) else io_ret tt) ;;
  read_config.

(** ** What a configuration that was read is like *)

Record usable (c : config) : Prop := {
  us_mode : blank (c_search_mode c) = false;
  us_roots : c_scan_roots c <> [];
  us_patterns : c_exclude_patterns c <> [];
  us_dir : blank (c_index_dir c) = false;
  us_len : 0 < c_path_max_len c < 2 ^ 32;
}.

Definition u32 (n : Z) : Prop := 0 <= n < 2 ^ 32.

Lemma default_dir_not_blank : blank default_index_dir = false.
Proof. apply (blank_join _ _ _ 105); [|done]. apply list_elem_of_here. Qed.

Lemma default_roots_not_empty : default_scan_roots <> [].
Proof. unfold default_scan_roots. destruct (windows os); [|done]. by destruct (filterb _ _). Qed.

Lemma default_usable : usable default_config.
Proof.
  split; [reflexivity|apply default_roots_not_empty|done|apply default_dir_not_blank|].
  simpl. unfold default_path_max_len. lia.
Qed.

Lemma repair_usable c : u32 (c_path_max_len c) -> usable (repair c).
Proof.
  intros H. split; simpl.
  - by destruct (blank (c_search_mode c)) eqn:E.
  - destruct (c_scan_roots c); [apply default_roots_not_empty|done].
  - by destruct (c_exclude_patterns c).
  - destruct (blank (c_index_dir c)) eqn:E; [apply default_dir_not_blank|done].
  - unfold u32, default_path_max_len in *. destruct (Z.eqb_spec (c_path_max_len c) 0); lia.
Qed.

Lemma redirect_usable c : usable c -> usable (redirect c).
Proof.
  intros [H1 H2 H3 H4 H5]. unfold redirect. destruct (in_src_tauri _); split; simpl; try done.
  apply default_dir_not_blank.
Qed.

Lemma repair_id c : usable c -> repair c = c.
Proof.
  intros [H1 H2 H3 H4 H5]. destruct c as [m r e i n a]. unfold repair. simpl in *. rewrite H1, H4.
  destruct r; [done|]. destruct e; [done|]. destruct (Z.eqb_spec n 0); [lia|done].
Qed.

Lemma redirect_idemp c : redirect (redirect c) = redirect c.
Proof. unfold redirect. destruct (in_src_tauri (c_index_dir c)) eqn:E; [cbn [c_index_dir]|by rewrite E].
  by destruct (in_src_tauri default_index_dir).
Qed.

Lemma redirect_id c : in_src_tauri (c_index_dir c) = false -> redirect c = c.
Proof. unfold redirect. by intros ->. Qed.

(** What reading makes of a written configuration; another round changes
    nothing. *)
Definition settle (c : config) : config := redirect (repair (redirect c)).

Lemma redirect_len c : c_path_max_len (redirect c) = c_path_max_len c.
Proof. unfold redirect. by destruct (in_src_tauri _). Qed.

Lemma settle_usable c : u32 (c_path_max_len c) -> usable (settle c).
Proof. intros H. apply redirect_usable, repair_usable. by rewrite redirect_len. Qed.

Lemma settle_idemp c : u32 (c_path_max_len c) -> settle (settle c) = settle c.
Proof.
  intros H. pose proof (settle_usable c H) as U. unfold settle at 1.
  assert (E : redirect (settle c) = settle c) by apply redirect_idemp.
  by rewrite E, repair_id.
Qed.

Lemma settle_id c : usable c -> in_src_tauri (c_index_dir c) = false -> settle c = c.
Proof. intros U H. unfold settle. by rewrite !redirect_id, repair_id by (try done; by rewrite redirect_id, repair_id by done). Qed.

(** ** Serialization *)

Lemma mapM_strs l : mapM de_str (map VStr l) = Some l.
Proof. induction l as [|s l IH]; simpl; [done|]. by rewrite IH. Qed.

Lemma de_u32_of_Z n : u32 n -> de_u32 (VNum (of_Z n)) = Some n.
Proof.
  intros H. unfold u32 in H. rewrite of_Z_small by lia. unfold de_u32, int_in.
  pose proof one_pos. rewrite Z.div_mul, Z.eqb_refl by lia.
  destruct (Z.leb_spec 0 n); [|lia]. by destruct (Z.ltb_spec n (2 ^ 32)); [|lia].
Qed.

Lemma from_to_value c : u32 (c_path_max_len c) -> from_value (to_value c) = Some c.
Proof.
  intros H. destruct c as [m r e i n a]. simpl in H. unfold from_value, to_value.
  cbn [c_search_mode c_scan_roots c_exclude_patterns c_index_dir c_path_max_len c_auto_scan_enabled existsb field_names].
  unfold duplicated. cbn -[of_Z de_u32]. rewrite !mapM_strs. cbn -[of_Z de_u32].
  rewrite of_Z_small by (unfold u32 in H; lia). cbn -[de_u32]. rewrite <- of_Z_small by (unfold u32 in H; lia).
  by rewrite de_u32_of_Z.
Qed.

(** ** The commands on the file *)

Lemma with_dir_twice (d : disk jsstr) base :
  {| dirs := {[base]} ∪ ({[base]} ∪ dirs d); contents := contents d |}
  = {| dirs := {[base]} ∪ dirs d; contents := contents d |}.
Proof. by rewrite union_assoc_L, union_idemp_L. Qed.

(** The path is found again, and finding it changes no file. *)
Lemma config_path_inv d p d1 : config_path d = (inr p, d1) ->
  contents d1 = contents d
  /\ forall m, config_path {| dirs := dirs d1; contents := m |} = (inr p, {| dirs := dirs d1; contents := m |}).
Proof.
  unfold config_path, io_bind, io_lift, io_ret, make_dir. destruct (app_config_dir os) as [base|]; [|done].
  destruct (refuses_mkdir sys base); [done|]. intros [= <- <-]. split; [done|]. intros m. simpl.
  by rewrite (with_dir_twice {| dirs := dirs d; contents := m |}).
Qed.

Lemma config_path_same d p d1 d2 q d3 : config_path d = (inr p, d1) -> config_path d2 = (inr q, d3) -> p = q.
Proof.
  unfold config_path, io_bind, io_lift, io_ret, make_dir. destruct (app_config_dir os) as [base|]; [|done].
  destruct (refuses_mkdir sys base); [done|]. by intros [= <- _] [= <- _].
Qed.

Lemma write_config_inv cfg d d' : write_config cfg d = (inr tt, d') ->
  exists p, contents d' = <[p := render_json (to_value (redirect cfg))]> (contents d) /\ config_path d' = (inr p, d').
Proof.
  unfold write_config, io_bind. destruct (config_path d) as [[e|p] d1] eqn:E; [done|].
  destruct (config_path_inv d p d1 E) as [Hc Hp]. intros [_ ->]%write_file_ok. exists p. split; [by rewrite Hc|]. apply Hp.
Qed.

(** Reading a file the back end wrote. *)
Lemma read_written c p d :
  config_path d = (inr p, d) -> contents d !! p = Some (render_json (to_value c)) ->
  refuses_read sys p = None -> u32 (c_path_max_len c) ->
  read_config d = (inr (redirect (repair c)), d).
Proof.
  intros Hp Hd Hr Hu. unfold read_config, io_bind. rewrite Hp. unfold path_exists. rewrite Hd.
  rewrite (bool_decide_true (is_Some _)), orb_true_r by done. unfold read_file. rewrite Hr, Hd.
  rewrite parse_render. unfold io_lift. cbn [mbind option_bind]. by rewrite from_to_value.
Qed.

Lemma de_fields_u32 slot c : de_fields slot = Some c -> u32 (c_path_max_len c).
Proof.
  unfold de_fields. intros H.
  repeat (apply bind_Some in H as (? & ? & H)). injection H as <-. cbn [c_path_max_len].
  match goal with H : serde_field de_u32 _ _ = Some _ |- _ => rename H into En end.
  unfold serde_field in En. destruct (slot 4%nat _) as [v|]; [|injection En as <-; unfold u32, default_path_max_len; lia].
  unfold de_u32, int_in in En. destruct v as [| | |[| |k]|?|?|?]; try done.
  destruct (_ && _) eqn:E in En; [|done]. injection En as <-. apply andb_true_iff in E as [E Hhi%Z.ltb_lt].
  apply andb_true_iff in E as [_ Hlo%Z.leb_le]. done.
Qed.

Lemma from_value_u32 v c : from_value v = Some c -> u32 (c_path_max_len c).
Proof.
  unfold from_value. destruct v as [| | | | |l|fs]; try done.
  - case_bool_decide; [done|]. apply de_fields_u32.
  - destruct (existsb _ _); [done|]. apply de_fields_u32.
Qed.

Lemma read_config_ok d r d' :
  read_config d = (inr r, d') ->
  usable r
  /\ (contents d' = contents d
      \/ (r = default_config /\ exists p, contents d !! p = None
            /\ contents d' = <[p := render_json (to_value (redirect default_config))]> (contents d))).
Proof.
  unfold read_config, io_bind. destruct (config_path d) as [[e|p] d1] eqn:Ep; [done|].
  destruct (config_path_inv d p d1 Ep) as [Hc Hp]. unfold path_exists at 1. destruct (_ || _) eqn:Ex.
  - unfold read_file. destruct (refuses_read sys p); [done|]. destruct (contents d1 !! p) as [s|]; [|done].
    unfold io_lift. destruct (parse_json s) as [v|]; [|done]. cbn [mbind option_bind].
    destruct (from_value v) as [c|] eqn:Ev; [|done]. intros [= <- <-].
    split; [|by left]. apply redirect_usable, repair_usable. by eapply from_value_u32.
  - destruct (write_config default_config d1) as [[e|[]] d2] eqn:Ew; [done|]. intros [= <- <-].
    split; [apply default_usable|right]. split; [done|]. apply orb_false_iff in Ex as [_ Ex%bool_decide_eq_false].
    destruct (write_config_inv _ _ _ Ew) as (q & Hq & Hpq). exists q.
    rewrite <- (config_path_same d p d1 d2 q d2) in Hq |- * by done.
    rewrite <- Hc. split; [by apply eq_None_not_Some|done].
Qed.

(** Whatever the configuration file holds, [read_config] fails or returns a
    configuration the program can work with: a mode, at least one root and one
    exclusion, an index directory, a positive path limit within 32 bits; and it
    leaves every file as it was, or creates the configuration file with the
    defaults where there was none. *)
Theorem read_config_usable d r d' :
  read_config d = (inr r, d') ->
  usable r
  /\ (contents d' = contents d
      \/ (r = default_config /\ exists p, contents d !! p = None
            /\ contents d' = <[p := render_json (to_value (redirect default_config))]> (contents d))).
Proof. apply read_config_ok. Qed.

(** Writing and reading back: after a successful [write_config], reading
    returns the configuration with its empty fields completed and an index
    directory outside the sources; that is the configuration itself unless
    something was missing, and writing what was read changes nothing more. *)
Theorem config_file_roundtrip cfg d d' :
  u32 (c_path_max_len cfg) -> (forall p, refuses_read sys p = None) -> write_config cfg d = (inr tt, d') ->
  read_config d' = (inr (settle cfg), d')
  /\ usable (settle cfg) /\ settle (settle cfg) = settle cfg
  /\ (usable cfg -> in_src_tauri (c_index_dir cfg) = false -> settle cfg = cfg).
Proof.
  intros Hu Hr Hw. destruct (write_config_inv cfg d d' Hw) as (p & Hd & Hp). split_and!.
  - apply (read_written (redirect cfg) p); [done| |done|by rewrite redirect_len]. by rewrite Hd, lookup_insert_eq.
  - by apply settle_usable.
  - by apply settle_idemp.
  - apply settle_id.
Qed.

(** Without a file. *)
Lemma read_missing d p d1 :
  config_path d = (inr p, d1) -> (p ∉ dirs d1) -> contents d !! p = None -> refuses_write sys p = None ->
  exists d', read_config d = (inr default_config, d')
    /\ contents d' = <[p := render_json (to_value (redirect default_config))]> (contents d) /\ dirs d' = dirs d1.
Proof.
  intros Hp Hd Hm Hw. destruct (config_path_inv d p d1 Hp) as [Hc Hp'].
  unfold read_config, io_bind. rewrite Hp. unfold path_exists. rewrite Hc, Hm.
  rewrite !bool_decide_false by (done || by intros [? [=]]). cbn [orb]. unfold write_config, io_bind.
  specialize (Hp' (contents d1)). replace {| dirs := dirs d1; contents := contents d1 |} with d1 in Hp' by (by destruct d1).
  rewrite Hp'. unfold write_file. rewrite Hw, <- Hc. by eexists.
Qed.

(** [reset_config] when the old file can be removed, or is not there: the
    defaults, and a file that holds them.  When the removal is refused, the error
    is ignored and the old configuration is returned as the result of the reset. *)
Lemma reset_config_spec d p d1 :
  config_path d = (inr p, d1) -> (p ∉ dirs d1) -> refuses_write sys p = None ->
  (contents d !! p = None \/ refuses_remove sys p = None ->
     exists d', reset_config d = (inr default_config, d')
       /\ contents d' = <[p := render_json (to_value (redirect default_config))]> (contents d) /\ dirs d' = dirs d1)
  /\ (is_Some (contents d !! p) -> is_Some (refuses_remove sys p) -> fst (reset_config d) = fst (read_config d)).
Proof.
  intros Hp Hd Hw. destruct (config_path_inv d p d1 Hp) as [Hc Hp'].
  assert (Hread : forall m, m !! p = None -> exists d', read_config {| dirs := dirs d1; contents := m |} = (inr default_config, d')
      /\ contents d' = <[p := render_json (to_value (redirect default_config))]> m /\ dirs d' = dirs d1).
  { intros m Hm. by apply (read_missing {| dirs := dirs d1; contents := m |} p {| dirs := dirs d1; contents := m |}). }
  unfold reset_config, io_bind. rewrite Hp. unfold path_exists. rewrite (bool_decide_false (p ∈ dirs d1)), Hc by done.
  cbn [orb]. split.
  - intros Hr. destruct (contents d !! p) as [b|] eqn:Eb.
    + rewrite bool_decide_true by done. destruct Hr as [[=]|Hr].
      unfold io_ignore, remove_file. rewrite Hr, Hc, Eb. cbn [snd].
      destruct (Hread (delete p (contents d))) as (d' & E & Hd'); [by rewrite lookup_delete_eq|].
      exists d'. split; [done|]. destruct Hd' as [-> ->]. by rewrite insert_delete_eq.
    + rewrite bool_decide_false by (by intros [? [=]]). unfold io_ret.
      destruct (Hread (contents d) Eb) as (d' & E & Hd'). exists d'. rewrite <- Hc in E.
      replace d1 with {| dirs := dirs d1; contents := contents d1 |} by (by destruct d1). done.
  - intros Hb [e He]. rewrite bool_decide_true by done. unfold io_ignore, remove_file. rewrite He. cbn [snd].
    unfold read_config, io_bind. rewrite Hp.
    replace d1 with {| dirs := dirs d1; contents := contents d1 |} by (by destruct d1). by rewrite Hp'.
Qed.

(** ** A damaged file *)

(** No configuration can be read from a text. *)
Definition unreadable (s : jsstr) : Prop := (v ← parse_json s; from_value v) = None.

Lemma read_unreadable d p s :
  config_path d = (inr p, d) -> contents d !! p = Some s -> refuses_read sys p = None -> unreadable s ->
  read_config d = (inl (serde_error s), d).
Proof.
  intros Hp Hs Hr Hu. unfold read_config, io_bind. rewrite Hp. unfold path_exists. rewrite Hs.
  rewrite (bool_decide_true (is_Some _)), orb_true_r by done. unfold read_file. rewrite Hr, Hs. unfold unreadable in Hu. by rewrite Hu.
Qed.

(** C10. The write of a configuration that is refused half way leaves what the system had
    written by then; this and any other text no configuration can be read from makes
    every later read fail.  Resetting brings the defaults back exactly when the
    damaged file can be removed, and a successful save replaces it. *)
Theorem damaged_config_recovers d p s :
  config_path d = (inr p, d) -> (p ∉ dirs d) -> refuses_write sys p = None -> refuses_read sys p = None ->
  contents d !! p = Some s -> unreadable s ->
  read_config d = (inl (serde_error s), d)
  /\ (refuses_remove sys p = None ->
      exists d', reset_config d = (inr default_config, d') /\ read_config d' = (inr (settle default_config), d'))
  /\ (is_Some (refuses_remove sys p) -> fst (reset_config d) = inl (serde_error s))
  /\ forall cfg, u32 (c_path_max_len cfg) ->
       exists d', write_config cfg d = (inr tt, d') /\ read_config d' = (inr (settle cfg), d').
Proof.
  intros Hp Hd Hw Hr Hs Hu. pose proof (read_unreadable d p s Hp Hs Hr Hu) as Hread.
  destruct (config_path_inv d p d Hp) as [_ Hany]. destruct (reset_config_spec d p d Hp Hd Hw) as [H1 H2].
  assert (Hback : forall cfg d', u32 (c_path_max_len cfg) -> dirs d' = dirs d ->
    contents d' = <[p := render_json (to_value (redirect cfg))]> (contents d) -> read_config d' = (inr (settle cfg), d')).
  { intros cfg d' Hl Ed E. apply (read_written (redirect cfg) p); [|by rewrite E, lookup_insert_eq|done|by rewrite redirect_len].
    specialize (Hany (contents d')). rewrite <- Ed in Hany. by destruct d'. }
  split; [exact Hread|]. split; [|split].
  - intros Hrm. destruct H1 as (d' & E & Hc & Hd'); [by right|]. exists d'. split; [done|].
    apply Hback; [unfold u32; simpl; unfold default_path_max_len; lia|done..].
  - intros Hrm. rewrite H2, Hread; [done|by eexists|done].
  - intros cfg Hl. eexists. assert (E : write_config cfg d = (inr tt, {| dirs := dirs d;
      contents := <[p := render_json (to_value (redirect cfg))]> (contents d) |})).
    { unfold write_config, io_bind. rewrite Hp. unfold write_file. by rewrite Hw. }
    split; [exact E|]. by apply Hback.
Qed.

(** ** Saving in the settings, starting again *)

(** The answer of [read_config] as the front end gets it. *)
Definition front_config (c : config) : AppConfig :=
  {| search_mode := c_search_mode c; scan_roots := c_scan_roots c; exclude_patterns := c_exclude_patterns c;
     index_dir := c_index_dir c; path_max_len := Some (of_Z (c_path_max_len c));
     auto_scan_enabled := Some (c_auto_scan_enabled c) |}.

(** What [write_config] deserializes from the request of [doSaveConfig]. *)
Lemma saved_deserializes s n : pathMaxLen s = of_Z n -> u32 n ->
  exists c, from_value (config_val (saved_config s)) = Some c /\ front_config c = saved_config s.
Proof.
  intros Hn Hu. exists {| c_search_mode := js "inverted"; c_scan_roots := parseCSV (roots s);
    c_exclude_patterns := parseCSV (exclude s); c_index_dir := indexDir s; c_path_max_len := n;
    c_auto_scan_enabled := autoScanEnabled s |}.
  split; [|unfold front_config, saved_config; by rewrite Hn].
  etransitivity; [|by apply from_to_value]. unfold saved_config, config_val, to_value. simpl. by rewrite Hn.
Qed.

(** No field of the pages is empty. *)
Definition filled (s : App) : Prop :=
  parseCSV (roots s) <> [] /\ parseCSV (exclude s) <> [] /\ blank (indexDir s) = false
  /\ in_src_tauri (indexDir s) = false /\ exists n, pathMaxLen s = of_Z n /\ 0 < n < 2 ^ 32.

(** What the save button sends is accepted if its path limit is a 32-bit number. *)
Lemma saved_accepted s :
  is_Some (from_value (config_val (saved_config s))) <-> exists n, pathMaxLen s = of_Z n /\ u32 n.
Proof.
  split; [|intros (n & Hn & Hu); destruct (saved_deserializes s n Hn Hu) as (c & -> & _); by eexists].
  unfold from_value, config_val, saved_config. cbn [search_mode Types.scan_roots Types.exclude_patterns Types.index_dir Types.path_max_len
    Types.auto_scan_enabled]. intros [c H].
  destruct (existsb _ _); [done|]. unfold de_fields in H. cbn -[de_u32 of_Z] in H.
  repeat (apply bind_Some in H as (? & ? & H)).
  match goal with H : serde_field de_u32 _ _ = Some _ |- _ => rename H into En end.
  unfold serde_field, de_u32, int_in in En. destruct (pathMaxLen s) as [| |k]; try done.
  destruct (_ && _) eqn:E in En; [|done]. apply andb_true_iff in E as [[E1%Z.eqb_eq E2%Z.leb_le]%andb_true_iff E3%Z.ltb_lt].
  exists (k / one). unfold u32. split; [|lia]. rewrite of_Z_small by lia. by rewrite E1.
Qed.

(** C29. The settings survive a restart.  The command accepts what [doSaveConfig]
    sends exactly when the path limit is a whole number of 32 bits.  When this limit
    is positive too, no other field is empty and the index directory is not in the
    sources of the program, then once the back end has written it, reading the file
    and showing the result in any state of the application gives fields from which
    the same configuration would be saved. *)
Theorem settings_survive_restart s :
  (is_Some (from_value (config_val (saved_config s))) <-> exists n, pathMaxLen s = of_Z n /\ 0 <= n < 2 ^ 32)
  /\ (filled s -> (forall p, refuses_read sys p = None) ->
      exists cfg, from_value (config_val (saved_config s)) = Some cfg
        /\ forall t ls text d d', write_config cfg d = (inr tt, d') ->
             exists cfg' t', read_config d' = (inr cfg', d')
               /\ advance (show_config (front_config cfg') text) t ls = (t', ls, None)
               /\ saved_config t' = saved_config s).
Proof.
  split; [apply saved_accepted|]. intros (Hr & He & Hi & Ht & n & Hn & Hlen) Href.
  destruct (saved_deserializes s n Hn) as (c & Hc & Hf); [unfold u32; lia|]. exists c. split; [done|].
  intros t ls text d d' Hw. pose proof (from_value_u32 _ _ Hc) as Hu.
  injection Hf as Hm Hroots Hpat Hdir Hpl Hauto.
  destruct (write_config_inv c d d' Hw) as (p & Hd & Hp).
  assert (U : usable c).
  { split; [by rewrite Hm|by rewrite Hroots|by rewrite Hpat|by rewrite Hdir|].
    rewrite Hn in Hpl. apply of_Z_inj in Hpl; [lia|unfold safe, u32 in *; lia..]. }
  assert (E : settle c = c) by (apply settle_id; [done|by rewrite Hdir]).
  exists c. edestruct (show_saved (front_config c) text t ls) as (t' & Hs & Ht'); last first.
  - exists t'. split_and!; [|exact Hs|].
    + rewrite <- E at 1. apply (read_written (redirect c) p); [done| |done|by rewrite redirect_len].
      by rewrite Hd, lookup_insert_eq.
    + rewrite Ht'. unfold front_config, saved_config. by rewrite Hm, Hroots, Hpat, Hdir, Hpl, Hauto.
  - by eexists.
  - eexists. split; [reflexivity|]. rewrite of_Z_small by (unfold u32 in Hu; lia). done.
  - simpl. rewrite Hdir. by destruct (indexDir s).
  - simpl. rewrite Hpat. apply parseCSV_items.
  - simpl. rewrite Hroots. apply parseCSV_items.
  - done.
Qed.

(** An empty list of exclusions cannot be saved: the default ones come back. *)
Lemma exclusions_come_back s n d d' cfg :
  parseCSV (exclude s) = [] -> pathMaxLen s = of_Z n -> u32 n -> (forall p, refuses_read sys p = None) ->
  from_value (config_val (saved_config s)) = Some cfg -> write_config cfg d = (inr tt, d') ->
  exists cfg', read_config d' = (inr cfg', d') /\ c_exclude_patterns cfg' = default_exclude_patterns.
Proof.
  intros He Hn Hu Href Hv Hw. destruct (saved_deserializes s n Hn Hu) as (c & Hc & Hf).
  rewrite Hc in Hv. injection Hv as <-. pose proof (from_value_u32 _ _ Hc) as Hu'.
  destruct (write_config_inv c d d' Hw) as (p & Hd & Hp). eexists. split.
  - apply (read_written (redirect c) p); [done| |done|by rewrite redirect_len]. by rewrite Hd, lookup_insert_eq.
  - assert (E : c_exclude_patterns c = []) by (rewrite <- He; exact (f_equal exclude_patterns Hf)).
    unfold redirect. destruct (in_src_tauri (c_index_dir c)); destruct (in_src_tauri _); simpl; by rewrite E.
Qed.
End Config.

(** ** A concrete machine *)

#[export] Program Instance number_countable : Countable number :=
  inj_countable' (fun x => match x with NaN => None | Infinity b => Some (inl b) | Fin k => Some (inr k) end)
    (fun x : option (bool + Z) => match x with None => NaN | Some (inl b) => Infinity b | Some (inr k) => Fin k end) _.
Next Obligation. by intros []. Qed.

Abbreviation row := (jsstr * list jsstr * list jsstr * jsstr * number * bool)%type.

Definition to_row (v : jsval) : option row :=
  match v with
  | VObj [(_, VStr m); (_, r); (_, e); (_, VStr i); (_, VNum n); (_, VBool a)] =>
      r ← de_strs r; e ← de_strs e; Some (m, r, e, i, n, a)
  | _ => None
  end.
Definition of_row (x : row) : jsval :=
  match x with (m, r, e, i, n, a) =>
    VObj [("search_mode", VStr m); ("scan_roots", strs_val r); ("exclude_patterns", strs_val e); ("index_dir", VStr i);
          ("path_max_len", VNum n); ("auto_scan_enabled", VBool a)]%string
  end.

(** A text format for configurations: one number per row. *)
#[refine] Definition demo_json : Json :=
  {| render_json v := match to_row v with Some x => [Zpos (encode x)] | None => [] end;
     parse_json s := match s with [Zpos p] => of_row <$> decode p | _ => None end |}.
Proof.
  intros c. unfold to_value, to_row, strs_val, de_strs. rewrite !mapM_strs. cbn [mbind option_bind].
  by rewrite decode_encode.
Defined.

Definition demo_platform : platform :=
  {| windows := false; drive_exists _ := false; home_dir := Some (js "/home/u"); app_config_dir := Some (js "/cfg") |}.
Definition demo_files : system jsstr :=
  {| refuses_write _ := None; refuses_mkdir _ := None; refuses_read _ := None; refuses_remove _ := None |}.
Definition demo_tables : CaseTables := {| canonicalize c := c; toLowerCase s := map ascii_lower s |}.
Definition demo_empty : disk jsstr := {| dirs := ∅; contents := ∅ |}.
Definition demo_error (s : jsstr) : jsstr := js "error".
Definition demo_state : App := initial_state (of_Z 80).

Abbreviation demo_read := (read_config (C := demo_tables) (J := demo_json) demo_platform demo_files demo_error).
Abbreviation demo_write := (write_config (C := demo_tables) (J := demo_json) demo_platform demo_files).

Lemma demo_path d : config_path demo_platform demo_files d
  = (inr (js "/cfg/config.json"), {| dirs := {[js "/cfg"]} ∪ dirs d; contents := contents d |}).
Proof. reflexivity. Qed.

Lemma demo_writes cfg d : exists d', demo_write cfg d = (inr tt, d').
Proof. unfold write_config, io_bind. rewrite demo_path. by eexists. Qed.

Lemma read_config_usable_witness :
  exists r d', demo_read demo_empty = (inr r, d') /\ usable r.
Proof.
  destruct (read_missing (C := demo_tables) (J := demo_json) demo_platform demo_files demo_error demo_empty _ _
              (demo_path demo_empty)) as (d' & E & _); [set_solver|done..|].
  exists (default_config demo_platform), d'. split; [exact E|].
  apply (read_config_usable (C := demo_tables) (J := demo_json) demo_platform demo_files demo_error _ _ _ E).
Defined.

Lemma config_file_roundtrip_witness :
  exists d', demo_read d' = (inr (default_config demo_platform), d').
Proof.
  destruct (demo_writes (default_config demo_platform) demo_empty) as [d' Hw]. exists d'.
  destruct (config_file_roundtrip (C := demo_tables) (J := demo_json) demo_platform demo_files demo_error
              (default_config demo_platform) demo_empty d') as (H & _ & _ & E);
    [split; done|done|exact Hw|].
  rewrite E in H; [exact H|apply default_usable|vm_compute; reflexivity].
Defined.

Lemma settings_survive_restart_witness :
  exists d' cfg' t', demo_read d' = (inr cfg', d')
    /\ advance (show_config (front_config cfg') "已加载默认配置") demo_state [] = (t', [], None)
    /\ saved_config t' = saved_config demo_state.
Proof.
  destruct (settings_survive_restart (C := demo_tables) (J := demo_json) demo_platform demo_files demo_error demo_state)
    as [_ H].
  destruct H as (cfg & _ & H); [|done|].
  - split_and!; [vm_compute; discriminate|vm_compute; discriminate|vm_compute; reflexivity|vm_compute; reflexivity|].
    exists 80. split; [reflexivity|lia].
  - destruct (demo_writes cfg demo_empty) as [d' Hw]. exists d'. exact (H demo_state [] "已加载默认配置"%string demo_empty d' Hw).
Defined.

(** A save that the disk is too full for: the file stays empty until it is reset. *)
Definition full_disk : system jsstr :=
  {| refuses_write _ := Some (js "no space left on device", Some []); refuses_mkdir _ := None; refuses_read _ := None;
     refuses_remove _ := None |}.

Lemma damaged_config_recovers_witness :
  exists d, snd (write_config (C := demo_tables) (J := demo_json) demo_platform full_disk (default_config demo_platform) demo_empty) = d
    /\ demo_read d = (inl (demo_error []), d)
    /\ exists d', reset_config (C := demo_tables) (J := demo_json) demo_platform demo_files demo_error d
                  = (inr (default_config demo_platform), d').
Proof.
  eexists. split; [reflexivity|].
  destruct (damaged_config_recovers (C := demo_tables) (J := demo_json) demo_platform demo_files demo_error
    (snd (write_config (C := demo_tables) (J := demo_json) demo_platform full_disk (default_config demo_platform) demo_empty))
    (js "/cfg/config.json") []) as (H1 & H2 & _); [| |reflexivity..|].
  - rewrite demo_path. vm_compute. reflexivity.
  - intros H. vm_compute in H. discriminate H.
  - split; [exact H1|]. destruct (H2 eq_refl) as (d' & H & _). exists d'. exact H.
Defined.
