(* ===== verification/Scan.v ===== *)
(** * src-tauri/src/scanner.rs and the scan commands of main.rs

    A scan walks the roots and keeps the regular files that no exclusion matches
    and that are not too large.  The walk (walkdir) and the clock are parameters:
    the walk of a root is a list of entries, each an error or an entry whose
    path may not be text and whose metadata may not be readable.

    [scan] returns the files; [scan_paths_progress] returns them too and emits
    progress on the way, which the application displays. *)

From S2P Require Import Prelude JsNumber JsString PathUtil Types Effects Invoke Highlight AppState Handlers AppSystem EventBus RustStd.
#[local] Open Scope Z_scope.

Record file_meta := {
  f_path : jsstr;
  f_name : jsstr;
  f_ext : jsstr;
  f_size : Z;               (* u64 *)
  f_modified_ts : Z;        (* i64, seconds *)
}.

Record metadata := {
  md_len : Z;
  md_modified : option Z;   (* nanoseconds since 1970, where the system keeps it *)
}.

Record entry := {
  is_file : bool;
  path_str : option jsstr;
  path_metadata : option metadata;
}.

(** The options of the commands. *)
Record scan_options := {
  sc_roots : list jsstr;
  sc_exclude_patterns : list jsstr;
  sc_max_file_size_mb : option Z;     (* u64 *)
  sc_follow_symlinks : bool;
}.

(** ** Names and times *)

(** [path.file_name()] of a file: what follows the last separator. *)
Fixpoint file_name (windows : bool) (p : jsstr) : jsstr :=
  match p with
  | [] => []
  | c :: p' =>
      let sep x := (x =? 47) || (windows && (x =? 92)) in
      if existsb sep (c :: p') then file_name windows p' else p
  end.

(** [path.extension()] as text: what follows the last dot, unless that dot is the
    first character. *)
Definition extension (name : jsstr) : jsstr :=
  let i := lastIndexOf name 46 in
  if 0 <? i then drop (Z.to_nat (i + 1)) name else [].

Definition second : Z := 10 ^ 9.

(** [t.elapsed()] fails for a time in the future; the two readings of the clock
    are the arguments. *)
Definition scan_time (elapsed_at now_at : Z) (m : option Z) : Z :=
  match m with
  | Some t => if t <=? elapsed_at then now_at / second - (elapsed_at - t) / second else 0
  | None => 0
  end.

Section Scan.
Context {C : CaseTables} (windows : bool).
(** [WalkDir::new(root).follow_links(b)], entry by entry. *)
Context (walk : bool -> jsstr -> list (option entry)).
(** The readings of the clock made for a path. *)
Context (clock : jsstr -> Z * Z).

(** [m * 1024 * 1024] in 64 bits, as in a release build. *)
Definition max_bytes (o : scan_options) : option Z :=
  (fun m => (m * 1024 * 1024) mod 2 ^ 64) <$> sc_max_file_size_mb o.

(** The body of the loop up to the push: [None] is [continue]. *)
Definition visit (mtime : jsstr -> option Z -> Z) (exclude : list jsstr) (limit : option Z) (e : option entry) : option file_meta :=
  e ← e;
  if is_file e then
    p ← path_str e;
    if existsb (contains p) exclude then None
    else
      md ← path_metadata e;
      if match limit with Some mb => mb <? md_len md | None => false end then None
      else
        let name := file_name windows p in
        Some {| f_path := p; f_name := name; f_ext := toLowerCase (extension name); f_size := md_len md;
                f_modified_ts := mtime p (md_modified md) |}
  else None.

Definition elapsed_mtime (p : jsstr) (m : option Z) : Z := let '(a, b) := clock p in scan_time a b m.

(** ** scanner.rs *)

Definition scan_entry (o : scan_options) (results : list file_meta) (e : option entry) : list file_meta :=
  match visit elapsed_mtime (sc_exclude_patterns o) (max_bytes o) e with
  | Some f => results ++ [f]
  | None => results
  end.

Definition scan (o : scan_options) : list file_meta :=
  fold_left (fun results root => fold_left (scan_entry o) (walk (sc_follow_symlinks o) root) results) (sc_roots o) [].

(** ** main.rs, [scan_paths_progress] *)

Definition scan_progress_event (current : nat) (f : file_meta) : emission :=
  ("scan_progress", VObj [("current", VNum (of_Z (Z.of_nat current))); ("path", VStr (f_path f)); ("name", VStr (f_name f))])%string.
Definition scan_done_event (total : nat) : emission :=
  ("scan_done", VObj [("total", VNum (of_Z (Z.of_nat total)))])%string.

Definition progress_entry (o : scan_options) (st : list file_meta * list emission) (e : option entry) :
    list file_meta * list emission :=
  match visit elapsed_mtime (sc_exclude_patterns o) (max_bytes o) e with
  | Some f => let results := fst st ++ [f] in (results, snd st ++ [scan_progress_event (length results) f])
  | None => st
  end.

(** The files returned and the events emitted, in order. *)
Definition scan_paths_progress (o : scan_options) : list file_meta * list emission :=
  let '(results, es) :=
    fold_left (fun st root => fold_left (progress_entry o) (walk (sc_follow_symlinks o) root) st) (sc_roots o) ([], []) in
  (results, es ++ [scan_done_event (length results)]).

(** ** What is scanned *)

(** The entries of a scan. *)
Definition entries (o : scan_options) : list (option entry) := flat_map (walk (sc_follow_symlinks o)) (sc_roots o).

Lemma scan_omap o :
  scan o = omap (visit elapsed_mtime (sc_exclude_patterns o) (max_bytes o)) (entries o).
Proof.
  assert (H : forall l acc, fold_left (scan_entry o) l acc
    = acc ++ omap (visit elapsed_mtime (sc_exclude_patterns o) (max_bytes o)) l).
  { induction l as [|e l IH]; intros acc; simpl; [by rewrite app_nil_r|]. rewrite IH. unfold scan_entry.
    destruct (visit _ _ _ e); [by rewrite <- app_assoc|done]. }
  assert (H' : forall rs acc, fold_left (fun results root => fold_left (scan_entry o) (walk (sc_follow_symlinks o) root) results) rs acc
    = acc ++ omap (visit elapsed_mtime (sc_exclude_patterns o) (max_bytes o)) (flat_map (walk (sc_follow_symlinks o)) rs)).
  { induction rs as [|r rs IH]; intros acc; simpl; [by rewrite app_nil_r|]. by rewrite IH, H, omap_app, app_assoc. }
  exact (H' (sc_roots o) []).
Qed.

(** The events of files numbered from [k]. *)
Definition progress_events (k : nat) (fs : list file_meta) : list emission :=
  imap (fun i f => scan_progress_event (k + S i) f) fs.

Lemma progress_events_snoc k fs f :
  progress_events k (fs ++ [f]) = progress_events k fs ++ [scan_progress_event (k + S (length fs)) f].
Proof. unfold progress_events. rewrite imap_app. simpl. by rewrite Nat.add_0_r. Qed.

Lemma progress_fold o l st :
  snd st = progress_events 0 (fst st) ->
  let st' := fold_left (progress_entry o) l st in
  fst st' = fst st ++ omap (visit elapsed_mtime (sc_exclude_patterns o) (max_bytes o)) l
  /\ snd st' = progress_events 0 (fst st').
Proof.
  revert st. induction l as [|e l IH]; intros [rs es]; simpl; intros H; [by rewrite app_nil_r|].
  assert (Hs : progress_entry o (rs, es) e = match visit elapsed_mtime (sc_exclude_patterns o) (max_bytes o) e with
    | Some f => (rs ++ [f], es ++ [scan_progress_event (length (rs ++ [f])) f]) | None => (rs, es) end) by done.
  rewrite Hs. destruct (visit _ _ _ e) as [f|] eqn:E; [|by apply (IH (rs, es))].
  destruct (IH (rs ++ [f], es ++ [scan_progress_event (length (rs ++ [f])) f])) as [H1 H2].
  - simpl. by rewrite progress_events_snoc, H, length_app, Nat.add_comm.
  - split; [|exact H2]. simpl in H1. by rewrite <- app_assoc in H1.
Qed.

(** The command with progress returns what [scan] returns, and emits one event per
    file, numbered from one in the order of the files, then their number. *)
Lemma scan_paths_progress_eq o :
  scan_paths_progress o = (scan o, progress_events 0 (scan o) ++ [scan_done_event (length (scan o))]).
Proof.
  unfold scan_paths_progress. assert (H : forall rs st, snd st = progress_events 0 (fst st) ->
    let st' := fold_left (fun st root => fold_left (progress_entry o) (walk (sc_follow_symlinks o) root) st) rs st in
    fst st' = fst st ++ omap (visit elapsed_mtime (sc_exclude_patterns o) (max_bytes o))
                          (flat_map (walk (sc_follow_symlinks o)) rs)
    /\ snd st' = progress_events 0 (fst st')).
  { induction rs as [|r rs IH]; intros st Hst; simpl; [by rewrite app_nil_r|].
    destruct (progress_fold o (walk (sc_follow_symlinks o) r) st Hst) as [H1 H2].
    destruct (IH _ H2) as [H3 H4]. split; [|exact H4]. by rewrite H3, H1, omap_app, app_assoc. }
  destruct (H (sc_roots o) ([], []) eq_refl) as [H1 H2].
  destruct (fold_left _ (sc_roots o) ([], [])) as [rs es]. simpl in H1, H2. rewrite scan_omap. by subst.
Qed.

(** ** The display of a scan *)

Lemma receive_progress s i f :
  let s' := receive_all true [scan_progress_event i f] s in
  scanCount s' = of_Z (Z.of_nat i) /\ (f_path f <> [] -> scanDir s' = scanDirOf (f_path f)).
Proof.
  simpl. unfold emission_setters, on_scan_progress. cbn -[of_Z scanDirOf apply_all truthy].
  destruct (f_path f) as [|c p]; [done|]. by split.
Qed.

(** C32. A scan started from the application, end to end: the command returns the
    files [scan] finds and the application, listening, shows after each event
    the number of files found so far and the directory of the last one; when the
    scan is done the totals are their number. *)
Theorem scan_progress_shown o s k f :
  (scan o) !! k = Some f -> f_path f <> [] ->
  let es := snd (scan_paths_progress o) in
  let n := of_Z (Z.of_nat (length (scan o))) in
  fst (scan_paths_progress o) = scan o
  /\ scanCount (receive_all true (take (S k) es) s) = of_Z (Z.of_nat (S k))
  /\ scanDir (receive_all true (take (S k) es) s) = scanDirOf (f_path f)
  /\ lastScanTotal (receive_all true es s) = n /\ idxTotal (receive_all true es s) = n
  /\ scanCount (receive_all true es s) = n.
Proof.
  intros Hk Hp. rewrite scan_paths_progress_eq. cbn [fst snd]. set (fs := scan o) in *.
  pose proof (lookup_lt_Some _ _ _ Hk) as Hlt.
  assert (Hlast : forall j g, fs !! j = Some g ->
    take (S j) (progress_events 0 fs) = take j (progress_events 0 fs) ++ [scan_progress_event (S j) g]).
  { intros j g Hg. apply take_S_r. unfold progress_events. by rewrite list_lookup_imap, Hg. }
  assert (Hlen : length (progress_events 0 fs) = length fs) by apply length_imap.
  split; [done|]. rewrite take_app_le by lia. rewrite (Hlast k f Hk), receive_all_app.
  destruct (receive_progress (receive_all true (take k (progress_events 0 fs)) s) (S k) f) as [H1 H2].
  split; [exact H1|]. split; [by apply H2|]. rewrite receive_all_app. split; [reflexivity|]. split; [reflexivity|].
  destruct (lookup_lt_is_Some_2 fs (length fs - 1)) as [g Hg]; [lia|].
  rewrite <- (take_ge (progress_events 0 fs) (S (length fs - 1))) at 1 by lia.
  rewrite (Hlast _ g Hg), receive_all_app.
  destruct (receive_progress (receive_all true (take (length fs - 1) (progress_events 0 fs)) s) (S (length fs - 1)) g) as [H3 _].
  replace (S (length fs - 1)) with (length fs) in * by lia. exact H3.
Qed.

(** ** Which files are scanned *)

(** An entry the scan keeps, and the file it makes of it. *)
Record kept (o : scan_options) (e : entry) (f : file_meta) : Prop := {
  k_file : is_file e = true;
  k_path : path_str e = Some (f_path f);
  k_excluded : forall pat a b, pat ∈ sc_exclude_patterns o -> f_path f <> a ++ pat ++ b;
  k_size : exists md, path_metadata e = Some md /\ f_size f = md_len md
             /\ f_modified_ts f = elapsed_mtime (f_path f) (md_modified md);
  k_limit : forall m, sc_max_file_size_mb o = Some m -> f_size f <= m * 2 ^ 20;
  k_name : f_name f = file_name windows (f_path f) /\ f_ext f = toLowerCase (extension (f_name f));
}.

(** The limit does not overflow 64 bits. *)
Definition limit_fits (o : scan_options) : Prop :=
  forall m, sc_max_file_size_mb o = Some m -> 0 <= m * 2 ^ 20 < 2 ^ 64.

Lemma max_bytes_fits o m : limit_fits o -> sc_max_file_size_mb o = Some m -> max_bytes o = Some (m * 2 ^ 20).
Proof.
  intros H Hm. unfold max_bytes. rewrite Hm. simpl. f_equal. specialize (H m Hm).
  replace (m * 1024 * 1024) with (m * 2 ^ 20) by lia. by apply Z.mod_small.
Qed.

Lemma not_excluded p pats :
  existsb (contains p) pats = false <-> forall pat a b, pat ∈ pats -> p <> a ++ pat ++ b.
Proof.
  rewrite <- not_true_iff_false, existsb_exists. setoid_rewrite contains_spec. split.
  - intros H pat a b Hp ->. apply H. exists pat. split; [by apply list_elem_of_In|by exists a, b].
  - intros H (pat & Hp & a & b & E). by eapply H; [apply list_elem_of_In|].
Qed.

Lemma visit_spec o e f : limit_fits o ->
  visit elapsed_mtime (sc_exclude_patterns o) (max_bytes o) (Some e) = Some f <-> kept o e f.
Proof.
  intros Hfit. unfold visit. cbn [mbind option_bind]. split.
  - destruct (is_file e) eqn:Ef; [|done]. intros H. apply bind_Some in H as (p & Ep & H).
    destruct (existsb _ _) eqn:Ex; [done|]. apply bind_Some in H as (md & Em & H).
    destruct (match max_bytes o with Some mb => mb <? md_len md | None => false end) eqn:El; [done|]. injection H as <-.
    split; [done|done|by apply not_excluded|by exists md| |done].
    intros m Hm. rewrite (max_bytes_fits o m) in El by done. by apply Z.ltb_ge in El.
  - intros [Hf Hp Hx (md & Hmd & Hs & Ht) Hl [Hn He]]. rewrite Hf, Hp. cbn [mbind option_bind].
    rewrite (proj2 (not_excluded _ _) Hx), Hmd. cbn [mbind option_bind].
    assert (El : match max_bytes o with Some mb => mb <? md_len md | None => false end = false).
    { destruct (sc_max_file_size_mb o) as [m|] eqn:Em.
      - rewrite (max_bytes_fits o m) by done. apply Z.ltb_ge. rewrite <- Hs. by apply Hl.
      - unfold max_bytes. by rewrite Em. }
    rewrite El. destruct f. simpl in *. by subst.
Qed.

(** C31. A scan finds exactly the regular files under its roots whose path is text
    and contains none of the exclusions, whose metadata can be read and which are
    not larger than the limit; each with its name, its extension in lower case,
    its size and its time of modification.  Nothing else stops it: unreadable
    entries are passed over. *)
Theorem scan_correct o f :
  limit_fits o ->
  f ∈ scan o <-> exists root e, root ∈ sc_roots o /\ Some e ∈ walk (sc_follow_symlinks o) root /\ kept o e f.
Proof.
  intros Hfit. rewrite scan_omap, list_elem_of_omap. unfold entries. split.
  - intros (e & (root & Hr & He)%list_elem_of_In%in_flat_map & Hv).
    destruct e as [e|]; [|done]. exists root, e.
    split_and!; [by apply list_elem_of_In|by apply list_elem_of_In|by apply visit_spec].
  - intros (root & e & Hr & He & Hk). exists (Some e). split; [|by apply visit_spec].
    apply list_elem_of_In, in_flat_map. exists root. by rewrite <- !list_elem_of_In.
Qed.

(** An empty exclusion would exclude everything; the fields of the pages never
    hold one. *)
Lemma empty_pattern_excludes_all o : [] ∈ sc_exclude_patterns o -> scan o = [].
Proof.
  intros H. rewrite scan_omap. induction (entries o) as [|e l IH]; simpl; [done|].
  replace (visit _ _ _ e) with (@None file_meta); [done|]. unfold visit. destruct e as [e|]; [|done]. simpl.
  destruct (is_file e); [|done]. destruct (path_str e) as [p|]; [|done]. simpl.
  rewrite (proj2 (existsb_exists _ _)); [done|]. exists []. split; [by apply list_elem_of_In|apply contains_nil].
Qed.

(** A root given twice is scanned twice. *)
Lemma root_twice o r : sc_roots o = [r; r] ->
  exists fs, scan o = fs ++ fs.
Proof. intros H. rewrite scan_omap. unfold entries. rewrite H. simpl. rewrite app_nil_r, omap_app. by eexists. Qed.
End Scan.

(** The time of a scan is the second of the modification or the next one,
    depending on the clock: two scans of an unchanged file can differ. *)
Lemma scan_time_near t n : t <= n ->
  t / second <= scan_time n n (Some t) <= t / second + 1.
Proof.
  intros H. unfold scan_time. rewrite (proj2 (Z.leb_le _ _)) by done. unfold second.
  pose proof (Z.div_mod t (10 ^ 9)). pose proof (Z.div_mod n (10 ^ 9)). pose proof (Z.div_mod (n - t) (10 ^ 9)).
  pose proof (Z.mod_pos_bound t (10 ^ 9)). pose proof (Z.mod_pos_bound n (10 ^ 9)).
  pose proof (Z.mod_pos_bound (n - t) (10 ^ 9)). lia.
Qed.

Lemma scan_time_differs :
  scan_time (3 * second) (3 * second) (Some (second + 1)) <> scan_time (3 * second + 2) (3 * second + 2) (Some (second + 1)).
Proof. vm_compute. discriminate. Qed.

(** ** A small tree *)

Definition demo_file (p : string) (len : Z) : option entry :=
  Some {| is_file := true; path_str := Some (js p); path_metadata := Some {| md_len := len; md_modified := Some 0 |} |}.
Definition demo_walk (follow : bool) (root : jsstr) : list (option entry) :=
  [None; demo_file "D:/a/b.TXT" 5; demo_file "D:/Temp/x.log" 7; demo_file "D:/a/big.iso" (600 * 2 ^ 20)].
Definition demo_scan : scan_options :=
  {| sc_roots := [js "D:/"]; sc_exclude_patterns := [js "Temp"]; sc_max_file_size_mb := Some 500;
     sc_follow_symlinks := false |}.
Definition scan_tables : CaseTables := {| canonicalize c := c; toLowerCase s := map ascii_lower s |}.
Definition demo_meta : file_meta :=
  {| f_path := js "D:/a/b.TXT"; f_name := js "b.TXT"; f_ext := js "txt"; f_size := 5; f_modified_ts := 0 |}.
Abbreviation demo_found := (scan (C := scan_tables) false demo_walk (fun _ => (0, 0)) demo_scan).

Lemma scan_correct_witness :
  demo_found = [demo_meta]
  /\ exists root e, root ∈ sc_roots demo_scan /\ Some e ∈ demo_walk false root
       /\ kept (C := scan_tables) false (fun _ => (0, 0)) demo_scan e demo_meta.
Proof.
  assert (E : demo_found = [demo_meta]) by (vm_compute; reflexivity). split; [exact E|].
  apply (scan_correct (C := scan_tables) false demo_walk (fun _ => (0, 0)) demo_scan demo_meta).
  - intros m [= <-]. lia.
  - rewrite E. apply list_elem_of_here.
Defined.

Lemma scan_progress_shown_witness :
  scanDir (receive_all true (take 1 (snd (scan_paths_progress (C := scan_tables) false demo_walk (fun _ => (0, 0)) demo_scan)))
             (initial_state (of_Z 80))) = js "D:/a".
Proof.
  assert (E : demo_found !! 0%nat = Some demo_meta) by (vm_compute; reflexivity).
  destruct (scan_progress_shown (C := scan_tables) false demo_walk (fun _ => (0, 0)) demo_scan
              (initial_state (of_Z 80)) 0 demo_meta E) as (_ & _ & H & _); [discriminate|].
  rewrite H. vm_compute. reflexivity.
Defined.
