(* ===== verification/Pipeline.v ===== *)
(** * src-tauri/src/pipeline.rs and pipeline_state.rs: scanning and indexing

    The pipeline scans the roots and hands each file to a pool of workers that
    write it to the index and report progress, while the scan goes on.  A run is
    a transition system: steps of the scanning thread and of the workers in any
    interleaving.  When the function returns, the pool still finishes the work it
    was given, so a run is over when no job is left.

    The index (tantivy) is a list of documents; deleting by a term of the path
    removes the documents whose path has that token.  What a writer was told and has
    not committed is part of a run: a later commit can still write it.  The tokenizer
    is a parameter; the class [Tantivy] states that its tokens have no separators,
    which are punctuation to it, and the least memory a writer accepts. *)

From stdpp Require Import relations.
From S2P Require Import Prelude JsNumber JsString JsConvert PathUtil Types Effects Invoke Highlight AppState Handlers AppSystem EventBus RustStd Scan.
#[local] Open Scope Z_scope.

(** ** pipeline_state.rs *)

Record PipelineState := { last_day : option jsstr; completed : bool }.

Definition mark_started (today : jsstr) : PipelineState := {| last_day := Some today; completed := false |}.
Definition mark_completed (today : jsstr) : PipelineState := {| last_day := Some today; completed := true |}.

(** ** The index *)

Record document := {
  d_path : jsstr;
  d_name : jsstr;
  d_ext : jsstr;
  d_size : Z;
  d_modified_ts : Z;
  d_content : option jsstr;
  d_summary : option jsstr;
}.

Class Tantivy := {
  tokens : jsstr -> list jsstr;
  tokens_no_sep : forall s t, t ∈ tokens s -> Forall (fun c => is_sep c = false) t;
  memory_min : Z;                   (* MEMORY_BUDGET_NUM_BYTES_MIN of the locked version *)
  memory_min_value : memory_min = 15000000;
  budget_error : jsstr;
}.

(** [index.writer(budget)]: the lock is taken first, then the budget is checked.
    The number of threads is lowered until each has the minimum, if one can have it. *)
Definition open_writer {T : Tantivy} (budget : Z) (locked fault : option jsstr) : option jsstr :=
  match locked with
  | Some e => Some e
  | None => if budget <? memory_min then Some budget_error else fault
  end.

Lemma open_writer_small {T : Tantivy} budget locked fault : budget < 15000000 -> is_Some (open_writer budget locked fault).
Proof.
  intros H. unfold open_writer. destruct locked; [by eexists|]. rewrite memory_min_value.
  destruct (Z.ltb_spec budget 15000000); [by eexists|lia].
Qed.

Lemma open_writer_large {T : Tantivy} budget fault : 15000000 <= budget -> open_writer budget None fault = fault.
Proof. intros H. unfold open_writer. rewrite memory_min_value. by destruct (Z.ltb_spec budget 15000000); [lia|]. Qed.

(** The budget of the pipeline, from the total memory in bytes: at most 100 MB. *)
Definition writer_heap_bytes (total_mem : Z) : Z := Z.min (total_mem / 1024 / 64) 100 * 1000000.

(** [text.chars().take(n)]: a pair of surrogates is one character. *)
Fixpoint take_chars (n : nat) (s : jsstr) : jsstr :=
  match n, s with
  | S n', h :: l :: s' =>
      if (55296 <=? h) && (h <=? 56319) && (56320 <=? l) && (l <=? 57343) then h :: l :: take_chars n' s'
      else h :: take_chars n' (l :: s')
  | S _, [c] => [c]
  | _, _ => []
  end.

Definition text_like : list jsstr :=
  map js ["txt"; "md"; "csv"; "log"; "json"; "xml"; "ini"; "conf"; "yaml"; "yml"]%string.

(** ** Events *)

Inductive event :=
| EScanned (current : nat) (f : file_meta)
| EIndexed (current : nat) (f : file_meta)
| EScanDone (total : nat)
| EIndexDone.

Definition emission_of (e : event) : emission :=
  match e with
  | EScanned k f => scan_progress_event k f
  | EIndexed k f =>
      ("index_progress", VObj [("current", VNum (of_Z (Z.of_nat k))); ("name", VStr (f_name f)); ("path", VStr (f_path f))])
  | EScanDone n => scan_done_event n
  | EIndexDone => ("index_done", VObj [("ok", VBool true)])
  end%string.

Section Pipeline.
Context {T : Tantivy}.
(** The first megabyte of a file, when it is UTF-8. *)
Context (read_text : jsstr -> option jsstr).
Context (enable_content_parse : bool).

(** The document of a file. *)
Definition document_of (f : file_meta) : document :=
  let text := if enable_content_parse && existsb (fun e => eq_ignore_ascii_case e (f_ext f)) text_like
              then read_text (f_path f) else None in
  {| d_path := f_path f; d_name := f_name f; d_ext := f_ext f; d_size := f_size f; d_modified_ts := f_modified_ts f;
     d_content := text;
     d_summary := t ← text; match take_chars 300 t with [] => None | s => Some s end |}.

(** [writer.delete_term(Term::from_field_text(f_path, p))]. *)
Definition delete_term (p : jsstr) (store : list document) : list document :=
  filterb (fun d => negb (bool_decide (p ∈ tokens (d_path d)))) store.

(** What a writer has been told and has not committed. *)
Inductive write_op := Deletion (p : jsstr) | Addition (d : document).

Definition apply_op (store : list document) (o : write_op) : list document :=
  match o with Deletion p => delete_term p store | Addition d => store ++ [d] end.

(** [delete_term] and, unless it fails, [add_document]. *)
Definition ops_of (f : file_meta) (added : bool) : list write_op :=
  Deletion (f_path f) :: if added then [Addition (document_of f)] else [].

(** The operations under the lock; their errors are ignored.  A commit writes what
    was pending, of which an earlier failed commit may have lost some; one that fails
    leaves some of it to the next. *)
Inductive stores (f : file_meta) (pend : list write_op) (store : list document) : bool -> list write_op -> list document -> Prop :=
| stores_commit kept added :
    kept `sublist_of` pend -> stores f pend store added [] (fold_left apply_op (kept ++ ops_of f added) store)
| stores_no_commit kept added :
    kept `sublist_of` pend ++ ops_of f added -> stores f pend store false kept store.

Lemma stores_all f pend store : stores f pend store true [] (fold_left apply_op (pend ++ ops_of f true) store).
Proof. by apply stores_commit. Qed.

(** ** A run *)

(** The work of the pool: a job waits for the lock, has written, or has its number. *)
Inductive job :=
| Spawned (f : file_meta)
| Stored (f : file_meta)
| Numbered (f : file_meta) (cur : nat).

Inductive phase := Scanning | Announced | Marked | Returned.

Record run := {
  todo : list file_meta;          (* what the walk has still to deliver *)
  found : nat;                    (* scanned_files *)
  jobs : list job;
  total_counter : nat;
  store : list document;
  pending : list write_op;        (* not committed *)
  failed : nat;                   (* writes that failed *)
  emitted : list event;
  saved : PipelineState;          (* the state file *)
  at_phase : phase;
}.

(** [scan_and_index_pipeline_internal] once the index is open. *)
Definition start (today : jsstr) (marked : bool) (before : PipelineState) (docs : list document) (files : list file_meta) : run :=
  {| todo := files; found := 0; jobs := []; total_counter := 0; store := docs; pending := []; failed := 0; emitted := [];
     saved := if marked then mark_started today else before; at_phase := Scanning |}.

Definition scan_step (f : file_meta) (rest : list file_meta) (s : run) : run :=
  {| todo := rest; found := S (found s); jobs := jobs s ++ [Spawned f]; total_counter := total_counter s;
     store := store s; pending := pending s; failed := failed s; emitted := emitted s ++ [EScanned (S (found s)) f]; saved := saved s;
     at_phase := at_phase s |}.
Definition with_jobs (js : list job) (s : run) : run :=
  {| todo := todo s; found := found s; jobs := js; total_counter := total_counter s; store := store s;
     pending := pending s; failed := failed s; emitted := emitted s; saved := saved s; at_phase := at_phase s |}.
Definition store_step (ok : bool) (pend : list write_op) (docs : list document) (s : run) : run :=
  {| todo := todo s; found := found s; jobs := jobs s; total_counter := total_counter s; store := docs; pending := pend;
     failed := if ok then failed s else S (failed s); emitted := emitted s; saved := saved s; at_phase := at_phase s |}.
Definition count_step (s : run) : run :=
  {| todo := todo s; found := found s; jobs := jobs s; total_counter := S (total_counter s); store := store s;
     pending := pending s; failed := failed s; emitted := emitted s; saved := saved s; at_phase := at_phase s |}.
Definition emit_step (e : event) (s : run) : run :=
  {| todo := todo s; found := found s; jobs := jobs s; total_counter := total_counter s; store := store s;
     pending := pending s; failed := failed s; emitted := emitted s ++ [e]; saved := saved s; at_phase := at_phase s |}.
Definition phase_step (p : phase) (st : PipelineState) (s : run) : run :=
  {| todo := todo s; found := found s; jobs := jobs s; total_counter := total_counter s; store := store s;
     pending := pending s; failed := failed s; emitted := emitted s; saved := st; at_phase := p |}.

Inductive step : run -> run -> Prop :=
| step_scan s f rest :
    at_phase s = Scanning -> todo s = f :: rest -> step s (scan_step f rest s)
| step_announce s :
    at_phase s = Scanning -> todo s = [] -> step s (phase_step Announced (saved s) (emit_step (EScanDone (found s)) s))
| step_mark s today (ok : bool) :
    at_phase s = Announced ->
    step s (phase_step Marked (if ok then mark_completed today else saved s) s)
| step_return s :
    at_phase s = Marked -> step s (phase_step Returned (saved s) (emit_step EIndexDone s))
| step_store s l f r ok pend docs :
    jobs s = l ++ Spawned f :: r -> stores f (pending s) (store s) ok pend docs ->
    step s (with_jobs (l ++ Stored f :: r) (store_step ok pend docs s))
| step_count s l f r :
    jobs s = l ++ Stored f :: r ->
    step s (with_jobs (l ++ Numbered f (S (total_counter s)) :: r) (count_step s))
| step_report s l f cur r :
    jobs s = l ++ Numbered f cur :: r ->
    step s (with_jobs (l ++ r) (emit_step (EIndexed cur f) s)).

(** The function has returned and the pool is idle. *)
Definition over (s : run) : Prop := at_phase s = Returned /\ jobs s = [].

(** ** What holds along a run *)

Definition scanned_event (e : event) : option (nat * file_meta) := match e with EScanned k f => Some (k, f) | _ => None end.
Definition indexed_event (e : event) : option (nat * file_meta) := match e with EIndexed k f => Some (k, f) | _ => None end.
Definition is_progress (e : event) : bool := match e with EScanned _ _ | EIndexed _ _ => true | _ => false end.
Definition is_indexed (e : event) : bool := match e with EIndexed _ _ => true | _ => false end.

Definition job_file (j : job) : file_meta := match j with Spawned f | Stored f | Numbered f _ => f end.
Definition job_number (j : job) : option nat := match j with Numbered _ k => Some k | _ => None end.

(** The order of the events: progress of both kinds, the end of the scan, progress
    of the index, its end, and more progress of the index. *)
Definition ordered (p : phase) (n : nat) (l : list event) : Prop :=
  match p with
  | Scanning => Forall is_progress l
  | Announced | Marked => exists a b, l = a ++ EScanDone n :: b /\ Forall is_progress a /\ Forall is_indexed b
  | Returned => exists a b c, l = a ++ EScanDone n :: b ++ EIndexDone :: c
                  /\ Forall is_progress a /\ Forall is_indexed b /\ Forall is_indexed c
  end.

Definition op_path (o : write_op) : jsstr := match o with Deletion p => p | Addition d => d_path d end.

Record inv (files : list file_meta) (s : run) : Prop := {
  i_files : exists done, files = done ++ todo s /\ found s = length done
    /\ omap scanned_event (emitted s) = imap (fun i f => (S i, f)) done
    /\ done ≡ₚ map snd (omap indexed_event (emitted s)) ++ map job_file (jobs s);
  i_numbers : map fst (omap indexed_event (emitted s)) ++ omap job_number (jobs s) ≡ₚ seq 1 (total_counter s);
  i_scanned : at_phase s <> Scanning -> todo s = [];
  i_ordered : ordered (at_phase s) (found s) (emitted s);
  i_pending : (failed s = 0%nat -> pending s = []) /\ Forall (fun o => op_path o ∈ map f_path files) (pending s);
}.

Lemma ops_of_path f added : Forall (fun o => op_path o = f_path f) (ops_of f added).
Proof. destruct added; repeat constructor. Qed.

Lemma sublist_Forall {A} (P : A -> Prop) (l l' : list A) : l `sublist_of` l' -> Forall P l' -> Forall P l.
Proof. rewrite !Forall_forall. intros H Hl x Hx. eapply Hl, elem_of_submseteq; [exact Hx|]. by apply sublist_submseteq. Qed.

Lemma stores_pending f pend st ok pend' docs (P : write_op -> Prop) : stores f pend st ok pend' docs ->
  Forall P pend -> (forall o, op_path o = f_path f -> P o) -> (ok = true -> pend' = []) /\ Forall P pend'.
Proof.
  intros H Hp Hf. destruct H as [kept added Hk|kept added Hk]; split; try done.
  eapply sublist_Forall; [exact Hk|]. apply Forall_app. split; [done|]. eapply Forall_impl; [apply ops_of_path|done].
Qed.

Lemma ordered_indexed p n l k f : ordered p n l -> ordered p n (l ++ [EIndexed k f]).
Proof.
  assert (H1 : forall l, Forall is_indexed l -> Forall is_indexed (l ++ [EIndexed k f])).
  { intros l' Hl. apply Forall_app. split; [done|]. by constructor. }
  destruct p; simpl.
  - intros H. apply Forall_app. split; [done|]. by constructor.
  - intros (a & b & -> & Ha & Hb). exists a, (b ++ [EIndexed k f]). rewrite <- app_assoc. auto.
  - intros (a & b & -> & Ha & Hb). exists a, (b ++ [EIndexed k f]). rewrite <- app_assoc. auto.
  - intros (a & b & c & -> & Ha & Hb & Hc). exists a, b, (c ++ [EIndexed k f]).
    rewrite <- app_assoc. simpl. rewrite <- app_assoc. auto.
Qed.

(** The jobs of a run change at one place. *)
Lemma jobs_replace (l r : list job) (j j' : job) : job_file j = job_file j' ->
  map job_file (l ++ j :: r) = map job_file (l ++ j' :: r).
Proof. intros H. rewrite !map_app. simpl. by rewrite H. Qed.

Lemma omap_skip {A B} (g : A -> option B) l e : g e = None -> omap g (l ++ [e]) = omap g l.
Proof. intros H. rewrite omap_app. simpl. rewrite H. apply app_nil_r. Qed.

Lemma inv_start today m before docs files : inv files (start today m before docs files).
Proof. split; simpl; [by exists []|done|done|by constructor|by split]. Qed.

Lemma step_pending files s s' : inv files s -> step s s' ->
  (failed s' = 0%nat -> pending s' = []) /\ Forall (fun o => op_path o ∈ map f_path files) (pending s').
Proof.
  intros [(fs & Hf & _ & _ & Hi) _ _ _ [Hz Hp]] Hs. destruct Hs as [s f rest|s|s today ok|s|s l f r ok pd docs Hj Hst|s l f r|s l f cur r];
    [by split..| |by split|by split].
  apply (stores_pending _ _ _ _ _ _ (fun o => op_path o ∈ map f_path files)) in Hst as [Hok Hp']; [|done|].
  - split; [|done]. destruct ok; [by intros _; apply Hok|done].
  - intros o ->. apply list_elem_of_fmap. exists f. split; [done|]. rewrite Hf, Hi, Hj, map_app. simpl. set_solver.
Qed.

Lemma inv_step files s s' : inv files s -> step s s' -> inv files s'.
Proof.
  intros Hinv Hstep. pose proof (step_pending files s s' Hinv Hstep) as Hpend.
  destruct Hinv as [(fs & Hf & Hn & Hs & Hi) Hnum Hsc Ho _].
  destruct Hstep as [s f rest Hp Ht|s Hp Ht|s today ok Hp|s Hp|s l f r ok pd docs Hj Hst|s l f r Hj|s l f cur r Hj].
  - split; simpl; [| | | |exact Hpend].
    + exists (fs ++ [f]). rewrite <- app_assoc. simpl. rewrite <- Ht. split_and!; [done|rewrite length_app, Hn; simpl; lia| |].
      * rewrite omap_app, imap_app, Hs. simpl. by rewrite Nat.add_0_r, Hn.
      * rewrite (omap_skip indexed_event), map_app by done. simpl. rewrite app_assoc. by rewrite <- Hi.
    + rewrite (omap_skip indexed_event), omap_app by done. simpl. by rewrite app_nil_r.
    + by intros H.
    + rewrite Hp in Ho |- *. simpl in *. apply Forall_app. split; [done|]. by constructor.
  - split; simpl; rewrite ?(omap_skip scanned_event), ?(omap_skip indexed_event) by done; [by exists fs|done|done| |exact Hpend].
    rewrite Hp in Ho. simpl in Ho. exists (emitted s), []. by split_and!.
  - split; simpl; [by exists fs|done| | |exact Hpend].
    + intros _. apply Hsc. by rewrite Hp.
    + by rewrite Hp in Ho.
  - split; simpl; rewrite ?(omap_skip scanned_event), ?(omap_skip indexed_event) by done; [by exists fs|done| | |exact Hpend].
    + intros _. apply Hsc. by rewrite Hp.
    + rewrite Hp in Ho. simpl in Ho. destruct Ho as (a & b & -> & Ha & Hb). exists a, b, [].
      rewrite <- app_assoc. simpl. by split_and!.
  - split; simpl; [|rewrite Hj, !omap_app in Hnum; by rewrite omap_app|done|done|exact Hpend].
    exists fs. rewrite (jobs_replace l r (Stored f) (Spawned f)) by done. by rewrite <- Hj.
  - split; simpl; [| |done|done|exact Hpend].
    + exists fs. rewrite (jobs_replace l r (Numbered f _) (Stored f)) by done. by rewrite <- Hj.
    + rewrite Hj, !omap_app in Hnum. rewrite omap_app. simpl in *.
      change (1%nat :: seq 2 (total_counter s)) with (seq 1 (S (total_counter s))).
      rewrite seq_S, <- Hnum. simpl. solve_Permutation.
  - split; simpl; rewrite ?(omap_skip scanned_event) by done; [| |done|by apply ordered_indexed|exact Hpend].
    + exists fs. rewrite Hj, map_app in Hi. rewrite omap_app, !map_app. simpl in *. split_and!; [done..|].
      rewrite Hi. solve_Permutation.
    + rewrite Hj, !omap_app in Hnum. rewrite !omap_app, map_app. simpl in *. rewrite <- Hnum. solve_Permutation.
Qed.

Section Run.
Context (today : jsstr) (marked : bool) (before : PipelineState) (docs : list document) (files : list file_meta).
Abbreviation begin := (start today marked before docs files).

Lemma inv_run s : rtc step begin s -> inv files s.
Proof.
  revert s. apply rtc_ind_r; [apply inv_start|]. intros s s' _ H IH. by eapply inv_step.
Qed.

(** C30. When a run is over, every file was announced once, in order and numbered
    from one; every file was reported as indexed once, under a number of its own
    from one to their count, in whatever order the workers ran; and the end of
    the scan, with the count, and the end of indexing were announced in this
    order, the former after the last file. *)
Theorem pipeline_complete s :
  rtc step begin s -> over s ->
  omap scanned_event (emitted s) = imap (fun i f => (S i, f)) files
  /\ map snd (omap indexed_event (emitted s)) ≡ₚ files
  /\ map fst (omap indexed_event (emitted s)) ≡ₚ seq 1 (length files)
  /\ ordered Returned (length files) (emitted s).
Proof.
  intros [(fs & Hf & Hn & Hs & Hi) Hnum Hsc Ho _]%inv_run [Hp Hj]. rewrite Hp in *. rewrite Hsc in Hf by done.
  rewrite app_nil_r in Hf. subst fs. rewrite Hj in *. simpl in Hi, Hnum. rewrite app_nil_r in Hi, Hnum. rewrite Hn in Ho.
  assert (E : total_counter s = length files).
  { apply Permutation_length in Hi, Hnum. rewrite length_map in Hi, Hnum. rewrite length_seq in Hnum. lia. }
  rewrite E in Hnum. by split_and!.
Qed.

(** ** A run ends *)

Definition job_weight (j : job) : nat := match j with Spawned _ => 3 | Stored _ => 2 | Numbered _ _ => 1 end.
Definition phase_weight (p : phase) : nat := match p with Scanning => 3 | Announced => 2 | Marked => 1 | Returned => 0 end.
Definition weight (s : run) : nat :=
  4 * length (todo s) + sum_list_with job_weight (jobs s) + phase_weight (at_phase s).

Lemma step_weight s s' : step s s' -> weight s = S (weight s').
Proof.
  unfold weight. intros Hstep.
  destruct Hstep as [s f rest Hp Ht|s Hp Ht|s d ok Hp|s Hp|s l f r ok pd ds Hj Hst|s l f r Hj|s l f cur r Hj]; simpl;
    rewrite ?Hp, ?Ht, ?Hj, ?sum_list_with_app; simpl; lia.
Qed.

Lemma nsteps_run_weight n s s' : nsteps step n s s' -> weight s = (n + weight s')%nat.
Proof. induction 1 as [|n s s1 s' H _ IH]; [done|]. apply step_weight in H. lia. Qed.

Lemma over_weight s : inv files s -> over s <-> weight s = 0%nat.
Proof.
  intros [_ _ Hsc _ _]. unfold over, weight. split.
  - intros [Hp Hj]. rewrite Hsc by (by rewrite Hp). by rewrite Hp, Hj.
  - intros H. destruct (at_phase s); simpl in H; try lia. destruct (jobs s) as [|[] l]; simpl in H; [done|lia..].
Qed.

Lemma run_progress s : inv files s -> ~ over s -> exists s', step s s'.
Proof.
  intros [_ _ Hsc _ _] Ho. destruct (jobs s) as [|j l] eqn:Hj.
  - destruct (at_phase s) eqn:Hp.
    + destruct (todo s) as [|f rest] eqn:Ht; [by eexists; apply step_announce|by eexists; eapply step_scan].
    + by eexists; apply (step_mark s today true).
    + by eexists; apply step_return.
    + by destruct Ho.
  - destruct j as [f|f|f k].
    + eexists. eapply (step_store s []); [done|apply stores_all].
    + eexists. by eapply (step_count s []).
    + eexists. by eapply (step_report s []).
Qed.

(** C34. A run ends, whatever the interleaving of the scan and its workers: it has
    exactly [4 n + 3] steps for [n] files, and until then some thread can go on. *)
Theorem pipeline_ends m s :
  nsteps step m begin s ->
  (m <= 4 * length files + 3)%nat /\ (over s <-> m = 4 * length files + 3)%nat
  /\ (over s \/ exists s', step s s').
Proof.
  intros H. pose proof (inv_run s (rtc_nsteps_2 _ _ _ H)) as I. apply nsteps_run_weight in H.
  unfold weight at 1 in H. simpl in H. rewrite over_weight by done. split; [lia|]. split; [lia|].
  destruct (decide (weight s = 0)%nat) as [E|E]; [by left|right].
  apply run_progress; [done|]. by rewrite over_weight.
Qed.

(** ** What the application displays at the end *)

(** The application while the pipeline runs: no scan of its own listens. *)
Definition shown (s : run) (a : App) : App := receive_all false (map emission_of (emitted s)) a.

Lemma receive_indexed l a : Forall is_indexed l -> l <> [] ->
  let a' := receive_all false (map emission_of l) a in
  idxRunning a' = true /\ idxTotal a' = of_Z 0 /\ lastScanTotal a' = lastScanTotal a.
Proof.
  intros Hl Hne. destruct (exists_last Hne) as (l' & e & ->). apply Forall_app in Hl as [Hl' He].
  apply Forall_cons in He as [He _]. destruct e as [|k f| |]; try done.
  rewrite map_app. intros a'. subst a'. rewrite receive_all_app. split; [reflexivity|]. split; [reflexivity|].
  cbn -[of_Z receive_all]. change (lastScanTotal (receive_all false (map emission_of l') a) = lastScanTotal a).
  clear Hne. revert a. induction Hl' as [|e l' He' Hl' IH]; intros a; [done|].
  destruct e; try done. exact (IH _).
Qed.

Lemma shown_at_end s a : rtc step begin s -> over s ->
  lastScanTotal (shown s a) = of_Z (Z.of_nat (length files))
  /\ (idxRunning (shown s a) = false <-> last (emitted s) = Some EIndexDone)
  /\ (idxRunning (shown s a) = true -> idxTotal (shown s a) = of_Z 0).
Proof.
  intros [(fs & Hf & Hn & _ & _) _ Hsc Ho _]%inv_run [Hp Hj]. rewrite Hp in *. rewrite Hsc in Hf by done.
  rewrite app_nil_r in Hf. subst fs. destruct Ho as (l & b & c & He & _ & Hb & Hc). rewrite Hn in He.
  assert (E : map emission_of (emitted s) = map emission_of l ++ [emission_of (EScanDone (length files))]
                ++ map emission_of b ++ [emission_of EIndexDone] ++ map emission_of c).
  { by rewrite He, map_app, map_cons, map_app, map_cons. }
  unfold shown. rewrite E, !receive_all_app. set (a1 := receive_all false (map emission_of l) a).
  set (a2 := receive_all false [emission_of (EScanDone (length files))] a1).
  assert (Hb' : lastScanTotal (receive_all false (map emission_of b) a2) = lastScanTotal a2).
  { destruct b as [|e b]; [done|]. by apply (receive_indexed (e :: b) a2). }
  set (a3 := receive_all false (map emission_of b) a2) in *. set (a4 := receive_all false [emission_of EIndexDone] a3).
  assert (H4 : lastScanTotal a4 = of_Z (Z.of_nat (length files))) by (transitivity (lastScanTotal a3); [done|by rewrite Hb']).
  destruct c as [|e c].
  - split; [exact H4|]. split; [|done]. split; [intros _|done].
    rewrite He. by rewrite app_comm_cons, app_assoc, last_snoc.
  - destruct (receive_indexed (e :: c) a4) as (H1 & H2 & H3); [done..|].
    rewrite H1, H2, H3. split; [exact H4|]. split; [|done]. split; [done|].
    destruct (exists_last (l := e :: c)) as (c' & x & Ex); [done|]. rewrite He, Ex in *.
    change (EIndexDone :: ?y) with ([EIndexDone] ++ y). rewrite !app_comm_cons, !app_assoc, last_snoc.
    apply Forall_app in Hc as [_ Hx]. apply Forall_cons in Hx as [Hx _]. by destruct x.
Qed.

(** *** The slowest workers *)

(** A job runs to its end. *)
Lemma job_runs f r s : jobs s = Spawned f :: r ->
  exists s' k, rtc step s s' /\ jobs s' = r /\ at_phase s' = at_phase s /\ failed s' = failed s
    /\ emitted s' = emitted s ++ [EIndexed k f].
Proof.
  intros Hj. eexists _, _. split; [|split_and!].
  - eapply rtc_l; [apply (step_store s [] f r); [exact Hj|apply stores_all]|].
    eapply rtc_l; [by apply (step_count _ [] f r)|]. eapply rtc_once. by eapply (step_report _ []).
  - done.
  - done.
  - done.
  - done.
Qed.

Lemma all_jobs_run l s : jobs s = map Spawned l ->
  exists s' es, rtc step s s' /\ jobs s' = [] /\ at_phase s' = at_phase s /\ failed s' = failed s /\ emitted s' = emitted s ++ es
    /\ Forall is_indexed es /\ length es = length l.
Proof.
  revert s. induction l as [|f l IH]; intros s Hj; simpl in Hj.
  - exists s, []. rewrite app_nil_r. split_and!; done || constructor.
  - destruct (job_runs f _ s Hj) as (s1 & k & Hs1 & Hj1 & Hp1 & Hf1 & He1).
    destruct (IH s1 Hj1) as (s' & es & Hs & Hj' & Hp' & Hf' & He' & Hes & Hlen).
    exists s', (EIndexed k f :: es). split_and!; [by etransitivity|done|congruence|congruence| |by constructor|by simpl; rewrite Hlen].
    rewrite He', He1, <- app_assoc. done.
Qed.

Lemma scan_runs l s : at_phase s = Scanning -> todo s = l ->
  exists s', rtc step s s' /\ todo s' = [] /\ at_phase s' = Scanning /\ failed s' = failed s
    /\ jobs s' = jobs s ++ map Spawned l.
Proof.
  revert s. induction l as [|f l IH]; intros s Hp Ht.
  - exists s. rewrite app_nil_r. split_and!; done || constructor.
  - destruct (IH (scan_step f l s)) as (s' & Hs & Ht' & Hp' & Hf & Hj); [done..|].
    exists s'. split_and!; [|done|done|done|by rewrite Hj; simpl; rewrite <- app_assoc].
    eapply rtc_l; [by apply step_scan|done].
Qed.

Lemma late_workers : files <> [] ->
  exists s, rtc step begin s /\ over s /\ failed s = 0%nat /\ last (emitted s) <> Some EIndexDone.
Proof.
  intros Hne. destruct (scan_runs files begin) as (s1 & Hs1 & Ht1 & Hp1 & Hf1 & Hj1); [done..|].
  eassert (H2 : rtc step s1 _).
  { eapply rtc_l; [by apply step_announce|]. eapply rtc_l; [by apply (step_mark _ today true)|].
    eapply rtc_once. by apply step_return. }
  match type of H2 with rtc _ _ ?x => destruct (all_jobs_run files x Hj1) as (s' & es' & Hs' & Hj' & Hp' & Hf' & He' & Hes' & Hlen') end.
  exists s'. split; [by repeat (etransitivity; [eassumption|])|]. split; [by split|]. split; [by rewrite Hf'|].
  destruct (exists_last (l := es')) as (c & x & ->); [by destruct es', files|].
  rewrite He', app_assoc, last_snoc. apply Forall_app in Hes' as [_ Hx]. apply Forall_cons in Hx as [Hx _].
  by destruct x.
Qed.

(** C37. What the application displays when a run is over: the scan's total is
    kept, and indexing counts as finished exactly when no worker reported after
    the announced end; when one did, which some interleaving of every run with
    files allows, indexing counts as running for ever, with a total of zero that
    hides the progress. *)
Theorem pipeline_end_shown a :
  (forall s, rtc step begin s -> over s ->
     lastScanTotal (shown s a) = of_Z (Z.of_nat (length files))
     /\ (idxRunning (shown s a) = false <-> last (emitted s) = Some EIndexDone)
     /\ (idxRunning (shown s a) = true -> idxTotal (shown s a) = of_Z 0))
  /\ (files <> [] -> exists s, rtc step begin s /\ over s /\ idxRunning (shown s a) = true /\ idxTotal (shown s a) = of_Z 0).
Proof.
  split; [intros s; apply shown_at_end|]. intros Hne. destruct (late_workers Hne) as (s & Hs & Ho & _ & Hl).
  destruct (shown_at_end s a Hs Ho) as (_ & H1 & H2). exists s. split; [done|]. split; [done|].
  destruct (idxRunning (shown s a)); [by split; [|apply H2]|]. by destruct Hl; apply H1.
Qed.

(** ** The index after a run *)

Definition has_sep (p : jsstr) : Prop := Exists (fun c => is_sep c = true) p.

(** A path with a separator is no token, so deleting by it deletes nothing. *)
Lemma path_not_token p s : has_sep p -> p ∉ tokens s.
Proof.
  intros Hp Ht%tokens_no_sep. revert Ht. apply Exists_not_Forall. eapply Exists_impl; [exact Hp|].
  intros c Hc. simpl. by rewrite Hc.
Qed.

Lemma delete_term_path p st : has_sep p -> delete_term p st = st.
Proof.
  intros Hp. apply filterb_all, Forall_forall. intros d _. by rewrite bool_decide_false by (by apply path_not_token).
Qed.

(** The same of the operations of a writer: they only add. *)
Lemma apply_ops ops st : Forall (fun o => has_sep (op_path o)) ops ->
  fold_left apply_op ops st = st ++ omap (fun o => match o with Addition d => Some d | Deletion _ => None end) ops.
Proof.
  intros H. revert st. induction H as [|o ops Ho _ IH]; intros st; [by rewrite app_nil_r|]. cbn [fold_left omap list_omap].
  rewrite IH. destruct o as [p|d]; cbn [apply_op]; [by rewrite delete_term_path|by rewrite <- app_assoc].
Qed.

Definition written (j : job) : option file_meta := match j with Spawned _ => None | Stored f | Numbered f _ => Some f end.

Definition written_files (s : run) : list file_meta := map snd (omap indexed_event (emitted s)) ++ omap written (jobs s).

Lemma store_run s : Forall (fun f => has_sep (f_path f)) files -> rtc step begin s -> failed s = 0%nat ->
  store s ≡ₚ docs ++ map document_of (written_files s).
Proof.
  intros Hsep. revert s. apply (rtc_ind_r (fun s => failed s = 0%nat -> store s ≡ₚ docs ++ map document_of (written_files s))).
  - intros _. simpl. by rewrite app_nil_r.
  - intros s s' Hr Hstep IH. pose proof (inv_run s Hr) as [(fs & Hf & _ & _ & Hi) _ _ _ [Hz _]].
    unfold written_files in *.
    destruct Hstep as [s f rest Hp Ht|s Hp Ht|s d ok Hp|s Hp|s l f r ok pd ds Hj Hst|s l f r Hj|s l f cur r Hj];
      simpl; intros Hfail; rewrite ?(omap_skip indexed_event) by done; try (by apply IH).
    + rewrite omap_app, app_nil_r. by apply IH.
    + assert (Hd : has_sep (f_path f)).
      { rewrite Forall_forall in Hsep. apply Hsep. rewrite Hf, Hi, Hj, map_app. simpl. set_solver. }
      destruct ok; [|done]. rewrite (Hz Hfail) in Hst. inversion Hst as [kept added Hk| ]; subst.
      apply sublist_nil_r in Hk as ->. simpl fold_left. rewrite delete_term_path, (IH Hfail) by done.
      rewrite Hj, !omap_app. simpl. rewrite ?map_app. simpl. rewrite ?map_app. simpl. solve_Permutation.
    + specialize (IH Hfail). rewrite Hj, !omap_app in IH. by rewrite omap_app.
    + specialize (IH Hfail). rewrite Hj, !omap_app in IH. rewrite !omap_app, !map_app. simpl in *.
      rewrite IH, !map_app. simpl. solve_Permutation.
Qed.

(** Indexing again duplicates: the workers delete a file's record before they
    write it, by a term that is its whole path, which is never a token of the
    indexed paths.  A run without failures therefore keeps every document the
    index had and adds one per file, whether it was there or not. *)
Theorem reindexing_duplicates s :
  Forall (fun f => has_sep (f_path f)) files -> rtc step begin s -> over s -> failed s = 0%nat ->
  store s ≡ₚ docs ++ map document_of files.
Proof.
  intros Hsep Hr Ho Hfail. rewrite (store_run s Hsep Hr Hfail). f_equiv. apply Permutation_map.
  destruct (inv_run s Hr) as [(fs & Hf & _ & _ & Hi) _ Hsc _ _]. destruct Ho as [Hp Hj].
  rewrite Hsc, app_nil_r in Hf by (by rewrite Hp). subst fs. unfold written_files. rewrite Hj in *. by rewrite Hi.
Qed.
End Run.
End Pipeline.

(** ** The files of a run *)

(** [modified().duration_since(UNIX_EPOCH)] in seconds, zero before 1970. *)
Definition epoch_time (m : option Z) : Z :=
  match m with Some t => if 0 <=? t then t / second else 0 | None => 0 end.

(** The loop of the pipeline: files of at most 500 MB, links not followed. *)
Definition pipeline_files {C : CaseTables} (windows : bool) (walk : bool -> jsstr -> list (option entry))
    (roots exclude_patterns : list jsstr) : list file_meta :=
  omap (visit windows (fun _ => epoch_time) exclude_patterns (Some (500 * 1024 * 1024))) (flat_map (walk false) roots).

(** The pipeline and a scan with the options of the pages find the same files;
    only the times can differ, by a second. *)
Lemma pipeline_scans_same {C : CaseTables} windows walk clock o :
  sc_max_file_size_mb o = Some 500 -> sc_follow_symlinks o = false ->
  map (fun f => (f_path f, f_name f, f_ext f, f_size f)) (pipeline_files windows walk (sc_roots o) (sc_exclude_patterns o))
  = map (fun f => (f_path f, f_name f, f_ext f, f_size f)) (scan windows walk clock o).
Proof.
  intros Hm Hl. rewrite scan_omap. unfold pipeline_files, entries. rewrite Hl.
  replace (max_bytes o) with (Some (500 * 1024 * 1024)) by (unfold max_bytes; by rewrite Hm).
  apply map_omap_ext. intros e. generalize (Some (500 * 1024 * 1024)) as limit. intros limit.
  unfold visit. destruct e as [e|]; [|done]. cbn [mbind option_bind]. destruct (is_file e); [|done].
  destruct (path_str e) as [p|]; [|done]. cbn [mbind option_bind]. destruct (existsb _ _); [done|].
  destruct (path_metadata e) as [md|]; [|done]. cbn [mbind option_bind].
  by destruct (match limit with Some _ => _ | None => _ end).
Qed.

(** ** A run of two files *)

#[refine] Definition demo_tokenizer : Tantivy := {| tokens := split_on is_sep; memory_min := 15000000; budget_error := js "The memory arena is too small" |}.
Proof. 2: reflexivity. intros s t Ht. pose proof (split_on_no_sep is_sep s) as H. rewrite Forall_forall in H. by apply H. Defined.

Definition demo_metas : list file_meta :=
  [demo_meta; {| f_path := js "D:/c.md"; f_name := js "c.md"; f_ext := js "md"; f_size := 9; f_modified_ts := 1 |}].
Abbreviation demo_step := (step (T := demo_tokenizer) (fun _ => None) false).
Abbreviation demo_docs := (map (document_of (fun _ => None) false) demo_metas).
Definition demo_begin : run :=
  start (js "2025-01-01") true {| last_day := None; completed := false |} demo_docs demo_metas.

Lemma demo_run : exists s, rtc demo_step demo_begin s /\ over s /\ failed s = 0%nat.
Proof.
  destruct (late_workers (T := demo_tokenizer) (fun _ => None) false (js "2025-01-01") true
    {| last_day := None; completed := false |} demo_docs demo_metas) as (s & H1 & H2 & H3 & _); [done|]. by exists s.
Qed.

Lemma pipeline_complete_witness :
  exists s, rtc demo_step demo_begin s /\ map fst (omap indexed_event (emitted s)) ≡ₚ [1; 2]%nat.
Proof.
  destruct demo_run as (s & Hs & Ho & _). exists s. split; [exact Hs|].
  apply (pipeline_complete (T := demo_tokenizer) (fun _ => None) false (js "2025-01-01") true
    {| last_day := None; completed := false |} demo_docs demo_metas s Hs Ho).
Defined.

Lemma pipeline_ends_witness : ~ over demo_begin /\ exists s, demo_step demo_begin s.
Proof.
  assert (H : ~ over demo_begin) by (intros [H _]; discriminate H). split; [exact H|].
  destruct (pipeline_ends (T := demo_tokenizer) (fun _ => None) false (js "2025-01-01") true
    {| last_day := None; completed := false |} demo_docs demo_metas 0 demo_begin) as (_ & _ & [Ho|Hs]);
    [constructor|by destruct H|exact Hs].
Defined.

Lemma reindexing_duplicates_witness :
  exists s, rtc demo_step demo_begin s /\ over s /\ store s ≡ₚ demo_docs ++ demo_docs.
Proof.
  destruct demo_run as (s & Hs & Ho & Hf). exists s. split; [exact Hs|]. split; [exact Ho|].
  apply (reindexing_duplicates (T := demo_tokenizer) (fun _ => None) false (js "2025-01-01") true
    {| last_day := None; completed := false |} demo_docs demo_metas s); [|exact Hs|exact Ho|exact Hf].
  repeat constructor; apply Exists_exists; exists 47; split; (reflexivity || (apply list_elem_of_In; simpl; tauto)).
Defined.
