(* ===== verification/Indexer.v ===== *)
(** * src-tauri/src/indexer.rs and [build_inverted_index_progress] of main.rs

    Building an index from a list of scanned files, at once or with progress.  An
    index is a list of documents, or absent; the errors of its operations are
    arguments.  The variant with progress looks each path up in the index as it
    was when the command started, skips a file whose record has its time and
    size, and deletes the record of any other. *)

From S2P Require Import Prelude JsNumber JsString JsConvert PathUtil Types Effects Invoke AppState Handlers AppSystem EventBus RustStd Scan Pipeline.
#[local] Open Scope Z_scope.

(** What can go wrong while an index is written: creating its directory, opening
    the index there is, creating one, opening it for writing, where somebody else can
    have the lock, and for reading, adding the document of a position, committing. *)
Record faults := {
  no_dir : option jsstr;
  no_open : option jsstr;
  no_create : option jsstr;
  locked : option jsstr;
  no_writer : option jsstr;
  no_reader : option jsstr;
  no_add : nat -> option jsstr;
  no_commit : option jsstr;
}.

(** [index.writer(budget)]. *)
Definition no_writer_for {T : Tantivy} (budget : Z) (fl : faults) : option jsstr := open_writer budget (locked fl) (no_writer fl).

(** [Index::open_in_dir], or [Index::create_in_dir], which refuses a directory that
    has an index. *)
Definition open_or_create (exists_error : jsstr) (fl : faults) (index : option (list document)) : jsstr + list document :=
  match index with
  | Some docs => match no_open fl with None => inr docs | Some _ => inl exists_error end
  | None => match no_create fl with Some e => inl e | None => inr [] end
  end.

(** ** indexer.rs, [build] *)

Section Build.
Context {T : Tantivy}.
(** [parse_content]'s reading: the first megabyte, with replacement characters. *)
Context (read_lossy : jsstr -> option jsstr) (enable_content_parse : bool) (exists_error : jsstr).

(** The first addition that fails. *)
Fixpoint first_fault (fault : nat -> option jsstr) (i n : nat) : option jsstr :=
  match n with
  | O => None
  | S n' => match fault i with Some e => Some e | None => first_fault fault (S i) n' end
  end.

(** The result and the index; [Index::create_in_dir] refuses a directory that has
    an index. *)
Definition build (fl : faults) (index : option (list document)) (files : list file_meta) :
    (jsstr + unit) * option (list document) :=
  match no_dir fl, index, no_create fl with
  | Some e, _, _ => (inl e, index)
  | None, Some _, _ => (inl exists_error, index)
  | None, None, Some e => (inl e, None)
  | None, None, None =>
      match no_writer_for 50000000 fl, first_fault (no_add fl) 0 (length files), no_commit fl with
      | Some e, _, _ | None, Some e, _ | None, None, Some e => (inl e, Some [])
      | None, None, None => (inr tt, Some (map (document_of read_lossy enable_content_parse) files))
      end
  end.

(** Building succeeds only where there is no index yet, and then the index has
    exactly one document per file; an existing index is never changed. *)
Theorem build_correct fl index files r index' :
  build fl index files = (r, index') ->
  (r = inr tt <-> index = None /\ no_dir fl = None /\ no_create fl = None /\ no_writer_for 50000000 fl = None
                  /\ (forall i, (i < length files)%nat -> no_add fl i = None) /\ no_commit fl = None)
  /\ (r = inr tt -> index' = Some (map (document_of read_lossy enable_content_parse) files))
  /\ (forall docs, index = Some docs -> index' = Some docs).
Proof.
  assert (Hff : forall n i, first_fault (no_add fl) i n = None <-> forall j, (i <= j < i + n)%nat -> no_add fl j = None).
  { induction n as [|n IH]; intros i; simpl; [split; [intros _ j Hj; lia|done]|].
    destruct (no_add fl i) as [e|] eqn:Ei.
    - split; [done|]. intros H. rewrite H in Ei by lia. done.
    - rewrite IH. split; intros H j Hj; [|apply H; lia].
      destruct (decide (j = i)) as [->|]; [done|]. apply H. lia. }
  specialize (Hff (length files) 0%nat). unfold build.
  destruct (no_dir fl) as [e|].
  { intros [= <- <-]. split_and!; [|done|auto]. split; [done|]. by intros (_ & [=] & _). }
  destruct index as [docs|].
  { intros [= <- <-]. split_and!; [|done|auto]. split; [done|]. by intros ([=] & _). }
  destruct (no_create fl) as [e|].
  { intros [= <- <-]. split_and!; [|done|done]. split; [done|]. by intros (_ & _ & [=] & _). }
  destruct (no_writer_for 50000000 fl) as [e|].
  { intros [= <- <-]. split_and!; [|done|done]. split; [done|]. by intros (_ & _ & _ & [=] & _). }
  destruct (first_fault _ _ _) as [e|] eqn:Ef.
  { intros [= <- <-]. split_and!; [|done|done]. split; [done|]. intros (_ & _ & _ & _ & H & _).
    assert (Some e = None) by (apply Hff; intros j Hj; apply H; lia). done. }
  destruct (no_commit fl) as [e|].
  { intros [= <- <-]. split_and!; [|done|done]. split; [done|]. by intros (_ & _ & _ & _ & _ & [=]). }
  intros [= <- <-]. split_and!; [|done|done]. split; [intros _|done].
  split_and!; try done. intros i Hi. apply Hff; [done|lia].
Qed.
End Build.

(** ** main.rs, [build_inverted_index_progress] *)

Section Progress.
Context {T : Tantivy}.
Context (read_text : jsstr -> option jsstr) (enable_content_parse : bool) (exists_error : jsstr).
(** The best hit among documents, if the search succeeds. *)
Context (pick : list document -> option document) (pick_in : forall l d, pick l = Some d -> d ∈ l).

Definition hits (p : jsstr) (docs : list document) : list document :=
  filterb (fun d => bool_decide (p ∈ tokens (d_path d))) docs.

Definition index_progress_event (i total : nat) (f : file_meta) (skipped : bool) : emission :=
  ("index_progress", VObj ([("current", VNum (of_Z (Z.of_nat (S i)))); ("total", VNum (of_Z (Z.of_nat total)));
                            ("name", VStr (f_name f)); ("path", VStr (f_path f))]
                           ++ if skipped then [("skipped", VBool true)] else []))%string.

Definition index_done_event : emission := ("index_done"%string, VObj [("ok"%string, VBool true)]).

(** One file: skipped, or written after its old record was deleted; [Some e] when
    adding fails. *)
Definition progress_file (fl : faults) (snapshot : list document) (total i : nat) (f : file_meta) (pending : list document) :
    list emission * (jsstr + list document) :=
  let add pending :=
    match no_add fl i with
    | Some e => ([], inl e)
    | None => ([index_progress_event i total f false], inr (pending ++ [document_of read_text enable_content_parse f]))
    end in
  match pick (hits (f_path f) snapshot) with
  | Some old =>
      if (d_modified_ts old =? f_modified_ts f) && (d_size old =? f_size f)
      then ([index_progress_event i total f true], inr pending)
      else add (delete_term (f_path f) pending)
  | None => add pending
  end.

Fixpoint progress_files (fl : faults) (snapshot : list document) (total i : nat) (fs : list file_meta) (pending : list document) :
    list emission * (jsstr + list document) :=
  match fs with
  | [] => ([], inr pending)
  | f :: rest =>
      match progress_file fl snapshot total i f pending with
      | (es, inl e) => (es, inl e)
      | (es, inr pending') =>
          let '(es', r) := progress_files fl snapshot total (S i) rest pending' in (es ++ es', r)
      end
  end.

(** The events, the result and the index, which is opened or created. *)
Definition build_progress (fl : faults) (index : option (list document)) (files : list file_meta) :
    list emission * (jsstr + unit) * option (list document) :=
  match no_dir fl, open_or_create exists_error fl index with
  | Some e, _ | None, inl e => ([], inl e, index)
  | None, inr docs =>
      match no_writer_for 50000000 fl, no_reader fl with
      | Some e, _ | None, Some e => ([], inl e, Some docs)
      | None, None =>
          match progress_files fl docs (length files) 0 files docs with
          | (es, inl e) => (es, inl e, Some docs)
          | (es, inr pending) =>
              match no_commit fl with
              | Some e => (es, inl e, Some docs)
              | None => (es ++ [index_done_event], inr tt, Some pending)
              end
          end
      end
  end.

(** ** Properties *)

Definition skips (snapshot : list document) (f : file_meta) : bool :=
  match pick (hits (f_path f) snapshot) with
  | Some old => (d_modified_ts old =? f_modified_ts f) && (d_size old =? f_size f)
  | None => false
  end.

Definition progress_trace (snapshot : list document) (total i : nat) (fs : list file_meta) : list emission :=
  imap (fun j f => index_progress_event (i + j) total f (skips snapshot f)) fs.

Lemma progress_file_ok fl snapshot total i f pending es pending' :
  progress_file fl snapshot total i f pending = (es, inr pending') ->
  es = [index_progress_event i total f (skips snapshot f)]
  /\ pending' = if skips snapshot f then pending
                else (match pick (hits (f_path f) snapshot) with Some _ => delete_term (f_path f) pending | None => pending end)
                     ++ [document_of read_text enable_content_parse f].
Proof.
  unfold progress_file, skips. destruct (pick _) as [old|]; [destruct (_ && _)|];
    [by intros [= <- <-]|destruct (no_add fl i); [done|]; by intros [= <- <-]..].
Qed.

Lemma progress_file_err fl snapshot total i f pending es e :
  progress_file fl snapshot total i f pending = (es, inl e) -> es = [].
Proof.
  unfold progress_file. destruct (pick _) as [old|]; [destruct (_ && _); [done|]|];
    destruct (no_add fl i); by intros [= <- _].
Qed.

Lemma progress_files_trace fl snapshot total i fs pending es r :
  progress_files fl snapshot total i fs pending = (es, r) ->
  (exists k, es = take k (progress_trace snapshot total i fs))
  /\ (forall p, r = inr p -> es = progress_trace snapshot total i fs).
Proof.
  revert i pending es. induction fs as [|f fs IH]; intros i pending es; simpl.
  - intros [= <- <-]. split; [by exists O|done].
  - destruct (progress_file _ _ _ _ _ _) as [es1 [e|p1]] eqn:E1.
    + intros [= <- <-]. apply progress_file_err in E1 as ->. split; [by exists O|done].
    + apply progress_file_ok in E1 as [-> _]. destruct (progress_files _ _ _ _ _ _) as [es2 r2] eqn:E2.
      intros [= <- <-]. destruct (IH _ _ _ E2) as [[k Hk] Hok].
      assert (Htr : progress_trace snapshot total i (f :: fs)
        = index_progress_event i total f (skips snapshot f) :: progress_trace snapshot total (S i) fs).
      { unfold progress_trace. simpl. rewrite Nat.add_0_r. f_equal. apply imap_ext. intros j g _. simpl. f_equal. lia. }
      rewrite Htr. split; [exists (S k); simpl; by rewrite Hk|]. intros p Hp. by rewrite (Hok p Hp).
Qed.

(** A path with a separator is found nowhere, so no file is skipped and nothing is
    deleted. *)
Lemma hits_path p docs : has_sep p -> hits p docs = [].
Proof.
  intros Hp. unfold hits. induction docs as [|d docs IH]; [done|]. cbn [List.filter].
  by rewrite bool_decide_false by (by apply path_not_token).
Qed.

Lemma pick_nil : pick [] = None.
Proof. destruct (pick []) as [d|] eqn:E; [|done]. by apply pick_in, elem_of_nil in E. Qed.

Lemma skips_path snapshot f : has_sep (f_path f) -> skips snapshot f = false.
Proof. intros H. unfold skips. by rewrite hits_path, pick_nil. Qed.

Lemma progress_files_docs fl snapshot total i fs pending es p :
  Forall (fun f => has_sep (f_path f)) fs ->
  progress_files fl snapshot total i fs pending = (es, inr p) ->
  p = pending ++ map (document_of read_text enable_content_parse) fs.
Proof.
  intros Hs. revert i pending es. induction Hs as [|f fs Hf Hs IH]; intros i pending es; simpl.
  - intros [= _ <-]. by rewrite app_nil_r.
  - destruct (progress_file _ _ _ _ _ _) as [es1 [e|p1]] eqn:E1; [done|].
    apply progress_file_ok in E1 as [_ ->]. rewrite skips_path, hits_path, pick_nil by done.
    destruct (progress_files _ _ _ _ _ _) as [es2 r2] eqn:E2. intros [= _ ->]. apply IH in E2. by rewrite E2, <- app_assoc.
Qed.

Lemma open_or_create_docs e fl index docs : open_or_create e fl index = inr docs -> docs = default [] index.
Proof. unfold open_or_create. destruct index, (no_open fl), (no_create fl); by intros [= <-]. Qed.

Lemma build_progress_inv fl index files es r index' : build_progress fl index files = (es, r, index') ->
  let docs := default [] index in
  (r = inr tt /\ es = progress_trace docs (length files) 0 files ++ [index_done_event]
     /\ exists p, index' = Some p /\ exists es', progress_files fl docs (length files) 0 files docs = (es', inr p))
  \/ ((exists e, r = inl e) /\ (exists k, es = take k (progress_trace docs (length files) 0 files))
      /\ (index' = index \/ index' = Some docs)).
Proof.
  unfold build_progress.
  destruct (no_dir fl) as [e|]; [intros [= <- <- <-]; right; split_and!; [by eexists|by exists O|by left]|].
  destruct (open_or_create exists_error fl index) as [e|docs] eqn:Eo; [intros [= <- <- <-]; right; split_and!; [by eexists|by exists O|by left]|].
  apply open_or_create_docs in Eo. subst docs.
  all: simpl; destruct (no_writer_for 50000000 fl) as [e|]; [intros [= <- <- <-]; right; split_and!; [by eexists|by exists O|by right]|].
  all: destruct (no_reader fl) as [e|]; [intros [= <- <- <-]; right; split_and!; [by eexists|by exists O|by right]|].
  all: destruct (progress_files _ _ _ _ _ _) as [es1 [e|p]] eqn:E; apply progress_files_trace in E as Ht; destruct Ht as [Hk Hok].
  all: try (intros [= <- <- <-]; right; split_and!; [by eexists|exact Hk|by right]).
  all: destruct (no_commit fl) as [e|]; [intros [= <- <- <-]; right; split_and!; [by eexists|exact Hk|by right]|].
  all: intros [= <- <- <-]; left; rewrite <- (Hok p eq_refl); split_and!; [done..|]; exists p; split; [done|by exists es1].
Qed.

(** C15. Building with progress: when it succeeds, one event per file was emitted, in
    order, numbered from one with the number of files as total, then the end; for
    paths of files nothing was skipped or deleted, so the index has its old
    documents and one more per file.  When it fails, what was emitted is a prefix
    of these events without the end, and the documents are the old ones. *)
Theorem build_progress_correct fl index files es r index' :
  build_progress fl index files = (es, r, index') ->
  Forall (fun f => has_sep (f_path f)) files ->
  let trace := imap (fun i f => index_progress_event i (length files) f false) files in
  (r = inr tt -> es = trace ++ [index_done_event]
     /\ index' = Some (default [] index ++ map (document_of read_text enable_content_parse) files))
  /\ (forall e, r = inl e -> (exists k, es = take k trace) /\ default [] index' = default [] index).
Proof.
  intros H Hs trace. assert (Ht : progress_trace (default [] index) (length files) 0 files = trace).
  { unfold progress_trace, trace. apply imap_ext. intros j f Hj. simpl. rewrite skips_path; [done|].
    rewrite Forall_forall in Hs. apply Hs. by eapply list_elem_of_lookup_2. }
  apply build_progress_inv in H as [(-> & -> & p & -> & es' & Hp)|((e & ->) & Hk & Hi)]; rewrite ?Ht in *.
  - split; [|done]. intros _. split; [done|]. f_equal. by apply progress_files_docs in Hp.
  - split; [done|]. intros _ _. split; [done|]. by destruct Hi as [-> | ->].
Qed.

(** What the application displays meanwhile: the progress of each file, and the end. *)
Lemma receive_progress_event s i n f b :
  let s' := receive_all false [index_progress_event i n f b] s in
  idxCurrent s' = of_Z (Z.of_nat (S i)) /\ idxTotal s' = of_Z (Z.of_nat n) /\ idxRunning s' = true.
Proof. destruct b; by split_and!. Qed.

Lemma build_progress_shown fl index files es index' s :
  build_progress fl index files = (es, inr tt, index') -> files <> [] ->
  let n := of_Z (Z.of_nat (length files)) in
  (forall k, (k < length files)%nat ->
     let s' := receive_all false (take (S k) es) s in
     idxCurrent s' = of_Z (Z.of_nat (S k)) /\ idxTotal s' = n /\ idxRunning s' = true)
  /\ let s' := receive_all false es s in idxCurrent s' = n /\ idxTotal s' = n /\ idxRunning s' = false.
Proof.
  intros H Hne n. apply build_progress_inv in H as [(_ & -> & _)|((e & [=]) & _)].
  set (tr := progress_trace _ _ _ _). assert (Hlen : length tr = length files) by apply length_imap.
  assert (Hk : forall k, (k < length files)%nat ->
     let s' := receive_all false (take (S k) tr) s in
     idxCurrent s' = of_Z (Z.of_nat (S k)) /\ idxTotal s' = n /\ idxRunning s' = true).
  { intros k Hk. destruct (lookup_lt_is_Some_2 files k Hk) as [f Hf].
    rewrite (take_S_r tr k (index_progress_event k (length files) f (skips (default [] index) f))).
    - rewrite receive_all_app. apply receive_progress_event.
    - unfold tr, progress_trace. by rewrite list_lookup_imap, Hf. }
  split.
  - intros k Hlt. rewrite take_app_le by lia. by apply Hk.
  - assert (Hpos : (0 < length files)%nat) by (clear -Hne; destruct files; [congruence|simpl; lia]).
    destruct (Hk (length files - 1)%nat) as (H1 & H2 & _); [lia|].
    replace (S (length files - 1)) with (length tr) in H1, H2 by lia.
    rewrite take_ge in H1, H2 by lia. rewrite Hlen in H1. rewrite receive_all_app.
    split; [exact H1|]. split; [exact H2|reflexivity].
Qed.
End Progress.

(** ** Concrete inputs *)

Definition no_faults : faults :=
  {| no_dir := None; no_open := None; no_create := None; locked := None; no_writer := None; no_reader := None; no_add _ := None; no_commit := None |}.

Lemma build_correct_witness :
  exists index', build (T := demo_tokenizer) (fun _ => None) false (js "index exists") no_faults None demo_metas = (inr tt, index')
    /\ index' = Some demo_docs.
Proof.
  exists (Some demo_docs). split; [reflexivity|].
  exact (proj1 (proj2 (build_correct (T := demo_tokenizer) (fun _ => None) false (js "index exists") no_faults None demo_metas (inr tt)
           (Some demo_docs) eq_refl)) eq_refl).
Defined.

Lemma build_progress_correct_witness :
  exists es index', build_progress (T := demo_tokenizer) (fun _ => None) false (js "index exists") head no_faults (Some demo_docs) demo_metas
                    = (es, inr tt, index')
    /\ index' = Some (demo_docs ++ demo_docs).
Proof.
  destruct (build_progress (T := demo_tokenizer) (fun _ => None) false (js "index exists") head no_faults (Some demo_docs) demo_metas)
    as [[es r] index'] eqn:E.
  assert (Hr : r = inr tt) by (apply (f_equal (fun x => snd (fst x))) in E; vm_compute in E; by symmetry).
  exists es, index'. rewrite Hr in E |- *. split; [reflexivity|].
  refine (proj2 (proj1 (build_progress_correct (T := demo_tokenizer) (fun _ => None) false (js "index exists") head _ no_faults (Some demo_docs)
            demo_metas es (inr tt) index' E _) eq_refl)).
  - intros l d H. destruct l as [|x l]; [done|]. injection H as ->. apply list_elem_of_here.
  - repeat constructor; apply Exists_exists; exists 47; split; (reflexivity || (apply list_elem_of_In; simpl; tauto)).
Defined.
