(* ===== verification/IndexCommands.v ===== *)
(** * The commands on the index: search.rs and [delete_file_and_index] of main.rs

    Searching takes the fifty best documents for the query and then applies the
    filters; the ranking of the index (tantivy) is a parameter.  Deleting removes
    the file, then opens the index and asks for a writer with less memory than the
    library accepts. *)

From stdpp Require Import gmap.
From S2P Require Import Prelude JsNumber JsString PathUtil Types Effects Invoke FileSystem RustStd Scan Pipeline.
#[local] Open Scope Z_scope.

(** ** search.rs *)

Record search_filters := {
  q_ext : option (list jsstr);
  q_min_size : option Z;       (* u64 *)
  q_max_size : option Z;
}.

(** The row of a document, as the front end receives it. *)
Definition result_of (score : number) (d : document) : SearchResult :=
  {| sr_path := d_path d; sr_name := d_name d; sr_ext := d_ext d; sr_score := score;
     sr_size := Some (of_Z (d_size d)); sr_modified_ts := Some (of_Z (d_modified_ts d)); sr_summary := d_summary d |}.

(** The tests that end in [continue]; documents of this program have a size. *)
Definition passes (filters : option search_filters) (d : document) : bool :=
  match filters with
  | None => true
  | Some f =>
      match q_ext f with
      | Some exts => match exts with [] => true | _ => existsb (fun e => eq_ignore_ascii_case e (d_ext d)) exts end
      | None => true
      end
      && match q_min_size f with Some m => negb (d_size d <? m) | None => true end
      && match q_max_size f with Some m => negb (m <? d_size d) | None => true end
  end.

Section Search.
(** The documents that match a query, best first; parsing the query may fail. *)
Context (ranked : jsstr -> list document -> jsstr + list (number * document)).
(** [Index::open_in_dir] and its reader. *)
Context (open_index : jsstr -> jsstr + list document).

Definition query (text : jsstr) (filters : option search_filters) (index_dir : jsstr) : jsstr + list SearchResult :=
  match open_index index_dir with
  | inl e => inl e
  | inr docs =>
      match ranked text docs with
      | inl e => inl e
      | inr hits =>
          inr (fold_left (fun results hit => if passes filters (snd hit) then results ++ [result_of (fst hit) (snd hit)]
                                             else results) (take 50 hits) [])
      end
  end.

(** What a filter asks for. *)
Definition meets (f : search_filters) (d : document) : Prop :=
  (forall exts, q_ext f = Some exts -> exts <> [] -> exists e, e ∈ exts /\ map ascii_lower e = map ascii_lower (d_ext d))
  /\ (forall m, q_min_size f = Some m -> m <= d_size d)
  /\ (forall m, q_max_size f = Some m -> d_size d <= m).

Lemma passes_spec f d : passes (Some f) d = true <-> meets f d.
Proof.
  unfold passes, meets. rewrite !andb_true_iff. assert (H1 :
    match q_ext f with
    | Some exts => match exts with [] => true | _ => existsb (fun e => eq_ignore_ascii_case e (d_ext d)) exts end
    | None => true
    end = true <-> forall exts, q_ext f = Some exts -> exts <> [] ->
                     exists e, e ∈ exts /\ map ascii_lower e = map ascii_lower (d_ext d)).
  { destruct (q_ext f) as [[|x l]|]; [split; [by intros _ ? [= <-] ?|done]| |split; [by intros _ ? [=]|done]]. split.
    - intros (e & He & H%bool_decide_eq_true)%existsb_exists _ [= <-] _. exists e. by rewrite list_elem_of_In.
    - intros H. destruct (H _ eq_refl) as (e & He & Hl); [done|]. apply existsb_exists. exists e.
      rewrite <- list_elem_of_In. split; [done|]. by apply bool_decide_eq_true. }
  assert (H2 : match q_min_size f with Some m => negb (d_size d <? m) | None => true end = true
               <-> forall m, q_min_size f = Some m -> m <= d_size d).
  { destruct (q_min_size f) as [m|]; [|split; [by intros _ ? [=]|done]]. rewrite negb_true_iff, Z.ltb_ge. split; [by intros ? _ [= <-]|auto]. }
  assert (H3 : match q_max_size f with Some m => negb (m <? d_size d) | None => true end = true
               <-> forall m, q_max_size f = Some m -> d_size d <= m).
  { destruct (q_max_size f) as [m|]; [|split; [by intros _ ? [=]|done]]. rewrite negb_true_iff, Z.ltb_ge. split; [by intros ? _ [= <-]|auto]. }
  rewrite H1, H2, H3. tauto.
Qed.

Lemma query_hits text filters dir docs hits :
  open_index dir = inr docs -> ranked text docs = inr hits ->
  query text filters dir
  = inr (map (fun h => result_of (fst h) (snd h)) (filterb (fun h => passes filters (snd h)) (take 50 hits))).
Proof.
  intros Ho Hr. unfold query. rewrite Ho, Hr. f_equal. generalize (take 50 hits). intros l.
  assert (H : forall acc, fold_left (fun results hit => if passes filters (snd hit) then results ++ [result_of (fst hit) (snd hit)]
                                             else results) l acc
    = acc ++ map (fun h => result_of (fst h) (snd h)) (filterb (fun h => passes filters (snd h)) l)).
  { induction l as [|h l IH]; intros acc; simpl; [by rewrite app_nil_r|]. rewrite IH.
    destruct (passes filters (snd h)); [by rewrite <- app_assoc|done]. }
  apply H.
Qed.

(** A search with filters returns at most fifty rows, in the order of the
    ranking, each the row of a document that meets the filters; and all the
    matching documents that meet them, as long as there are at most fifty
    matching documents before filtering. *)
Theorem query_correct text f dir docs hits :
  open_index dir = inr docs -> ranked text docs = inr hits ->
  exists kept, query text (Some f) dir = inr (map (fun h => result_of (fst h) (snd h)) kept)
    /\ kept `sublist_of` hits /\ (length kept <= 50)%nat
    /\ Forall (fun h => meets f (snd h)) kept
    /\ ((length hits <= 50)%nat -> forall h, h ∈ hits -> meets f (snd h) -> h ∈ kept).
Proof.
  intros Ho Hr. exists (filterb (fun h => passes (Some f) (snd h)) (take 50 hits)).
  split; [by eapply query_hits|]. split_and!.
  - etransitivity; [apply filterb_sublist|apply sublist_take].
  - etransitivity; [apply sublist_length, filterb_sublist|]. rewrite length_take. lia.
  - apply Forall_forall. intros h [_ H]%filterb_elem_of. by apply passes_spec.
  - intros Hl h Hh Hm. apply filterb_elem_of. rewrite take_ge by done. split; [done|]. by apply passes_spec.
Qed.

(** The limit is applied before the filters: with fifty matching documents of
    another kind ranked first, a search misses every document it was filtered
    for. *)
Lemma limit_before_filters text f dir docs others d score :
  open_index dir = inr docs -> ranked text docs = inr (others ++ [(score, d)]) -> length others = 50%nat ->
  Forall (fun h => passes (Some f) (snd h) = false) others -> meets f d ->
  query text (Some f) dir = inr [].
Proof.
  intros Ho Hr Hl Hother _. rewrite (query_hits _ _ _ _ _ Ho Hr), take_app_le, take_ge by lia. f_equal.
  replace (filterb _ others) with (@nil (number * document)); [done|]. clear Hr Hl.
  induction Hother as [|h l Hh _ IH]; [done|]. cbn [List.filter]. by rewrite Hh.
Qed.
End Search.

(** ** main.rs, [delete_file_and_index] *)

(** An index that can be opened. *)
Record opened := {
  documents : list document;
  path_field : bool;                 (* its schema has the field *)
  writer_lock : option jsstr;        (* another writer holds the lock *)
  writer_error : option jsstr;
  commit_error : option jsstr;
}.

Section Delete.
Context {T : Tantivy} {buffer : Type} (sys : system buffer).

(** The outcome, the files and the documents. *)
Definition delete_file_and_index (path : jsstr) (index : option opened) (d : disk buffer) :
    (jsstr + unit) * disk buffer * list document :=
  let docs := match index with Some ix => documents ix | None => [] end in
  match remove_file sys path d with
  | (inl e, d') => (inl (js "删除文件失败: " ++ e), d', docs)
  | (inr _, d') =>
      match index with
      | None => (inr tt, d', docs)
      | Some ix =>
          if path_field ix then
            match open_writer 10000000 (writer_lock ix) (writer_error ix) with
            | Some e => (inl e, d', docs)
            | None =>
                match commit_error ix with
                | Some e => (inl e, d', docs)
                | None => (inr tt, d', delete_term path docs)
                end
            end
          else (inl (js "schema missing field 'path'"), d', docs)
      end
  end.

(** C38. Deleting a file, whatever happens: its record stays in the index; success
    is reported only where no index could be opened, and then the file is gone; and
    an error is reported for a file that is gone exactly when an index could be
    opened, because the writer asks for less memory than the library's minimum. *)
Theorem delete_file_and_index_spec path index d r d' docs :
  has_sep path -> delete_file_and_index path index d = (r, d', docs) ->
  docs = match index with Some ix => documents ix | None => [] end
  /\ (r = inr tt <-> index = None /\ is_Some (contents d !! path) /\ refuses_remove sys path = None)
  /\ (r = inr tt -> contents d' = delete path (contents d))
  /\ ((exists e, r = inl e) /\ contents d' = delete path (contents d) /\ is_Some (contents d !! path)
      <-> is_Some (contents d !! path) /\ refuses_remove sys path = None /\ is_Some index).
Proof.
  intros Hsep. unfold delete_file_and_index, remove_file.
  assert (Hgone : forall b, contents d !! path = Some b -> contents d <> delete path (contents d)).
  { intros b Hb E. rewrite E, lookup_delete_eq in Hb. done. }
  destruct (refuses_remove sys path) as [e|] eqn:Er.
  { intros [= <- <- <-]. split_and!; [done|by split; [|intros (_ & _ & [=])]|done|]. split; [|by intros (_ & [=] & _)].
    intros (_ & H & [b Hb]). by destruct (Hgone b Hb). }
  destruct (contents d !! path) as [b|] eqn:Eb.
  2:{ intros [= <- <- <-]. split_and!; [done|by split; [|intros (_ & [? [=]] & _)]|done|].
      split; [by intros (_ & _ & [? [=]])|by intros ([? [=]] & _)]. }
  destruct index as [ix|].
  2:{ intros [= <- <- <-]. split_and!; [done|done|done|]. split; [by intros ([? [=]] & _)|by intros (_ & _ & [? [=]])]. }
  assert (Hfail : forall e, (inl e, {| dirs := dirs d; contents := delete path (contents d) |}, documents ix) = (r, d', docs) ->
    docs = documents ix /\ (r = inr tt <-> Some ix = None /\ is_Some (Some b) /\ (@None jsstr = None))
    /\ (r = inr tt -> contents d' = delete path (contents d))
    /\ ((exists e, r = inl e) /\ contents d' = delete path (contents d) /\ is_Some (Some b)
        <-> is_Some (Some b) /\ (@None jsstr = None) /\ is_Some (Some ix))).
  { intros e [= <- <- <-]. split_and!; [done|by split; [|intros ([=] & _)]|done|]. split; [done|intros _; by eauto]. }
  destruct (path_field ix); [|by intros H; apply (Hfail _ H)].
  destruct (open_writer_small 10000000 (writer_lock ix) (writer_error ix)) as [e ->]; [lia|]. intros H. exact (Hfail _ H).
Qed.
End Delete.

(** ** Concrete inputs *)

Definition demo_ranked (text : jsstr) (docs : list document) : jsstr + list (number * document) :=
  inr (map (fun d => (of_Z 1, d)) docs).
Definition demo_index (dir : jsstr) : jsstr + list document := inr demo_docs.
Definition demo_filter : search_filters := {| q_ext := Some [js "TXT"]; q_min_size := Some 1; q_max_size := None |}.

Lemma query_correct_witness :
  exists kept, query demo_ranked demo_index (js "a") (Some demo_filter) (js "ix")
               = inr (map (fun h => result_of (fst h) (snd h)) kept)
    /\ (length kept <= 50)%nat /\ Forall (fun h => meets demo_filter (snd h)) kept.
Proof.
  destruct (query_correct demo_ranked demo_index (js "a") demo_filter (js "ix") demo_docs
              (map (fun d => (of_Z 1, d)) demo_docs)) as (kept & H1 & _ & H2 & H3 & _); [reflexivity..|].
  exists kept. split; [exact H1|]. split; [exact H2|exact H3].
Defined.

(** A file with an index. *)
Definition demo_path : jsstr := js "D:/a.txt".
Definition demo_machine : system Z :=
  {| refuses_write _ := None; refuses_mkdir _ := None; refuses_read _ := None; refuses_remove _ := None |}.
Definition demo_opened : opened :=
  {| documents := demo_docs; path_field := true; writer_lock := None; writer_error := None; commit_error := None |}.
Definition demo_one_file : disk Z := {| dirs := ∅; contents := {[demo_path := 1]} |}.

Lemma delete_file_and_index_spec_witness :
  has_sep demo_path
  /\ exists e d', delete_file_and_index (T := demo_tokenizer) demo_machine demo_path (Some demo_opened) demo_one_file
                  = (inl e, d', demo_docs)
       /\ contents d' = delete demo_path (contents demo_one_file).
Proof.
  assert (Hs : has_sep demo_path) by (apply Exists_exists; exists 47; split; [apply list_elem_of_In; simpl; tauto|done]).
  split; [exact Hs|].
  destruct (delete_file_and_index (T := demo_tokenizer) demo_machine demo_path (Some demo_opened) demo_one_file)
    as [[r d'] docs] eqn:E.
  destruct (delete_file_and_index_spec (T := demo_tokenizer) demo_machine demo_path (Some demo_opened) demo_one_file
              r d' docs Hs E) as (-> & _ & _ & _ & H).
  destruct H as ((e & ->) & Hc & _).
  - split; [vm_compute; eauto|]. split; [reflexivity|by eexists].
  - exists e, d'. split; [reflexivity|exact Hc].
Defined.
