(* ===== verification/Commands.v ===== *)
(** * The bridge: from requests to commands, from results to answers

    A request of the front end is a command name and a payload object; the host
    looks the name up among the registered commands and deserializes each
    argument.  What a command returns is serialized and becomes the answer of the
    call.  The functions of services/api.ts reach the commands they are named
    after, with the values they were given. *)

From S2P Require Import Prelude JsNumber JsString Types Effects Invoke Wire AppState Handlers AppSystem RustStd Config Scan Pipeline IndexCommands.
#[local] Open Scope Z_scope.

(** ** Commands *)

Inductive command :=
| ScanPaths (o : scan_options)
| ScanPathsProgress (o : scan_options)
| BuildInvertedIndex (files : list file_meta) (index_dir : jsstr) (enable_content_parse : bool)
| BuildInvertedIndexProgress (files : list file_meta) (index_dir : jsstr) (enable_content_parse : bool)
| ScanAndIndexPipeline (o : scan_options) (index_dir : jsstr) (enable_content_parse : bool)
| StartAutoScanNow
| DiagnosticsReport_
| SearchQuery (text : jsstr) (filters : option search_filters) (index_dir : jsstr)
| DetectDuplicates (paths : list jsstr)
| ReadConfig
| WriteConfig (cfg : config)
| ResetConfig
| OpenLocation (path : jsstr)
| DeleteFileAndIndex (path index_dir : jsstr).

(** What a command returns on success. *)
Inductive value :=
| OkUnit
| OkConfig (c : config)
| OkFiles (l : list file_meta)
| OkResults (l : list SearchResult)
| OkGroups (l : list DupGroup)
| OkReport (r : DiagnosticsReport).

Definition response : Type := jsstr + value.

(** The type of the result, as the front end asks for it. *)
Definition returns (c : command) : rty :=
  match c with
  | ScanPaths _ | ScanPathsProgress _ => RFiles
  | SearchQuery _ _ _ => RResults
  | DetectDuplicates _ => RGroups
  | ReadConfig | ResetConfig => RConfig
  | DiagnosticsReport_ => RReport
  | _ => RUnit
  end.

(** ** Answers *)

Definition front_file (f : file_meta) : FileMeta :=
  {| fm_path := f_path f; fm_file_name := f_name f; fm_ext := f_ext f; fm_size := of_Z (f_size f);
     fm_modified_ts := of_Z (f_modified_ts f) |}.

(** The answer a response becomes; an error is rejected with its text.  [None]: the
    result is not of the type the call was made with. *)
Definition answer_as (t : rty) (r : response) : option (settled (den t)) :=
  match r with
  | inl e => Some (Rejected (EString e))
  | inr v =>
      match t, v with
      | RUnit, OkUnit => Some (Resolved tt)
      | RConfig, OkConfig c => Some (Resolved (front_config c))
      | RFiles, OkFiles l => Some (Resolved (map front_file l))
      | RResults, OkResults l => Some (Resolved l)
      | RGroups, OkGroups l => Some (Resolved l)
      | RReport, OkReport r => Some (Resolved r)
      | _, _ => None
      end
  end.

(** ** Deserialization *)

Definition de_int (lo hi : Z) (v : jsval) : option Z :=
  match v with VNum (Fin k) => if int_in lo hi (Fin k) then Some (k / one) else None | _ => None end.
Definition de_u64 : jsval -> option Z := de_int 0 (2 ^ 64).
Definition de_i64 : jsval -> option Z := de_int (- 2 ^ 63) (2 ^ 63).

(** A field, and a field of an [Option]: absent or null. *)
Definition field {A} (de : jsval -> option A) (fs : list (string * jsval)) (name : string) : option A :=
  v ← field_of fs name; de v.
Definition opt_field {A} (de : jsval -> option A) (fs : list (string * jsval)) (name : string) : option (option A) :=
  match field_of fs name with None | Some VNull => Some None | Some v => Some <$> de v end.
Definition de_struct {A} (de : list (string * jsval) -> option A) (v : jsval) : option A :=
  match v with VObj fs => de fs | _ => None end.

Definition de_scan_options : jsval -> option scan_options := de_struct (fun fs =>
  r ← field de_strs fs "roots"; e ← field de_strs fs "exclude_patterns";
  m ← opt_field de_u64 fs "max_file_size_mb"; l ← field de_bool fs "follow_symlinks";
  Some {| sc_roots := r; sc_exclude_patterns := e; sc_max_file_size_mb := m; sc_follow_symlinks := l |}).

Definition de_index_options : jsval -> option (jsstr * bool) := de_struct (fun fs =>
  d ← field de_str fs "index_dir"; p ← field de_bool fs "enable_content_parse"; Some (d, p)).

Definition de_file : jsval -> option file_meta := de_struct (fun fs =>
  p ← field de_str fs "path"; n ← field de_str fs "file_name"; e ← field de_str fs "ext";
  s ← field de_u64 fs "size"; m ← field de_i64 fs "modified_ts";
  Some {| f_path := p; f_name := n; f_ext := e; f_size := s; f_modified_ts := m |}).

Definition de_files (v : jsval) : option (list file_meta) := match v with VArr l => mapM de_file l | _ => None end.

Definition de_filters : jsval -> option search_filters := de_struct (fun fs =>
  e ← opt_field de_strs fs "ext"; mn ← opt_field de_u64 fs "min_size"; mx ← opt_field de_u64 fs "max_size";
  Some {| q_ext := e; q_min_size := mn; q_max_size := mx |}).

Section Decode.
Context (os : platform).

(** The arguments of each registered command. *)
Definition handlers : list (jsstr * (list (string * jsval) -> option command)) :=
  [(js "scan_paths", fun fs => o ← field de_scan_options fs "opts"; Some (ScanPaths o));
   (js "scan_paths_progress", fun fs => o ← field de_scan_options fs "opts"; Some (ScanPathsProgress o));
   (js "build_inverted_index", fun fs =>
      f ← field de_files fs "files"; o ← field de_index_options fs "opts"; Some (BuildInvertedIndex f (fst o) (snd o)));
   (js "build_inverted_index_progress", fun fs =>
      f ← field de_files fs "files"; o ← field de_index_options fs "opts"; Some (BuildInvertedIndexProgress f (fst o) (snd o)));
   (js "scan_and_index_pipeline", fun fs =>
      o ← field de_scan_options fs "opts"; i ← field de_index_options fs "indexOpts";
      Some (ScanAndIndexPipeline o (fst i) (snd i)));
   (js "start_auto_scan_now", fun _ => Some StartAutoScanNow);
   (js "diagnostics_report", fun _ => Some DiagnosticsReport_);
   (js "search_query", fun fs =>
      de_struct (fun rq => q ← field de_str rq "query"; f ← opt_field de_filters rq "filters";
                           d ← field de_str rq "index_dir"; Some (SearchQuery q f d))
        (default VUndef (field_of fs "req")));
   (js "detect_duplicates", fun fs => p ← field de_strs fs "paths"; Some (DetectDuplicates p));
   (js "read_config", fun _ => Some ReadConfig);
   (js "write_config", fun fs => c ← field (from_value os) fs "cfg"; Some (WriteConfig c));
   (js "reset_config", fun _ => Some ResetConfig);
   (js "open_location", fun fs => p ← field de_str fs "path"; Some (OpenLocation p));
   (js "delete_file_and_index", fun fs =>
      p ← field de_str fs "path"; d ← field de_str fs "indexDir"; Some (DeleteFileAndIndex p d))]%string.

Fixpoint find_handler (table : list (jsstr * (list (string * jsval) -> option command))) (name : jsstr) :=
  match table with
  | [] => None
  | (n, h) :: rest => if bool_decide (n = name) then Some h else find_handler rest name
  end.

(** The command a request reaches; no payload counts as an empty one. *)
Definition decode (r : request) : option command :=
  h ← find_handler handlers (rq_cmd r);
  match rq_payload r with VUndef => h [] | VObj fs => h fs | _ => None end.

(** A request that reaches [c] and asks for its result. *)
Definition sends (c : command) (r : request) : Prop := decode r = Some c /\ rq_ret r = returns c.
(** The type of the result of each command, by name. *)
Definition command_returns : list (jsstr * rty) :=
  [(js "scan_paths", RFiles); (js "scan_paths_progress", RFiles); (js "build_inverted_index", RUnit);
   (js "build_inverted_index_progress", RUnit); (js "scan_and_index_pipeline", RUnit); (js "start_auto_scan_now", RUnit);
   (js "diagnostics_report", RReport); (js "search_query", RResults); (js "detect_duplicates", RGroups);
   (js "read_config", RConfig); (js "write_config", RUnit); (js "reset_config", RConfig); (js "open_location", RUnit);
   (js "delete_file_and_index", RUnit)]%string.

Fixpoint return_type (table : list (jsstr * rty)) (name : jsstr) : option rty :=
  match table with
  | [] => None
  | (n, t) :: rest => if bool_decide (n = name) then Some t else return_type rest name
  end.

Definition command_name (c : command) : jsstr :=
  match c with
  | ScanPaths _ => js "scan_paths"
  | ScanPathsProgress _ => js "scan_paths_progress"
  | BuildInvertedIndex _ _ _ => js "build_inverted_index"
  | BuildInvertedIndexProgress _ _ _ => js "build_inverted_index_progress"
  | ScanAndIndexPipeline _ _ _ => js "scan_and_index_pipeline"
  | StartAutoScanNow => js "start_auto_scan_now"
  | DiagnosticsReport_ => js "diagnostics_report"
  | SearchQuery _ _ _ => js "search_query"
  | DetectDuplicates _ => js "detect_duplicates"
  | ReadConfig => js "read_config"
  | WriteConfig _ => js "write_config"
  | ResetConfig => js "reset_config"
  | OpenLocation _ => js "open_location"
  | DeleteFileAndIndex _ _ => js "delete_file_and_index"
  end.

(** A request reaches the command it names. *)
Lemma decode_name r c : decode r = Some c -> rq_cmd r = command_name c.
Proof.
  unfold decode. intros (hd & Hf & H)%bind_Some.
  assert (Hin : exists fs, hd fs = Some c)
    by (destruct (rq_payload r) as [| | | | | |fs]; try done; [by exists []|by exists fs]). clear H.
  destruct Hin as [fs Hfs]. unfold handlers in Hf. cbn [find_handler] in Hf.
  repeat (case_bool_decide; [injection Hf as <-; cbn beta in Hfs; repeat (apply bind_Some in Hfs as (? & ? & Hfs))|]);
    try (by injection Hfs as <-).
  - unfold de_struct in Hfs. destruct (default _ _); try done. repeat (apply bind_Some in Hfs as (? & ? & Hfs)).
    by injection Hfs as <-.
  - done.
Qed.

Lemma decode_returns r c : decode r = Some c -> return_type command_returns (rq_cmd r) = Some (returns c).
Proof. intros ->%decode_name. by destruct c. Qed.
End Decode.

(** ** What the functions of services/api.ts reach *)

Lemma de_int_of_Z lo hi n : Z.abs n <= 2 ^ 53 -> lo <= n < hi -> de_int lo hi (VNum (Fin (n * one))) = Some n.
Proof.
  intros Hs Hn. unfold de_int, int_in. pose proof one_pos. rewrite Z.div_mul, Z.eqb_refl by lia.
  rewrite (proj2 (Z.leb_le _ _)), (proj2 (Z.ltb_lt _ _)) by lia. done.
Qed.

(** The options of a scan. *)
Lemma de_scan_options_val r e m l : 0 <= m <= 2 ^ 53 ->
  de_scan_options (scan_opts_val {| so_roots := r; so_exclude_patterns := e; so_max_file_size_mb := of_Z m;
                                    so_follow_symlinks := l |})
  = Some {| sc_roots := r; sc_exclude_patterns := e; sc_max_file_size_mb := Some m; sc_follow_symlinks := l |}.
Proof.
  intros Hm. unfold scan_opts_val. cbn [so_roots so_exclude_patterns so_max_file_size_mb so_follow_symlinks].
  rewrite of_Z_small by lia. unfold de_scan_options, de_struct, field, opt_field, strs_val.
  cbn -[de_u64]. rewrite !mapM_strs. cbn -[de_u64]. unfold de_u64. by rewrite de_int_of_Z by lia.
Qed.

(** Files whose numbers are exact doubles. *)
Definition exact_file (f : file_meta) : Prop := 0 <= f_size f <= 2 ^ 53 /\ Z.abs (f_modified_ts f) <= 2 ^ 53.

Lemma de_file_val f : exact_file f -> de_file (file_val (front_file f)) = Some f.
Proof.
  intros [Hs Ht]. destruct f as [p n e s t]. unfold front_file, file_val. cbn [fm_path fm_file_name fm_ext fm_size fm_modified_ts].
  cbn [f_path f_name f_ext f_size f_modified_ts] in *. rewrite !of_Z_small by lia.
  unfold de_file, de_struct, field. cbn -[de_u64 de_i64]. unfold de_u64, de_i64. by rewrite !de_int_of_Z by lia.
Qed.

Lemma de_files_val l : Forall exact_file l -> de_files (VArr (map file_val (map front_file l))) = Some l.
Proof.
  intros H. simpl. induction H as [|f l Hf Hl IH]; [done|]. cbn [map mapM]. rewrite de_file_val by done.
  cbn [mbind option_bind]. by rewrite IH.
Qed.

(** Filters whose bounds are exact. *)
Definition front_filters (f : search_filters) : SearchFilters :=
  {| sf_ext := q_ext f; sf_min_size := of_Z <$> q_min_size f; sf_max_size := of_Z <$> q_max_size f |}.
Definition exact_bound (o : option Z) : Prop := forall n, o = Some n -> 0 <= n <= 2 ^ 53.

Lemma de_filters_val f : exact_bound (q_min_size f) -> exact_bound (q_max_size f) ->
  de_filters (filters_val (front_filters f)) = Some f.
Proof.
  intros H1 H2. destruct f as [e mn mx]. unfold front_filters, filters_val. cbn [sf_ext sf_min_size sf_max_size].
  cbn [q_ext q_min_size q_max_size] in *.
  assert (Hb : forall o, exact_bound o -> opt_field de_u64 [("b"%string, opt_val VNum (of_Z <$> o))] "b"%string = Some o).
  { intros [n|] Ho; [|done]. specialize (Ho n eq_refl). cbn [fmap option_fmap option_map opt_val].
    rewrite of_Z_small by lia. unfold opt_field. cbn -[de_u64]. unfold de_u64. by rewrite de_int_of_Z by lia. }
  pose proof (Hb mn H1) as B1. pose proof (Hb mx H2) as B2. unfold opt_field in B1, B2. simpl field_of in B1, B2.
  unfold de_filters, de_struct, opt_field. simpl field_of.
  assert (E : match json_of (opt_val strs_val e) with None | Some VNull => Some None | Some v => Some <$> de_strs v end = Some e).
  { destruct e as [l|]; [|done]. simpl. by rewrite mapM_strs. }
  rewrite E, B1, B2. done.
Qed.

Section Api.
Context (os : platform) {act : Type} (d : invoke_defaults).
#[local] Abbreviation reaches c p := (only_races (act := act) (sends os c) p).

Lemma sends_intro c T name payload opts h :
  find_handler (handlers os) name = Some h ->
  match payload with VUndef => h [] | VObj fs => h fs | _ => None end = Some c -> T = returns c ->
  reaches c (safeInvoke d T name payload opts).
Proof.
  intros Hh Hp Hr. apply only_races_invoke. split; [|exact Hr]. unfold decode.
  cbn [rq_cmd rq_payload invoke_request]. rewrite Hh. exact Hp.
Qed.

(** Unfolds an API function and finds the handler of its command. *)
#[local] Tactic Notation "reach" reference(f) := unfold f;
  match goal with |- only_races _ (safeInvoke _ ?T ?n ?v ?o) => eapply (sends_intro _ T n v o) end;
  [reflexivity|cbn [rq_cmd rq_payload]; try reflexivity|reflexivity].

(** C14. The functions of services/api.ts and the commands agree: every function
    reaches the command it is named after, which deserializes exactly the values
    the function was given, and asks for the type that command returns. *)
Theorem api_commands :
  reaches ReadConfig (readConfig d)
  /\ (forall c, u32 (c_path_max_len c) -> reaches (WriteConfig c) (writeConfig d (front_config c)))
  /\ reaches ResetConfig (resetConfig d)
  /\ (forall r e m l, 0 <= m <= 2 ^ 53 ->
        let o := {| so_roots := r; so_exclude_patterns := e; so_max_file_size_mb := of_Z m; so_follow_symlinks := l |} in
        let o' := {| sc_roots := r; sc_exclude_patterns := e; sc_max_file_size_mb := Some m; sc_follow_symlinks := l |} in
        reaches (ScanPaths o') (scanPaths d o) /\ reaches (ScanPathsProgress o') (scanPathsProgress d o))
  /\ (forall fs dir b, Forall exact_file fs ->
        reaches (BuildInvertedIndex fs dir b) (buildInvertedIndex d (map front_file fs) dir b)
        /\ reaches (BuildInvertedIndexProgress fs dir b) (buildInvertedIndexProgress d (map front_file fs) dir b))
  /\ (forall rs ex dir b,
        reaches (ScanAndIndexPipeline
                   {| sc_roots := rs; sc_exclude_patterns := ex; sc_max_file_size_mb := Some 500; sc_follow_symlinks := false |}
                   dir b) (scanAndIndexPipeline d rs ex dir b))
  /\ reaches StartAutoScanNow (startAutoScanNow d)
  /\ (forall q f dir, (forall g, f = Some g -> exact_bound (q_min_size g) /\ exact_bound (q_max_size g)) ->
        reaches (SearchQuery q f dir)
          (searchQuery d {| sq_query := q; sq_filters := front_filters <$> f; sq_indexDir := dir |}))
  /\ (forall p, reaches (OpenLocation p) (openLocation d p))
  /\ (forall ps, reaches (DetectDuplicates ps) (detectDuplicates d ps))
  /\ (forall p dir, reaches (DeleteFileAndIndex p dir) (deleteFileAndIndex d p dir))
  /\ reaches DiagnosticsReport_ (diagnosticsReport d).
Proof.
  pose proof de_scan_options_val as Hso. pose proof de_files_val as Hfs.
  split_and!.
  - by reach readConfig.
  - intros c Hc. reach writeConfig. unfold field.
    change (field_of [("cfg"%string, config_val (front_config c))] "cfg") with (Some (to_value c)). cbn [mbind option_bind].
    by rewrite from_to_value.
  - by reach resetConfig.
  - intros r e m l Hm. specialize (Hso r e m l Hm). split; [reach scanPaths|reach scanPathsProgress]; unfold field;
      (match goal with |- context [field_of [("opts"%string, ?v)] "opts"] =>
         change (field_of [("opts"%string, v)] "opts") with (Some v) end); cbn [mbind option_bind]; by rewrite Hso.
  - intros fs dir b H. specialize (Hfs fs H). split; [reach buildInvertedIndex|reach buildInvertedIndexProgress]; unfold field;
      (match goal with |- context [field_of ?l "files"] =>
         change (field_of l "files") with (Some (VArr (map file_val (map front_file fs)))) end);
      cbn [mbind option_bind]; by rewrite Hfs.
  - intros rs ex dir b. specialize (Hso rs ex 500 false ltac:(lia)). reach scanAndIndexPipeline. unfold field.
    match goal with |- context [field_of (("opts"%string, ?v) :: ?l) "opts"] =>
      change (field_of (("opts"%string, v) :: l) "opts") with (Some v) end. cbn [mbind option_bind]. by rewrite Hso.
  - by reach startAutoScanNow.
  - intros q f dir Hf. reach searchQuery. unfold field, opt_field. cbn [sq_query sq_filters sq_indexDir].
    destruct f as [g|]; [|done]. destruct (Hf g eq_refl) as [H1 H2]. pose proof (de_filters_val g H1 H2) as Hg.
    transitivity (f' ← (Some <$> de_filters (filters_val (front_filters g))); Some (SearchQuery q f' dir)); [reflexivity|].
    by rewrite Hg.
  - intros p. by reach openLocation.
  - intros ps. reach detectDuplicates. unfold field. simpl. by rewrite mapM_strs.
  - intros p dir. by reach deleteFileAndIndex.
  - by reach diagnosticsReport.
Qed.
End Api.

(** ** Concrete inputs *)

Definition demo_query : search_filters := {| q_ext := Some [js "txt"]; q_min_size := Some 1; q_max_size := None |}.

Lemma api_commands_witness :
  only_races (act := unit) (sends demo_platform (SearchQuery (js "a") (Some demo_query) (js "ix")))
    (searchQuery (INVOKE_DEFAULTS NaN NaN)
       {| sq_query := js "a"; sq_filters := front_filters <$> Some demo_query; sq_indexDir := js "ix" |}).
Proof.
  destruct (api_commands demo_platform (act := unit) (INVOKE_DEFAULTS NaN NaN)) as (_ & _ & _ & _ & _ & _ & _ & H & _).
  apply H. intros g [= <-]. split; intros n [= <-]. lia.
Defined.
