(* ===== verification/Scheduler.v ===== *)
(** * The daily scan and the diagnostics: main.rs, pipeline.rs, diagnostics.rs

    A thread looks once a minute whether a scan is due and the machine idle, and
    starts the pipeline; a command starts it at once; another reports on the
    configuration, the state file and the index.  The load of the machine, the
    calendar and the index are arguments. *)

From stdpp Require Import gmap relations.
From S2P Require Import Prelude JsNumber JsString Types Effects Invoke Highlight AppState Handlers AppSystem EventBus FileSystem RustStd Config Scan Pipeline.
#[local] Open Scope Z_scope.
#[local] Open Scope io_scope.

(** ** The loop of main.rs *)

Definition auto_scan_start (reason : string) : emission :=
  ("auto_scan_start", VObj [("reason", VStr (js reason))])%string.

(** What an iteration starts: the roots, the exclusions and the index directory of
    a pipeline, content parsing off. *)
Record launch := { l_roots : list jsstr; l_exclude : list jsstr; l_index_dir : jsstr }.
Definition launch_of (cfg : config) : launch :=
  {| l_roots := c_scan_roots cfg; l_exclude := c_exclude_patterns cfg; l_index_dir := c_index_dir cfg |}.

Definition need_run (st : PipelineState) (today : jsstr) : bool :=
  negb (completed st) || negb (bool_decide (last_day st = Some today)).

(** One iteration: the configuration read, the state file, the day and the average
    load.  [None]: nothing but waiting for a minute. *)
Definition tick (cfg : option config) (st : PipelineState) (today : jsstr) (avg_cpu : number) : option (emission * launch) :=
  match cfg with
  | None => None
  | Some cfg =>
      if negb (c_auto_scan_enabled cfg) then None
      else if need_run st today then
        if ltb avg_cpu (of_Z 20) then Some (auto_scan_start "idle_daily", launch_of cfg) else None
      else None
  end.

Section Commands.
Context {C : CaseTables} {J : Json} (os : platform) (sys : system jsstr) (serde_error : jsstr -> jsstr).

(** ** pipeline.rs, [start_auto_scan_now] *)

Definition start_auto_scan_now : io jsstr (emission * launch) :=
  cfg <- read_config os sys serde_error ;;
  io_ret (auto_scan_start "manual", launch_of cfg).

(** ** diagnostics.rs *)

(** What the machine and the index say. *)
Record probes := {
  dir_exists : jsstr -> bool;
  state_file : option PipelineState;                          (* when it can be read *)
  cpu_avg : option number;
  total_mem : number;
  free_mem : number;
  index_status : jsstr -> jsstr + (list jsstr * option number);   (* an error, or the fields and the count *)
}.

Definition no_state : PipelineState := {| last_day := None; completed := false |}.

Definition diagnostics_report (pr : probes) : io jsstr DiagnosticsReport :=
  cfg <- read_config os sys serde_error ;;
  let dir := c_index_dir cfg in
  let w1 := match c_scan_roots cfg with [] => [js "config.scan_roots is empty"] | _ => [] end in
  let w2 := if blank dir then [js "config.index_dir is empty"] else [] in
  let w3 := if dir_exists pr dir then [] else [js "index_dir does not exist"] in
  let st := default no_state (state_file pr) in
  let ix := if dir_exists pr dir then Some (index_status pr dir) else None in
  let w4 := match ix with Some (inl e) => [js "open index failed: " ++ e] | _ => [] end in
  io_ret {| dr_index_dir := dir;
            dr_index_open_ok := match ix with Some (inr _) => true | _ => false end;
            dr_index_doc_count := match ix with Some (inr (_, n)) => n | _ => None end;
            dr_schema_fields := match ix with Some (inr (fs, _)) => Some fs | _ => None end;
            dr_config_scan_roots_count := of_Z (Z.of_nat (length (c_scan_roots cfg)));
            dr_config_auto_scan_enabled := c_auto_scan_enabled cfg;
            dr_pipeline_started := bool_decide (is_Some (last_day st)) && negb (completed st);
            dr_pipeline_completed := completed st;
            dr_pipeline_last_day := last_day st;
            dr_sys_cpu_avg := cpu_avg pr; dr_sys_total_mem_kib := Some (total_mem pr);
            dr_sys_free_mem_kib := Some (free_mem pr); dr_warnings := w1 ++ w2 ++ w3 ++ w4 |}.

(** A report warns exactly when the index is unusable, of one thing, and says so in
    its flag; the two warnings about the configuration cannot occur, since reading
    it completes empty fields. *)
Lemma diagnostics_warnings pr d r d' : diagnostics_report pr d = (inr r, d') ->
  (dr_warnings r = [] <-> dr_index_open_ok r = true)
  /\ (dr_warnings r = [] \/ dr_warnings r = [js "index_dir does not exist"]
      \/ exists e, dr_warnings r = [js "open index failed: " ++ e]).
Proof.
  unfold diagnostics_report, io_bind. destruct (read_config os sys serde_error d) as [[e|cfg] d1] eqn:E; [done|].
  intros [= <- <-]. cbn [dr_warnings dr_index_open_ok].
  destruct (read_config_ok os sys serde_error d cfg d1 E) as [[_ Hr _ Hd _] _].
  destruct (c_scan_roots cfg); [done|]. rewrite Hd. cbn [app].
  destruct (dir_exists pr (c_index_dir cfg)); cbn [app].
  - destruct (index_status pr (c_index_dir cfg)) as [e|[fs n]].
    + split; [done|]. right. right. by exists e.
    + split; [done|by left].
  - split; [done|]. right. by left.
Qed.
End Commands.

(** ** Once a day *)

Section Daily.
Context {T : Tantivy} (read_text : jsstr -> option jsstr) (parse : bool).
Context (today : jsstr) (before : PipelineState) (docs : list document) (files : list file_meta).
Abbreviation begin := (start today true before docs files).

(** The state file along a run. *)
Lemma saved_along s : rtc (step read_text parse) begin s ->
  match at_phase s with
  | Scanning | Announced => saved s = mark_started today
  | Marked | Returned => saved s = mark_started today \/ exists day, saved s = mark_completed day
  end.
Proof.
  revert s. apply rtc_ind_r; [done|]. intros s s' _ Hstep IH.
  destruct Hstep as [s f rest Hp Ht|s Hp Ht|s d ok Hp|s Hp|s l f r ok ds Hj Hst|s l f r Hj|s l f cur r Hj]; simpl.
  - by rewrite Hp in IH |- *.
  - by rewrite Hp in IH.
  - rewrite Hp in IH. destruct ok; [right; by exists d|by left].
  - by rewrite Hp in IH.
  - exact IH.
  - exact IH.
  - exact IH.
Qed.

(** C40. The scan of the day: once a run has been marked as completed, no idle
    minute of that day starts another; but as long as a run is scanning, however
    long it takes, every idle minute announces and starts another one. *)
Theorem auto_scan_daily s cfg avg_cpu :
  rtc (step read_text parse) begin s -> c_auto_scan_enabled cfg = true -> ltb avg_cpu (of_Z 20) = true ->
  (saved s = mark_completed today -> tick (Some cfg) (saved s) today avg_cpu = None)
  /\ (at_phase s = Scanning -> forall day,
        tick (Some cfg) (saved s) day avg_cpu = Some (auto_scan_start "idle_daily", launch_of cfg)).
Proof.
  intros Hr Ha Hc. apply saved_along in Hr. unfold tick. rewrite Ha, Hc. cbn [negb]. split.
  - intros ->. unfold need_run. simpl. by rewrite bool_decide_true.
  - intros Hp day. rewrite Hp in Hr. by rewrite Hr.
Qed.
End Daily.

Lemma auto_scan_daily_witness :
  exists cfg, tick (Some cfg) (saved demo_begin) (js "2025-01-01") (of_Z 5)
              = Some (auto_scan_start "idle_daily", launch_of cfg).
Proof.
  exists (default_config demo_platform).
  apply (auto_scan_daily (T := demo_tokenizer) (fun _ => None) false (js "2025-01-01")
           {| last_day := None; completed := false |} demo_docs demo_metas demo_begin
           (default_config demo_platform) (of_Z 5)); [apply rtc_refl|reflexivity|vm_compute; reflexivity|reflexivity].
Defined.
