(* ===== verification/AppInvariants.v ===== *)
(** * App.tsx: invariants of the running application

    Properties of every state the transition system of [AppSystem] can reach,
    whatever the user does, the back end answers and the interleaving is. *)

From stdpp Require Import relations.
From S2P Require Import Prelude JsNumber JsString JsConvert StringUtil PathUtil SizeUtil Types Effects SortResults Invoke Wire ProgLogic AppState Handlers AppSystem.
#[local] Open Scope Z_scope.

(** ** Automation over handlers *)

Ltac head_of p := lazymatch p with ?f _ => head_of f | ?f => f end.

(** Opens a handler down to its setters, log lines, unsubscriptions and calls. *)
Ltac handler_step :=
  match goal with
  | |- acts_ok _ (bind _ _) => apply acts_ok_bind; [|intros ?]
  | |- acts_ok _ (try_catch _ _) => apply acts_ok_catch; [|intros ?]
  | |- acts_ok _ (try_finally _ _) => apply acts_ok_finally
  | |- acts_ok _ (finally_idle _) => apply acts_ok_finally
  | |- acts_ok _ (catch_report _ _ _) => apply acts_ok_catch; [|intros ?]
  | |- acts_ok _ (busy_handler _ _ _ _) => unfold busy_handler
  | |- acts_ok _ (when_tauri _ _) => unfold when_tauri
  | |- acts_ok _ (set _) => split; [|exact I]
  | |- acts_ok _ (logError _ _) => split; [|exact I]
  | |- acts_ok _ (do_act _) => split; [|exact I]
  | |- acts_ok _ (Act _ _) => split
  | |- acts_ok _ (Call _ _) => intros ?
  | |- acts_ok _ (Ret _) => exact I
  | |- acts_ok _ (Throw _) => exact I
  | |- acts_ok _ (await_sum _ _) => intros ?; simpl
  | |- acts_ok _ (confirm _) => split; [|exact I]
  | |- acts_ok _ (match ?x with _ => _ end) => destruct x
  | |- acts_ok _ (if ?x then _ else _) => destruct x
  | |- acts_ok ?Q (safeInvoke ?d ?T ?c ?p ?o) => exact (acts_ok_invoke Q d T c p o)
  | |- acts_ok _ ?p => let h := head_of p in unfold h
  end.
Ltac handler_acts := repeat handler_step.

(** All the elements of all the pages. *)
Ltac ui_cases u :=
  destruct u as [u|u|u|u|?|?]; [destruct u..| |];
  cbn [react search_react index_react dup_react settings_react].

(** ** The busy mark *)

(** Every way to continue clears the mark. *)
Fixpoint clears {A} (p : prog action A) : Prop :=
  match p with
  | Ret _ | Throw _ => False
  | Act (Set_ (SetBusy false)) _ => True
  | Act _ k => clears k
  | Call c k => forall r, clears (k r)
  end.

(** The mark is only set by programs that will clear it. *)
Fixpoint disciplined {A} (p : prog action A) : Prop :=
  match p with
  | Ret _ | Throw _ => True
  | Act a k => match a with Set_ (SetBusy true) => clears k | _ => True end /\ disciplined k
  | Call c k => forall r, disciplined (k r)
  end.

Definition not_busy_act (a : action) : Prop := match a with Set_ (SetBusy _) => False | _ => True end.

Lemma disciplined_quiet {A} (p : prog action A) : acts_ok not_busy_act p -> disciplined p.
Proof.
  induction p as [x|e|a k IH|c k IH]; simpl; [done..| |auto]. intros [Ha Hk]. split; [|auto].
  destruct a as [x|e c|id|t0]; [|done..]. by destruct x.
Qed.

Lemma clears_finally (p : prog_) : clears (finally_idle p).
Proof.
  unfold finally_idle. induction p as [x|e|a k IH|c k IH]; simpl; [done..| |done].
  destruct a as [x|e c|id|t0]; [|done..]. destruct x; try done. by destruct v.
Qed.

Lemma disciplined_finally (p : prog_) : acts_ok not_busy_act p -> disciplined (finally_idle p).
Proof.
  unfold finally_idle. induction p as [x|e|a k IH|c k IH]; simpl; [done..| |auto].
  intros [Ha Hk]. split; [|auto]. destruct a as [x|e c|id|t0]; [|done..]. by destruct x.
Qed.

Lemma disciplined_busy_handler text context failure body :
  acts_ok not_busy_act body -> disciplined (busy_handler text context failure body).
Proof.
  intros H. unfold busy_handler. simpl. split_and!; [apply clears_finally|done|].
  apply disciplined_finally. unfold catch_report. apply acts_ok_catch; [done|]. intros e. handler_acts; exact I.
Qed.

Section Busy.
Context (defaults : invoke_defaults) (inTauri has_clipboard : bool).

Lemma disciplined_doSearch s : disciplined (doSearch defaults inTauri s).
Proof.
  unfold doSearch, when_tauri. destruct inTauri; [|done].
  apply disciplined_busy_handler. handler_acts; exact I.
Qed.

Lemma disciplined_react u s : disciplined (react defaults inTauri has_clipboard u s).
Proof.
  ui_cases u; try (apply disciplined_quiet; handler_acts; exact I).
  all: unfold search_key, doScanAndIndex, doSaveConfig, doResetConfig, runDetect, handleDelete, when_tauri.
  - destruct (bool_decide _); [apply disciplined_doSearch|done].
  - apply disciplined_doSearch.
  - destruct inTauri; [|done]. simpl. split_and!; try done.
    + apply clears_finally.
    + apply disciplined_finally. handler_acts; exact I.
  - destruct inTauri; [|done]. apply disciplined_busy_handler. handler_acts; exact I.
  - destruct inTauri; [|done]. apply disciplined_busy_handler. handler_acts; exact I.
  - destruct inTauri; [|done]. apply disciplined_busy_handler. handler_acts; exact I.
  - destruct inTauri; [|done]. split; [done|]. simpl bind.
    apply disciplined_busy_handler. handler_acts; exact I.
  - destruct inTauri; [|done]. apply disciplined_busy_handler. handler_acts; exact I.
Qed.

Lemma run_setters_quiet (Q : action -> Prop) l : Forall (fun x => Q (Set_ x)) l -> acts_ok Q (run_setters l).
Proof. induction 1; simpl; auto. Qed.

Lemma on_event_ok (Q : setter -> Prop) e :
  (forall x, match x with SetIdxCurrent _ | SetIdxTotal _ | SetIdxRunning _ | SetMsg _ | SetLastScanTotal _ => Q x
             | _ => True end) -> Forall Q (on_event e).
Proof.
  intros H. destruct e as [p| |[n|]|p]; simpl; repeat constructor;
    match goal with |- Q ?x => exact (H x) end.
Qed.

Lemma on_scan_progress_ok (Q : setter -> Prop) p :
  (forall x, match x with SetScanCount _ | SetScanDir _ => Q x | _ => True end) -> Forall Q (on_scan_progress p).
Proof.
  intros H. unfold on_scan_progress. apply Forall_app. split.
  - destruct (sp_current p) as [n|]; repeat constructor. exact (H (SetScanCount n)).
  - destruct (sp_path p) as [d|]; [|done]. destruct (truthy d); repeat constructor.
    exact (H (SetScanDir (scanDirOf d))).
Qed.

(** A disciplined program that finds the mark clear, or is bound to clear it,
    leaves it set only if the suspended rest is bound to clear it. *)
Lemma advance_busy (p : prog_) a ls a' ls' t : disciplined p -> advance p a ls = (a', ls', t) ->
  busy a' = true -> busy a = false \/ clears p -> exists q, t = Some q /\ clears q.
Proof.
  revert a ls. induction p as [x|e|act k IH|c k IH]; intros a ls Hd; simpl.
  - intros [= <- _ _] Hb [?|?]; [congruence|done].
  - intros [= <- _ _] Hb [?|?]; [congruence|done].
  - destruct Hd as [Ha Hd]. destruct act as [x|e c|id|t0]; intros E Hb Hc; [|eauto..].
    destruct x; try exact (IH _ _ Hd E Hb Hc).
    destruct v; apply (IH _ _ Hd E Hb); [by right|by left].
  - intros [= <- _ <-] Hb [?|?]; [congruence|]. eauto.
Qed.

Lemma advance_disciplined (p : prog_) a ls a' ls' q :
  disciplined p -> advance p a ls = (a', ls', Some q) -> disciplined q.
Proof.
  revert a ls. induction p as [x|e|act k IH|c k IH]; intros a ls Hd; simpl; try done.
  - destruct Hd as [_ Hd]. destruct act; eauto.
  - by intros [= _ _ <-].
Qed.

(** ** The invariant *)

Definition busy_inv (w : world) : Prop :=
  Forall disciplined (tasks w) /\ (busy (app w) = true -> Exists clears (tasks w)).

Lemma busy_run p w : busy_inv w -> disciplined p -> busy_inv (run inTauri p w).
Proof.
  intros [HD HB] Hp. unfold run. destruct (advance p (app w) (listeners w)) as [[a ls] t] eqn:E.
  split; simpl.
  - apply Forall_app. split; [done|]. destruct t as [q|]; simpl; [|done].
    constructor; [by eapply advance_disciplined|done].
  - intros Hb. apply Exists_app. destruct (busy (app w)) eqn:Hw; [auto|]. right.
    destruct (advance_busy p _ _ _ _ _ Hp E Hb) as (q & -> & Hq); [auto|]. by constructor.
Qed.

(** The answered task may have been the one bound to clear the mark. *)
Lemma busy_run_answer w l1 l2 c k r : tasks w = l1 ++ Call c k :: l2 -> busy_inv w ->
  busy_inv (run inTauri (k r) (subscribed c r (with_tasks (l1 ++ l2) w))).
Proof.
  intros E [HD HB]. rewrite E in HD, HB. apply Forall_app in HD as [H1 [Hc H2]%Forall_cons].
  set (w' := subscribed c r (with_tasks (l1 ++ l2) w)).
  assert (app w' = app w /\ tasks w' = l1 ++ l2) as [Ea Et].
  { unfold w'. destruct c; try done. by destruct r. }
  unfold run. rewrite Ea. destruct (advance (k r) (app w) (listeners w')) as [[a ls] t] eqn:E'.
  split; simpl; rewrite Et.
  - repeat (apply Forall_app; split); [done..|]. destruct t as [q|]; simpl; [|done].
    constructor; [exact (advance_disciplined _ _ _ _ _ _ (Hc r) E')|done].
  - intros Hb. apply Exists_app. destruct (busy (app w)) eqn:Hw.
    + rewrite !Exists_app, Exists_cons in HB. specialize (HB eq_refl). rewrite Exists_app.
      destruct HB as [|[Hk|]]; [auto| |auto]. right.
      destruct (advance_busy _ _ _ _ _ _ (Hc r) E' Hb) as (q & -> & Hq); [auto|]. by constructor.
    + right. destruct (advance_busy _ _ _ _ _ _ (Hc r) E' Hb) as (q & -> & Hq); [auto|]. by constructor.
Qed.

Lemma disciplined_events e : disciplined (run_setters (on_event e)).
Proof. apply disciplined_quiet, run_setters_quiet, on_event_ok. by intros []. Qed.

Lemma disciplined_progress p : disciplined (run_setters (on_scan_progress p)).
Proof. apply disciplined_quiet, run_setters_quiet, on_scan_progress_ok. by intros []. Qed.

Context {B : Backend} (path_max_len : number).

Lemma busy_reachable w : reachable defaults inTauri has_clipboard path_max_len w -> busy_inv w.
Proof.
  apply (rtc_ind_r busy_inv).
  - unfold mount. apply busy_run; [apply busy_run|].
    + by split.
    + apply disciplined_quiet. handler_acts; exact I.
    + apply disciplined_quiet. handler_acts; exact I.
  - intros w1 w2 _ St Hw. destruct St as [v u Hu|v l1 l2 c k r E Hr Hf|v e HT He|v id payload Hid Hpay|v snap Hs|v Hp].
    + apply busy_run; [done|apply disciplined_react].
    + by apply busy_run_answer.
    + apply busy_run; [done|apply disciplined_events].
    + apply busy_run; [done|apply disciplined_progress].
    + apply busy_run; [done|]. unfold debounced. destruct (truthy _); [apply disciplined_doSearch|done].
    + apply busy_run; [done|]. apply disciplined_quiet. handler_acts; exact I.
Qed.

(** C16. The busy mark never sticks: in every reachable state in which it is set,
    a suspended handler is bound to clear it however its calls are answered;
    with no handler pending the mark is clear. *)
Theorem busy_always_cleared w :
  reachable defaults inTauri has_clipboard path_max_len w ->
  (busy (app w) = true -> Exists clears (tasks w)) /\ (tasks w = [] -> busy (app w) = false).
Proof.
  intros [HD HB]%busy_reachable. split; [done|]. intros E. destruct (busy (app w)); [|done].
  specialize (HB eq_refl). rewrite E in HB. by inv HB.
Qed.
End Busy.

(** ** Invariants kept by every setter of a class *)

Section Setters.
Context {J : App -> Prop} {Q : action -> Prop} (HQ : forall x s, Q (Set_ x) -> J s -> J (apply x s)).
Context (G : forall c, ans c -> Prop).

Lemma acts_wp_advance (p : prog_) a ls a' ls' t : J a -> acts_wp G Q (fun _ => True) p ->
  advance p a ls = (a', ls', t) -> J a' /\ forall q, t = Some q -> acts_wp G Q (fun _ => True) q.
Proof.
  revert a ls. induction p as [x|e|act k IH|c k IH]; intros a ls Ha Hp; simpl.
  - by intros [= <- _ <-].
  - by intros [= <- _ <-].
  - destruct Hp as [Hact Hp]. destruct act; [apply IH; auto|by apply IH..].
  - intros [= <- _ <-]. split; [done|]. by intros q [= <-].
Qed.
End Setters.

(** ** The browser preview *)

Definition clipboard_only (c : cmd) : Prop := match c with Clipboard _ => True | _ => False end.
Definition no_dup_act (a : action) : Prop := match a with Set_ (SetDupGroups _) => False | _ => True end.

Section Preview.
Context (defaults : invoke_defaults) (has_clipboard : bool) {B : Backend} (path_max_len : number).

Definition preview_prog (p : prog_) : Prop := calls_ok clipboard_only p /\ acts_ok no_dup_act p.

Lemma preview_react u s : dupGroups s = [] -> enabled false u s = true ->
  preview_prog (react defaults false has_clipboard u s).
Proof.
  intros HJ Hu. ui_cases u; try (by repeat split).
  all: try (cbn [enabled dup_enabled] in Hu; unfold filteredGroups in Hu; rewrite HJ in Hu;
            by rewrite andb_false_r in Hu).
  - unfold search_key. by destruct (bool_decide _).
  - unfold view_tabs_key. by repeat (destruct (bool_decide _)).
  - unfold open_selected. by destruct (selected s).
  - unfold copy_path. destruct (selected s) as [r|]; [|done]. destruct has_clipboard; [|done].
    split; simpl; [split; [done|]|]; intros [e|[]]; by repeat split.
Qed.

Lemma preview_advance p a ls a' ls' t : dupGroups a = [] -> preview_prog p ->
  advance p a ls = (a', ls', t) -> dupGroups a' = [] /\ forall q, t = Some q -> preview_prog q.
Proof.
  intros HJ [Hc Ha]. revert a ls HJ Hc Ha. induction p as [x|e|act k IH|c k IH]; intros a ls HJ Hc Ha; simpl.
  - by intros [= <- _ <-].
  - by intros [= <- _ <-].
  - destruct Ha as [Hact Ha]. destruct act as [x| | |]; [|by apply IH..].
    apply IH; [|done..]. destruct x; try done. simpl. by rewrite HJ.
  - intros [= <- _ <-]. split; [done|]. by intros q [= <-].
Qed.

Lemma preview_inductive :
  inductive defaults false has_clipboard path_max_len (fun s => dupGroups s = []) preview_prog.
Proof.
  split.
  - done.
  - intros c k r [[_ H1] H2] _. by split.
  - apply preview_advance.
  - intros u s ls a' ls' t HJ Hu. apply preview_advance; [done|by apply preview_react].
  - intros s HJ. unfold debounced. by destruct (truthy _).
  - done.
  - done.
  - intros payload _. split.
    + unfold on_scan_progress. by destruct (sp_current payload), (sp_path payload) as [[|]|].
    + apply run_setters_quiet, on_scan_progress_ok. by intros [].
  - by repeat split.
  - done.
Qed.

(** C26. Without the back end (the browser preview) the application never calls
    it: no reachable state has a handler waiting for a command, a subscription or
    a file dialog; only the clipboard is used.  This covers the buttons of the
    page of duplicates whose handler is not guarded: they are never displayed. *)
Theorem preview_never_calls_backend w :
  reachable defaults false has_clipboard path_max_len w ->
  Forall (calls_ok clipboard_only) (tasks w) /\ dupGroups (app w) = [].
Proof.
  intros (HJ & HP & _)%(holds_reachable _ _ _ _ preview_inductive). split; [|done].
  eapply Forall_impl; [done|]. by intros p [H _].
Qed.
End Preview.

(** ** The selected result *)

(** A program keeps [J] between suspensions. *)
Fixpoint later {A} (J : App -> Prop) (k : prog action A) (B : prog action A -> Prop) : Prop :=
  match k with
  | Ret _ | Throw _ => True
  | Act _ k => later J k B
  | Call c k => forall r, B (k r) /\ later J (k r) B
  end.
Definition burst (J : App -> Prop) (p : prog_) : Prop :=
  forall a ls, J a -> J (fst (fst (advance p a ls))).
Definition keeps (J : App -> Prop) (p : prog_) : Prop := burst J p /\ later J p (burst J).

Section Keeps.
Context {J : App -> Prop} (Q : setter -> Prop) (HQ : forall x s, Q x -> J s -> J (apply x s)).

Definition setter_act (a : action) : Prop := match a with Set_ x => Q x | _ => True end.

Lemma keeps_Ret : keeps J (Ret tt).
Proof. by split; [intros a ls|]. Qed.

Lemma burst_Act a k : setter_act a -> burst J k -> burst J (Act a k).
Proof. intros Ha Hk s ls Hs. destruct a; simpl; apply Hk; [by apply HQ|done..]. Qed.

Lemma keeps_Act a k : setter_act a -> keeps J k -> keeps J (Act a k).
Proof. intros Ha [H1 H2]. split; [by apply burst_Act|done]. Qed.

Lemma keeps_acts (p : prog_) : acts_ok setter_act p -> keeps J p.
Proof.
  induction p as [x|e|a k IH|c k IH]; simpl; [by split; [intros ? ?|]..| |].
  - intros [Ha Hk]. by apply keeps_Act; [|apply IH].
  - intros H. split; [by intros a ls|]. intros r. exact (IH r (H r)).
Qed.

(** A call in the [try] block: what follows it is a burst of its own. *)
Lemma keeps_try_call {A} (p : prog action A) f h q :
  acts_ok (fun _ => False) p ->
  (forall v, keeps J (try_finally (try_catch (f v) h) q)) ->
  (forall e, keeps J (try_finally (h e) q)) ->
  keeps J (try_finally (try_catch (bind p f) h) q).
Proof.
  intros Hp Hf Hh. induction p as [x|e|a k IH|c k IH]; simpl in *; [done..|tauto|].
  split; [by intros a ls|]. intros r. exact (IH r (Hp r)).
Qed.

Lemma keeps_advance (p : prog_) a ls a' ls' t : J a -> keeps J p -> advance p a ls = (a', ls', t) ->
  J a' /\ forall q, t = Some q -> keeps J q.
Proof.
  intros Ha [Hb Hl] E. split; [specialize (Hb a ls Ha); by rewrite E in Hb|].
  clear Hb Ha. revert a ls E. induction p as [x|e|act k IH|c k IH]; intros a ls; simpl.
  - by intros [= _ _ <-].
  - by intros [= _ _ <-].
  - destruct act; exact (IH Hl _ _).
  - intros [= _ _ <-] q [= <-]. split; [by intros s l|done].
Qed.

Lemma keeps_answer c k r : keeps J (Call c k) -> keeps J (k r).
Proof. intros [_ H]. exact (H r). Qed.
End Keeps.

Definition selection_ok (s : App) : Prop := forall r, selected s = Some r -> r ∈ results s.
Definition not_selection (x : setter) : Prop :=
  match x with SetSelected _ | SetResults _ => False | _ => True end.

Lemma not_selection_keeps x s : not_selection x -> selection_ok s -> selection_ok (apply x s).
Proof. intros Hx Hs r. destruct x; first [done|exact (Hs r)]. Qed.

Section Selected.
Context (defaults : invoke_defaults) (inTauri has_clipboard : bool) {B : Backend} (path_max_len : number).

Ltac keeps_by_setters :=
  apply (keeps_acts not_selection not_selection_keeps); handler_acts; exact I.

Lemma keeps_doSearch s : keeps selection_ok (doSearch defaults inTauri s).
Proof.
  unfold doSearch, when_tauri. destruct inTauri; [|apply keeps_Ret].
  unfold busy_handler, finally_idle, catch_report.
  do 2 (apply (keeps_Act not_selection not_selection_keeps); [exact I|]).
  apply keeps_try_call; [handler_acts| |].
  - intros res. split; [|done]. intros a ls Ha r. simpl. destruct res; simpl; [done|]. intros [= <-]. set_solver.
  - intros e. keeps_by_setters.
Qed.

Lemma selection_inductive :
  inductive defaults inTauri has_clipboard path_max_len selection_ok (keeps selection_ok).
Proof.
  split.
  - done.
  - intros c k r H _. by apply keeps_answer.
  - intros p a ls a' ls' t. apply keeps_advance.
  - intros u s ls a' ls' t HJ Hu. ui_cases u.
    all: try (apply keeps_advance; [done|]; keeps_by_setters).
    + apply keeps_advance; [done|]. unfold search_key.
      destruct (bool_decide _); [apply keeps_doSearch|apply keeps_Ret].
    + apply keeps_advance; [done|]. apply keeps_doSearch.
    + cbn [enabled search_enabled] in Hu. apply andb_true_iff in Hu as [_ Hr%bool_decide_eq_true].
      intros [= <- _ <-]. split; [|done]. intros r' [= <-]. simpl.
      by rewrite (sort_stable_perm (results_le (sortBy s) (sortDir s)) (results s)).
  - intros s _. unfold debounced. destruct (truthy _); [apply keeps_doSearch|apply keeps_Ret].
  - intros s _. keeps_by_setters.
  - intros e _ _. apply (keeps_acts not_selection not_selection_keeps), run_setters_quiet, on_event_ok. by intros [].
  - intros p _. apply (keeps_acts not_selection not_selection_keeps), run_setters_quiet, on_scan_progress_ok. by intros [].
  - keeps_by_setters.
  - keeps_by_setters.
Qed.

(** C28. The detail pane always shows one of the listed results: in every
    reachable state the selected result, if any, is among the results. *)
Theorem selected_among_results w :
  reachable defaults inTauri has_clipboard path_max_len w ->
  forall r, selected (app w) = Some r -> r ∈ results (app w).
Proof. by intros (HJ & _)%(holds_reachable _ _ _ _ selection_inductive). Qed.
End Selected.

(** ** The search timer *)

Section Debounce.
Context (defaults : invoke_defaults) (inTauri has_clipboard : bool) {B : Backend} (path_max_len : number).

Definition timer_inv (w : world) : Prop := forall snapshot, debounce w = Some snapshot ->
  search_deps snapshot = search_deps (app w) /\ page (app w) = PSearch.

Lemma timer_run p w : timer_inv w -> timer_inv (run inTauri p w).
Proof.
  intros Hw. unfold run. destruct (advance p (app w) (listeners w)) as [[a ls] t].
  intros snapshot. simpl. unfold rerender. case_bool_decide as E.
  - intros Hs. destruct (Hw snapshot Hs) as [E1 E2]. split; [congruence|].
    rewrite <- E2. by injection E.
  - destruct (inTauri && on PSearch a) eqn:Ep; [|done]. intros [= <-]. split; [done|].
    apply andb_true_iff in Ep as [_ Ep]. by apply bool_decide_eq_true in Ep.
Qed.

Lemma timer_reachable w : reachable defaults inTauri has_clipboard path_max_len w -> timer_inv w.
Proof.
  apply (rtc_ind_r timer_inv).
  - unfold mount. do 2 apply timer_run. intros snapshot. simpl. destruct inTauri; [|done]. by intros [= <-].
  - intros w1 w2 _ St Hw. destruct St as [v u Hu|v l1 l2 c k r E Hr Hf|v e HT He|v id payload Hid Hpay|v snap Hs|v Hp];
      apply timer_run; try done.
    destruct c; try done. by destruct r.
Qed.

Lemma search_filters_deps s s' : search_deps s = search_deps s' -> search_filters s = search_filters s'.
Proof. intros [= E1 E2 E3 E4 E5]. unfold search_filters. by rewrite E2, E3, E4. Qed.

(** The search-as-you-type timer is never stale in what it looks for: while
    it is pending the search page is displayed, and the request it will send has
    the query and the filters on display. *)
Theorem search_timer_current w snapshot :
  reachable defaults inTauri has_clipboard path_max_len w -> debounce w = Some snapshot ->
  query snapshot = query (app w) /\ search_filters snapshot = search_filters (app w)
  /\ page (app w) = PSearch.
Proof.
  intros Hr Hs. destruct (timer_reachable w Hr snapshot Hs) as [E Ep]. split_and!; [|by apply search_filters_deps|done].
  by injection E.
Qed.
End Debounce.

(** ** The groups of duplicates *)

(** What the page of duplicates relies on: the command only reports groups of at
    least two files. *)
Class DupContract (B : Backend) : Prop := {
  dup_at_least_two : forall payload ms groups,
    answers (Race {| rq_cmd := js "detect_duplicates"; rq_payload := payload; rq_timeoutMs := ms; rq_ret := RGroups |})
      (Resolved groups) -> Forall (fun g => (2 <= length (files g))%nat) groups;
}.

Section Duplicates.
Context (defaults : invoke_defaults) (inTauri has_clipboard : bool) {B : Backend} {D : DupContract B}
  (path_max_len : number).

Definition groups_ok (l : list DupGroup) : Prop := Forall (fun g => (2 <= length (files g))%nat) l.
Definition dup_act (a : action) : Prop := match a with Set_ (SetDupGroups l) => groups_ok l | _ => True end.
Abbreviation dup_prog := (acts_wp answers dup_act (fun _ => True)).

Lemma remove_dup_file_ok path l : groups_ok (remove_dup_file path l).
Proof.
  unfold remove_dup_file, groups_ok. eapply Forall_impl; [apply filterb_Forall|].
  intros g Hg%bool_decide_eq_true. lia.
Qed.

Lemma dup_act_keeps x s : dup_act (Set_ x) -> groups_ok (dupGroups s) -> groups_ok (dupGroups (apply x s)).
Proof. intros Hx Hs. destruct x; try done. apply remove_dup_file_ok. Qed.

Lemma dup_runDetect s : dup_prog (runDetect defaults inTauri s).
Proof.
  unfold runDetect, when_tauri. destruct inTauri; [|done]. unfold busy_handler.
  do 2 (eapply acts_wp_bind; [apply acts_ok_wp; handler_acts; exact I|]; intros _ _).
  unfold finally_idle. apply acts_wp_finally; [|done]. unfold catch_report.
  apply acts_wp_catch; [|intros e; apply acts_ok_wp; handler_acts; exact I].
  eapply acts_wp_bind; [apply acts_ok_wp; handler_acts; exact I|]. intros paths _.
  eapply acts_wp_bind; [apply acts_ok_wp; handler_acts; exact I|]. intros _ _.
  eapply acts_wp_bind; [|intros groups Hg].
  - unfold detectDuplicates.
    match goal with |- acts_wp ?G ?Q _ (safeInvoke ?d ?T ?c ?p ?o) =>
      refine (acts_wp_invoke G Q d T c p o groups_ok _) end.
    intros groups. apply dup_at_least_two.
  - repeat split; done.
Qed.

Lemma dup_inductive : inductive defaults inTauri has_clipboard path_max_len
  (fun s => groups_ok (dupGroups s)) dup_prog.
Proof.
  assert (Hadv := acts_wp_advance (J := fun s => groups_ok (dupGroups s)) dup_act_keeps answers).
  split.
  - constructor.
  - intros c k r H Hr. by apply H.
  - intros p a ls a' ls' t HJ Hp E. by eapply Hadv.
  - intros u s ls a' ls' t HJ _ E. eapply Hadv; [done| |done]. ui_cases u;
      try (apply acts_ok_wp; handler_acts; exact I). apply dup_runDetect.
  - intros s _. apply acts_ok_wp. unfold debounced. handler_acts; exact I.
  - intros s _. apply acts_ok_wp. handler_acts; exact I.
  - intros e _ _. apply acts_ok_wp, run_setters_quiet, on_event_ok. by intros [].
  - intros p _. apply acts_ok_wp, run_setters_quiet, on_scan_progress_ok. by intros [].
  - apply acts_ok_wp. handler_acts; exact I.
  - apply acts_ok_wp. handler_acts; exact I.
Qed.

(** Every displayed group of duplicates has at least two files, also after
    deletions, provided the back end only reports such groups. *)
Theorem shown_groups_are_duplicates w :
  reachable defaults inTauri has_clipboard path_max_len w ->
  Forall (fun g => (2 <= length (files g))%nat) (filteredGroups (app w)).
Proof.
  intros (HJ & _)%(holds_reachable _ _ _ _ dup_inductive). by apply filterb_Forall_keep.
Qed.
End Duplicates.

(** ** The requests *)

(** Accepted by the back end; saving the configuration is the exception, see
    [writeConfig_accepted]. *)
Definition sent_ok (r : request) : Prop := accepted r \/ rq_cmd r = js "write_config".

Lemma only_races_mono {A} (Q Q' : request -> Prop) (p : prog action A) :
  (forall r, Q r -> Q' r) -> only_races Q p -> only_races Q' p.
Proof.
  intros H. induction p as [a|e|a k IH|c k IH]; simpl; [done..|auto|]. intros [Hc Hk].
  split; [destruct c; auto|auto].
Qed.

Lemma sent_accepted {A} (p : prog action A) : only_races accepted p -> only_races sent_ok p.
Proof. apply only_races_mono. by left. Qed.

Ltac race_step :=
  match goal with
  | |- only_races _ (bind _ _) => apply only_races_bind; [|intros ?]
  | |- only_races _ (try_catch _ _) => apply only_races_catch; [|intros ?]
  | |- only_races _ (try_finally _ _) => apply only_races_finally
  | |- only_races _ (Ret _) => exact I
  | |- only_races _ (set _) => exact I
  | |- only_races _ (logError _ _) => exact I
  | |- only_races _ (do_act _) => exact I
  | |- only_races _ (await_sum _ _) => split; [exact I|intros [?|?]; exact I]
  | |- only_races _ (confirm _) => exact I
  | |- only_races _ (match ?x with _ => _ end) => destruct x
  | |- only_races _ (if ?x then _ else _) => destruct x
  | |- only_races _ (readConfig _) => apply sent_accepted, readConfig_accepted
  | |- only_races _ (resetConfig _) => apply sent_accepted, resetConfig_accepted
  | |- only_races _ (scanPathsProgress _ _) => apply sent_accepted, scanPathsProgress_accepted, uint_ok_500
  | |- only_races _ (scanAndIndexPipeline _ _ _ _ _) => apply sent_accepted, scanAndIndexPipeline_accepted
  | |- only_races _ (startAutoScanNow _) => apply sent_accepted, startAutoScanNow_accepted
  | |- only_races _ (openLocation _ _) => apply sent_accepted, openLocation_accepted
  | |- only_races _ (detectDuplicates _ _) => apply sent_accepted, detectDuplicates_accepted
  | |- only_races _ (deleteFileAndIndex _ _ _) => apply sent_accepted, deleteFileAndIndex_accepted
  | |- only_races _ (diagnosticsReport _) => apply sent_accepted, diagnosticsReport_accepted
  | |- only_races _ (writeConfig ?d ?cfg) =>
      refine (only_races_invoke sent_ok d RUnit (js "write_config") _ _ _); right; reflexivity
  | |- only_races _ (searchQuery _ _) => fail 1
  | |- only_races _ ?p => let h := head_of p in unfold h
  end.
Ltac handler_races := repeat race_step.

Section Requests.
Context (defaults : invoke_defaults) (inTauri has_clipboard : bool) {B : Backend} (path_max_len : number).

Definition no_sizes (s : App) : Prop := minSize s = [] /\ maxSize s = [].
Definition size_act (a : action) : Prop :=
  match a with Set_ (SetMinSize _) | Set_ (SetMaxSize _) => False | _ => True end.
Definition sends_ok (p : prog_) : Prop := only_races sent_ok p /\ acts_ok size_act p.

Lemma filters_without_sizes s f : no_sizes s -> search_filters s = Some f -> request_ok f.
Proof.
  intros [H1 H2]. unfold search_filters. rewrite H1, H2.
  change (size_filter []) with (@None number).
  destruct (parseCSV (extFilter s)); [done|]. intros [= <-]. split; intros x; simpl; done.
Qed.

Lemma doSearch_sends s : no_sizes s -> sends_ok (doSearch defaults inTauri s).
Proof.
  intros Hs. split; [|handler_acts; exact I]. handler_races.
  apply sent_accepted, searchQuery_accepted. intros f. by apply filters_without_sizes.
Qed.

Lemma sends_react u s : no_sizes s -> sends_ok (react defaults inTauri has_clipboard u s).
Proof.
  intros Hs. ui_cases u; try (split; [handler_races|handler_acts; exact I]; fail).
  - unfold search_key. destruct (bool_decide _); [by apply doSearch_sends|done].
  - by apply doSearch_sends.
Qed.

Lemma sends_advance p a ls a' ls' t : no_sizes a -> sends_ok p -> advance p a ls = (a', ls', t) ->
  no_sizes a' /\ forall q, t = Some q -> sends_ok q.
Proof.
  intros Ha [Hr Hp]. revert a ls Ha Hr Hp. induction p as [x|e|act k IH|c k IH]; intros a ls Ha Hr Hp; simpl.
  - by intros [= <- _ <-].
  - by intros [= <- _ <-].
  - destruct Hp as [Hact Hp]. destruct act as [x| | |]; [|by apply IH..].
    apply IH; [|done..]. by destruct x.
  - intros [= <- _ <-]. split; [done|]. by intros q [= <-].
Qed.

Lemma sends_inductive : inductive defaults inTauri has_clipboard path_max_len no_sizes sends_ok.
Proof.
  split.
  - done.
  - intros c k r [[_ H1] H2] _. split; [apply H1|apply H2].
  - apply sends_advance.
  - intros u s ls a' ls' t Hs _. apply sends_advance; [done|by apply sends_react].
  - intros s Hs. unfold debounced. destruct (truthy _); [by apply doSearch_sends|done].
  - intros s _. split; [handler_races|handler_acts; exact I].
  - intros e _ _. split; [by destruct e as [p| |[n|]|p]|]. apply run_setters_quiet, on_event_ok. by intros [].
  - intros p _. split; [unfold on_scan_progress; by destruct (sp_current p), (sp_path p) as [[|]|]|].
    apply run_setters_quiet, on_scan_progress_ok. by intros [].
  - split; [handler_races|handler_acts; exact I].
  - split; [handler_races|handler_acts; exact I].
Qed.

(** C19. Whatever the user does, every request the application has in flight or
    will still send, however its answers come, names a registered command and
    carries arguments the back end deserializes; the one exception is saving the
    configuration, whose path limit can be any number typed. *)
Theorem app_requests_accepted w :
  reachable defaults inTauri has_clipboard path_max_len w ->
  Forall (only_races (fun r => accepted r \/ rq_cmd r = js "write_config")) (tasks w).
Proof.
  intros (_ & HP & _)%(holds_reachable _ _ _ _ sends_inductive).
  eapply Forall_impl; [done|]. by intros p [H _].
Qed.

(** The size filters cannot be set from the pages: they are empty in every
    reachable state, so a search is only ever filtered by file type. *)
Theorem size_filters_unused w :
  reachable defaults inTauri has_clipboard path_max_len w ->
  minSize (app w) = [] /\ maxSize (app w) = []
  /\ forall f, search_filters (app w) = Some f -> sf_min_size f = None /\ sf_max_size f = None.
Proof.
  intros ([H1 H2] & _)%(holds_reachable _ _ _ _ sends_inductive). split_and!; [done..|].
  intros f. unfold search_filters. rewrite H1, H2. change (size_filter []) with (@None number).
  destruct (parseCSV _); [done|]. by intros [= <-].
Qed.
End Requests.

(** ** Handlers end *)

Lemma calls_le_0 {A} (p : prog action A) n : calls_le 0 p -> calls_le n p.
Proof. apply calls_le_mono. lia. Qed.

Ltac calls_step :=
  match goal with
  | |- calls_le 0 (bind (set _) _) => exact I
  | |- calls_le _ (bind _ _) => eapply calls_le_bind; [|intros ?]
  | |- calls_le _ (try_catch _ _) => eapply calls_le_catch; [|intros ?]
  | |- calls_le _ (try_finally _ _) => eapply calls_le_finally
  | |- calls_le _ (set _) => apply (calls_le_0 (set _) 0); exact I
  | |- calls_le _ (logError _ _) => apply (calls_le_0 (logError _ _) 0); exact I
  | |- calls_le _ (do_act _) => apply (calls_le_0 (do_act _) 0); exact I
  | |- calls_le _ (Ret _) => first [apply (calls_le_0 (Ret _) 0)|apply (calls_le_0 (Ret _))]; exact I
  | |- calls_le _ (await_sum _ _) =>
      apply (calls_le_mono 1 1 (await_sum _ _)); [exact (le_n 1)|intros [?|?]; exact I]
  | |- calls_le _ (confirm _) => exact (I : calls_le 0 (confirm _))
  | |- calls_le _ (match ?x with _ => _ end) => destruct x
  | |- calls_le _ (if ?x then _ else _) => destruct x
  | |- calls_le _ (safeInvoke ?d ?T ?c ?p ?o) => exact (calls_le_invoke d T c p o)
  | |- calls_le _ ?p => let h := head_of p in unfold h
  end.
(** The number of calls along the longest path, up to [lia]. *)
Ltac handler_calls := eapply calls_le_mono; [|repeat calls_step]; cbn [opt_retries with_timeout default]; try lia.

Lemma attempt_bound_1 : attempt_bound (of_Z 1) = 2%nat.
Proof. vm_compute. reflexivity. Qed.

(** Every handler ends: whatever element starts it and whatever the answers are,
    it waits for at most [2 + 2 * a] of them, where [a] is the number of attempts
    the configured retries allow. *)
Lemma calls_le_react d b hc u s :
  calls_le (2 + 2 * attempt_bound (retries d)) (react d b hc u s).
Proof.
  pose proof attempt_bound_1.
  ui_cases u.
  all: match goal with
       | |- calls_le _ (set _) => apply (calls_le_0 (set _)); exact I
       | _ => handler_calls
       end.
  all: change (id (of_Z 1)) with (of_Z 1); lia.
Qed.
