(* ===== verification/AppLiveness.v ===== *)
(** * App.tsx: the application comes to rest

    [internal] is the part of the transition system that goes on without the
    user and without events of the back end: answers to suspended handlers and
    the search timer.  A weight bounds how long that can last: the answers the
    handlers can still wait for, the pending timer, and the page the end of a
    search may return to, which sets the timer once more. *)

From stdpp Require Import relations.
From S2P Require Import Prelude JsNumber JsString JsConvert StringUtil PathUtil SizeUtil Types Effects SortResults Invoke Wire ProgLogic AppState Handlers AppSystem AppInvariants.

(** ** Setters that leave the search fields alone *)

(** A suspended handler sets no field of the search request, and goes to no
    page but the search page. *)
Definition steady_act (a : action) : Prop :=
  match a with
  | Set_ (SetQuery _) | Set_ (SetExtFilter _) | Set_ (SetMinSize _) | Set_ (SetMaxSize _) => False
  | Set_ (SetPage p) => p = PSearch
  | _ => True
  end.

(** The actions from the first suspension on. *)
Fixpoint acts_later {A} (Q : action -> Prop) (p : prog action A) : Prop :=
  match p with
  | Ret _ | Throw _ => True
  | Act _ k => acts_later Q k
  | Call c k => forall r, acts_ok Q (k r)
  end.

Lemma acts_ok_later {A} Q (p : prog action A) : acts_ok Q p -> acts_later Q p.
Proof. induction p as [x|e|a k IH|c k IH]; simpl; [done..|intros []; auto|done]. Qed.

Lemma advance_acts_later Q (p : prog_) a ls a' ls' q :
  acts_later Q p -> advance p a ls = (a', ls', Some q) -> acts_ok Q q.
Proof.
  revert a ls. induction p as [x|e|act k IH|c k IH]; intros a ls Hp; simpl; try done.
  - destruct act; by apply IH.
  - by intros [= _ _ <-].
Qed.

Lemma advance_calls_le n (p : prog_) a ls a' ls' q :
  calls_le n p -> advance p a ls = (a', ls', Some q) -> calls_le n q.
Proof.
  revert a ls. induction p as [x|e|act k IH|c k IH]; intros a ls Hp; simpl; try done.
  - destruct act; by apply IH.
  - by intros [= _ _ <-].
Qed.

(** Steady programs keep the search fields, and the page or go to the search page. *)
Lemma advance_steady (p : prog_) a ls a' ls' t : acts_ok steady_act p -> advance p a ls = (a', ls', t) ->
  search_deps a' = search_deps a \/ (page a <> PSearch /\ page a' = PSearch).
Proof.
  revert a ls. induction p as [x|e|act k IH|c k IH]; intros a ls Hp; simpl.
  - intros [= <- _ _]. by left.
  - intros [= <- _ _]. by left.
  - destruct Hp as [Ha Hp]. destruct act as [x| | |]; [|by apply IH..]. intros E%IH; [|done].
    destruct x; try exact E; try done. simpl in Ha. subst v.
    unfold search_deps in E. simpl in E.
    destruct (decide (page a = PSearch)) as [Ep|Ep].
    + left. unfold search_deps. rewrite Ep. destruct E as [E|[[] _]]; done.
    + right. split; [done|]. destruct E as [E|[[] _]]; [|done]. by injection E.
  - intros [= <- _ _]. by left.
Qed.

(** Every call gets some answer: a command settles or its timer fires, a dialog
    is closed, a subscription resolves or is refused. *)
Class Responsive (B : Backend) : Prop := {
  responds : forall c w, exists r, answers c r /\ fresh_answer c r w;
}.

Section Liveness.
Context (defaults : invoke_defaults) (inTauri has_clipboard : bool) {B : Backend} (path_max_len : number).

(** ** The steps *)

Inductive internal : world -> world -> Prop :=
| internal_answer w l1 l2 c k r :
    tasks w = l1 ++ Call c k :: l2 -> answers c r -> fresh_answer c r w ->
    internal w (run inTauri (k r) (subscribed c r (with_tasks (l1 ++ l2) w)))
| internal_timer w snapshot :
    debounce w = Some snapshot ->
    internal w (run inTauri (debounced defaults inTauri snapshot) (with_debounce None w)).

Lemma internal_step w w' : internal w w' -> step defaults inTauri has_clipboard w w'.
Proof. destruct 1; by econstructor. Qed.

Definition at_rest (w : world) : Prop := tasks w = [] /\ debounce w = None /\ busy (app w) = false.

(** ** Suspended handlers of reachable states *)

(** The answers one handler can wait for. *)
Definition patience : nat := 2 + 2 * attempt_bound (retries defaults).

Definition waiting (p : prog_) : Prop :=
  (exists c k, p = Call c k) /\ calls_le patience p /\ acts_ok steady_act p.
Definition startable (p : prog_) : Prop := calls_le patience p /\ acts_later steady_act p.

Lemma waiting_run p w : Forall waiting (tasks w) -> startable p -> Forall waiting (tasks (run inTauri p w)).
Proof.
  intros Hw [Hc Ha]. unfold run. destruct (advance p (app w) (listeners w)) as [[a ls] t] eqn:E. simpl.
  apply Forall_app. split; [done|]. destruct t as [q|]; simpl; [|done]. constructor; [|done].
  split_and!; [by eapply advance_suspended|by eapply advance_calls_le|by eapply advance_acts_later].
Qed.

Lemma search_startable s : startable (doSearch defaults inTauri s).
Proof.
  split; [|apply acts_ok_later; handler_acts; by try exact I].
  unfold patience. pose proof attempt_bound_1. handler_calls. change (id (of_Z 1)) with (of_Z 1). lia.
Qed.

Lemma debounced_startable s : startable (debounced defaults inTauri s).
Proof. unfold debounced. destruct (truthy _); [apply search_startable|done]. Qed.

Lemma react_steady u s : acts_later steady_act (react defaults inTauri has_clipboard u s).
Proof.
  ui_cases u; try exact I; try (apply acts_ok_later; handler_acts; by try exact I).
Qed.

Lemma setters_startable l : startable (run_setters l).
Proof. split; induction l; simpl; done. Qed.

Lemma diagnostics_startable s : startable (diagnostics_effect defaults inTauri s).
Proof.
  split; [|apply acts_ok_later; handler_acts; by try exact I]. 
  unfold diagnostics_effect, when_tauri, patience. destruct inTauri, (diag s); try exact I. handler_calls.
Qed.

Lemma load_startable : startable (load_config_effect defaults inTauri).
Proof.
  split; [|apply acts_ok_later; handler_acts; by try exact I]. unfold patience. handler_calls.
Qed.

Lemma preview_startable : startable (preview_effect inTauri).
Proof. unfold preview_effect. by destruct inTauri. Qed.

Lemma waiting_reachable w : reachable defaults inTauri has_clipboard path_max_len w -> Forall waiting (tasks w).
Proof.
  apply (rtc_ind_r (fun w => Forall waiting (tasks w))).
  - unfold mount. apply waiting_run; [|apply load_startable]. apply waiting_run; [done|apply preview_startable].
  - intros w1 w2 _ St Hw. destruct St as [v u Hu|v l1 l2 c k r E Hr Hf|v e HT He|v id payload Hid Hpay|v snap Hs|v Hp].
    + apply waiting_run; [done|]. split; [apply calls_le_react|apply react_steady].
    + rewrite E in Hw. apply Forall_app in Hw as [H1 [(_ & Hc & Ha) H2]%Forall_cons].
      apply waiting_run.
      * replace (tasks (subscribed c r (with_tasks (l1 ++ l2) v))) with (l1 ++ l2) by (destruct c; by try destruct r).
        by apply Forall_app.
      * split; [|by apply acts_ok_later]. unfold patience in *. simpl in Hc.
        apply (calls_le_mono (1 + 2 * attempt_bound (retries defaults))); [lia|]. apply Hc.
    + apply waiting_run; [done|apply setters_startable].
    + apply waiting_run; [done|apply setters_startable].
    + apply waiting_run; [done|apply debounced_startable].
    + apply waiting_run; [done|apply diagnostics_startable].
Qed.

(** ** The weight *)

Definition timer_weight (w : world) : nat := match debounce w with Some _ => 3 | None => 0 end.
Definition page_weight (w : world) : nat := if bool_decide (page (app w) = PSearch) then 0 else 4.

(** [n] bounds what is left to happen. *)
Definition weighs (w : world) (n : nat) : Prop :=
  exists ns, Forall2 calls_le ns (tasks w) /\ n = sum_list ns + timer_weight w + page_weight w.

Lemma weighs_reachable w : reachable defaults inTauri has_clipboard path_max_len w ->
  exists n, weighs w n /\ n <= length (tasks w) * patience + 7.
Proof.
  intros Hw%waiting_reachable. eexists. split.
  - exists (replicate (length (tasks w)) patience). split; [|done].
    induction Hw as [|p l (_ & Hp & _) _ IH]; simpl; by constructor.
  - assert (sum_list (replicate (length (tasks w)) patience) = length (tasks w) * patience) as ->.
    { generalize (length (tasks w)) as m. induction m; simpl; lia. }
    unfold timer_weight, page_weight. destruct (debounce w); case_bool_decide; lia.
Qed.

(** Running a steady program that waits for at most [m] answers. *)
Lemma run_weight p w m ns : acts_ok steady_act p -> calls_le m p -> Forall2 calls_le ns (tasks w) ->
  exists n', weighs (run inTauri p w) n' /\ n' <= sum_list ns + m + timer_weight w + page_weight w.
Proof.
  intros Ha Hc Hns. unfold weighs, run.
  destruct (advance p (app w) (listeners w)) as [[a ls] t] eqn:E. simpl.
  assert (exists ns', Forall2 calls_le ns' (tasks w ++ option_list t) /\ sum_list ns' <= sum_list ns + m)
    as (ns' & Hns' & Hle).
  { destruct t as [q|]; simpl.
    - exists (ns ++ [m]). split; [|rewrite sum_list_with_app; simpl; lia].
      apply Forall2_app; [done|]. constructor; [by eapply advance_calls_le|done].
    - exists ns. rewrite app_nil_r. split; [done|lia]. }
  eexists. split; [by exists ns'|]. cbn.
  unfold timer_weight, page_weight, rerender. cbn.
  destruct (advance_steady _ _ _ _ _ _ Ha E) as [Ed|[Ep Ep']].
  - rewrite Ed. rewrite bool_decide_true by done. injection Ed as _ _ _ _ ->. lia.
  - rewrite (bool_decide_true (page a = PSearch)), (bool_decide_false (page (app w) = PSearch)) by done.
    case_bool_decide; [destruct (debounce w); lia|]. destruct (inTauri && _); lia.
Qed.

Lemma internal_weight w w' n : Forall waiting (tasks w) -> weighs w n -> internal w w' ->
  exists n', weighs w' n' /\ n' < n.
Proof.
  intros Hw (ns & Hns & ->) St. destruct St as [v l1 l2 c k r E Hr Hf|v snap Hs].
  - rewrite E in Hw, Hns. apply Forall_app in Hw as [_ [(_ & _ & Ha) _]%Forall_cons].
    apply Forall2_app_inv_r in Hns as (ns1 & ns2' & H1 & H2 & ->).
    apply Forall2_cons_inv_r in H2 as (m & ns2 & Hm & H2 & ->).
    destruct m as [|m]; [done|].
    set (v' := subscribed c r (with_tasks (l1 ++ l2) v)).
    assert (tasks v' = l1 ++ l2 /\ timer_weight v' = timer_weight v /\ page_weight v' = page_weight v) as (Et & Eb & Ep).
    { unfold v'. destruct c; try done. by destruct r. }
    destruct (run_weight (k r) v' m (ns1 ++ ns2)) as (n' & Hn' & Hle); [apply Ha|apply Hm|rewrite Et; by apply Forall2_app|].
    exists n'. split; [done|]. rewrite sum_list_with_app in *. simpl. lia.
  - destruct (run_weight (debounced defaults inTauri snap) (with_debounce None v) 2 ns) as (n' & Hn' & Hle).
    + unfold debounced. destruct (truthy _); [|done]. handler_acts; by try exact I.
    + unfold debounced. destruct (truthy _); [|done]. pose proof attempt_bound_1. handler_calls.
      change (id (of_Z 1)) with (of_Z 1). lia.
    + done.
    + exists n'. split; [done|]. unfold timer_weight, page_weight in *. rewrite Hs. simpl in Hle. lia.
Qed.

Lemma reachable_internal w w' n : reachable defaults inTauri has_clipboard path_max_len w ->
  nsteps internal n w w' -> reachable defaults inTauri has_clipboard path_max_len w'.
Proof.
  unfold reachable. intros Hr Hn. etransitivity; [exact Hr|]. apply rtc_nsteps_2 in Hn.
  eapply rtc_subrel; [|done]. intros x y. apply internal_step.
Qed.

Lemma nsteps_weight w w' m n : reachable defaults inTauri has_clipboard path_max_len w ->
  weighs w n -> nsteps internal m w w' -> exists n', weighs w' n' /\ n' + m <= n.
Proof.
  intros Hr Hn Hm. revert n Hn. induction Hm as [v|m v1 v2 v3 St Hm IH]; intros n Hn; [exists n; split; [done|lia]|].
  destruct (internal_weight v1 v2 n (waiting_reachable _ Hr) Hn St) as (n' & Hn' & Hlt).
  destruct (IH (reachable_internal _ _ 1 Hr (nsteps_once _ _ St)) n' Hn') as (n'' & Hn'' & Hle).
  exists n''. split; [done|lia].
Qed.

(** What is not at rest goes on. *)
Lemma internal_progress {R : Responsive B} w : reachable defaults inTauri has_clipboard path_max_len w ->
  (exists w', internal w w') \/ at_rest w.
Proof.
  intros Hr. destruct (tasks w) as [|p l] eqn:Et.
  - destruct (debounce w) as [snap|] eqn:Ed; [left; eexists; by apply internal_timer|right].
    split_and!; [done..|]. destruct (busy_reachable _ _ _ _ _ Hr) as [_ HB].
    destruct (busy (app w)); [|done]. specialize (HB eq_refl). rewrite Et in HB. by inv HB.
  - left. pose proof (waiting_reachable w Hr) as Hw. rewrite Et in Hw.
    apply Forall_cons in Hw as [((c & k & ->) & _) _].
    destruct (responds c w) as (r & Hans & Hf). eexists.
    by apply (internal_answer w [] l c k r).
Qed.

Lemma rest_of_weight {R : Responsive B} n w : reachable defaults inTauri has_clipboard path_max_len w ->
  weighs w n -> exists w', rtc internal w w' /\ at_rest w'.
Proof.
  revert w. induction n as [n IH] using lt_wf_ind. intros w Hr Hn.
  destruct (internal_progress w Hr) as [[w1 St]|Hrest]; [|by exists w; split; [apply rtc_refl|]].
  destruct (internal_weight w w1 n (waiting_reachable _ Hr) Hn St) as (n' & Hn' & Hlt).
  destruct (IH n' Hlt w1 (reachable_internal _ _ 1 Hr (nsteps_once _ _ St)) Hn') as (w' & Hw' & Hrest).
  exists w'. split; [by eapply rtc_l|done].
Qed.

(** C18. Left alone, the application comes to rest: from every reachable state,
    however the calls are answered and whenever the search timer fires, after at
    most [t * (2 + 2 * a) + 7] such steps ([t] the suspended handlers, [a] the
    attempts the configured retries allow) no handler is suspended, no timer is
    pending and the busy mark is clear; and as long as that is not so, some
    answer or timer is due. *)
Theorem app_comes_to_rest {R : Responsive B} w :
  reachable defaults inTauri has_clipboard path_max_len w ->
  (forall m w', nsteps internal m w w' ->
     m <= length (tasks w) * (2 + 2 * attempt_bound (retries defaults)) + 7
     /\ ((exists w'', internal w' w'') \/ at_rest w'))
  /\ (exists w', rtc internal w w' /\ at_rest w').
Proof.
  intros Hr. destruct (weighs_reachable w Hr) as (n & Hn & Hle). split; [|by eapply rest_of_weight].
  intros m w' Hm. destruct (nsteps_weight w w' m n Hr Hn Hm) as (n' & _ & Hle').
  unfold patience in Hle. split; [lia|]. apply internal_progress. by eapply reachable_internal.
Qed.
End Liveness.
