(* ===== verification/AppCounts.v ===== *)
(** * App.tsx: the counters of a scan and of an index build

    Four numbers of the state come from the back end.  What it sends are counts;
    this file shows that the state then only ever holds counts, and what that
    means for the progress displayed on the index page. *)

From stdpp Require Import relations.
From S2P Require Import Prelude JsNumber JsString JsConvert StringUtil PathUtil SizeUtil DateUtil Types Effects SortResults Invoke Wire ProgLogic AppState Handlers AppSystem Highlight Views AppInvariants.
#[local] Open Scope Z_scope.

(** A finite number that is not negative. *)
Definition count (x : number) : Prop := match x with Fin k => 0 <= k | _ => False end.
Definition opt_count (o : option number) : Prop := match o with Some x => count x | None => True end.

(** The events carry counts (they are [usize] on the other side). *)
Definition event_counts (e : backend_event) : Prop :=
  match e with
  | IndexProgress p => opt_count (ip_current p) /\ opt_count (ip_total p)
  | ScanDone total => opt_count total
  | IndexDone | AutoScanStart _ => True
  end.

Class CountContract (B : Backend) : Prop := {
  emitted_counts : forall e, emits e -> event_counts e;
  reported_counts : forall p, reports p -> opt_count (sp_current p);
}.

Lemma count_0 : count (of_Z 0).
Proof. rewrite of_Z_small by lia. simpl. lia. Qed.

Definition counters_ok (s : App) : Prop :=
  count (scanCount s) /\ count (idxCurrent s) /\ count (idxTotal s) /\ count (lastScanTotal s).

Definition count_act (a : action) : Prop :=
  match a with
  | Set_ (SetScanCount n) | Set_ (SetIdxCurrent n) | Set_ (SetIdxTotal n) | Set_ (SetLastScanTotal n) => count n
  | _ => True
  end.

Lemma count_act_keeps x s : count_act (Set_ x) -> counters_ok s -> counters_ok (apply x s).
Proof. intros Hx (H1 & H2 & H3 & H4). destruct x; by split_and!. Qed.

Lemma on_event_counts e : event_counts e -> Forall (fun x => count_act (Set_ x)) (on_event e).
Proof.
  pose proof count_0.
  destruct e as [[cur tot name path skip]| |[n|]|p]; cbn -[of_Z count]; [intros [H1 H2]|intros H1..];
    [destruct cur, tot|..]; repeat constructor; assumption.
Qed.

Lemma on_scan_progress_counts p : opt_count (sp_current p) -> Forall (fun x => count_act (Set_ x)) (on_scan_progress p).
Proof.
  intros H. unfold on_scan_progress. apply Forall_app. split.
  - destruct (sp_current p); repeat constructor. exact H.
  - destruct (sp_path p) as [d|]; [|constructor]. destruct (truthy d); repeat constructor.
Qed.

Section Counts.
Context (defaults : invoke_defaults) (inTauri has_clipboard : bool) {B : Backend} {K : CountContract B}
  (path_max_len : number).
Abbreviation count_prog := (acts_wp answers count_act (fun _ => True)).

Lemma counts_inductive : inductive defaults inTauri has_clipboard path_max_len counters_ok count_prog.
Proof.
  assert (Hadv := acts_wp_advance (J := counters_ok) count_act_keeps answers). pose proof count_0.
  split.
  - by split_and!.
  - intros c k r Hp Hr. by apply Hp.
  - intros p a ls a' ls' t HJ Hp E. by eapply Hadv.
  - intros u s ls a' ls' t HJ _ E. eapply Hadv; [done| |done]. apply acts_ok_wp.
    ui_cases u; handler_acts; first [exact I|assumption].
  - intros s _. apply acts_ok_wp. handler_acts; exact I.
  - intros s _. apply acts_ok_wp. handler_acts; exact I.
  - intros e _ He. apply acts_ok_wp, run_setters_quiet, on_event_counts. by apply emitted_counts.
  - intros p Hp. apply acts_ok_wp, run_setters_quiet, on_scan_progress_counts. by apply reported_counts.
  - apply acts_ok_wp. handler_acts; exact I.
  - apply acts_ok_wp. handler_acts; exact I.
Qed.

(** The counters are well typed in every reachable state, given that the
    events carry counts: each is a finite, non-negative number; the progress bar
    is therefore always a whole percentage from 0 to 100. *)
Theorem counters_well_typed w :
  reachable defaults inTauri has_clipboard path_max_len w ->
  count (scanCount (app w)) /\ count (idxCurrent (app w)) /\ count (idxTotal (app w))
  /\ count (lastScanTotal (app w))
  /\ exists p, progress_percent (app w) = of_Z p /\ 0 <= p <= 100.
Proof.
  intros ((H1 & H2 & H3 & H4) & _)%(holds_reachable _ _ _ _ counts_inductive). split_and!; [done..|].
  destruct (idxCurrent (app w)) as [| |a] eqn:Ea; [done..|].
  destruct (idxTotal (app w)) as [| |b] eqn:Eb; [done..|].
  exact (proj1 (progress_percent_range (app w) a b Ea Eb H2 H3)).
Qed.
End Counts.
