(* ===== verification/AppPaths.v ===== *)
(** * App.tsx: where paths come from

    The pages let the user open, locate and delete files; the paths they pass on
    come from the back end: from a scan, from the rows of a search, from the
    groups of duplicates among such paths.  If the back end only reports paths
    with a property, the state only holds such paths, and every request asks for
    the deletion of such a path or for the duplicates among such paths.

    The requests also ask for the type their command returns, and none is for the
    two commands that build an index from a list of files. *)

From stdpp Require Import relations.
From S2P Require Import Prelude JsNumber JsString JsConvert StringUtil PathUtil SizeUtil Types Effects SortResults Invoke Wire ProgLogic AppState Handlers AppSystem FileSystem RustStd Config Scan Commands AppInvariants.

Section Paths.
Context (os : platform) (ok : jsstr -> Prop).

(** The paths a command works on. *)
Definition path_command (c : command) : Prop :=
  match c with
  | DeleteFileAndIndex p _ => ok p
  | DetectDuplicates ps => Forall ok ps
  | BuildInvertedIndex _ _ _ | BuildInvertedIndexProgress _ _ _ => False
  | _ => True
  end.

Definition asks_well (rq : request) : Prop :=
  return_type command_returns (rq_cmd rq) = Some (rq_ret rq) /\ forall c, decode os rq = Some c -> path_command c.

Definition call_asks (c : cmd) : Prop := match c with Race rq => asks_well rq | _ => True end.

(** What the application expects of the paths it gets. *)
Class PathContract (B : Backend) : Prop := {
  scanned_paths : forall payload ms l,
    answers (Race {| rq_cmd := js "scan_paths_progress"; rq_payload := payload; rq_timeoutMs := ms; rq_ret := RFiles |})
      (Resolved l) -> Forall (fun f => ok (fm_path f)) l;
  found_paths : forall payload ms l,
    answers (Race {| rq_cmd := js "search_query"; rq_payload := payload; rq_timeoutMs := ms; rq_ret := RResults |})
      (Resolved l) -> Forall (fun r => ok (sr_path r)) l;
  grouped_paths : forall ps ms l,
    answers (Race {| rq_cmd := js "detect_duplicates"; rq_payload := VObj [("paths"%string, strs_val ps)];
                     rq_timeoutMs := ms; rq_ret := RGroups |}) (Resolved l) ->
    Forall ok ps -> Forall (fun g => Forall ok (files g)) l;
}.

(** The paths of the state. *)
Definition paths_ok (s : App) : Prop :=
  Forall (fun f => ok (fm_path f)) (scanned s) /\ Forall (fun r => ok (sr_path r)) (results s)
  /\ Forall (fun g => Forall ok (files g)) (dupGroups s).

Definition path_act (a : action) : Prop :=
  match a with
  | Set_ (SetScanned l) => Forall (fun f => ok (fm_path f)) l
  | Set_ (SetResults l) => Forall (fun r => ok (sr_path r)) l
  | Set_ (SetDupGroups l) => Forall (fun g => Forall ok (files g)) l
  | _ => True
  end.

Lemma path_act_keeps x s : path_act (Set_ x) -> paths_ok s -> paths_ok (apply x s).
Proof.
  intros Hx (H1 & H2 & H3). destruct x; try done. split_and!; [done..|]. simpl. unfold remove_dup_file.
  apply filterb_Forall_keep, Forall_fmap. eapply Forall_impl; [exact H3|]. intros g Hg. simpl. by apply filterb_Forall_keep.
Qed.

Section System.
Context (defaults : invoke_defaults) (inTauri has_clipboard : bool) {B : Backend} {K : PathContract B} (path_max_len : number).
Abbreviation path_prog := (prog_wp answers call_asks path_act (fun _ => True)).

(** *** Requests by name *)

(** A command that works on no paths. *)
Definition harmless (name : jsstr) : Prop := forall c, command_name c = name -> path_command c.

Lemma asks_harmless rq : return_type command_returns (rq_cmd rq) = Some (rq_ret rq) -> harmless (rq_cmd rq) -> asks_well rq.
Proof. intros Hr Hh. split; [done|]. intros c Hd%decode_name. by apply Hh. Qed.

(** Opens a handler down to its calls. *)
Ltac call_step :=
  match goal with
  | |- calls_ok _ (bind _ _) => apply calls_ok_bind; [|intros ?]
  | |- calls_ok _ (try_catch _ _) => apply calls_ok_catch; [|intros ?]
  | |- calls_ok _ (try_finally _ _) => apply calls_ok_finally
  | |- calls_ok _ (set _) => exact I
  | |- calls_ok _ (logError _ _) => exact I
  | |- calls_ok _ (do_act _) => exact I
  | |- calls_ok _ (Ret _) => exact I
  | |- calls_ok _ (Throw _) => exact I
  | |- calls_ok _ (await_sum _ _) => split; [exact I|intros [?|?]; exact I]
  | |- calls_ok _ (confirm _) => exact I
  | |- calls_ok _ (match ?x with _ => _ end) => destruct x
  | |- calls_ok _ (if ?x then _ else _) => destruct x
  | |- calls_ok ?R (safeInvoke ?d ?T ?n ?v ?o) =>
      apply (calls_ok_invoke R d T n v o), asks_harmless;
      [reflexivity|intros c H; destruct c; try exact I; exfalso; vm_compute in H; discriminate H]
  | |- calls_ok _ ?p => let h := head_of p in unfold h
  end.
Ltac handler_calls := repeat call_step.

(** Handlers that neither take paths in nor pass them on. *)
Ltac pathless := apply prog_wp_of; [handler_acts; exact I|handler_calls].

Lemma wp_pathless {A} (p : prog action A) : acts_ok path_act p -> calls_ok call_asks p ->
  prog_wp answers call_asks path_act (fun _ => True) p.
Proof. apply prog_wp_of. Qed.

Lemma wp_scan_with_progress s :
  prog_wp answers call_asks path_act (fun l => Forall (fun f => ok (fm_path f)) l) (scan_with_progress defaults s).
Proof.
  unfold scan_with_progress. eapply prog_wp_bind; [pathless|]. intros un _.
  apply (prog_wp_bind _ _ _ (fun l => Forall (fun f => ok (fm_path f)) l)); [|intros l Hl; by split]. unfold scanPathsProgress.
  match goal with |- prog_wp ?G ?R ?Q _ (safeInvoke ?d ?T ?c ?p ?o) =>
    refine (prog_wp_invoke G R Q d T c p o (fun l => Forall (fun f => ok (fm_path f)) l) _ _) end.
  - apply asks_harmless; [reflexivity|]. intros c H. destruct c; try exact I; exfalso; vm_compute in H; discriminate H.
  - intros l. apply scanned_paths.
Qed.

(** The frame of a handler: marks, body, report of an error. *)
Lemma wp_busy_handler text context failure body : path_prog body ->
  path_prog (busy_handler text context failure body).
Proof.
  intros Hb. unfold busy_handler. do 2 (eapply prog_wp_bind; [pathless|intros _ _]).
  unfold finally_idle. apply prog_wp_finally; [|pathless]. unfold catch_report.
  apply prog_wp_catch; [done|]. intros e. pathless.
Qed.

Lemma wp_when_tauri p : path_prog p -> path_prog (when_tauri inTauri p).
Proof. intros Hp. unfold when_tauri. by destruct inTauri. Qed.

Lemma asks_detect ps ms : Forall ok ps ->
  asks_well {| rq_cmd := js "detect_duplicates"; rq_payload := VObj [("paths"%string, strs_val ps)];
               rq_timeoutMs := ms; rq_ret := RGroups |}.
Proof.
  intros Hp. split; [reflexivity|]. intros c Hd.
  assert (E : decode os {| rq_cmd := js "detect_duplicates"; rq_payload := VObj [("paths"%string, strs_val ps)];
                           rq_timeoutMs := ms; rq_ret := RGroups |} = Some (DetectDuplicates ps)).
  { unfold decode, rq_cmd, rq_payload.
    change (find_handler (handlers os) (js "detect_duplicates"))
      with (Some (fun fs => p ← field de_strs fs "paths"%string; Some (DetectDuplicates p))).
    cbn [mbind option_bind]. unfold field. simpl. by rewrite mapM_strs. }
  rewrite E in Hd. injection Hd as <-. exact Hp.
Qed.

Lemma asks_delete p dir ms : ok p ->
  asks_well {| rq_cmd := js "delete_file_and_index";
               rq_payload := VObj [("path", VStr p); ("index_dir", VStr dir); ("indexDir", VStr dir)]%string;
               rq_timeoutMs := ms; rq_ret := RUnit |}.
Proof.
  intros Hp. split; [reflexivity|]. intros c Hd. unfold decode, rq_cmd, rq_payload in Hd.
  change (find_handler (handlers os) (js "delete_file_and_index"))
    with (Some (fun fs => p ← field de_str fs "path"%string; d ← field de_str fs "indexDir"%string;
                          Some (DeleteFileAndIndex p d))) in Hd.
  injection Hd as <-. exact Hp.
Qed.

Lemma wp_runDetect s : paths_ok s -> path_prog (runDetect defaults inTauri s).
Proof.
  intros (Hs & _ & _). apply wp_when_tauri, wp_busy_handler.
  eapply (prog_wp_bind _ _ _ (Forall ok)).
  - destruct (scanned s) as [|f l]; [|by apply Forall_fmap].
    eapply prog_wp_bind; [apply wp_scan_with_progress|]. intros l Hl.
    eapply (prog_wp_bind _ _ _ (fun _ => True)); [by split|]. intros _ _. by apply Forall_fmap.
  - intros ps Hps. eapply prog_wp_bind; [pathless|]. intros _ _.
    apply (prog_wp_bind _ _ _ (fun l => Forall (fun g => Forall ok (files g)) l)); [|intros groups Hg].
    + unfold detectDuplicates.
      match goal with |- prog_wp ?G ?R ?Q _ (safeInvoke ?d ?T ?c ?p ?o) =>
        refine (prog_wp_invoke G R Q d T c p o (fun l => Forall (fun g => Forall ok (files g)) l) _ _) end.
      * by apply asks_detect.
      * intros l Ha. by eapply grouped_paths.
    + eapply (prog_wp_bind _ _ _ (fun _ => True)); [by split|]. intros _ _. pathless.
Qed.

Lemma wp_handleDelete s p : ok p -> path_prog (handleDelete defaults inTauri s p).
Proof.
  intros Hp. apply wp_when_tauri. eapply prog_wp_bind; [pathless|]. intros v _. destruct (truthy_value v); [|done].
  apply wp_busy_handler. eapply prog_wp_bind; [|intros _ _; pathless]. unfold deleteFileAndIndex.
  match goal with |- prog_wp ?G ?R ?Q _ (safeInvoke ?d ?T ?c ?p ?o) =>
    refine (prog_wp_invoke G R Q d T c p o (fun _ => True) _ _) end; [|done]. by apply asks_delete.
Qed.

Lemma wp_doSearch s : path_prog (doSearch defaults inTauri s).
Proof.
  apply wp_when_tauri, wp_busy_handler. eapply prog_wp_bind; [|intros rows Hr].
  - unfold searchQuery.
    match goal with |- prog_wp ?G ?R ?Q _ (safeInvoke ?d ?T ?c ?p ?o) =>
      refine (prog_wp_invoke G R Q d T c p o (fun l => Forall (fun r => ok (sr_path r)) l) _ _) end.
    + apply asks_harmless; [reflexivity|]. intros c H. destruct c; try exact I; exfalso; vm_compute in H; discriminate H.
    + intros l. apply found_paths.
  - eapply (prog_wp_bind _ _ _ (fun _ => True)); [by split|]. intros _ _. pathless.
Qed.

Lemma wp_setters l : Forall (fun x => path_act (Set_ x)) l -> path_prog (run_setters l).
Proof. induction 1; by simpl. Qed.

(** The file of a displayed group. *)
Lemma listed_path_ok s path : paths_ok s -> existsb (fun g => bool_decide (path ∈ files g)) (filteredGroups s) = true -> ok path.
Proof.
  intros (_ & _ & Hg) (g & Hin & Hp%bool_decide_eq_true)%existsb_exists. apply list_elem_of_In, filterb_elem_of in Hin as [Hin _].
  rewrite Forall_forall in Hg. specialize (Hg g Hin). rewrite Forall_forall in Hg. by apply Hg.
Qed.

Lemma wp_react u s : paths_ok s -> enabled inTauri u s = true -> path_prog (react defaults inTauri has_clipboard u s).
Proof.
  intros Hs Hu. ui_cases u; try (pathless; fail).
  - unfold search_key. destruct (bool_decide _); [apply wp_doSearch|done].
  - apply wp_doSearch.
  - by apply wp_runDetect.
  - apply wp_handleDelete. cbn [enabled dup_enabled] in Hu. apply andb_true_iff in Hu as [_ Hu]. by eapply listed_path_ok.
Qed.

Lemma paths_inductive : inductive defaults inTauri has_clipboard path_max_len paths_ok path_prog.
Proof.
  split.
  - by split_and!.
  - intros c k r [_ H] Hr. by apply H.
  - intros p a ls a' ls' t. apply wp_advance, path_act_keeps.
  - intros u s ls a' ls' t HJ Hu E. eapply wp_advance; [apply path_act_keeps|exact HJ| |exact E]. by apply wp_react.
  - intros s _. unfold debounced. destruct (truthy _); [apply wp_doSearch|done].
  - intros s _. pathless.
  - intros e _ _. apply wp_setters, on_event_ok. by intros [].
  - intros p _. apply wp_setters, on_scan_progress_ok. by intros [].
  - pathless.
  - pathless.
Qed.

(** Every path the application shows, and every path it asks the back end to
    delete or compare, is one the back end reported. *)
Lemma paths_reachable w : reachable defaults inTauri has_clipboard path_max_len w ->
  paths_ok (app w) /\ Forall path_prog (tasks w).
Proof. intros (HJ & HP & _)%(holds_reachable _ _ _ _ paths_inductive). by split. Qed.

Lemma path_prog_call c (k : ans c -> prog_) : path_prog (Call c k) -> call_asks c.
Proof. by intros [H _]. Qed.
End System.
End Paths.
