(* ===== verification/AppRows.v ===== *)
(** * App.tsx: where the displayed results come from

    The rows the search page shows are rows the back end answered to a search: no
    handler makes a row up or keeps one from another place.  Stated for any property
    of rows the answers have, and of programs for all such properties at once, so
    that the property may change while a handler waits. *)

From stdpp Require Import relations.
From S2P Require Import Prelude JsNumber JsString JsConvert StringUtil PathUtil SizeUtil Types Effects SortResults Invoke Wire ProgLogic AppState Handlers AppSystem AppInvariants.

(** The rows in an answer. *)
Definition rows_in (t : rty) : settled (den t) -> list SearchResult :=
  match t with RResults => fun a => match a with Resolved l => l | _ => [] end | _ => fun _ => [] end.

Section Rows.
Context (ok : SearchResult -> Prop).

Definition rows_answer (c : cmd) : ans c -> Prop :=
  match c with Race rq => fun a => Forall ok (rows_in (rq_ret rq) a) | _ => fun _ => True end.

(** A back end whose searches answer such rows, and nothing else is known of. *)
Definition rows_backend : Backend := {| answers := rows_answer; emits _ := True; reports _ := True |}.

Definition rows_shown (s : App) : Prop := Forall ok (results s).
Definition rows_act (a : action) : Prop := match a with Set_ (SetResults l) => Forall ok l | _ => True end.
Definition rows_wp (p : prog_) : Prop := prog_wp rows_answer (fun _ => True) rows_act (fun _ => True) p.

Lemma rows_act_keeps x s : rows_act (Set_ x) -> rows_shown s -> rows_shown (apply x s).
Proof. intros Hx Hs. by destruct x. Qed.

Lemma rows_quiet {A} (p : prog action A) : acts_ok rows_act p -> prog_wp rows_answer (fun _ => True) rows_act (fun _ => True) p.
Proof. induction p as [a|e|a k IH|c k IH]; simpl; [done..|intuition|]. intros H. split; [done|]. intros r _. apply IH, H. Qed.

Lemma rows_doSearch d b s : rows_wp (doSearch d b s).
Proof.
  unfold doSearch, when_tauri. destruct b; [|done]. unfold busy_handler, rows_wp.
  do 2 (eapply (prog_wp_bind _ _ _ (fun _ => True)); [by split|intros _ _]).
  unfold finally_idle. apply prog_wp_finally; [|by split]. unfold catch_report. apply prog_wp_catch; [|intros e; apply rows_quiet; by repeat split].
  eapply (prog_wp_bind _ _ _ (Forall ok)); [|intros rows Hr].
  - unfold searchQuery.
    match goal with |- prog_wp ?G ?R ?Q _ (safeInvoke ?d ?T ?c ?p ?o) =>
      refine (prog_wp_invoke G R Q d T c p o (Forall ok) I _) end.
    intros l. exact (fun H => H).
  - eapply (prog_wp_bind _ _ _ (fun _ => True)); [by split|]. intros _ _. apply rows_quiet. by repeat split.
Qed.
End Rows.

Section System.
Context (defaults : invoke_defaults) (inTauri has_clipboard : bool) (path_max_len : number).

(** A program that shows only rows it gets; it may get more as it goes on. *)
Definition rows_prog (ok : SearchResult -> Prop) (p : prog_) : Prop :=
  forall ok' : SearchResult -> Prop, (forall r, ok r -> ok' r) -> rows_wp ok' p.

Lemma rows_prog_more (ok ok' : SearchResult -> Prop) p : (forall r, ok r -> ok' r) -> rows_prog ok p -> rows_prog ok' p.
Proof. intros H Hp ok1 H1. apply Hp. auto. Qed.

Lemma rows_answer_more (ok ok' : SearchResult -> Prop) c r : (forall r, ok r -> ok' r) -> rows_answer ok c r -> rows_answer ok' c r.
Proof. intros H. destruct c; try done. simpl. intros Hr. by eapply Forall_impl. Qed.

Ltac quiet := intros ok' _; apply rows_quiet; handler_acts; exact I.

Lemma rows_advance ok p a ls a' ls' t : rows_shown ok a -> rows_prog ok p -> advance p a ls = (a', ls', t) ->
  rows_shown ok a' /\ forall q, t = Some q -> rows_prog ok q.
Proof.
  intros Ha Hp E. split.
  - refine (proj1 (wp_advance _ _ _ _ _ _ _ _ _ _ (rows_act_keeps ok) Ha (Hp ok _) E)). done.
  - intros q -> ok' H. refine (proj2 (wp_advance (fun _ => True) _ _ _ _ _ _ _ _ _ _ _ (Hp ok' H) E) q eq_refl); done.
Qed.

Lemma rows_react ok u s : rows_prog ok (react defaults inTauri has_clipboard u s).
Proof.
  ui_cases u; try (quiet; fail); intros ok' _; [|apply rows_doSearch].
  unfold search_key. case_bool_decide; [apply rows_doSearch|done].
Qed.

Lemma rows_inductive ok :
  inductive (B := rows_backend ok) defaults inTauri has_clipboard path_max_len (rows_shown ok) (rows_prog ok).
Proof.
  split.
  - by constructor.
  - intros c k r Hk Hr ok' H. apply (Hk ok' H). by eapply rows_answer_more.
  - intros p a ls a' ls' t. apply rows_advance.
  - intros u s ls a' ls' t Hs _. apply rows_advance; [done|apply rows_react].
  - intros s _ ok' _. unfold debounced. destruct (truthy _); [apply rows_doSearch|done].
  - intros s _. quiet.
  - intros e _ _ ok' _. apply rows_quiet, run_setters_quiet, on_event_ok. by intros [].
  - intros p _ ok' _. apply rows_quiet, run_setters_quiet, on_scan_progress_ok. by intros [].
  - quiet.
  - quiet.
Qed.

(** The displayed rows and the waiting handlers, when more rows become right. *)
Lemma rows_holds_more (ok ok' : SearchResult -> Prop) w : (forall r, ok r -> ok' r) ->
  holds (rows_shown ok) (rows_prog ok) w -> holds (rows_shown ok') (rows_prog ok') w.
Proof.
  intros H (H1 & H2 & H3). split_and!.
  - by eapply Forall_impl.
  - eapply Forall_impl; [exact H2|]. intros p. by apply rows_prog_more.
  - intros s Hs. eapply Forall_impl; [by apply H3|done].
Qed.
End System.
