(* ===== verification/AppDeletions.v ===== *)
(** * App.tsx: what asks for deletions

    The only program of the application that asks the back end to delete a file is
    the handler of the button of this file.  It does not wait for the user to answer
    the question: in this host [confirm] returns a promise, which is truthy. *)

From S2P Require Import Prelude JsNumber JsString JsConvert StringUtil PathUtil SizeUtil Types Effects SortResults Invoke Wire ProgLogic AppState Handlers AppSystem FileSystem RustStd Config Scan Commands AppInvariants.

Section Deletions.
Context (os : platform).

(** A request to delete a file is one to delete a file of [ok]. *)
Definition allowed (ok : jsstr -> Prop) (c : cmd) : Prop :=
  match c with
  | Race rq => forall p dir, decode os rq = Some (DeleteFileAndIndex p dir) -> ok p
  | _ => True
  end.

Lemma allowed_more (ok ok' : jsstr -> Prop) c : (forall p, ok p -> ok' p) -> allowed ok c -> allowed ok' c.
Proof. intros H. destruct c; try done. simpl. eauto. Qed.

Lemma calls_ok_advance R (p : prog_) a ls a' ls' q : calls_ok R p -> advance p a ls = (a', ls', Some q) -> calls_ok R q.
Proof.
  revert a ls. induction p as [x|e|act k IH|c k IH]; intros a ls Hp; simpl; try done.
  - destruct act; by apply IH.
  - by intros [= _ _ <-].
Qed.

(** *** Requests by name *)

Lemma allowed_other ok rq : rq_cmd rq <> js "delete_file_and_index" -> allowed ok (Race rq).
Proof. intros Hn p dir Hd%decode_name. by rewrite Hd in Hn. Qed.

Definition deletion (p dir : jsstr) (ms : number) : request :=
  {| rq_cmd := js "delete_file_and_index";
     rq_payload := VObj [("path", VStr p); ("index_dir", VStr dir); ("indexDir", VStr dir)]%string;
     rq_timeoutMs := ms; rq_ret := RUnit |}.

Lemma decode_deletion p dir ms : decode os (deletion p dir ms) = Some (DeleteFileAndIndex p dir).
Proof.
  unfold decode, deletion, rq_cmd, rq_payload.
  change (find_handler (handlers os) (js "delete_file_and_index"))
    with (Some (fun fs => p ← field de_str fs "path"%string; d ← field de_str fs "indexDir"%string;
                          Some (DeleteFileAndIndex p d))).
  reflexivity.
Qed.

Lemma allowed_delete (ok : jsstr -> Prop) p dir ms : ok p -> allowed ok (Race (deletion p dir ms)).
Proof. intros Hp p' dir' Hd. rewrite decode_deletion in Hd. by injection Hd as <- _. Qed.

(** Opens a handler down to its calls, none of which deletes. *)
Ltac call_step :=
  match goal with
  | |- calls_ok _ (bind _ _) => apply calls_ok_bind; [|intros ?]
  | |- calls_ok _ (try_catch _ _) => apply calls_ok_catch; [|intros ?]
  | |- calls_ok _ (try_finally _ _) => apply calls_ok_finally
  | |- calls_ok _ (set _) => exact I
  | |- calls_ok _ (logError _ _) => exact I
  | |- calls_ok _ (do_act _) => exact I
  | |- calls_ok _ (confirm _) => exact I
  | |- calls_ok _ (Ret _) => exact I
  | |- calls_ok _ (Throw _) => exact I
  | |- calls_ok _ (await_sum _ _) => split; [exact I|intros [?|?]; exact I]
  | |- calls_ok _ (match ?x with _ => _ end) => destruct x
  | |- calls_ok _ (if ?x then _ else _) => destruct x
  | |- calls_ok ?R (safeInvoke ?d ?T ?n ?v ?o) =>
      apply (calls_ok_invoke R d T n v o), allowed_other; vm_compute; discriminate
  | |- calls_ok _ ?p => let h := head_of p in unfold h
  end.
Ltac deletes_nothing := repeat call_step.

Section System.
Context (defaults : invoke_defaults) (inTauri has_clipboard : bool).

Lemma handleDelete_deletes (ok : jsstr -> Prop) s p : ok p -> calls_ok (allowed ok) (handleDelete defaults inTauri s p).
Proof.
  intros Hp. unfold handleDelete, when_tauri. destruct inTauri; [|done]. apply calls_ok_bind; [exact I|intros v].
  destruct (truthy_value v); [|exact I]. unfold busy_handler, finally_idle, catch_report.
  do 2 (apply calls_ok_bind; [exact I|intros ?]). apply calls_ok_finally; [|exact I].
  apply calls_ok_catch; [|intros e; repeat call_step]. apply calls_ok_bind; [|intros ?; repeat call_step].
  unfold deleteFileAndIndex.
  match goal with |- calls_ok ?R (safeInvoke ?d ?T ?n ?v ?o) => apply (calls_ok_invoke R d T n v o) end.
  by apply allowed_delete.
Qed.

(** An element deletes the file it is the button of. *)
Lemma react_deletes (u : ui) s : calls_ok (allowed (fun p => u = DupUI (ClickDelete p))) (react defaults inTauri has_clipboard u s).
Proof. ui_cases u; first [by apply handleDelete_deletes|deletes_nothing]. Qed.

Lemma debounced_deletes ok s : calls_ok (allowed ok) (debounced defaults inTauri s).
Proof. deletes_nothing. Qed.

Lemma diagnostics_deletes ok s : calls_ok (allowed ok) (diagnostics_effect defaults inTauri s).
Proof. deletes_nothing. Qed.

Lemma load_deletes ok : calls_ok (allowed ok) (load_config_effect defaults inTauri).
Proof. deletes_nothing. Qed.

Lemma preview_deletes ok : calls_ok (allowed ok) (preview_effect inTauri).
Proof. deletes_nothing. Qed.
End System.
End Deletions.
