(* ===== verification/Dedup.v ===== *)
(** * src-tauri/src/dedup.rs: detecting duplicates

    The command behind the page of duplicates.  Hash maps are finite maps; they
    are iterated in an unspecified order, so the result is determined up to the
    order of the groups of each kind.  The file name of a path and the digest of
    a file come from the operating system and are parameters; reading a file may
    fail, which ends the command with that error. *)

From stdpp Require Import gmap.
From S2P Require Import Prelude JsNumber JsString Types Effects Invoke AppState Handlers AppSystem AppInvariants.

Section Dedup.
(** [Path::file_name] as text. *)
Context (file_name : jsstr -> option jsstr).
(** [hash_file]: an error, nothing for what is not a regular file, or the digest. *)
Context (hash_file : jsstr -> jsstr + option jsstr).

Abbreviation groups_map := (gmap jsstr (list jsstr)).

(** [map.entry(k).or_default().push(p)]. *)
Definition push_entry (m : groups_map) (k p : jsstr) : groups_map := <[k := default [] (m !! k) ++ [p]]> m.

(** The first loop. *)
Definition name_groups (paths : list jsstr) : groups_map :=
  fold_left (fun m p => match file_name p with Some name => push_entry m name p | None => m end) paths ∅.

(** The second loop, [hash_file(&p)?]. *)
Fixpoint hash_groups (m : groups_map) (paths : list jsstr) : jsstr + groups_map :=
  match paths with
  | [] => inr m
  | p :: rest =>
      match hash_file p with
      | inl e => inl e
      | inr (Some h) => hash_groups (push_entry m h p) rest
      | inr None => hash_groups m rest
      end
  end.

(** The groups of one kind, from the entries of a map in some order. *)
Definition emit_groups (k : DupKind) (entries : list (jsstr * list jsstr)) : list DupGroup :=
  map (fun e => {| kind := k; key := fst e; files := snd e |})
    (filterb (fun e => bool_decide (1 < length (snd e))%nat) entries).

(** [detect(paths)] can return [r]. *)
Definition detects (paths : list jsstr) (r : jsstr + list DupGroup) : Prop :=
  match hash_groups ∅ paths with
  | inl e => r = inl e
  | inr hm => exists hs ns,
      hs ≡ₚ map_to_list hm /\ ns ≡ₚ map_to_list (name_groups paths)
      /\ r = inr (emit_groups KHash hs ++ emit_groups KName ns)
  end.

(** ** The maps *)

(** The paths with a key, in order. *)
Definition with_key (f : jsstr -> option jsstr) (k : jsstr) (paths : list jsstr) : list jsstr :=
  filterb (fun p => bool_decide (f p = Some k)) paths.

(** A map that groups [paths] by [f]. *)
Definition grouped (f : jsstr -> option jsstr) (paths : list jsstr) (m : groups_map) : Prop :=
  forall k, m !! k = match with_key f k paths with [] => None | l => Some l end.

Lemma with_key_snoc f k paths p :
  with_key f k (paths ++ [p]) = with_key f k paths ++ (if bool_decide (f p = Some k) then [p] else []).
Proof. unfold with_key. by rewrite List.filter_app. Qed.

Lemma grouped_empty f : grouped f [] ∅.
Proof. intros k. apply lookup_empty. Qed.

Lemma grouped_push f paths m p k : grouped f paths m -> f p = Some k ->
  grouped f (paths ++ [p]) (push_entry m k p).
Proof.
  intros Hm Hp j. rewrite with_key_snoc, Hp. unfold push_entry.
  destruct (decide (k = j)) as [->|Hne].
  - rewrite lookup_insert_eq, bool_decide_true, (Hm j) by done. destruct (with_key f j paths); done.
  - rewrite lookup_insert_ne, bool_decide_false by congruence. by rewrite app_nil_r.
Qed.

Lemma grouped_skip f paths m p : grouped f paths m -> f p = None -> grouped f (paths ++ [p]) m.
Proof. intros Hm Hp j. rewrite with_key_snoc, Hp, bool_decide_false by done. by rewrite app_nil_r. Qed.

Lemma name_groups_grouped paths : grouped file_name paths (name_groups paths).
Proof.
  unfold name_groups. induction paths as [|p paths IH] using rev_ind; [apply grouped_empty|].
  rewrite fold_left_app. simpl. destruct (file_name p) eqn:E; [by apply grouped_push|by apply grouped_skip].
Qed.

(** The digest of a readable file. *)
Definition digest (p : jsstr) : option jsstr :=
  match hash_file p with inr o => o | inl _ => None end.

Definition readable (p : jsstr) : Prop := exists o, hash_file p = inr o.

Lemma hash_groups_grouped done paths m : grouped digest done m ->
  match hash_groups m paths with
  | inr m' => grouped digest (done ++ paths) m' /\ Forall (fun p => readable p) paths
  | inl e => Exists (fun p => hash_file p = inl e) paths
  end.
Proof.
  revert done m. induction paths as [|p paths IH]; intros done m Hm; simpl; [by rewrite app_nil_r|].
  destruct (hash_file p) as [e|o] eqn:E; [by left|].
  assert (exists m', grouped digest (done ++ [p]) m' /\
    match o with Some h => hash_groups (push_entry m h p) paths | None => hash_groups m paths end
    = hash_groups m' paths) as (m' & Hm' & ->).
  { assert (digest p = o) as Hd by (unfold digest; by rewrite E).
    destruct o; eexists; (split; [|done]); [by apply grouped_push|by apply grouped_skip]. }
  specialize (IH _ _ Hm'). destruct (hash_groups m' paths) as [e|m'']; [by right|].
  rewrite <- app_assoc in IH. destruct IH as [H1 H2]. split; [done|]. constructor; [by exists o|done].
Qed.

(** The groups emitted for a map that groups [paths] by [f]. *)
Lemma emit_groups_spec k f paths m entries g : grouped f paths m -> entries ≡ₚ map_to_list m ->
  g ∈ emit_groups k entries <->
  kind g = k /\ files g = with_key f (key g) paths /\ (1 < length (files g))%nat.
Proof.
  intros Hm He. unfold emit_groups. rewrite list_elem_of_fmap. split.
  - intros ([h l] & -> & [Hin Hl%bool_decide_eq_true]%filterb_elem_of). simpl in *.
    rewrite He in Hin. apply elem_of_map_to_list in Hin. rewrite (Hm h) in Hin. split_and!; [done| |done].
    destruct (with_key f h paths); simplify_eq; done.
  - intros (Hk & Hf & Hl). exists (key g, files g). split; [destruct g as [kd ky fl]; cbn in Hk; by rewrite Hk|].
    apply filterb_elem_of. rewrite He. split; [|by apply bool_decide_eq_true].
    apply elem_of_map_to_list. rewrite (Hm (key g)), <- Hf. destruct (files g); [simpl in Hl; lia|done].
Qed.

(** C33. [dedup::detect] on every branch: an error is the error of a file that
    could not be read; otherwise every file was read, and the groups are exactly,
    by content and by name, the digests and names that at least two of the paths
    share, each group listing all the paths with that digest or name in the order
    given. *)
Theorem detect_correct paths r : detects paths r ->
  match r with
  | inl e => exists p, p ∈ paths /\ hash_file p = inl e
  | inr groups =>
      Forall (fun p => readable p) paths
      /\ forall g, g ∈ groups <->
           (files g = with_key (match kind g with KHash => digest | KName => file_name end) (key g) paths
            /\ (1 < length (files g))%nat)
  end.
Proof.
  unfold detects. pose proof (hash_groups_grouped [] paths ∅ (grouped_empty digest)) as H.
  destruct (hash_groups ∅ paths) as [e|hm].
  - intros ->. apply Exists_exists in H as (p & Hp & E). eauto.
  - destruct H as [Hh Hok]. intros (hs & ns & Ehs & Ens & ->). split; [done|]. intros g.
    rewrite elem_of_app, (emit_groups_spec KHash digest paths hm hs g Hh Ehs),
      (emit_groups_spec KName file_name paths _ ns g (name_groups_grouped paths) Ens).
    destruct (kind g); naive_solver.
Qed.

(** A back end whose command for duplicates is [detect], other answers being
    unconstrained; it keeps the promise the page of duplicates relies on. *)
Definition detect_backend : Backend :=
  {| answers c r := forall payload ms groups,
       existT (P := ans) c r
       = existT (P := ans)
           (Race {| rq_cmd := js "detect_duplicates"; rq_payload := payload; rq_timeoutMs := ms; rq_ret := RGroups |})
           (Resolved groups) ->
       exists paths, payload = VObj [("paths"%string, strs_val paths)] /\ detects paths (inr groups);
     emits _ := True;
     reports _ := True |}.

(** The same path given twice is reported as a duplicate of itself: the paths
    are not made distinct before they are grouped. *)
Theorem detect_self_duplicate p h name :
  hash_file p = inr (Some h) -> file_name p = Some name ->
  exists groups, detects [p; p] (inr groups)
    /\ {| kind := KHash; key := h; files := [p; p] |} ∈ groups.
Proof.
  intros Hh Hn. unfold detects. simpl. rewrite Hh.
  eexists. split; [by eexists _, _|]. apply elem_of_app. left.
  eapply (emit_groups_spec KHash digest [p; p]).
  - pose proof (hash_groups_grouped [] [p; p] ∅ (grouped_empty digest)) as H. simpl in H. rewrite Hh in H. apply H.
  - done.
  - assert (digest p = Some h) as Hd by (unfold digest; by rewrite Hh). simpl. unfold with_key. simpl.
    rewrite bool_decide_true by done. split_and!; [done..|lia].
Qed.
Lemma detect_at_least_two paths groups : detects paths (inr groups) ->
  Forall (fun g => (2 <= length (files g))%nat) groups.
Proof.
  unfold detects. destruct (hash_groups ∅ paths) as [e|hm]; [done|]. intros (hs & ns & _ & _ & [= ->]).
  apply Forall_app. split; apply Forall_fmap, Forall_forall; intros e [_ He%bool_decide_eq_true]%filterb_elem_of; simpl; lia.
Qed.

#[global] Instance detect_contract : DupContract detect_backend.
Proof.
  split. intros payload ms groups H. destruct (H _ _ _ eq_refl) as (paths & _ & Hd).
  by apply (detect_at_least_two paths).
Qed.

End Dedup.

(** Two files with the same content under different names. *)
Definition demo_hash (p : jsstr) : jsstr + option jsstr := inr (Some (js "00ff")).

Lemma detect_correct_witness :
  Forall (readable demo_hash) [js "a"; js "b"]
  /\ forall g, g ∈ [{| kind := KHash; key := js "00ff"; files := [js "a"; js "b"] |}] <->
       (files g = with_key (match kind g with KHash => digest demo_hash | KName => Some end) (key g) [js "a"; js "b"]
        /\ (1 < length (files g))%nat).
Proof.
  apply (detect_correct Some demo_hash [js "a"; js "b"]
    (inr [{| kind := KHash; key := js "00ff"; files := [js "a"; js "b"] |}])).
  eexists _, _. split; [reflexivity|]. split; [reflexivity|]. vm_compute. reflexivity.
Defined.

Lemma detect_self_duplicate_witness :
  exists groups, detects Some demo_hash [js "a"; js "a"] (inr groups)
    /\ {| kind := KHash; key := js "00ff"; files := [js "a"; js "a"] |} ∈ groups.
Proof. apply (detect_self_duplicate Some demo_hash (js "a") (js "00ff") (js "a")); reflexivity. Defined.
