(* ===== verification/Machine.v ===== *)
(** * The back end as a whole: its state and what each command does to it

    A [machine] is what the commands share: the files (the configuration among
    them), the indexes by directory, the state file of the pipeline and the
    pipelines that run.  [perform] is the body of every command of main.rs except
    the pipeline, [launch_run] the beginning of the pipeline up to the opened
    writer; what the operating system and the libraries answer meanwhile is
    gathered in [surroundings].

    An index has one writer at a time: a pipeline keeps it until its last worker
    is done, and whoever asks for it meanwhile fails. *)

From stdpp Require Import gmap.
From S2P Require Import Prelude JsNumber JsString PathUtil Types Effects Invoke Wire Highlight AppState Handlers AppSystem EventBus AppInvariants FileSystem RustStd Config Scan Pipeline Indexer IndexCommands Commands Scheduler AppCounts Dedup.
#[local] Open Scope Z_scope.

(** ** What a command meets *)

Record surroundings := {
  at_sys : system jsstr;
  at_walk : bool -> jsstr -> list (option entry);
  at_walk_sep : forall b root e p, Some e ∈ at_walk b root -> path_str e = Some p -> has_sep p;   (* roots are directories *)
  at_clock : jsstr -> Z * Z;
  at_text : jsstr -> option jsstr;             (* the beginning of a UTF-8 file *)
  at_lossy : jsstr -> option jsstr;            (* of any file, with replacement characters *)
  at_faults : faults;
  at_pool : option jsstr;                      (* the threads cannot be started *)
  at_memory : Z;                               (* the total memory, in bytes *)
  at_best : list document -> option document;
  at_best_in : forall l d, at_best l = Some d -> d ∈ l;
  at_ranked : jsstr -> list document -> jsstr + list (number * document);
  at_ranked_in : forall text l hits hit, at_ranked text l = inr hits -> hit ∈ hits -> snd hit ∈ l;
  at_open : jsstr -> option jsstr;             (* an index cannot be opened *)
  at_field : bool;                             (* the schema has the field of the path *)
  at_name : jsstr -> option jsstr;
  at_hash : jsstr -> jsstr + option jsstr;
  at_today : jsstr;
  at_marked : bool;                            (* the state file can be written *)
  at_probes : probes;
  at_load : number;
  at_regular : jsstr -> option jsstr;          (* the directory of a regular file *)
  at_spawn : jsstr -> list jsstr -> option jsstr;
}.

(** ** The machine *)

(** A pipeline: its index, whether it parses, the call that waits for it, its run. *)
Record live := { lv_dir : jsstr; lv_parse : bool; lv_call : option nat; lv_run : run }.

Record machine := {
  m_files : disk jsstr;
  m_indexes : gmap jsstr (list document);
  m_state : PipelineState;
  m_runs : list live;
}.

Definition with_files (d : disk jsstr) (m : machine) : machine :=
  {| m_files := d; m_indexes := m_indexes m; m_state := m_state m; m_runs := m_runs m |}.
Definition with_index (dir : jsstr) (ix : option (list document)) (m : machine) : machine :=
  {| m_files := m_files m; m_indexes := partial_alter (fun _ => ix) dir (m_indexes m); m_state := m_state m;
     m_runs := m_runs m |}.

(** The function has returned and no worker has the writer. *)
Definition ended (s : run) : bool :=
  match at_phase s, jobs s with Returned, [] => true | _, _ => false end.

(** A pipeline holds the writer of the index. *)
Definition holds_writer (dir : jsstr) (l : live) : bool := bool_decide (lv_dir l = dir) && negb (ended (lv_run l)).
Definition writer_busy (dir : jsstr) (m : machine) : bool := existsb (holds_writer dir) (m_runs m).

(** The faults of working on an index, with what the machine knows of it. *)
Definition faults_of (open_fault busy : option jsstr) (fl : faults) : faults :=
  {| no_dir := no_dir fl; no_open := open_fault; no_create := no_create fl; locked := busy; no_writer := no_writer fl;
     no_reader := no_reader fl; no_add := no_add fl; no_commit := no_commit fl |}.

(** ** What a command does *)

(** The events it emits, a pipeline it leaves running, its result and the machine. *)
Record outcome := {
  o_events : list emission;
  o_launch : option launch;
  o_response : response;
  o_machine : machine;
}.

Definition plain (r : response) (m : machine) : outcome :=
  {| o_events := []; o_launch := None; o_response := r; o_machine := m |}.

(** [result.map(f)]. *)
Definition with_value {A} (f : A -> value) (r : jsstr + A) : response :=
  match r with inl e => inl e | inr a => inr (f a) end.

(** main.rs, [open_location]: the program started and its arguments. *)
Inductive host := Windows | MacOS | OtherHost.
Definition open_location (h : host) (regular : jsstr -> option jsstr) (spawn : jsstr -> list jsstr -> option jsstr) (path : jsstr) :
    jsstr + unit :=
  match (match h with
         | Windows => spawn (js "explorer") [js "/select,"; path]
         | MacOS => spawn (js "open") [js "-R"; path]
         | OtherHost => spawn (js "xdg-open") [default path (regular path)]
         end) with
  | Some e => inl e
  | None => inr tt
  end.

Section Machine.
Context {C : CaseTables} {J : Json} {T : Tantivy} (os : platform) (h : host).
(** The texts of the errors of serde for a file, of an existing index, of a busy
    writer and of a missing index. *)
Context (serde_error : jsstr -> jsstr) (exists_error lock_error missing_error : jsstr).

Section Perform.
Context (x : surroundings).

(** [Index::open_in_dir]. *)
Definition open_index (m : machine) (dir : jsstr) : jsstr + list document :=
  match at_open x dir, m_indexes m !! dir with
  | Some e, _ => inl e
  | None, None => inl missing_error
  | None, Some docs => inr docs
  end.

Definition lock_at (m : machine) (dir : jsstr) : option jsstr := if writer_busy dir m then Some lock_error else None.
Definition faults_at (m : machine) (dir : jsstr) : faults := faults_of (at_open x dir) (lock_at m dir) (at_faults x).

(** The index [delete_file_and_index] works on. *)
Definition opened_index (m : machine) (dir : jsstr) : option opened :=
  match open_index m dir with
  | inl _ => None
  | inr docs => Some {| documents := docs; path_field := at_field x; writer_lock := lock_at m dir; writer_error := no_writer (at_faults x);
                        commit_error := no_commit (at_faults x) |}
  end.

(** What the diagnostics see: the state file of the machine. *)
Definition probes_of (m : machine) : probes :=
  {| dir_exists := dir_exists (at_probes x); state_file := (fun _ => m_state m) <$> state_file (at_probes x);
     cpu_avg := cpu_avg (at_probes x); total_mem := total_mem (at_probes x); free_mem := free_mem (at_probes x);
     index_status := index_status (at_probes x) |}.

(** The commands of main.rs; the pipeline and the detection of duplicates, whose
    groups come in any order, are below. *)
Definition perform (m : machine) (c : command) : option outcome :=
  match c with
  | ScanPaths o => Some (plain (inr (OkFiles (scan (windows os) (at_walk x) (at_clock x) o))) m)
  | ScanPathsProgress o =>
      let '(fs, es) := scan_paths_progress (windows os) (at_walk x) (at_clock x) o in
      Some {| o_events := es; o_launch := None; o_response := inr (OkFiles fs); o_machine := m |}
  | BuildInvertedIndex fs dir parse =>
      let '(r, ix) := build (at_lossy x) parse exists_error (faults_at m dir) (m_indexes m !! dir) fs in
      Some (plain (with_value (fun _ => OkUnit) r) (with_index dir ix m))
  | BuildInvertedIndexProgress fs dir parse =>
      let '(es, r, ix) := build_progress (at_text x) parse exists_error (at_best x) (faults_at m dir) (m_indexes m !! dir) fs in
      Some {| o_events := es; o_launch := None; o_response := with_value (fun _ => OkUnit) r;
              o_machine := with_index dir ix m |}
  | StartAutoScanNow =>
      let '(r, d) := start_auto_scan_now os (at_sys x) serde_error (m_files m) in
      Some (match r with
            | inl e => plain (inl e) (with_files d m)
            | inr (e, l) => {| o_events := [e]; o_launch := Some l; o_response := inr OkUnit; o_machine := with_files d m |}
            end)
  | DiagnosticsReport_ =>
      let '(r, d) := diagnostics_report os (at_sys x) serde_error (probes_of m) (m_files m) in
      Some (plain (with_value OkReport r) (with_files d m))
  | SearchQuery text filters dir =>
      Some (plain (with_value OkResults (query (at_ranked x) (open_index m) text filters dir)) m)
  | ReadConfig =>
      let '(r, d) := read_config os (at_sys x) serde_error (m_files m) in
      Some (plain (with_value OkConfig r) (with_files d m))
  | WriteConfig cfg =>
      let '(r, d) := write_config os (at_sys x) cfg (m_files m) in
      Some (plain (with_value (fun _ => OkUnit) r) (with_files d m))
  | ResetConfig =>
      let '(r, d) := reset_config os (at_sys x) serde_error (m_files m) in
      Some (plain (with_value OkConfig r) (with_files d m))
  | OpenLocation path =>
      Some (plain (with_value (fun _ => OkUnit) (open_location h (at_regular x) (at_spawn x) path)) m)
  | DeleteFileAndIndex path dir =>
      let ix := opened_index m dir in
      let '(r, d, docs) := delete_file_and_index (at_sys x) path ix (m_files m) in
      Some (plain (with_value (fun _ => OkUnit) r)
              (with_index dir (match ix with Some _ => Some docs | None => m_indexes m !! dir end) (with_files d m)))
  | ScanAndIndexPipeline _ _ _ | DetectDuplicates _ => None
  end.

(** No vector has more elements than memory could hold. *)
Definition fits {A} (l : list A) : Prop := Z.of_nat (length l) <= 2 ^ 53.

(** The counts of the progress events of a command. *)
Definition countable (c : command) : Prop :=
  match c with
  | ScanPathsProgress o => fits (scan (windows os) (at_walk x) (at_clock x) o)
  | BuildInvertedIndexProgress fs _ _ => fits fs
  | _ => True
  end.

Inductive executes (m : machine) : command -> outcome -> Prop :=
| executes_function c o : perform m c = Some o -> countable c -> executes m c o
| executes_detect paths r :
    detects (at_name x) (at_hash x) paths r -> executes m (DetectDuplicates paths) (plain (with_value OkGroups r) m).

(** ** The beginning of a pipeline *)

(** pipeline.rs up to the first root: the directory, the index, the threads, the
    writer, the mark in the state file. *)
Definition launch_run (roots exclude : list jsstr) (dir : jsstr) (parse : bool) (call : option nat) (m : machine) :
    (jsstr + unit) * machine :=
  let fl := faults_at m dir in
  match no_dir fl, open_or_create exists_error fl (m_indexes m !! dir) with
  | Some e, _ | None, inl e => (inl e, m)
  | None, inr docs =>
      let m' := with_index dir (Some docs) m in
      match at_pool x, no_writer_for (writer_heap_bytes (at_memory x)) fl with
      | Some e, _ | None, Some e => (inl e, m')
      | None, None =>
          let s := start (at_today x) (at_marked x) (m_state m) docs (pipeline_files (windows os) (at_walk x) roots exclude) in
          (inr tt, {| m_files := m_files m'; m_indexes := m_indexes m'; m_state := saved s;
                      m_runs := m_runs m' ++ [{| lv_dir := dir; lv_parse := parse; lv_call := call; lv_run := s |}] |})
      end
  end.
End Perform.

(** ** A step of a pipeline *)

(** A run works on the index and the state file of the machine. *)
Definition synced (m : machine) (l : live) : run :=
  let s := lv_run l in
  {| todo := todo s; found := found s; jobs := jobs s; total_counter := total_counter s;
     store := default [] (m_indexes m !! lv_dir l); pending := pending s; failed := failed s; emitted := emitted s; saved := m_state m;
     at_phase := at_phase s |}.

(** The call that is answered when the function returns. *)
Definition answered (l : live) (s' : run) : option nat := match at_phase s' with Returned => lv_call l | _ => None end.

Definition stepped (l : live) (s' : run) : live :=
  {| lv_dir := lv_dir l; lv_parse := lv_parse l;
     lv_call := match at_phase s' with Returned => None | _ => lv_call l end; lv_run := s' |}.

Definition new_events (l : live) (s' : run) : list emission :=
  map emission_of (drop (length (emitted (lv_run l))) (emitted s')).

(** One step of one pipeline: the events, the call it answers, the machine. *)
Inductive runs_on : machine -> list emission -> option nat -> machine -> Prop :=
| runs_on_step m l1 l l2 read_text s' :
    m_runs m = l1 ++ l :: l2 -> Pipeline.step read_text (lv_parse l) (synced m l) s' ->
    runs_on m (new_events l s') (answered l s')
      {| m_files := m_files m; m_indexes := <[lv_dir l := store s']> (m_indexes m); m_state := saved s';
         m_runs := l1 ++ stepped l s' :: l2 |}.
End Machine.

(** ** What no command touches *)

Section Kept.
Context {C : CaseTables} {J : Json} {T : Tantivy} (os : platform) (h : host).
Context (serde_error : jsstr -> jsstr) (exists_error lock_error missing_error : jsstr).
#[local] Abbreviation exec := (executes os h serde_error exists_error lock_error missing_error).
#[local] Abbreviation do := (perform os h serde_error exists_error lock_error missing_error).

(** Opens the body of a command. *)
Ltac open_command :=
  repeat match goal with
  | H : Some _ = Some _ |- _ => injection H as <-
  | H : None = Some _ |- _ => discriminate H
  | H : context [match ?p with (_, _) => _ end] |- _ =>
      lazymatch p with context [match _ with _ => _ end] => fail | _ => destruct p eqn:? end
  | r : (_ + (_ * _))%type |- _ => destruct r as [?|[? ?]]
  | p : (_ * _)%type |- _ => destruct p
  end.

Lemma perform_runs x m c o : do x m c = Some o -> m_runs (o_machine o) = m_runs m /\ m_state (o_machine o) = m_state m.
Proof. destruct c; simpl; intros H; open_command; done. Qed.

Lemma executes_runs x m c o : exec x m c o -> m_runs (o_machine o) = m_runs m /\ m_state (o_machine o) = m_state m.
Proof. intros [? ? H _|? ? _]; [by eapply perform_runs|done]. Qed.

(** ** The values commands return *)

Lemma executes_value x m c o v : exec x m c o -> o_response o = inr v ->
  is_Some (answer_as (returns c) (inr v)).
Proof.
  intros [c' o' H _|paths [e|l] _].
  - destruct c'; simpl in H; open_command; cbn [o_response plain]; intros Hv;
      repeat match type of Hv with with_value _ ?r = _ => destruct r; simpl in Hv end;
      simplify_eq; simpl; eauto.
  - done.
  - intros [= <-]. simpl. eauto.
Qed.

End Kept.

(** ** The configuration file

    The commands on the configuration touch no other file. *)

Section ConfigFile.
Context {C : CaseTables} {J : Json} (os : platform).

Definition config_file : option jsstr :=
  base ← app_config_dir os; Some (join_path (windows os) base (js "config.json")).

(** Only the configuration file differs. *)
Definition config_only (d d' : disk jsstr) : Prop :=
  forall q, contents d' !! q = contents d !! q \/ config_file = Some q.

#[global] Instance config_only_preorder : PreOrder config_only.
Proof.
  split; [by intros d q; left|]. intros d1 d2 d3 H1 H2 q. destruct (H2 q) as [->|H]; [apply H1|by right].
Qed.

Lemma config_only_same d d' : contents d' = contents d -> config_only d d'.
Proof. intros H q. left. by rewrite H. Qed.

Section Commands.
Context (sys : system jsstr) (serde_error : jsstr -> jsstr).

Lemma config_path_effect d r d' : config_path os sys d = (r, d') ->
  contents d' = contents d /\ forall p, r = inr p -> config_file = Some p.
Proof.
  unfold config_path, io_bind, io_lift, io_ret, make_dir, config_file. destruct (app_config_dir os) as [base|]; [|by intros [= <- <-]].
  destruct (refuses_mkdir sys base); intros [= <- <-]; [done|]. split; [done|]. by intros p [= <-].
Qed.

Lemma write_file_only p s d r d' : config_file = Some p -> write_file sys p s d = (r, d') -> config_only d d'.
Proof.
  intros Hp H q. destruct (decide (q = p)) as [->|Hn]; [by right|left].
  pose proof (write_file_other sys p s d q Hn) as E. by rewrite H in E.
Qed.

Lemma remove_file_only p d r d' : config_file = Some p -> remove_file sys p d = (r, d') -> config_only d d'.
Proof.
  intros Hp. unfold remove_file. destruct (refuses_remove sys p); [by intros [= <- <-]|].
  destruct (contents d !! p); intros [= <- <-]; [|done]. intros q. simpl.
  destruct (decide (p = q)) as [->|Hn]; [by right|left; by rewrite lookup_delete_ne].
Qed.

Lemma write_config_only cfg d r d' : write_config os sys cfg d = (r, d') -> config_only d d'.
Proof.
  unfold write_config, io_bind. destruct (config_path os sys d) as [[e|p] d1] eqn:E.
  - intros [= <- <-]. apply config_only_same. by eapply config_path_effect.
  - apply config_path_effect in E as [Hc Hp]. intros H. transitivity d1; [by apply config_only_same|].
    eapply write_file_only; [by apply Hp|exact H].
Qed.

Lemma read_config_only d r d' : read_config os sys serde_error d = (r, d') -> config_only d d'.
Proof.
  unfold read_config, io_bind. destruct (config_path os sys d) as [[e|p] d1] eqn:E.
  - intros [= <- <-]. apply config_only_same. by eapply config_path_effect.
  - apply config_path_effect in E as [Hc Hp]. intros H. transitivity d1; [by apply config_only_same|].
    revert H. unfold path_exists. destruct (_ || _).
    + unfold read_file. destruct (refuses_read sys p); [by intros [= _ <-]|]. destruct (contents d1 !! p); [|by intros [= _ <-]].
      unfold io_lift. destruct (v ← _; _); by intros [= _ <-].
    + destruct (write_config os sys (default_config os) d1) as [[e|[]] d2] eqn:Ew; intros [= _ <-];
        by eapply write_config_only.
Qed.

Lemma reset_config_only d r d' : reset_config os sys serde_error d = (r, d') -> config_only d d'.
Proof.
  unfold reset_config, io_bind. destruct (config_path os sys d) as [[e|p] d1] eqn:E.
  - intros [= <- <-]. apply config_only_same. by eapply config_path_effect.
  - apply config_path_effect in E as [Hc Hp]. intros H. transitivity d1; [by apply config_only_same|].
    revert H. unfold path_exists. destruct (_ || _); [|unfold io_ret; apply read_config_only].
    unfold io_ignore. destruct (remove_file sys p d1) as [r2 d2] eqn:Er. cbn [snd]. intros H%read_config_only.
    transitivity d2; [|done]. eapply remove_file_only; [by apply Hp|exact Er].
Qed.
End Commands.
End ConfigFile.

(** The commands leave every other file in place but the one they delete. *)
Section Files.
Context {C : CaseTables} {J : Json} {T : Tantivy} (os : platform) (h : host).
Context (serde_error : jsstr -> jsstr) (exists_error lock_error missing_error : jsstr).

(** The files differ at the configuration, or one is gone. *)
Definition files_kept (c : command) (d d' : disk jsstr) : Prop :=
  match c with
  | DeleteFileAndIndex p _ => contents d' = contents d \/ contents d' = delete p (contents d)
  | _ => config_only os d d'
  end.

Lemma diagnostics_only x m r d : diagnostics_report os (at_sys x) serde_error (probes_of x m) (m_files m) = (r, d) ->
  config_only os (m_files m) d.
Proof.
  unfold diagnostics_report, io_bind. destruct (read_config os (at_sys x) serde_error (m_files m)) as [[e|cfg] d1] eqn:E;
    intros [= _ <-]; by apply read_config_only in E.
Qed.

Lemma auto_scan_only sys d r d' : start_auto_scan_now os sys serde_error d = (r, d') -> config_only os d d'.
Proof.
  unfold start_auto_scan_now, io_bind. destruct (read_config os sys serde_error d) as [[e|cfg] d1] eqn:E;
    intros [= _ <-]; by apply read_config_only in E.
Qed.

Lemma delete_only sys path ix d r d' docs : delete_file_and_index (buffer := jsstr) sys path ix d = (r, d', docs) ->
  contents d' = contents d \/ contents d' = delete path (contents d).
Proof.
  unfold delete_file_and_index, remove_file.
  destruct (refuses_remove sys path); [intros [= _ <- _]; by left|].
  destruct (contents d !! path); [|intros [= _ <- _]; by left].
  destruct ix as [ix|]; [|intros [= _ <- _]; by right].
  destruct (path_field ix); [|intros [= _ <- _]; by right].
  destruct (open_writer _ _ _); [intros [= _ <- _]; by right|].
  destruct (commit_error ix); intros [= _ <- _]; by right.
Qed.

Lemma executes_files x m c o : executes os h serde_error exists_error lock_error missing_error x m c o ->
  files_kept c (m_files m) (m_files (o_machine o)).
Proof.
  intros [c' o' H _|paths r _]; [|done]. clear c o. rename c' into c, o' into o.
  destruct c; simpl in H; try (injection H as <-; done).
  - destruct (scan_paths_progress _ _ _ _) as [fs es]. by injection H as <-.
  - destruct (build _ _ _ _ _ _) as [r ix]. by injection H as <-.
  - destruct (build_progress _ _ _ _ _ _ _) as [[es r] ix]. by injection H as <-.
  - done.
  - destruct (start_auto_scan_now _ _ _ _) as [[e|[e l]] d] eqn:E; injection H as <-; by apply auto_scan_only in E.
  - destruct (diagnostics_report _ _ _ _ _) as [r d] eqn:E. injection H as <-. by apply diagnostics_only in E.
  - done.
  - destruct (read_config _ _ _ _) as [r d] eqn:E. injection H as <-. by apply read_config_only in E.
  - destruct (write_config _ _ _ _) as [r d] eqn:E. injection H as <-. by apply write_config_only in E.
  - destruct (reset_config _ _ _ _) as [r d] eqn:E. injection H as <-. by apply reset_config_only in E.
  - destruct (delete_file_and_index _ _ _ _) as [[r d] docs] eqn:E. injection H as <-. by apply delete_only in E.
Qed.
End Files.

(** ** One writer per index *)

Definition writers (m : machine) : list live := filterb (fun l => negb (ended (lv_run l))) (m_runs m).
Definition one_writer (m : machine) : Prop := NoDup (map lv_dir (writers m)).

Lemma ended_over s : ended s = true <-> over s.
Proof.
  unfold ended, over. destruct (at_phase s), (jobs s); naive_solver.
Qed.

Lemma writer_busy_spec dir m : writer_busy dir m = true <-> dir ∈ map lv_dir (writers m).
Proof.
  unfold writer_busy, writers, holds_writer. rewrite existsb_exists, list_elem_of_fmap. split.
  - intros (l & Hl & [Hd%bool_decide_eq_true He]%andb_true_iff). exists l. split; [done|].
    apply filterb_elem_of. split; [by apply list_elem_of_In|done].
  - intros (l & -> & [Hl He]%filterb_elem_of). exists l. split; [by apply list_elem_of_In|].
    by rewrite bool_decide_true.
Qed.

Section Runs.
Context {C : CaseTables} {J : Json} {T : Tantivy} (os : platform) (h : host).
Context (serde_error : jsstr -> jsstr) (exists_error lock_error missing_error : jsstr).

(** A run that is over takes no step. *)
Lemma ended_stuck read_text parse s s' : ended s = true -> ~ Pipeline.step read_text parse s s'.
Proof.
  intros [Hp Hj]%ended_over Hs. destruct Hs; try congruence; rewrite Hj in *; by destruct l.
Qed.

Lemma writers_middle m l1 l l2 : m_runs m = l1 ++ l :: l2 ->
  writers m = filterb (fun l => negb (ended (lv_run l))) l1 ++ (if ended (lv_run l) then [] else [l])
              ++ filterb (fun l => negb (ended (lv_run l))) l2.
Proof. intros E. unfold writers. rewrite E, List.filter_app. simpl. by destruct (ended (lv_run l)). Qed.

Lemma runs_on_one_writer m es i m' : runs_on m es i m' -> one_writer m -> one_writer m'.
Proof.
  intros [m0 l1 l l2 rt s' E Hs]. unfold one_writer.
  assert (He : ended (lv_run l) = false) by (apply not_true_iff_false; intros He; exact (ended_stuck rt (lv_parse l) (synced m0 l) s' He Hs)).
  rewrite (writers_middle m0 l1 l l2 E), He. erewrite writers_middle by reflexivity. cbn [lv_run stepped].
  destruct (ended s'); rewrite !map_app; simpl; [|done]. rewrite !NoDup_app, NoDup_cons. set_solver.
Qed.

Lemma launch_run_runs x roots exclude dir parse call m r m' :
  launch_run os exists_error lock_error x roots exclude dir parse call m = (r, m') ->
  m_files m' = m_files m
  /\ match r with
     | inl _ => m_runs m' = m_runs m
     | inr _ => exists s, writer_busy dir m = false /\ ended s = false
                  /\ (exists docs, s = start (at_today x) (at_marked x) (m_state m) docs
                         (pipeline_files (windows os) (at_walk x) roots exclude))
                  /\ m_runs m' = m_runs m ++ [{| lv_dir := dir; lv_parse := parse; lv_call := call; lv_run := s |}]
     end.
Proof.
  unfold launch_run, no_writer_for, open_writer, faults_at, lock_at. cbn [no_dir locked no_writer faults_of].
  destruct (no_dir (at_faults x)); [by intros [= <- <-]|].
  destruct (open_or_create _ _ _) as [e|docs]; [by intros [= <- <-]|].
  destruct (at_pool x); [by intros [= <- <-]|]. destruct (writer_busy dir m) eqn:Hb; [by intros [= <- <-]|].
  destruct (_ <? _); [by intros [= <- <-]|]. destruct (no_writer (at_faults x)); intros [= <- <-]; [done|].
  split; [done|]. eexists. split_and!; [done| |by eexists|reflexivity]. done.
Qed.

Lemma launch_run_one_writer x roots exclude dir parse call m r m' :
  launch_run os exists_error lock_error x roots exclude dir parse call m = (r, m') -> one_writer m -> one_writer m'.
Proof.
  intros [_ H]%launch_run_runs. unfold one_writer, writers. destruct r; [by rewrite H|].
  destruct H as (s & Hb & He & _ & ->). rewrite List.filter_app. simpl. rewrite He. simpl. rewrite map_app. simpl.
  intros Hn. apply NoDup_app. split; [done|]. split; [|apply NoDup_singleton].
  intros d Hd Hd'. apply list_elem_of_singleton in Hd' as ->. assert (writer_busy dir m = true) by by apply writer_busy_spec. congruence.
Qed.

(** ** What a run is like *)

Definition rooted_files (fs : list file_meta) : Prop := Forall (fun f => has_sep (f_path f)) fs.
Definition run_ok (l : live) : Prop := exists fs, fits fs /\ rooted_files fs /\ Pipeline.inv fs (lv_run l).

Lemma synced_inv fs m l : Pipeline.inv fs (lv_run l) -> Pipeline.inv fs (synced m l).
Proof. intros [H1 H2 H3 H4 H5]. split; assumption. Qed.

Lemma runs_on_ok m es i m' : runs_on m es i m' -> Forall run_ok (m_runs m) -> Forall run_ok (m_runs m').
Proof.
  intros [m0 l1 l l2 rt s' E Hs]. cbn [m_runs]. rewrite E, !Forall_app, !Forall_cons. intros (H1 & (fs & Hf & Hp & Hi) & H2).
  split_and!; [done| |done]. exists fs. split; [done|]. split; [done|]. eapply inv_step; [|exact Hs]. by apply synced_inv.
Qed.

Lemma visit_path mtime exclude limit e f : visit (windows os) mtime exclude limit e = Some f ->
  exists e', e = Some e' /\ path_str e' = Some (f_path f).
Proof.
  unfold visit. destruct e as [e|]; [|done]. cbn [mbind option_bind]. destruct (is_file e); [|done].
  intros (p & Hp & H)%bind_Some. exists e. split; [done|]. destruct (existsb _ _); [done|].
  apply bind_Some in H as (md & _ & H). destruct (match limit with Some _ => _ | None => _ end); [done|]. by injection H as <-.
Qed.

(** What a walk finds is below a directory. *)
Lemma visited_rooted x mtime exclude limit b rts :
  rooted_files (omap (visit (windows os) mtime exclude limit) (flat_map (at_walk x b) rts)).
Proof.
  apply Forall_forall. intros f (e & He & Hv)%list_elem_of_omap. apply visit_path in Hv as (e' & -> & Hp).
  apply list_elem_of_In, in_flat_map in He as (root & _ & He%list_elem_of_In). by eapply at_walk_sep.
Qed.

Lemma pipeline_files_rooted x rts exclude : rooted_files (pipeline_files (windows os) (at_walk x) rts exclude).
Proof. apply visited_rooted. Qed.

Lemma scan_rooted x o : rooted_files (scan (windows os) (at_walk x) (at_clock x) o).
Proof. rewrite scan_omap. apply visited_rooted. Qed.

Lemma launch_run_ok x roots exclude dir parse call m r m' :
  fits (pipeline_files (windows os) (at_walk x) roots exclude) ->
  launch_run os exists_error lock_error x roots exclude dir parse call m = (r, m') -> Forall run_ok (m_runs m) -> Forall run_ok (m_runs m').
Proof.
  intros Hf [_ H]%launch_run_runs Hr. destruct r; [by rewrite H|]. destruct H as (s & _ & _ & (docs & ->) & ->).
  apply Forall_app. split; [done|]. constructor; [|done]. eexists. split; [exact Hf|]. split; [apply pipeline_files_rooted|]. apply inv_start.
Qed.

(** ** The events of the back end *)

Definition small (n : nat) : Prop := Z.of_nat n <= 2 ^ 53.
Definition small_event (e : event) : Prop :=
  match e with EScanned k _ | EIndexed k _ | EScanDone k => small k | EIndexDone => True end.

Inductive rust_emits : emission -> Prop :=
| emits_run e : small_event e -> rust_emits (emission_of e)
| emits_progress i n f b : small (S i) -> small n -> rust_emits (index_progress_event i n f b)
| emits_auto reason : rust_emits (auto_scan_start reason).

Lemma count_small n : small n -> count (of_Z (Z.of_nat n)).
Proof. intros H. unfold small in H. rewrite of_Z_small by lia. simpl. pose proof one_pos. lia. Qed.

(** Every number the application reads from them is a count. *)
Lemma rust_emits_counts e : rust_emits e ->
  Forall event_counts (received e) /\ opt_count (sp_current (read_scan_progress (snd e))).
Proof.
  intros [ev Hev|i n f b Hi Hn|reason].
  - destruct ev as [k f|k f|k|]; simpl in Hev; cbn -[of_Z count]; try (pose proof (count_small k Hev)); repeat constructor; assumption.
  - pose proof (count_small _ Hi). pose proof (count_small n Hn). destruct b; cbn -[of_Z count Z.of_nat]; repeat constructor; assumption.
  - repeat constructor.
Qed.

Lemma omap_length_le {A B} (f : A -> option B) l : (length (omap f l) <= length l)%nat.
Proof.
  induction l as [|a l IH]; [done|].
  change (omap f (a :: l)) with (match f a with Some y => y :: omap f l | None => omap f l end).
  destruct (f a); cbn [length]; lia.
Qed.

Lemma inv_small fs s : fits fs -> Pipeline.inv fs s -> Forall small_event (emitted s).
Proof.
  intros Hf [(dn & Hd & Hn & Hsc & Hi) Hnum _ Ho _]. unfold fits in Hf.
  assert (Hlen : (length dn <= length fs)%nat) by (rewrite Hd, length_app; lia).
  assert (Htot : (total_counter s <= length dn)%nat).
  { apply Permutation_length in Hi, Hnum. rewrite !length_app, !length_map in Hi. rewrite length_app, length_map, length_seq in Hnum.
    assert (length (omap job_number (jobs s)) <= length (jobs s))%nat by apply omap_length_le. lia. }
  apply Forall_forall. intros e He. destruct e as [k f|k f|k|]; simpl; unfold small; [| | |done].
  - assert (Hin : (k, f) ∈ omap scanned_event (emitted s)) by (apply list_elem_of_omap; by exists (EScanned k f)).
    rewrite Hsc in Hin. apply list_elem_of_lookup in Hin as (j & Hj). rewrite list_lookup_imap in Hj.
    destruct (dn !! j) eqn:Ej; simpl in Hj; [|done]. injection Hj as <- _. apply lookup_lt_Some in Ej. lia.
  - assert (Hin : k ∈ map fst (omap indexed_event (emitted s))).
    { apply list_elem_of_fmap. exists (k, f). split; [done|]. apply list_elem_of_omap. by exists (EIndexed k f). }
    assert (Hk : k ∈ seq 1 (total_counter s)) by (rewrite <- Hnum; apply elem_of_app; by left).
    apply elem_of_seq in Hk. lia.
  - assert (k = found s) as ->; [|lia]. destruct (at_phase s); simpl in Ho.
    + rewrite Forall_forall in Ho. by apply Ho in He.
    + destruct Ho as (a & b & E & Ha & Hb). rewrite E, elem_of_app, elem_of_cons in He. rewrite Forall_forall in Ha, Hb.
      destruct He as [He|[He|He]]; [by apply Ha in He|by injection He|by apply Hb in He].
    + destruct Ho as (a & b & E & Ha & Hb). rewrite E, elem_of_app, elem_of_cons in He. rewrite Forall_forall in Ha, Hb.
      destruct He as [He|[He|He]]; [by apply Ha in He|by injection He|by apply Hb in He].
    + destruct Ho as (a & b & c & E & Ha & Hb & Hc). rewrite Forall_forall in Ha, Hb, Hc.
      rewrite E, elem_of_app, elem_of_cons, elem_of_app, elem_of_cons in He.
      destruct He as [He|[He|[He|[[=]|He]]]]; [by apply Ha in He|by injection He|by apply Hb in He|by apply Hc in He].
Qed.

Lemma runs_on_emits m es i m' : runs_on m es i m' -> Forall run_ok (m_runs m) -> Forall rust_emits es.
Proof.
  intros [m0 l1 l l2 rt s' E Hs]. rewrite E, Forall_app, Forall_cons. intros (_ & (fs & Hf & _ & Hi) & _).
  assert (Hs' : Pipeline.inv fs s') by (eapply inv_step; [by apply synced_inv|exact Hs]).
  apply inv_small in Hs'; [|done]. unfold new_events. apply Forall_fmap, Forall_drop.
  eapply Forall_impl; [exact Hs'|]. intros e He. by constructor.
Qed.

Lemma scan_paths_progress_emits x o :
  fits (scan (windows os) (at_walk x) (at_clock x) o) ->
  Forall rust_emits (snd (scan_paths_progress (windows os) (at_walk x) (at_clock x) o)).
Proof.
  intros Hf. rewrite scan_paths_progress_eq. cbn [snd]. unfold fits in Hf. apply Forall_app. split.
  - apply Forall_lookup. intros j e. unfold progress_events. rewrite list_lookup_imap.
    destruct (_ !! j) as [f|] eqn:Ej; simpl; [|done]. intros [= <-]. apply lookup_lt_Some in Ej.
    apply (emits_run (EScanned (S j) f)). simpl. unfold small. lia.
  - constructor; [|done]. by apply (emits_run (EScanDone _)).
Qed.

Lemma build_progress_emits read_text parse exists_error' pick fl ix fs :
  fits fs -> Forall rust_emits (fst (fst (build_progress read_text parse exists_error' pick fl ix fs))).
Proof.
  intros Hf. unfold fits in Hf. destruct (build_progress _ _ _ _ _ _ _) as [[es r] ix'] eqn:E. cbn [fst].
  assert (Ht : Forall rust_emits (progress_trace pick (default [] ix) (length fs) 0 fs)).
  { apply Forall_lookup. intros j e. unfold progress_trace. rewrite list_lookup_imap.
    destruct (fs !! j) as [f|] eqn:Ej; simpl; [|done]. intros [= <-]. apply lookup_lt_Some in Ej.
    constructor; unfold small; lia. }
  apply build_progress_inv in E as [(_ & -> & _)|(_ & (k & ->) & _)].
  - apply Forall_app. split; [done|]. constructor; [|done]. by apply (emits_run EIndexDone).
  - by apply Forall_take.
Qed.

Lemma executes_emits x m c o : executes os h serde_error exists_error lock_error missing_error x m c o ->
  Forall rust_emits (o_events o).
Proof.
  intros [c' o' H Hc|paths r _]; [|done]. destruct c'; simpl in H; try (injection H as <-; done).
  - pose proof (scan_paths_progress_emits x o0 Hc). destruct (scan_paths_progress _ _ _ _) as [fs es]. by injection H as <-.
  - destruct (build _ _ _ _ _ _) as [r ix]. by injection H as <-.
  - pose proof (build_progress_emits (at_text x) enable_content_parse exists_error (at_best x) (faults_at lock_error x m index_dir)
      (m_indexes m !! index_dir) files Hc).
    destruct (build_progress _ _ _ _ _ _ _) as [[es r] ix]. by injection H as <-.
  - done.
  - destruct (start_auto_scan_now _ _ _ _) as [[e|[e l]] d] eqn:E; injection H as <-; [done|].
    revert E. unfold start_auto_scan_now, io_bind. destruct (read_config _ _ _ _) as [[?|cfg] d1]; [done|].
    intros [= <- _ _]. constructor; [constructor|done].
  - destruct (diagnostics_report _ _ _ _ _) as [r d]. by injection H as <-.
  - done.
  - destruct (read_config _ _ _ _) as [r d]. by injection H as <-.
  - destruct (write_config _ _ _ _) as [r d]. by injection H as <-.
  - destruct (reset_config _ _ _ _) as [r d]. by injection H as <-.
  - destruct (delete_file_and_index _ _ _ _) as [[r d] docs]. by injection H as <-.
Qed.
End Runs.
