(* ===== verification/Records.v ===== *)
(** * What stays in the indexes

    The paths of scanned files have a separator, and a record is only deleted by a
    term that is such a path, which no record has among its tokens.  So no command
    of the pages and no pipeline ever takes a record out of an index: indexes only
    grow, and what a pipeline has written stays. *)

From stdpp Require Import gmap.
From S2P Require Import Prelude JsNumber JsString PathUtil Types Effects Invoke Wire Highlight AppState Handlers AppSystem EventBus FileSystem RustStd Config Scan Pipeline Indexer IndexCommands Commands Scheduler AppPaths Dedup Machine.
#[local] Open Scope Z_scope.

Definition rooted_docs (docs : list document) : Prop := Forall (fun d => has_sep (d_path d)) docs.
Definition rooted (m : machine) : Prop := map_Forall (fun _ docs => rooted_docs docs) (m_indexes m).

(** Every index of [m] is still there, with more at its end. *)
Definition grows (m m' : machine) : Prop :=
  forall dir docs, m_indexes m !! dir = Some docs -> exists more, m_indexes m' !! dir = Some (docs ++ more).

#[export] Instance grows_preorder : PreOrder grows.
Proof.
  split; [intros m dir docs E; exists []; by rewrite app_nil_r|].
  intros m1 m2 m3 H1 H2 dir docs E. destruct (H1 dir docs E) as [a Ea]. destruct (H2 dir _ Ea) as [b Eb].
  exists (a ++ b). by rewrite app_assoc.
Qed.

Lemma grows_same m m' : m_indexes m' = m_indexes m -> grows m m'.
Proof. intros H dir docs E. exists []. by rewrite H, app_nil_r. Qed.

Lemma grows_insert m m' dir docs more : m_indexes m' = <[dir := docs ++ more]> (m_indexes m) ->
  default [] (m_indexes m !! dir) = docs -> grows m m'.
Proof.
  intros H Hd dir' docs' E. rewrite H. destruct (decide (dir = dir')) as [->|Hn].
  - rewrite E in Hd. simpl in Hd. subst. exists more. by rewrite lookup_insert_eq.
  - exists []. by rewrite lookup_insert_ne, app_nil_r.
Qed.

(** A document of a file. *)
Definition record_for (f : file_meta) (d : document) : Prop :=
  d_path d = f_path f /\ d_name d = f_name f /\ d_ext d = f_ext f /\ d_size d = f_size f /\ d_modified_ts d = f_modified_ts f.

Definition indexed (m : machine) (dir : jsstr) (f : file_meta) : Prop :=
  exists docs, m_indexes m !! dir = Some docs /\ Exists (record_for f) docs.

Lemma indexed_grows m m' dir f : grows m m' -> indexed m dir f -> indexed m' dir f.
Proof.
  intros H (docs & E & Hd). destruct (H dir docs E) as [more E']. exists (docs ++ more). split; [done|].
  apply Exists_app. by left.
Qed.

(** What a run without failed writes has written is in its index. *)
Definition run_indexed (m : machine) (l : live) : Prop :=
  failed (lv_run l) = 0%nat -> Forall (indexed m (lv_dir l)) (written_files (lv_run l)).

Lemma run_indexed_grows m m' l : grows m m' -> run_indexed m l -> run_indexed m' l.
Proof. intros H Hl Hf. eapply Forall_impl; [by apply Hl|]. intros f. by apply indexed_grows. Qed.

Section Records.
Context {C : CaseTables} {J : Json} {T : Tantivy} (os : platform) (h : host).
Context (serde_error : jsstr -> jsstr) (exists_error lock_error missing_error : jsstr).
#[local] Abbreviation exec := (executes os h serde_error exists_error lock_error missing_error).

(** ** Commands *)

Lemma delete_docs sys path ix d r d' docs : has_sep path ->
  delete_file_and_index (buffer := jsstr) sys path ix d = (r, d', docs) ->
  docs = match ix with Some ix => documents ix | None => [] end.
Proof.
  intros Hs. unfold delete_file_and_index, remove_file. destruct (refuses_remove sys path); [by intros [= _ _ <-]|].
  destruct (contents d !! path); [|by intros [= _ _ <-]]. destruct ix as [ix|]; [|by intros [= _ _ <-]].
  destruct (path_field ix); [|by intros [= _ _ <-]]. destruct (open_writer _ _ _); [by intros [= _ _ <-]|].
  destruct (commit_error ix); intros [= _ _ <-]; [done|]. by apply delete_term_path.
Qed.

Lemma opened_index_docs x m dir ix : opened_index lock_error missing_error x m dir = Some ix ->
  m_indexes m !! dir = Some (documents ix).
Proof.
  unfold opened_index, open_index. destruct (at_open x dir); [done|]. destruct (m_indexes m !! dir); [|done]. by intros [= <-].
Qed.

(** The commands the pages can send leave every index as it is. *)
Lemma executes_indexes x m c o : path_command has_sep c -> exec x m c o -> m_indexes (o_machine o) = m_indexes m.
Proof.
  intros Hp He. revert Hp. destruct He as [c o H _|paths r _]; [|done]. intros Hp.
  destruct c; simpl in H; try (injection H as <-; done); try done.
  - destruct (scan_paths_progress _ _ _ _) as [fs es]. by injection H as <-.
  - destruct (start_auto_scan_now _ _ _ _) as [[e|[e l]] d]; by injection H as <-.
  - destruct (diagnostics_report _ _ _ _ _) as [r d]. by injection H as <-.
  - destruct (read_config _ _ _ _) as [r d]. by injection H as <-.
  - destruct (write_config _ _ _ _) as [r d]. by injection H as <-.
  - destruct (reset_config _ _ _ _) as [r d]. by injection H as <-.
  - destruct (delete_file_and_index _ _ _ _) as [[r d] docs] eqn:E. injection H as <-.
    apply delete_docs in E; [|exact Hp]. cbn [plain o_machine with_index with_files m_indexes].
    destruct (opened_index _ _ x m index_dir) as [ix|] eqn:Eo; [|by apply partial_alter_self].
    rewrite E, <- (opened_index_docs _ _ _ _ Eo). apply partial_alter_self.
Qed.

(** The paths in a result. *)
Definition value_paths (v : value) : Prop :=
  match v with
  | OkFiles l => Forall (fun f => has_sep (f_path f)) l
  | OkResults l => Forall (fun r => has_sep (sr_path r)) l
  | OkGroups l => Forall (fun g => Forall has_sep (files g)) l
  | _ => True
  end.

Lemma detects_files name hash paths groups : detects name hash paths (inr groups) -> Forall has_sep paths ->
  Forall (fun g => Forall has_sep (files g)) groups.
Proof.
  intros Hd Hp. unfold detects in Hd. pose proof (hash_groups_grouped hash [] paths ∅ (grouped_empty _)) as H.
  destruct (hash_groups hash ∅ paths) as [e|hm]; [done|]. destruct H as [Hh _]. destruct Hd as (hs & ns & Ehs & Ens & [= ->]).
  assert (Hk : forall (f : jsstr -> option jsstr) k, Forall has_sep (with_key f k paths)).
  { intros f k. by apply filterb_Forall_keep. }
  apply Forall_forall. intros g [Hg|Hg]%elem_of_app.
  - apply (emit_groups_spec _ _ _ _ _ _ Hh Ehs) in Hg as (_ & -> & _). apply Hk.
  - apply (emit_groups_spec _ _ _ _ _ _ (name_groups_grouped name paths) Ens) in Hg as (_ & -> & _). apply Hk.
Qed.

Lemma query_paths x m text filters dir rows : rooted m ->
  query (at_ranked x) (open_index missing_error x m) text filters dir = inr rows -> Forall (fun r => has_sep (sr_path r)) rows.
Proof.
  intros Hm H. destruct (open_index missing_error x m dir) as [e|docs] eqn:Eo; [unfold query in H; by rewrite Eo in H|].
  destruct (at_ranked x text docs) as [e|hits] eqn:Er; [unfold query in H; by rewrite Eo, Er in H|].
  rewrite (query_hits _ _ _ _ _ _ _ Eo Er) in H. injection H as <-. apply Forall_fmap, filterb_Forall_keep, Forall_take.
  apply Forall_forall. intros hit Hh%(at_ranked_in x _ _ _ _ Er). simpl.
  unfold open_index in Eo. destruct (at_open x dir); [done|]. destruct (m_indexes m !! dir) as [docs'|] eqn:Ei; [|done].
  injection Eo as ->. specialize (Hm dir docs Ei). unfold rooted_docs in Hm. rewrite Forall_forall in Hm. by apply Hm.
Qed.

Lemma executes_paths x m c o v : rooted m -> path_command has_sep c -> exec x m c o -> o_response o = inr v -> value_paths v.
Proof.
  intros Hm Hp He. revert Hp. destruct He as [c o H _|paths r Hd]; intros Hp Hv.
  - destruct c; simpl in H; try done.
    + injection H as <-. injection Hv as <-. apply scan_rooted.
    + pose proof (scan_rooted os x o0) as Hs. rewrite scan_paths_progress_eq in H. injection H as <-. by injection Hv as <-.
    + destruct (start_auto_scan_now _ _ _ _) as [[e|[e l]] d]; injection H as <-; [done|]. by injection Hv as <-.
    + destruct (diagnostics_report _ _ _ _ _) as [[e|r] d]; injection H as <-; [done|]. by injection Hv as <-.
    + destruct (query _ _ _ _ _) as [e|rows] eqn:Eq; injection H as <-; [done|]. injection Hv as <-. by eapply query_paths.
    + destruct (read_config _ _ _ _) as [[e|r] d]; injection H as <-; [done|]. by injection Hv as <-.
    + destruct (write_config _ _ _ _) as [[e|r] d]; injection H as <-; [done|]. by injection Hv as <-.
    + destruct (reset_config _ _ _ _) as [[e|r] d]; injection H as <-; [done|]. by injection Hv as <-.
    + destruct (open_location _ _ _ _) as [e|r]; injection H as <-; [done|]. by injection Hv as <-.
    + destruct (delete_file_and_index _ _ _ _) as [[[e|r] d] docs]; injection H as <-; [done|]. by injection Hv as <-.
  - destruct r as [e|groups]; [done|]. injection Hv as <-. by eapply detects_files.
Qed.

(** ** Pipelines *)

Lemma rooted_insert m m' dir docs : m_indexes m' = <[dir := docs]> (m_indexes m) -> rooted m -> rooted_docs docs -> rooted m'.
Proof. intros E Hm Hd. unfold rooted. rewrite E. by apply map_Forall_insert_2. Qed.

Lemma rooted_default m dir : rooted m -> rooted_docs (default [] (m_indexes m !! dir)).
Proof. intros Hm. destruct (m_indexes m !! dir) eqn:E; [by apply (Hm dir)|constructor]. Qed.

Lemma launch_run_indexes x roots exclude dir parse call m r m' :
  launch_run os exists_error lock_error x roots exclude dir parse call m = (r, m') ->
  m_indexes m' = m_indexes m \/ m_indexes m' = <[dir := default [] (m_indexes m !! dir)]> (m_indexes m).
Proof.
  unfold launch_run. destruct (no_dir _); [intros [= _ <-]; by left|].
  destruct (open_or_create _ _ _) as [e|docs] eqn:E; [intros [= _ <-]; by left|]. apply open_or_create_docs in E as ->.
  destruct (at_pool x); [intros [= _ <-]; by right|]. destruct (no_writer_for _ _); intros [= _ <-]; by right.
Qed.

Lemma launch_run_grows x roots exclude dir parse call m r m' :
  launch_run os exists_error lock_error x roots exclude dir parse call m = (r, m') -> grows m m' /\ (rooted m -> rooted m').
Proof.
  intros [E|E]%launch_run_indexes.
  - split; [by apply grows_same|]. intros Hm. unfold rooted. by rewrite E.
  - split; [by eapply (grows_insert _ _ dir _ []); [rewrite app_nil_r|]|]. intros Hm. eapply rooted_insert; [exact E|done|].
    by apply rooted_default.
Qed.

Lemma launch_run_indexed x roots exclude dir parse call m r m' :
  launch_run os exists_error lock_error x roots exclude dir parse call m = (r, m') ->
  Forall (run_indexed m) (m_runs m) -> Forall (run_indexed m') (m_runs m').
Proof.
  intros H Hr. pose proof (launch_run_grows _ _ _ _ _ _ _ _ _ H) as [Hg _].
  assert (Hr' : Forall (run_indexed m') (m_runs m)) by (eapply Forall_impl; [exact Hr|]; intros l; by apply run_indexed_grows).
  apply launch_run_runs in H as [_ H]. destruct r; [by rewrite H|]. destruct H as (s & _ & _ & (docs & ->) & ->).
  apply Forall_app. split; [done|]. constructor; [|done]. intros _. constructor.
Qed.

End Records.

Section Written.
Context {T : Tantivy}.

Definition rooted_ops (ops : list write_op) : Prop := Forall (fun o => has_sep (op_path o)) ops.

(** Only records are added, those of the files when nothing failed. *)
Lemma stores_rooted read_text parse f pend st ok pend' st' : has_sep (f_path f) -> rooted_ops pend ->
  stores read_text parse f pend st ok pend' st' ->
  exists more, st' = st ++ more /\ rooted_docs more /\ (ok = true -> pend = [] -> more = [document_of read_text parse f]).
Proof.
  intros Hf Hp Hs.
  assert (Hops : forall added, rooted_ops (ops_of read_text parse f added)).
  { intros added. eapply Forall_impl; [apply ops_of_path|]. simpl. by intros o ->. }
  destruct Hs as [kept added Hk|kept added Hk]; [|exists []; rewrite app_nil_r; split; [done|]; by split; [constructor|]].
  assert (Hr : rooted_ops (kept ++ ops_of read_text parse f added)).
  { apply Forall_app. split; [by eapply sublist_Forall|apply Hops]. }
  rewrite (apply_ops _ _ Hr). eexists. split; [done|]. split.
  - apply Forall_forall. intros d (o & Ho & Hd)%list_elem_of_omap. unfold rooted_ops in Hr. rewrite Forall_forall in Hr.
    specialize (Hr o Ho). destruct o; [done|]. by injection Hd as ->.
  - intros -> ->. by apply sublist_nil_r in Hk as ->.
Qed.

Lemma pending_rooted fs s : rooted_files fs -> Pipeline.inv fs s -> rooted_ops (pending s).
Proof.
  intros Hf [_ _ _ _ [_ Hp]]. eapply Forall_impl; [exact Hp|]. simpl. intros o (f & -> & Hin)%list_elem_of_fmap.
  unfold rooted_files in Hf. rewrite Forall_forall in Hf. by apply Hf.
Qed.

(** What a step writes. *)
Lemma step_writes read_text parse fs s s' : rooted_files fs -> Pipeline.inv fs s -> Pipeline.step read_text parse s s' ->
  exists more, store s' = store s ++ more /\ rooted_docs more
    /\ (failed s' = 0%nat -> failed s = 0%nat
        /\ exists new, written_files s' ≡ₚ new ++ written_files s /\ more = map (document_of read_text parse) new).
Proof.
  intros Hp Hinv Hs. pose proof (pending_rooted fs s Hp Hinv) as Hpend.
  destruct Hinv as [(dn & Hd & _ & _ & Hi) _ _ _ [Hz _]]. unfold written_files.
  assert (Hnone : forall s', store s' = store s -> failed s' = failed s ->
    map snd (omap indexed_event (emitted s')) ++ omap written (jobs s') ≡ₚ map snd (omap indexed_event (emitted s)) ++ omap written (jobs s) ->
    exists more, store s' = store s ++ more /\ rooted_docs more
      /\ (failed s' = 0%nat -> failed s = 0%nat
          /\ exists new, map snd (omap indexed_event (emitted s')) ++ omap written (jobs s')
                 ≡ₚ new ++ map snd (omap indexed_event (emitted s)) ++ omap written (jobs s)
               /\ more = map (document_of read_text parse) new)).
  { intros s0 H1 H2 H3. exists []. rewrite app_nil_r. split; [done|]. split; [constructor|]. intros H. split; [congruence|].
    by exists []. }
  assert (Hj : forall l f r, jobs s = l ++ Spawned f :: r -> has_sep (f_path f)).
  { intros l f r E. unfold rooted_files in Hp. rewrite Forall_forall in Hp. apply Hp. rewrite Hd, Hi, E, map_app. simpl. set_solver. }
  destruct Hs as [s f rest Hph Ht|s Hph Ht|s today ok Hph|s Hph|s l f r ok pd docs E Hst|s l f r E|s l f cur r E].
  1-4: apply Hnone; [done..|]; simpl; rewrite ?(omap_skip indexed_event) by done; rewrite ?omap_app; simpl; by rewrite ?app_nil_r.
  - specialize (Hj l f r E). destruct (stores_rooted _ _ _ _ _ _ _ _ Hj Hpend Hst) as (more & Hm & Hr & Hok).
    exists more. split; [exact Hm|]. split; [exact Hr|]. simpl. intros Hf. destruct ok; [|done]. split; [done|].
    exists [f]. rewrite (Hok eq_refl (Hz Hf)). split; [|done]. rewrite E, !omap_app. simpl. solve_Permutation.
  - apply Hnone; [done..|]. simpl. by rewrite E, !omap_app.
  - apply Hnone; [done..|]. simpl. rewrite E, !omap_app, map_app. simpl. solve_Permutation.
Qed.

Lemma runs_on_grows m es i m' : runs_on m es i m' -> Forall run_ok (m_runs m) -> rooted m ->
  grows m m' /\ rooted m' /\ (Forall (run_indexed m) (m_runs m) -> Forall (run_indexed m') (m_runs m')).
Proof.
  intros [m0 l1 l l2 rt s' E Hs]. cbn [m_runs m_indexes]. rewrite E, !Forall_app, !Forall_cons.
  intros (_ & (fs & Hf & Hp & Hi) & _) Hm.
  destruct (step_writes rt (lv_parse l) fs _ s' Hp (synced_inv fs m0 l Hi) Hs) as (more & Hst & Hn & Hz).
  cbn [synced store failed] in Hst, Hz.
  set (m2 := {| m_files := _; m_indexes := _; m_state := _; m_runs := _ |}).
  assert (Hg : grows m0 m2) by (eapply grows_insert; [cbn [m_indexes m2]; by rewrite Hst|done]).
  split; [exact Hg|]. split.
  - eapply rooted_insert; [reflexivity|done|]. rewrite Hst. unfold rooted_docs. apply Forall_app.
    split; [by apply rooted_default|exact Hn].
  - intros (H1 & Hl & H2).
    assert (Hmore : forall l0, run_indexed m0 l0 -> run_indexed m2 l0) by (intros l0; by apply run_indexed_grows).
    split_and!; [by eapply Forall_impl| |by eapply Forall_impl].
    intros Hfail. cbn [stepped lv_run lv_dir] in Hfail |- *. destruct (Hz Hfail) as (Hf0 & new & Hw & ->).
    rewrite Hw. apply Forall_app. split.
    + apply Forall_forall. intros f Hin. exists (store s'). split; [apply lookup_insert_eq|]. apply Exists_exists.
      exists (document_of rt (lv_parse l) f). split; [|by repeat split].
      rewrite Hst. apply elem_of_app. right. by apply list_elem_of_fmap_2.
    + by apply (Hmore l Hl).
Qed.

(** When a run is over, every file it announced has been written, unless a write
    failed. *)
Lemma announced_written fs s k f : Pipeline.inv fs s -> over s -> EScanned k f ∈ emitted s -> f ∈ written_files s.
Proof.
  intros [(dn & _ & _ & Hsc & Hi) _ _ _ _] [_ Hj] He. unfold written_files. rewrite Hj in Hi |- *.
  assert (Hin : (k, f) ∈ omap scanned_event (emitted s)) by (apply list_elem_of_omap; by exists (EScanned k f)).
  rewrite Hsc in Hin. apply list_elem_of_lookup in Hin as (j & Hj'). rewrite list_lookup_imap in Hj'.
  destruct (dn !! j) as [g|] eqn:Eg; [|done]. injection Hj' as _ ->. apply list_elem_of_lookup_2 in Eg.
  by rewrite Hi in Eg.
Qed.

(** A pipeline that is over has written every file it found. *)
Lemma over_written fs s f : Pipeline.inv fs s -> over s -> f ∈ fs -> f ∈ written_files s.
Proof.
  intros [(dn & Hd & _ & _ & Hi) _ Hs _ _] [Hp Hj] Hf. rewrite (Hs ltac:(by rewrite Hp)), app_nil_r in Hd. subst fs.
  unfold written_files. rewrite Hj in Hi |- *. by rewrite Hi in Hf.
Qed.

Lemma over_written_all fs s : Pipeline.inv fs s -> over s -> written_files s ≡ₚ fs.
Proof.
  intros [(dn & Hd & _ & _ & Hi) _ Hs _ _] [Hp Hj]. rewrite (Hs ltac:(by rewrite Hp)), app_nil_r in Hd. subst fs.
  unfold written_files. rewrite Hj in Hi |- *. by rewrite Hi.
Qed.

Lemma over_announced fs s : Pipeline.inv fs s -> over s ->
  omap scanned_event (emitted s) = imap (fun k f => (S k, f)) fs.
Proof.
  intros [(dn & Hd & _ & Hsc & _) _ Hs _ _] [Hp _]. by rewrite (Hs ltac:(by rewrite Hp)), app_nil_r in Hd; subst fs.
Qed.
End Written.
