(* ===== verification/Server.v ===== *)
(** * The back end as a transition system

    Requests arrive, commands are executed, pipelines run, the daily timer fires,
    other programs change files; events and answers are put on one wire to the
    page, in order.  A command changes the machine at once, emits its events one
    by one and then answers, so the events of commands and pipelines that are under
    way together interleave in every order.

    Every call has one owner until it is answered: the work on it, the pipeline it
    waits for, or its answer on the wire. *)

From stdpp Require Import gmap relations.
From S2P Require Import Prelude JsNumber JsString Types Effects Invoke Wire Highlight AppState Handlers AppSystem EventBus AppInvariants FileSystem RustStd Config Scan Pipeline Indexer Commands Scheduler AppCounts AppPaths Dedup Machine Records.
#[local] Open Scope Z_scope.

Inductive message :=
| Emit (e : emission)
| Answer (call : nat) (r : response).

(** The work on a call: not begun, or what it has still to emit, to leave running
    and to answer. *)
Inductive work :=
| Received (rq : request)
| Emitting (es : list emission) (after : option launch) (r : response).

Record server := {
  s_machine : machine;
  s_spawned : list launch;            (* pipelines handed to the runtime *)
  s_work : list (nat * work);
  s_wire : list message;
}.

Section Server.
Context {C : CaseTables} {J : Json} {T : Tantivy} (os : platform) (h : host).
Context (serde_error : jsstr -> jsstr) (exists_error lock_error missing_error : jsstr).
#[local] Abbreviation exec := (executes os h serde_error exists_error lock_error missing_error).
#[local] Abbreviation begins := (launch_run os exists_error lock_error).

(** What an iteration of the loop of main.rs leads to. *)
Definition ticked (x : surroundings) (sv : server) : server :=
  let m := s_machine sv in
  let '(r, d) := read_config os (at_sys x) serde_error (m_files m) in
  let cfg := match r with inl _ => None | inr c => Some c end in
  let m' := with_files d m in
  match tick cfg (default no_state (state_file (probes_of x m))) (at_today x) (at_load x) with
  | Some (e, l) =>
      {| s_machine := m'; s_spawned := s_spawned sv ++ [l]; s_work := s_work sv; s_wire := s_wire sv ++ [Emit e] |}
  | None => {| s_machine := m'; s_spawned := s_spawned sv; s_work := s_work sv; s_wire := s_wire sv |}
  end.

Inductive serves (sv : server) : server -> Prop :=
| serves_reject l1 i rq l2 e :
    s_work sv = l1 ++ (i, Received rq) :: l2 -> decode os rq = None ->
    serves sv {| s_machine := s_machine sv; s_spawned := s_spawned sv;
                 s_work := l1 ++ (i, Emitting [] None (inl e)) :: l2; s_wire := s_wire sv |}
| serves_command l1 i rq l2 x c o :
    s_work sv = l1 ++ (i, Received rq) :: l2 -> decode os rq = Some c -> exec x (s_machine sv) c o ->
    serves sv {| s_machine := o_machine o; s_spawned := s_spawned sv;
                 s_work := l1 ++ (i, Emitting (o_events o) (o_launch o) (o_response o)) :: l2; s_wire := s_wire sv |}
| serves_pipeline l1 i rq l2 x o dir parse r m :
    s_work sv = l1 ++ (i, Received rq) :: l2 -> decode os rq = Some (ScanAndIndexPipeline o dir parse) ->
    fits (pipeline_files (windows os) (at_walk x) (sc_roots o) (sc_exclude_patterns o)) ->
    begins x (sc_roots o) (sc_exclude_patterns o) dir parse (Some i) (s_machine sv) = (r, m) ->
    serves sv {| s_machine := m; s_spawned := s_spawned sv;
                 s_work := l1 ++ match r with inl e => [(i, Emitting [] None (inl e))] | inr _ => [] end ++ l2;
                 s_wire := s_wire sv |}
| serves_spawned l1 l l2 x r m :
    s_spawned sv = l1 ++ l :: l2 ->
    fits (pipeline_files (windows os) (at_walk x) (l_roots l) (l_exclude l)) ->
    begins x (l_roots l) (l_exclude l) (l_index_dir l) false None (s_machine sv) = (r, m) ->
    serves sv {| s_machine := m; s_spawned := l1 ++ l2; s_work := s_work sv; s_wire := s_wire sv |}
| serves_emit l1 i e es after r l2 :
    s_work sv = l1 ++ (i, Emitting (e :: es) after r) :: l2 ->
    serves sv {| s_machine := s_machine sv; s_spawned := s_spawned sv; s_work := l1 ++ (i, Emitting es after r) :: l2;
                 s_wire := s_wire sv ++ [Emit e] |}
| serves_answer l1 i after r l2 :
    s_work sv = l1 ++ (i, Emitting [] after r) :: l2 ->
    serves sv {| s_machine := s_machine sv; s_spawned := s_spawned sv ++ option_list after; s_work := l1 ++ l2;
                 s_wire := s_wire sv ++ [Answer i r] |}
| serves_run es i m :
    runs_on (s_machine sv) es i m ->
    serves sv {| s_machine := m; s_spawned := s_spawned sv; s_work := s_work sv;
                 s_wire := s_wire sv ++ map Emit es ++ match i with Some i => [Answer i (inr OkUnit)] | None => [] end |}
| serves_tick x : serves sv (ticked x sv)
| serves_files d :
    serves sv {| s_machine := with_files d (s_machine sv); s_spawned := s_spawned sv; s_work := s_work sv;
                 s_wire := s_wire sv |}.

(** A request arrives. *)
Definition receive (i : nat) (rq : request) (sv : server) : server :=
  {| s_machine := s_machine sv; s_spawned := s_spawned sv; s_work := s_work sv ++ [(i, Received rq)]; s_wire := s_wire sv |}.

(** The page takes a message. *)
Definition with_wire (w : list message) (sv : server) : server :=
  {| s_machine := s_machine sv; s_spawned := s_spawned sv; s_work := s_work sv; s_wire := w |}.

(** ** What the back end can answer *)

Definition gives (rq : request) (r : response) : Prop :=
  match decode os rq with
  | None => exists e, r = inl e
  | Some (ScanAndIndexPipeline _ _ _) => r = inr OkUnit \/ exists e, r = inl e
  | Some c => exists x m o, rooted m /\ exec x m c o /\ o_response o = r
  end.

(** The caller asks for the type of the command it names. *)
Definition well_asked (rq : request) : Prop := forall c, decode os rq = Some c -> rq_ret rq = returns c.

Lemma gives_value rq r : well_asked rq -> gives rq r -> is_Some (answer_as (rq_ret rq) r).
Proof.
  intros Hq Hg. destruct r as [e|v]; [by eexists|]. unfold gives in Hg. destruct (decode os rq) as [c|] eqn:Ed.
  2: by destruct Hg as [e [=]]. rewrite (Hq c Ed).
  destruct c; try (destruct Hg as (x & m & out & _ & He & Hr); by eapply executes_value).
  destruct Hg as [[= ->]|[e [=]]]. by eexists.
Qed.

(** The paths in it are those of files. *)
Definition asks_paths (rq : request) : Prop := forall c, decode os rq = Some c -> path_command has_sep c.

Lemma gives_paths rq v : asks_paths rq -> gives rq (inr v) -> value_paths v.
Proof.
  intros Hq Hg. unfold gives in Hg. destruct (decode os rq) as [c|] eqn:Ed; [|by destruct Hg as [e [=]]]. specialize (Hq c Ed).
  destruct c; try (destruct Hg as (x & m & out & Hm & He & Hr); by eapply executes_paths).
  destruct Hg as [[= ->]|[e [=]]]. exact I.
Qed.

(** ** The invariant *)

Definition answers_call (msg : message) : option nat := match msg with Answer i _ => Some i | Emit _ => None end.

(** The owners of the calls under way. *)
Definition owners (sv : server) : list nat :=
  map fst (s_work sv) ++ omap lv_call (m_runs (s_machine sv)) ++ omap answers_call (s_wire sv).

Section Sent.
(** The calls made so far. *)
Context (sent : list cmd).

Definition asked (i : nat) (rq : request) : Prop := sent !! i = Some (Race rq).

Definition work_ok (w : nat * work) : Prop :=
  exists rq, asked (fst w) rq /\
    match snd w with
    | Received rq' => rq' = rq
    | Emitting es _ r => Forall rust_emits es /\ gives rq r
    end.

Definition message_ok (msg : message) : Prop :=
  match msg with
  | Emit e => rust_emits e
  | Answer i r => exists rq, asked i rq /\ gives rq r
  end.

(** A pipeline somebody waits for has not returned. *)
Definition waiting_ok (l : live) : Prop :=
  forall i, lv_call l = Some i -> at_phase (lv_run l) <> Returned
    /\ exists rq o dir parse, asked i rq /\ decode os rq = Some (ScanAndIndexPipeline o dir parse).

Record server_ok (sv : server) : Prop := {
  ok_work : Forall work_ok (s_work sv);
  ok_wire : Forall message_ok (s_wire sv);
  ok_runs : Forall run_ok (m_runs (s_machine sv));
  ok_waiting : Forall waiting_ok (m_runs (s_machine sv));
  ok_writer : one_writer (s_machine sv);
  ok_owners : NoDup (owners sv);
  ok_rooted : rooted (s_machine sv);
  ok_indexed : Forall (run_indexed (s_machine sv)) (m_runs (s_machine sv));
  ok_sent : forall i rq, asked i rq -> asks_paths rq;
}.

Lemma gives_error rq e : decode os rq = None \/ (exists o dir parse, decode os rq = Some (ScanAndIndexPipeline o dir parse)) ->
  gives rq (inl e).
Proof. unfold gives. intros [->|(o & dir & parse & ->)]; [by exists e|right; by exists e]. Qed.

Lemma gives_command x m rq c o : decode os rq = Some c -> rooted m -> exec x m c o -> gives rq (o_response o).
Proof.
  intros Hd Hm He. unfold gives. rewrite Hd. destruct c; try (by exists x, m, o). exfalso. by inversion He.
Qed.

Lemma launch_calls x roots exclude dir parse call m r m' :
  begins x roots exclude dir parse call m = (r, m') ->
  omap lv_call (m_runs m') = omap lv_call (m_runs m) ++ match r with inl _ => [] | inr _ => option_list call end.
Proof.
  intros [_ H]%launch_run_runs. destruct r; [by rewrite H, app_nil_r|]. destruct H as (s & _ & _ & _ & ->).
  rewrite omap_app. simpl. by destruct call.
Qed.

Lemma runs_on_calls m es i m' : runs_on m es i m' ->
  omap lv_call (m_runs m) ≡ₚ option_list i ++ omap lv_call (m_runs m').
Proof.
  intros [m0 l1 l l2 rt s' E Hs]. cbn [m_runs]. rewrite E, !omap_app. unfold answered, stepped. simpl.
  destruct (at_phase s'), (lv_call l); simpl; solve_Permutation.
Qed.

Lemma serves_owners sv sv' : serves sv sv' -> owners sv' ≡ₚ owners sv.
Proof.
  unfold owners.
  intros [l1 i rq l2 e E Hd|l1 i rq l2 x c o E Hd He|l1 i rq l2 x o dir parse r m E Hd Hf Hl|l1 l l2 x r m E Hf Hl
         |l1 i e es after r l2 E|l1 i after r l2 E|es i m Hr|x|d]; cbn [s_machine s_spawned s_work s_wire].
  - rewrite E, !map_app. done.
  - rewrite E, !map_app. apply executes_runs in He as [-> _]. done.
  - rewrite E, !map_app, (launch_calls _ _ _ _ _ _ _ _ _ Hl). destruct r; simpl; [by rewrite app_nil_r|]. solve_Permutation.
  - rewrite (launch_calls _ _ _ _ _ _ _ _ _ Hl). destruct r; simpl; by rewrite app_nil_r.
  - rewrite E, !map_app, omap_app. simpl. by rewrite app_nil_r.
  - rewrite E, !map_app, omap_app. simpl. solve_Permutation.
  - rewrite (runs_on_calls _ _ _ _ Hr), !omap_app.
    assert (Hn : omap answers_call (map Emit es) = []) by (clear; induction es; [done|exact IHes]).
    rewrite Hn. destruct i; simpl; solve_Permutation.
  - unfold ticked. destruct (read_config _ _ _ _) as [r d]. destruct (tick _ _ _ _) as [[e l]|]; simpl; [|done].
    rewrite omap_app. simpl. by rewrite app_nil_r.
  - done.
Qed.

(** Replacing the work at one place. *)
Lemma work_replace (P : nat * work -> Prop) l1 w l2 ws : Forall P (l1 ++ w :: l2) -> Forall P ws -> Forall P (l1 ++ ws ++ l2).
Proof. rewrite !Forall_app, Forall_cons. tauto. Qed.

Lemma work_at l1 i w l2 : Forall work_ok (l1 ++ (i, w) :: l2) -> work_ok (i, w).
Proof. rewrite Forall_app, Forall_cons. tauto. Qed.

Lemma launch_waiting x roots exclude dir parse call m r m' :
  begins x roots exclude dir parse call m = (r, m') ->
  (forall i, call = Some i ->
     exists rq o dir parse, asked i rq /\ decode os rq = Some (ScanAndIndexPipeline o dir parse)) ->
  Forall waiting_ok (m_runs m) -> Forall waiting_ok (m_runs m').
Proof.
  intros [_ H]%launch_run_runs Hc Hm. destruct r; [by rewrite H|]. destruct H as (s & _ & _ & (docs & ->) & ->).
  apply Forall_app. split; [done|]. constructor; [|done]. intros i Hi. split; [done|by apply Hc].
Qed.

Lemma runs_on_waiting m es i m' : runs_on m es i m' -> Forall waiting_ok (m_runs m) ->
  Forall waiting_ok (m_runs m')
  /\ forall j, i = Some j -> exists rq o dir parse, asked j rq /\ decode os rq = Some (ScanAndIndexPipeline o dir parse).
Proof.
  intros [m0 l1 l l2 rt s' E Hs]. cbn [m_runs]. rewrite E, !Forall_app, !Forall_cons. intros (H1 & Hl & H2). split.
  - split_and!; [done| |done]. intros j. cbn [lv_call lv_run stepped].
    destruct (at_phase s') eqn:Ep; intros Hj; (split; [done|by apply (Hl j)]) || done.
  - intros j. unfold answered. destruct (at_phase s'); [done..|]. intros Hj. by apply (Hl j).
Qed.

(** Indexes only grow. *)
Lemma serves_grows sv sv' : serves sv sv' -> server_ok sv ->
  grows (s_machine sv) (s_machine sv') /\ rooted (s_machine sv') /\ Forall (run_indexed (s_machine sv')) (m_runs (s_machine sv')).
Proof.
  intros Hs [Hw Hm Hr _ _ _ Hroot Hix Hsent].
  assert (Hsame : forall m, m_indexes m = m_indexes (s_machine sv) -> m_runs m = m_runs (s_machine sv) ->
    grows (s_machine sv) m /\ rooted m /\ Forall (run_indexed m) (m_runs m)).
  { intros m Ei Er. pose proof (grows_same _ m Ei) as Hg. split; [done|]. split; [unfold rooted; by rewrite Ei|].
    rewrite Er. eapply Forall_impl; [exact Hix|]. intros l. by apply run_indexed_grows. }
  destruct Hs as [l1 i rq l2 e E Hd|l1 i rq l2 x c o E Hd He|l1 i rq l2 x o dir parse r m E Hd Hf Hl|l1 l l2 x r m E Hf Hl
         |l1 i e es after r l2 E|l1 i after r l2 E|es i m Hr'|x|d]; cbn [s_machine]; try (by apply Hsame).
  - rewrite E in Hw. destruct (work_at _ _ _ _ Hw) as (rq' & Ha & ->). apply Hsame.
    + eapply executes_indexes; [by eapply Hsent|exact He].
    + exact (proj1 (executes_runs _ _ _ _ _ _ _ _ _ _ He)).
  - destruct (launch_run_grows _ _ _ _ _ _ _ _ _ _ _ _ Hl) as [Hg Hro]. split; [done|]. split; [by apply Hro|].
    by eapply launch_run_indexed.
  - destruct (launch_run_grows _ _ _ _ _ _ _ _ _ _ _ _ Hl) as [Hg Hro]. split; [done|]. split; [by apply Hro|].
    by eapply launch_run_indexed.
  - destruct (runs_on_grows _ _ _ _ Hr' Hr Hroot) as (Hg & Hro & Hi). split; [done|]. split; [done|]. by apply Hi.
  - unfold ticked. destruct (read_config _ _ _ _) as [r d]. destruct (tick _ _ _ _) as [[e l]|]; by apply Hsame.
Qed.

(** Everything the back end does keeps the invariant. *)
Lemma serves_ok sv sv' : serves sv sv' -> server_ok sv -> server_ok sv'.
Proof.
  intros Hs Hok. pose proof (serves_grows sv sv' Hs Hok) as (_ & Hro & Hix).
  destruct Hok as [Hw Hm Hr Hwt H1 Ho Hroot _ Hsent]. pose proof (serves_owners sv sv' Hs) as Hp.
  assert (Ho' : NoDup (owners sv')) by (by rewrite Hp). clear Ho Hp.
  destruct Hs as [l1 i rq l2 e E Hd|l1 i rq l2 x c o E Hd He|l1 i rq l2 x o dir parse r m E Hd Hf Hl|l1 l l2 x r m E Hf Hl
         |l1 i e es after r l2 E|l1 i after r l2 E|es i m Hr'|x|d].
  - rewrite E in Hw. destruct (work_at _ _ _ _ Hw) as (rq' & Ha & ->). split; cbn [s_machine s_wire s_work]; try done.
    apply (work_replace _ _ _ _ [_] Hw). repeat constructor. exists rq'. split; [done|]. split; [done|]. apply gives_error. by left.
  - rewrite E in Hw. destruct (work_at _ _ _ _ Hw) as (rq' & Ha & ->). pose proof (executes_runs _ _ _ _ _ _ _ _ _ _ He) as [Er _].
    split; cbn [s_machine s_wire s_work]; try done.
    + apply (work_replace _ _ _ _ [_] Hw). repeat constructor. exists rq'. split; [done|].
      split; [by eapply executes_emits|exact (gives_command _ _ _ _ _ Hd Hroot He)].
    + by rewrite Er.
    + by rewrite Er.
    + unfold one_writer, writers. by rewrite Er.
  - rewrite E in Hw. destruct (work_at _ _ _ _ Hw) as (rq' & Ha & ->).
    split; cbn [s_machine s_wire s_work]; try done.
    + apply (work_replace _ _ _ _ _ Hw). destruct r; [|done]. constructor; [|done]. exists rq'. split; [done|]. split; [done|].
      apply gives_error. right. by exists o, dir, parse.
    + by eapply launch_run_ok.
    + eapply launch_waiting; [exact Hl| |done]. intros j [= <-]. by exists rq', o, dir, parse.
    + by eapply launch_run_one_writer.
  - split; cbn [s_machine s_wire s_work]; try done.
    + by eapply launch_run_ok.
    + by eapply launch_waiting.
    + by eapply launch_run_one_writer.
  - rewrite E in Hw. destruct (work_at _ _ _ _ Hw) as (rq' & Ha & [He Hes]%Forall_cons & Hg).
    split; cbn [s_machine s_wire s_work]; try done.
    + apply (work_replace _ _ _ _ [_] Hw). repeat constructor. by exists rq'.
    + apply Forall_app. split; [done|]. by constructor.
  - rewrite E in Hw. destruct (work_at _ _ _ _ Hw) as (rq' & Ha & _ & Hg).
    split; cbn [s_machine s_wire s_work]; try done.
    + by apply (work_replace _ _ _ _ [] Hw).
    + apply Forall_app. split; [done|]. constructor; [|done]. by exists rq'.
  - destruct (runs_on_waiting _ _ _ _ Hr' Hwt) as [Hwt' Hi].
    split; cbn [s_machine s_wire s_work]; try done.
    + apply Forall_app. split; [done|]. apply Forall_app. split.
      * apply Forall_fmap. eapply Forall_impl; [by eapply runs_on_emits|done].
      * destruct i as [i|]; [|done]. constructor; [|done]. destruct (Hi i eq_refl) as (rq & o & dir & parse & Ha & Hd).
        exists rq. split; [done|]. unfold gives. rewrite Hd. by left.
    + by eapply runs_on_ok.
    + by eapply runs_on_one_writer.
  - revert Ho' Hro Hix. unfold ticked. destruct (read_config _ _ _ _) as [r d].
    destruct (tick _ _ _ _) as [[e l]|] eqn:Et; intros Ho' Hro Hix; split; try done.
    apply Forall_app. split; [done|]. constructor; [|done]. simpl.
    unfold tick in Et. destruct r as [?|cfg]; [done|]. destruct (negb _); [done|]. destruct (need_run _ _); [|done].
    destruct (ltb _ _); [|done]. injection Et as <- _. constructor.
  - by split.
Qed.
End Sent.

(** ** Requests and messages *)

Lemma work_ok_more sent c w : work_ok sent w -> work_ok (sent ++ [c]) w.
Proof. intros (rq & Ha & H). exists rq. split; [|done]. unfold asked in *. by apply lookup_app_l_Some. Qed.

Lemma message_ok_more sent c msg : message_ok sent msg -> message_ok (sent ++ [c]) msg.
Proof. destruct msg as [e|i r]; [done|]. intros (rq & Ha & H). exists rq. split; [|done]. by apply lookup_app_l_Some. Qed.

Lemma waiting_ok_more sent c l : waiting_ok sent l -> waiting_ok (sent ++ [c]) l.
Proof.
  intros H i Hi. destruct (H i Hi) as (Hp & rq & o & dir & parse & Ha & Hd). split; [done|].
  exists rq, o, dir, parse. split; [|done]. by apply lookup_app_l_Some.
Qed.

Definition call_paths (c : cmd) : Prop := match c with Race rq => asks_paths rq | _ => True end.

Lemma server_ok_more sent c sv : call_paths c -> server_ok sent sv -> server_ok (sent ++ [c]) sv.
Proof.
  intros Hcp [Hw Hm Hr Hwt H1 Ho Hroot Hix Hsent]. split; try done.
  1: by eapply Forall_impl, work_ok_more. 1: by eapply Forall_impl, message_ok_more. 1: by eapply Forall_impl, waiting_ok_more.
  intros i rq Ha. unfold asked in Ha. destruct (decide (i < length sent)%nat).
  - rewrite lookup_app_l in Ha by done. by eapply Hsent.
  - rewrite lookup_app_r in Ha by lia. destruct (i - length sent)%nat; [|done]. injection Ha as ->. exact Hcp.
Qed.

(** The owned calls were made. *)
Lemma owners_asked sent sv i : server_ok sent sv -> i ∈ owners sv -> exists rq, asked sent i rq.
Proof.
  intros [Hw Hm _ Hwt _ _ _ _ _]. unfold owners. rewrite !elem_of_app. intros [H|[H|H]].
  - apply list_elem_of_fmap in H as ([j w] & -> & H). rewrite Forall_forall in Hw. destruct (Hw _ H) as (rq & Ha & _). by exists rq.
  - apply list_elem_of_omap in H as (l & Hl & Hi). rewrite Forall_forall in Hwt.
    destruct (Hwt _ Hl i Hi) as (_ & rq & _ & _ & _ & Ha & _). by exists rq.
  - apply list_elem_of_omap in H as ([e|j r] & Hl & Hi); [done|]. injection Hi as ->. rewrite Forall_forall in Hm.
    destruct (Hm _ Hl) as (rq & Ha & _). by exists rq.
Qed.

Lemma receive_ok sent rq sv : asks_paths rq -> server_ok sent sv -> server_ok (sent ++ [Race rq]) (receive (length sent) rq sv).
Proof.
  intros Hq H. pose proof (owners_asked sent sv (length sent) H) as Hn.
  pose proof (server_ok_more sent (Race rq) sv Hq H) as [Hw Hm Hr Hwt H1 Ho Hroot Hix Hsent]. split; try done.
  - cbn [receive s_work]. apply Forall_app. split; [done|]. constructor; [|done]. exists rq. split; [|done].
    unfold asked. simpl. by rewrite lookup_app_r, Nat.sub_diag.
  - unfold owners in *. cbn [receive s_work s_machine s_wire]. rewrite map_app. simpl.
    rewrite <- app_assoc. simpl.
    assert (Hp : map fst (s_work sv) ++ length sent :: omap lv_call (m_runs (s_machine sv)) ++ omap answers_call (s_wire sv)
                 ≡ₚ length sent :: (map fst (s_work sv) ++ omap lv_call (m_runs (s_machine sv)) ++ omap answers_call (s_wire sv)))
      by solve_Permutation.
    rewrite Hp. apply NoDup_cons. split; [|done]. intros Hin. destruct (Hn Hin) as (rq' & Ha).
    apply lookup_lt_Some in Ha. lia.
Qed.

Lemma take_message_ok sent msg w sv : s_wire sv = msg :: w -> server_ok sent sv ->
  message_ok sent msg /\ server_ok sent (with_wire w sv).
Proof.
  intros E [Hw Hm Hr Hwt H1 Ho Hroot Hix Hsent]. rewrite E in Hm. apply Forall_cons in Hm as [Hmsg Hm]. split; [done|]. split; try done.
  unfold owners in *. rewrite E in Ho. cbn [with_wire s_work s_machine s_wire]. destruct msg as [e|i r]; [done|].
  simpl in Ho. rewrite !NoDup_app, NoDup_cons in Ho. rewrite !NoDup_app. set_solver.
Qed.

(** ** Every call can be answered *)

(** Nothing found, nothing refused, with a load of the processors. *)
Definition calm_at (load : number) : surroundings :=
  {| at_sys := {| refuses_write _ := None; refuses_mkdir _ := None; refuses_read _ := None; refuses_remove _ := None |};
     at_walk _ _ := []; at_walk_sep b root e p H := ltac:(by apply elem_of_nil in H); at_clock _ := (0, 0); at_text _ := None; at_lossy _ := None; at_faults := no_faults;
     at_pool := None; at_memory := 2 ^ 33; at_best := head; at_best_in l d H := ltac:(destruct l; [discriminate H|injection H as ->; apply list_elem_of_here]);
     at_ranked _ _ := inr []; at_ranked_in text l hits hit H Hin := ltac:(injection H as <-; by apply elem_of_nil in Hin); at_open _ := None; at_field := true; at_name _ := None; at_hash _ := inr None;
     at_today := []; at_marked := true;
     at_probes := {| dir_exists _ := true; state_file := None; cpu_avg := None; total_mem := of_Z 0; free_mem := of_Z 0;
                     index_status _ := inr ([], None) |};
     at_load := load; at_regular _ := None; at_spawn _ _ := None |}.
Definition calm : surroundings := calm_at (of_Z 100).

Lemma calm_scan w ck o : scan w (at_walk calm) ck o = [].
Proof. rewrite scan_omap. unfold entries. cbn. by induction (sc_roots o). Qed.

Lemma calm_files w roots exclude : pipeline_files w (at_walk calm) roots exclude = [].
Proof. unfold pipeline_files. cbn. by induction roots. Qed.

Lemma fits_nil {A} : fits (@nil A).
Proof. unfold fits. simpl. lia. Qed.

Lemma command_possible m c : path_command has_sep c ->
  (forall o dir parse, c <> ScanAndIndexPipeline o dir parse) -> exists out, exec calm m c out.
Proof.
  intros Hq Hp.
  assert (Hdo : (exists out, perform os h serde_error exists_error lock_error missing_error calm m c = Some out) ->
                countable os calm c -> exists out, exec calm m c out)
    by (intros [out Ho] Hc; exists out; by constructor).
  destruct c; try (apply Hdo; [|exact I]; simpl; repeat case_match; by eexists).
  - apply Hdo; [simpl; case_match; by eexists|]. cbn [countable]. rewrite calm_scan. apply fits_nil.
  - done.
  - by destruct (Hp o index_dir enable_content_parse).
  - assert (exists r, detects (at_name calm) (at_hash calm) paths r) as [r Hr].
    { unfold detects. destruct (hash_groups _ _ _) as [e|hm]; eexists; [done|]. exists (map_to_list hm), (map_to_list (name_groups (at_name calm) paths)).
      by split_and!. }
    eexists. by apply executes_detect.
Qed.

Definition answers_soon (i : nat) (sv : server) : Prop := exists sv' r, rtc serves sv sv' /\ Answer i r ∈ s_wire sv'.

Lemma answers_later i sv sv' : serves sv sv' -> answers_soon i sv' -> answers_soon i sv.
Proof. intros H (sv2 & r & H2 & Hr). exists sv2, r. split; [by eapply rtc_l|done]. Qed.

Lemma emitting_answers i es after r sv l1 l2 : s_work sv = l1 ++ (i, Emitting es after r) :: l2 -> answers_soon i sv.
Proof.
  revert sv. induction es as [|e es IH]; intros sv E.
  - eexists _, r. split; [by eapply rtc_once, serves_answer|]. cbn [s_wire]. apply elem_of_app. right. apply list_elem_of_here.
  - eapply answers_later; [by eapply serves_emit|]. by apply IH.
Qed.

Lemma running_answers n i sv l1 l l2 : (weight (lv_run l) <= n)%nat ->
  m_runs (s_machine sv) = l1 ++ l :: l2 -> lv_call l = Some i -> at_phase (lv_run l) <> Returned -> run_ok l ->
  answers_soon i sv.
Proof.
  revert sv l. induction n as [|n IH]; intros sv l Hn E Hi Hp (fs & Hf & Hrt & Hinv).
  - unfold weight in Hn. destruct (at_phase (lv_run l)); simpl in Hn; done || lia.
  - pose proof (synced_inv fs (s_machine sv) l Hinv) as Hinv'.
    destruct (run_progress (fun _ => None) (lv_parse l) [] fs (synced (s_machine sv) l) Hinv') as [s' Hs]; [by intros [? _]|].
    pose proof (runs_on_step _ _ _ _ _ _ E Hs) as Hr. pose proof (serves_run sv _ _ _ Hr) as Hsv.
    assert (at_phase s' = Returned \/ at_phase s' <> Returned) as [Er|Er] by (destruct (at_phase s'); auto; by right).
    + eexists _, (inr OkUnit). split; [by apply rtc_once, Hsv|]. cbn [s_wire]. unfold answered. rewrite Er, Hi.
      rewrite !elem_of_app. right. right. apply list_elem_of_here.
    + eapply answers_later; [exact Hsv|]. eapply (IH _ (stepped l s')).
      * apply step_weight in Hs. cbn [stepped lv_run]. change (weight (synced (s_machine sv) l)) with (weight (lv_run l)) in Hs. lia.
      * reflexivity.
      * unfold stepped. cbn [lv_call]. by destruct (at_phase s').
      * done.
      * exists fs. split; [done|]. split; [done|]. by eapply inv_step.
Qed.

(** A run that is not over can go on without a failure. *)
Lemma run_continues read_text parse fs s : Pipeline.inv fs s -> ~ over s ->
  exists s', Pipeline.step read_text parse s s' /\ failed s' = failed s.
Proof.
  intros [_ _ Hsc _ _] Ho. destruct (jobs s) as [|j l] eqn:Hj.
  - destruct (at_phase s) eqn:Hp.
    + destruct (todo s) as [|f rest] eqn:Ht;
        [by eexists; split; [apply step_announce|]|by eexists; split; [eapply step_scan|]].
    + eexists. split; [by apply (step_mark _ _ s [] true)|done].
    + eexists. split; [by apply step_return|done].
    + by destruct Ho.
  - destruct j as [f|f|f k].
    + eexists. split; [eapply (step_store _ _ s []); [done|apply stores_all]|done].
    + eexists. split; [by eapply (step_count _ _ s [])|done].
    + eexists. split; [by eapply (step_report _ _ s [])|done].
Qed.

(** The pipeline of [l] has gone on to [l'], without a failure, and has added the
    records of some files to its index. *)
Record went_on (read_text : jsstr -> option jsstr) (l l' : live) (ix ix' : option (list document)) : Prop := {
  wo_dir : lv_dir l' = lv_dir l;
  wo_parse : lv_parse l' = lv_parse l;
  wo_failed : failed (lv_run l') = failed (lv_run l);
  wo_records : failed (lv_run l) = 0%nat -> exists new,
    default [] ix' = default [] ix ++ map (document_of read_text (lv_parse l)) new
    /\ written_files (lv_run l') ≡ₚ new ++ written_files (lv_run l);
}.

Lemma went_on_refl read_text l ix : went_on read_text l l ix ix.
Proof. split; [done..|]. intros _. exists []. by rewrite app_nil_r. Qed.

Lemma went_on_trans read_text l l1 l2 ix ix1 ix2 :
  went_on read_text l l1 ix ix1 -> went_on read_text l1 l2 ix1 ix2 -> went_on read_text l l2 ix ix2.
Proof.
  intros [D1 P1 F1 R1] [D2 P2 F2 R2]. split; [congruence..|]. intros Hf. destruct (R1 Hf) as (n1 & E1 & W1).
  destruct R2 as (n2 & E2 & W2); [congruence|]. exists (n1 ++ n2).
  rewrite E2, E1, P1, map_app, W2, W1, !app_assoc. split; [done|]. f_equiv. apply Permutation_app_comm.
Qed.

(** Every pipeline can run to its end, whatever else runs and whatever the files
    hold; the call that waits for it is then answered. *)
Lemma run_finishes read_text n sv l1 l l2 fs : (weight (lv_run l) <= n)%nat ->
  m_runs (s_machine sv) = l1 ++ l :: l2 -> Pipeline.inv fs (lv_run l) -> rooted_files fs ->
  (is_Some (lv_call l) -> at_phase (lv_run l) <> Returned) ->
  exists sv' l' more, rtc serves sv sv' /\ m_runs (s_machine sv') = l1 ++ l' :: l2
    /\ went_on read_text l l' (m_indexes (s_machine sv) !! lv_dir l) (m_indexes (s_machine sv') !! lv_dir l)
    /\ over (lv_run l') /\ Pipeline.inv fs (lv_run l')
    /\ s_wire sv' = s_wire sv ++ more /\ forall i, lv_call l = Some i -> Answer i (inr OkUnit) ∈ more.
Proof.
  revert sv l. induction n as [|n IH]; intros sv l Hn E Hi Hroot Hc.
  - assert (Ho : over (lv_run l)) by (eapply over_weight; [exact Hi|lia]).
    exists sv, l, []. split_and!; [apply rtc_refl|done|apply went_on_refl|done..|by rewrite app_nil_r|].
    intros i H. rewrite H in Hc. by destruct Hc, Ho.
  - destruct (ended (lv_run l)) eqn:He.
    + apply ended_over in He. exists sv, l, []. split_and!; [apply rtc_refl|done|apply went_on_refl|done..|by rewrite app_nil_r|].
      intros i H. rewrite H in Hc. by destruct Hc, He.
    + pose proof (synced_inv fs (s_machine sv) l Hi) as Hi'.
      destruct (run_continues read_text (lv_parse l) fs (synced (s_machine sv) l) Hi') as (s' & Hs & Hf).
      { intros Ho. assert (ended (lv_run l) = true) by by apply ended_over. congruence. }
      pose proof (serves_run sv _ _ _ (runs_on_step _ _ _ _ _ _ E Hs)) as Hsv.
      assert (Hw : went_on read_text l (stepped l s') (m_indexes (s_machine sv) !! lv_dir l) (Some (store s'))).
      { split; [done..|]. intros H0. destruct (step_writes _ _ _ _ _ Hroot Hi' Hs) as (more & Hm & _ & Hz).
        destruct (Hz ltac:(by rewrite Hf)) as (_ & new & Hnew & ->). by exists new. }
      match type of Hsv with serves _ ?x => destruct (IH x (stepped l s')) as (sv' & l' & more & H1 & H2 & H3 & H4 & H6 & H7 & H8) end.
      * apply step_weight in Hs. cbn [stepped lv_run]. change (weight (synced (s_machine sv) l)) with (weight (lv_run l)) in Hs. lia.
      * reflexivity.
      * by eapply inv_step.
      * done.
      * unfold stepped. cbn [lv_call lv_run]. by destruct (at_phase s').
      * exists sv', l'. rewrite H7. cbn [s_wire]. eexists. rewrite <- app_assoc.
        split; [by eapply rtc_l|]. split_and!; [done| |done|done|reflexivity|].
        -- cbn [s_machine m_indexes stepped lv_dir] in H3. rewrite lookup_insert_eq in H3. by eapply went_on_trans.
        -- intros i Hl. unfold answered. unfold stepped in H8. cbn [lv_call] in H8. rewrite Hl in *.
           destruct (at_phase s'); rewrite ?elem_of_app; [right; by apply H8..|]. left. right. left.
Qed.

(** The work on a call can always go on. *)
Lemma work_continues sent l1 j w l2 sv : server_ok sent sv -> s_work sv = l1 ++ (j, w) :: l2 ->
  exists sv' new, serves sv sv' /\ s_work sv' = l1 ++ new ++ l2 /\ (j, w) ∉ new.
Proof.
  intros Hok E. pose proof (ok_work _ _ Hok) as Hw. rewrite E in Hw. destruct (work_at _ _ _ _ _ Hw) as (rq & Ha & Hrq).
  destruct w as [rq'|[|e es] after r]; simpl in Hrq.
  2: { eexists _, []. split; [by eapply serves_answer|]. split; [done|apply not_elem_of_nil]. }
  2: { eexists _, [_]. split; [by eapply serves_emit|]. split; [done|]. intros [= H]%list_elem_of_singleton.
       by apply (f_equal length) in H; simpl in H; lia. }
  subst rq'. destruct (decode os rq) as [c|] eqn:Ed.
  2: { eexists _, [_]. split; [by apply (serves_reject sv l1 j rq l2 [])|]. split; [done|]. by intros [=]%list_elem_of_singleton. }
  assert (Hc : (exists o dir parse, c = ScanAndIndexPipeline o dir parse) \/ (forall o dir parse, c <> ScanAndIndexPipeline o dir parse))
    by (destruct c; (left; by eexists _, _, _) || (right; by intros)).
  destruct Hc as [(o & dir & parse & ->)|Hc].
  - destruct (begins calm (sc_roots o) (sc_exclude_patterns o) dir parse (Some j) (s_machine sv)) as [r m] eqn:El.
    eexists _, _. split; [eapply serves_pipeline; [exact E|exact Ed| |exact El]|split; [reflexivity|]].
    + rewrite calm_files. apply fits_nil.
    + destruct r; [by intros [=]%list_elem_of_singleton|apply not_elem_of_nil].
  - destruct (command_possible (s_machine sv) c) as [out Ho]; [by eapply (ok_sent _ _ Hok)|done|].
    eexists _, [_]. split; [by eapply serves_command|]. split; [done|]. by intros [=]%list_elem_of_singleton.
Qed.

(** A call that has been received, or that waits for a pipeline, is answered after
    finitely many steps of the back end alone. *)
Lemma owned_answers sent i sv : server_ok sent sv ->
  i ∈ map fst (s_work sv) ++ omap lv_call (m_runs (s_machine sv)) -> answers_soon i sv.
Proof.
  intros Hok. rewrite elem_of_app. intros [H|H].
  - apply list_elem_of_fmap in H as ([j w] & -> & H). cbn [fst]. apply list_elem_of_split in H as (l1 & l2 & E).
    pose proof (ok_work _ _ Hok) as Hw. rewrite E in Hw. destruct (work_at _ _ _ _ _ Hw) as (rq & Ha & Hrq).
    destruct w as [rq'|es after r]; [|by eapply emitting_answers]. simpl in Hrq. subst rq'.
    destruct (decode os rq) as [c|] eqn:Ed.
    2: { eapply answers_later; [by apply (serves_reject sv l1 j rq l2 [])|]. by eapply emitting_answers. }
    assert (Hc : (exists o dir parse, c = ScanAndIndexPipeline o dir parse) \/ (forall o dir parse, c <> ScanAndIndexPipeline o dir parse))
      by (destruct c; (left; by eexists _, _, _) || (right; by intros)).
    destruct Hc as [(o & dir & parse & ->)|Hc].
    + destruct (begins calm (sc_roots o) (sc_exclude_patterns o) dir parse (Some j) (s_machine sv)) as [r m] eqn:El.
      assert (Hst : serves sv {| s_machine := m; s_spawned := s_spawned sv;
                 s_work := l1 ++ match r with inl e => [(j, Emitting [] None (inl e))] | inr _ => [] end ++ l2;
                 s_wire := s_wire sv |}).
      { eapply serves_pipeline; [exact E|exact Ed| |exact El]. rewrite calm_files. apply fits_nil. }
      eapply answers_later; [exact Hst|]. destruct r as [e|[]]; [by eapply emitting_answers|].
      apply launch_run_runs in El as (_ & s & _ & _ & (docs & Es) & Er).
      eapply (running_answers _ _ _ _ {| lv_dir := dir; lv_parse := parse; lv_call := Some j; lv_run := s |} []);
        [reflexivity|exact Er|reflexivity|by rewrite Es|].
      exists []. split; [apply fits_nil|]. split; [constructor|]. cbn [lv_run]. rewrite Es, calm_files. apply inv_start.
    + destruct (command_possible (s_machine sv) c) as [out Ho]; [by eapply (ok_sent _ _ Hok)|done|].
      eapply answers_later; [by eapply serves_command|]. by eapply emitting_answers.
  - apply list_elem_of_omap in H as (l & Hl & Hi). apply list_elem_of_split in Hl as (l1 & l2 & E).
    pose proof (ok_runs _ _ Hok) as Hr. pose proof (ok_waiting _ _ Hok) as Hwt. rewrite E, Forall_app, Forall_cons in Hr, Hwt.
    eapply running_answers; [reflexivity|exact E|exact Hi|by apply Hwt with (i := i)|by apply Hr].
Qed.
End Server.
