(* ===== verification/Composed.v ===== *)
(** * The whole program: the application and its back end

    The application of AppSystem and the back end of Server, connected as the host
    connects them.  A handler that suspends on [invoke] sends its request and
    waits under the number of the call; the timer of the call may fire first, and
    the answer is then dropped.  The messages of the wire are delivered in order:
    an answer resumes its handler, an event runs the callbacks of [App] once for
    every subscription registered at that moment, and the listeners of scans.  As
    every render of [App] cancels its subscriptions and starts them again
    ([TauriEvents]), there can be any number of them, none included.

    What AppSystem assumes of a back end is proved here of this one. *)

From stdpp Require Import gmap relations.
From S2P Require Import Prelude JsNumber JsString JsConvert Types Effects SortResults Invoke Wire Highlight ProgLogic AppState Handlers AppSystem EventBus AppInvariants AppLiveness FileSystem RustStd Config Scan Pipeline Indexer Commands Scheduler AppCounts AppPaths Dedup Machine Records Server.
#[local] Open Scope Z_scope.

Record composed := {
  c_front : world;
  c_ids : list nat;          (* the call each suspended handler waits for *)
  c_calls : list cmd;        (* the calls made so far; their number is the position *)
  c_server : server;
}.

(** The call a suspended handler is at. *)
Definition asks (p : prog_) : option cmd := match p with Call c _ => Some c | _ => None end.

(** The requests among new calls are sent. *)
Fixpoint place (new calls : list cmd) (sv : server) : server :=
  match new with
  | [] => sv
  | c :: rest => place rest (calls ++ [c]) (match c with Race rq => receive (length calls) rq sv | _ => sv end)
  end.

(** The page goes on: its first handlers wait for [keep], the others are new. *)
Definition proceed (keep : list nat) (w : world) (s : composed) : composed :=
  let new := omap asks (drop (length keep) (tasks w)) in
  {| c_front := w; c_ids := keep ++ seq (length (c_calls s)) (length new); c_calls := c_calls s ++ new;
     c_server := place new (c_calls s) (c_server s) |}.

Definition with_server (sv : server) (s : composed) : composed :=
  {| c_front := c_front s; c_ids := c_ids s; c_calls := c_calls s; c_server := sv |}.

(** The first message is taken. *)
Definition taking (w : list message) (s : composed) : composed := with_server (with_wire w (c_server s)) s.

(** The callbacks of [App] run for an event. *)
Definition heard (e : emission) (w : world) : world :=
  fold_left (fun w ev => AppSystem.run true (run_setters (on_event ev)) w) (received e) w.

(** An event reaches the page: [n] subscriptions of [App], then the listeners of
    scans. *)
Definition deliver (n : nat) (e : emission) (w : world) : world :=
  let w := Nat.iter n (heard e) w in
  if String.eqb (fst e) "scan_progress"
  then fold_left (fun w _ => AppSystem.run true (run_setters (on_scan_progress (read_scan_progress (snd e)))) w) (listeners w) w
  else w.

(** What the page itself or the user answers: a command's timer fires, a dialog is
    closed, a subscription resolves. *)
Definition outside (c : cmd) : ans c -> Prop :=
  match c with Race _ => fun r => r = TimerFired | _ => fun _ => True end.

Section Composed.
Context {C : CaseTables} {J : Json} {T : Tantivy} (os : platform) (h : host).
Context (serde_error : jsstr -> jsstr) (exists_error lock_error missing_error : jsstr).
Context (defaults : invoke_defaults) (has_clipboard : bool) (path_max_len : number).
#[local] Abbreviation serves := (serves os h serde_error exists_error lock_error missing_error).
#[local] Abbreviation gives := (gives os h serde_error exists_error lock_error missing_error).
#[local] Abbreviation server_ok := (server_ok os h serde_error exists_error lock_error missing_error).

(** A handler resumes with an answer. *)
Definition resume (p : prog_) (i1 i2 : list nat) (w : world) (s : composed) : composed :=
  proceed (i1 ++ i2) (AppSystem.run true p w) s.

(** The first message answers call [i], which resumes its handler. *)
Inductive resumes (i : nat) (s : composed) : composed -> Prop :=
| resumes_with l1 l2 rq k a i1 i2 r rest :
    s_wire (c_server s) = Answer i r :: rest ->
    tasks (c_front s) = l1 ++ Call (Race rq) k :: l2 -> c_ids s = i1 ++ i :: i2 -> length l1 = length i1 ->
    answer_as (rq_ret rq) r = Some a ->
    resumes i s (resume (k a) i1 i2 (with_tasks (l1 ++ l2) (c_front s)) (taking rest s)).

Inductive moves (s : composed) : composed -> Prop :=
| moves_ui u :
    enabled true u (app (c_front s)) = true ->
    moves s (resume (react defaults true has_clipboard u (app (c_front s))) (c_ids s) [] (c_front s) s)
| moves_timer snapshot :
    debounce (c_front s) = Some snapshot ->
    moves s (resume (debounced defaults true snapshot) (c_ids s) [] (with_debounce None (c_front s)) s)
| moves_index_page :
    page (app (c_front s)) = PIndex ->
    moves s (resume (diagnostics_effect defaults true (app (c_front s))) (c_ids s) [] (c_front s) s)
| moves_outside l1 l2 c k r i1 i i2 :
    tasks (c_front s) = l1 ++ Call c k :: l2 -> c_ids s = i1 ++ i :: i2 -> length l1 = length i1 ->
    outside c r -> fresh_answer c r (c_front s) ->
    moves s (resume (k r) i1 i2 (subscribed c r (with_tasks (l1 ++ l2) (c_front s))) s)
| moves_result i s' : resumes i s s' -> moves s s'
| moves_late i r rest :
    s_wire (c_server s) = Answer i r :: rest -> i ∉ c_ids s -> moves s (taking rest s)
| moves_event n e rest :
    s_wire (c_server s) = Emit e :: rest ->
    moves s (proceed (c_ids s) (deliver n e (c_front s)) (taking rest s))
| moves_server sv : serves (c_server s) sv -> moves s (with_server sv s).

(** What goes on by itself: the back end works, messages are delivered.  No element
    is activated, no dialog is closed and no timer of the page fires. *)
Inductive unaided (s : composed) : composed -> Prop :=
| unaided_result i s' : resumes i s s' -> unaided s s'
| unaided_late i r rest :
    s_wire (c_server s) = Answer i r :: rest -> i ∉ c_ids s -> unaided s (taking rest s)
| unaided_event n e rest :
    s_wire (c_server s) = Emit e :: rest ->
    unaided s (proceed (c_ids s) (deliver n e (c_front s)) (taking rest s))
| unaided_server sv : serves (c_server s) sv -> unaided s (with_server sv s).

Lemma unaided_moves s s' : unaided s s' -> moves s s'.
Proof.
  destruct 1; [by eapply moves_result|by eapply moves_late|by eapply moves_event|by apply moves_server].
Qed.

Lemma unaided_rtc s s' : rtc unaided s s' -> rtc moves s s'.
Proof. apply rtc_subrel, unaided_moves. Qed.

(** The program starts on a machine without pipelines and with indexes it built. *)
Definition starts (m : machine) : Prop := m_runs m = [] /\ rooted m.

Definition begin (m : machine) : composed :=
  let w := mount defaults true path_max_len in
  proceed [] w
    {| c_front := w; c_ids := []; c_calls := []; c_server := {| s_machine := m; s_spawned := []; s_work := []; s_wire := [] |} |}.

Definition goes (s : composed) : Prop := exists m, starts m /\ rtc moves (begin m) s.

(** ** The back end the application sees *)

#[global] Instance rust_backend : Backend :=
  {| answers c := match c return ans c -> Prop with
       | Race rq => fun a => a = TimerFired \/ exists r, gives rq r /\ answer_as (rq_ret rq) r = Some a
       | _ => fun _ => True
       end;
     emits ev := exists e, rust_emits e /\ ev ∈ received e;
     reports p := exists e, rust_emits e /\ p = read_scan_progress (snd e) |}.

(** It keeps what the application relies on. *)
#[global] Instance rust_counts : CountContract rust_backend.
Proof.
  split.
  - intros ev (e & [He _]%rust_emits_counts & Hin). rewrite Forall_forall in He. by apply He.
  - intros p (e & [_ He]%rust_emits_counts & ->). done.
Qed.

Lemma decode_detect payload ms t c :
  decode os {| rq_cmd := js "detect_duplicates"; rq_payload := payload; rq_timeoutMs := ms; rq_ret := t |} = Some c ->
  exists paths, c = DetectDuplicates paths.
Proof.
  unfold decode. intros (hd & Hf & H)%bind_Some. cbn [rq_cmd rq_payload] in *.
  assert (E : hd = fun fs => p ← field de_strs fs "paths"%string; Some (DetectDuplicates p)).
  { change (Some (fun fs : list (string * jsval) => p ← field de_strs fs "paths"%string; Some (DetectDuplicates p)) = Some hd) in Hf.
    by injection Hf. }
  rewrite E in H. destruct payload; try done; apply bind_Some in H as (p & _ & [= <-]); by exists p.
Qed.

#[global] Instance rust_duplicates : DupContract rust_backend.
Proof.
  split. intros payload ms groups [[=]|(r & Hg & Ha)]. unfold Server.gives in Hg. cbn [rq_ret] in Ha.
  destruct (decode os _) as [c|] eqn:Ed.
  - destruct (decode_detect _ _ _ _ Ed) as [paths ->]. destruct Hg as (x & m & o & _ & He & <-).
    inversion He as [? ? Hp _|? r' Hd]; subst; [done|]. simpl in Ha. destruct r' as [e|gs]; simpl in Ha; [done|].
    injection Ha as ->. by eapply detect_at_least_two.
  - by destruct Hg as [e ->].
Qed.

#[global] Instance rust_paths : PathContract has_sep rust_backend.
Proof.
  assert (Hv : forall rq r a, gives rq r -> answer_as (rq_ret rq) r = Some (Resolved a) -> asks_well os has_sep rq ->
    exists v, r = inr v /\ value_paths v /\ answer_as (rq_ret rq) (inr v) = Some (Resolved a)).
  { intros rq [e|v] a Hg Ha [_ Hq]; [done|]. exists v. split; [done|]. split; [by eapply gives_paths|done]. }
  split.
  - intros payload ms l [[=]|(r & Hg & Ha)]. destruct (Hv _ _ _ Hg Ha) as (v & -> & Hp & Ha').
    { apply asks_harmless; [reflexivity|]. intros c H. destruct c; try exact I; exfalso; vm_compute in H; discriminate H. }
    cbn [rq_ret] in Ha'. destruct v; try done. injection Ha' as <-. by apply Forall_fmap.
  - intros payload ms l [[=]|(r & Hg & Ha)]. destruct (Hv _ _ _ Hg Ha) as (v & -> & Hp & Ha').
    { apply asks_harmless; [reflexivity|]. intros c H. destruct c; try exact I; exfalso; vm_compute in H; discriminate H. }
    cbn [rq_ret] in Ha'. destruct v; try done. by injection Ha' as <-.
  - intros ps ms l [[=]|(r & Hg & Ha)] Hps. destruct (Hv _ _ _ Hg Ha) as (v & -> & Hp & Ha').
    { by apply asks_detect. }
    cbn [rq_ret] in Ha'. destruct v; try done. by injection Ha' as <-.
Qed.

(** ** What suspends *)

Lemma run_tasks p w : exists new, tasks (AppSystem.run true p w) = tasks w ++ new
  /\ Forall (fun p => exists c k, p = Call c k) new.
Proof.
  unfold AppSystem.run. destruct (advance p (app w) (listeners w)) as [[a ls] t] eqn:E. exists (option_list t).
  split; [done|]. destruct t as [q|]; [|done]. constructor; [|done]. by eapply advance_suspended.
Qed.

Lemma advance_setters l a ls : advance (run_setters l) a ls = (apply_all l a, ls, None).
Proof. revert a. induction l as [|x l IH]; intros a; [done|]. apply IH. Qed.

Lemma run_setters_tasks l w : tasks (AppSystem.run true (run_setters l) w) = tasks w
  /\ listeners (AppSystem.run true (run_setters l) w) = listeners w.
Proof. unfold AppSystem.run. rewrite advance_setters. simpl. by rewrite app_nil_r. Qed.

Lemma subscribed_tasks c r w : tasks (subscribed c r w) = tasks w.
Proof. destruct c; try done. by destruct r. Qed.

#[local] Abbreviation step := (AppSystem.step defaults true has_clipboard).
#[local] Abbreviation reachable := (AppSystem.reachable defaults true has_clipboard path_max_len).

(** A handler waits for a call that was made. *)
Definition waits (calls : list cmd) (p : prog_) (i : nat) : Prop := exists c k, p = Call c k /\ calls !! i = Some c.

Section Front.
(** Any account of the back end for which the first message of the wire is
    possible. *)
Context (B : Backend).

(** Events are steps of the application. *)
Lemma heard_steps evs w : (forall ev, ev ∈ evs -> emits ev) ->
  let w' := fold_left (fun w ev => AppSystem.run true (run_setters (on_event ev)) w) evs w in
  rtc step w w' /\ tasks w' = tasks w.
Proof.
  revert w. induction evs as [|ev evs IH]; intros w0 Hin; simpl; [by split|].
  destruct (IH (AppSystem.run true (run_setters (on_event ev)) w0)) as [I1 I2]; [set_solver|]. split.
  - eapply rtc_l; [|exact I1]. apply step_event; [done|]. apply Hin, list_elem_of_here.
  - rewrite I2. apply run_setters_tasks.
Qed.

Lemma deliver_steps n e w : (forall ev, ev ∈ received e -> emits ev) -> reports (read_scan_progress (snd e)) ->
  rtc step w (deliver n e w) /\ tasks (deliver n e w) = tasks w.
Proof.
  intros He Hp. unfold deliver.
  assert (Hw1 : rtc step w (Nat.iter n (heard e) w) /\ tasks (Nat.iter n (heard e) w) = tasks w).
  { induction n as [|n [I1 I2]]; [by split|]. simpl. destruct (heard_steps (received e) (Nat.iter n (heard e) w) He) as [J1 J2].
    split; [by etransitivity|]. unfold heard at 1. by rewrite J2. }
  set (w1 := Nat.iter n (heard e) w) in *.
  destruct (String.eqb _ _); [|done].
  assert (H2 : forall ids w0, (forall id, id ∈ ids -> id ∈ listeners w0) ->
    let f := fun w (_ : nat) => AppSystem.run true (run_setters (on_scan_progress (read_scan_progress (snd e)))) w in
    rtc step w0 (fold_left f ids w0) /\ tasks (fold_left f ids w0) = tasks w0).
  { induction ids as [|id ids IH]; intros w0 Hin; simpl; [by split|].
    destruct (run_setters_tasks (on_scan_progress (read_scan_progress (snd e))) w0) as [E1 E2].
    destruct (IH (AppSystem.run true (run_setters (on_scan_progress (read_scan_progress (snd e)))) w0)) as [I1 I2];
      [rewrite E2; set_solver|]. split.
    - eapply rtc_l; [|exact I1]. by apply (step_scan_progress _ _ _ w0 id); [apply Hin, list_elem_of_here|].
    - by rewrite I2. }
  destruct (H2 (listeners w1) w1) as [I1 I2]; [done|]. destruct Hw1 as [J1 J2]. split; [by etransitivity|by rewrite I2].
Qed.

(** The page only makes steps of the application. *)
Lemma moves_steps s s' : moves s s' -> Forall2 (waits (c_calls s)) (tasks (c_front s)) (c_ids s) ->
  (forall c r, outside c r -> answers c r) ->
  (forall i r rest rq a, s_wire (c_server s) = Answer i r :: rest -> c_calls s !! i = Some (Race rq) ->
     answer_as (rq_ret rq) r = Some a -> answers (Race rq) a) ->
  (forall e rest, s_wire (c_server s) = Emit e :: rest ->
     (forall ev, ev ∈ received e -> emits ev) /\ reports (read_scan_progress (snd e))) ->
  rtc step (c_front s) (c_front s').
Proof.
  intros Hm Hw Hout Hans Hem.
  destruct Hm as [u Hu|snap Hsn|Hp|l1 l2 c k r i1 i i2 Et Ei Hl Ho Hf|i s' [l1 l2 rq k a i1 i2 r rest Ew Et Ei Hl Has]
    |i r rest Ew Hi|n e rest Ew|sv Hsv]; try apply rtc_refl.
  - apply rtc_once. by apply step_ui.
  - apply rtc_once. by apply step_timer.
  - apply rtc_once. by apply step_index_page.
  - apply rtc_once. eapply step_answer; [exact Et|by apply Hout|done].
  - apply rtc_once. eapply (step_answer _ _ _ _ l1 l2 (Race rq) k a); [exact Et| |done].
    rewrite Et, Ei in Hw. apply Forall2_app_inv in Hw as [_ Hw]; [|done]. inversion Hw as [|p ? ? ? (c & k' & Hc & Hcall)]; subst.
    injection Hc as <- _. by eapply Hans.
  - destruct (Hem e rest Ew) as [H1 H2]. by apply deliver_steps.
Qed.
End Front.

Lemma delivered n e w : rust_emits e -> rtc step w (deliver n e w) /\ tasks (deliver n e w) = tasks w.
Proof. intros He. apply deliver_steps; [intros ev Hev|]; by exists e. Qed.

(** ** What the pages ask for *)

Lemma asks_well_asked rq : asks_well os has_sep rq -> well_asked os rq.
Proof. intros [H _] c Hd. apply decode_returns in Hd. congruence. Qed.

Lemma call_asks_paths c : call_asks os has_sep c -> call_paths os c.
Proof. destruct c as [rq| | |]; simpl; [|done..]. by intros [_ H]. Qed.

Lemma front_asks w : reachable w -> Forall (fun p => forall c k, p = Call c k -> call_asks os has_sep c) (tasks w).
Proof.
  intros Hr. destruct (paths_reachable os has_sep defaults true has_clipboard path_max_len w Hr) as [_ H].
  eapply Forall_impl; [exact H|]. intros p Hp c k ->. by apply path_prog_call in Hp.
Qed.

(** ** The invariant *)

(** A call a handler waits for is owned, if it went to the back end. *)
Definition accounted (calls : list cmd) (ids : list nat) (sv : server) : Prop :=
  forall i rq, i ∈ ids -> asked calls i rq -> i ∈ owners sv.

Record composed_ok (s : composed) : Prop := {
  co_front : reachable (c_front s);
  co_waits : Forall2 (waits (c_calls s)) (tasks (c_front s)) (c_ids s);
  co_ids : NoDup (c_ids s);
  co_server : server_ok (c_calls s) (c_server s);
  co_accounted : accounted (c_calls s) (c_ids s) (c_server s);
}.

Lemma receive_owners i rq sv : owners (receive i rq sv) ≡ₚ i :: owners sv.
Proof. unfold owners. cbn [receive s_work s_machine s_wire]. rewrite map_app. simpl. solve_Permutation. Qed.

(** Sending requests keeps what the back end relies on, and gives each an owner. *)
Lemma place_ok new calls sv : Forall (call_paths os) new -> server_ok calls sv ->
  server_ok (calls ++ new) (place new calls sv)
  /\ (forall i, i ∈ owners sv -> i ∈ owners (place new calls sv))
  /\ (forall j rq, new !! j = Some (Race rq) -> (length calls + j)%nat ∈ owners (place new calls sv)).
Proof.
  intros Hcp. revert calls sv. induction Hcp as [|c new Hc Hcp IH]; intros calls sv H; cbn [place].
  - by rewrite app_nil_r.
  - set (sv1 := match c with Race rq => receive (length calls) rq sv | _ => sv end).
    assert (H1 : server_ok (calls ++ [c]) sv1).
    { destruct c; simpl; try (by apply server_ok_more). by apply receive_ok. }
    destruct (IH (calls ++ [c]) sv1 H1) as (I1 & I2 & I3). rewrite <- app_assoc in I1. split; [exact I1|]. split.
    + intros i Hi. apply I2. unfold sv1. destruct c; try done. rewrite receive_owners. by right.
    + intros [|j] rq Hj.
      * injection Hj as ->. apply I2. unfold sv1. rewrite receive_owners, Nat.add_0_r. by left.
      * replace (length calls + S j)%nat with (length (calls ++ [c]) + j)%nat by (rewrite length_app; simpl; lia).
        by eapply I3.
Qed.

Lemma waits_more calls new p i : waits calls p i -> waits (calls ++ new) p i.
Proof. intros (c & k & -> & H). exists c, k. split; [done|]. by apply lookup_app_l_Some. Qed.

(** New handlers wait for the new calls. *)
Lemma new_waits calls new : Forall (fun p => exists c k, p = Call c k) new ->
  let cs := omap asks new in
  length cs = length new /\ Forall2 (waits (calls ++ cs)) new (seq (length calls) (length cs)).
Proof.
  intros H. simpl. revert calls. induction H as [|p new (c & k & ->) Hn IH]; intros calls; [by split|].
  change (omap asks (Call c k :: new)) with (c :: omap asks new).
  destruct (IH (calls ++ [c])) as [H1 H2]. split; [by simpl; rewrite H1|]. cbn [length seq]. constructor.
  - exists c, k. split; [done|]. by rewrite lookup_app_r, Nat.sub_diag.
  - rewrite <- app_assoc, length_app, Nat.add_1_r in H2. exact H2.
Qed.

(** The page goes on with [kept] handlers that were waiting and some new ones. *)
Lemma proceed_ok kept keep w new s :
  reachable w -> tasks w = kept ++ new -> Forall (fun p => exists c k, p = Call c k) new ->
  Forall2 (waits (c_calls s)) kept keep -> NoDup keep -> server_ok (c_calls s) (c_server s) ->
  accounted (c_calls s) keep (c_server s) -> composed_ok (proceed keep w s).
Proof.
  intros Hr Ht Hn Hk Hd Hs Ha. pose proof (Forall2_length _ _ _ Hk) as Hl.
  assert (Hdrop : drop (length keep) (tasks w) = new) by (by rewrite Ht, drop_app_length').
  destruct (new_waits (c_calls s) new Hn) as [Hlen Hw].
  assert (Hlt : Forall (fun i => (i < length (c_calls s))%nat) keep).
  { apply Forall_forall. intros i Hi. apply list_elem_of_lookup in Hi as (j & Hj).
    destruct (Forall2_lookup_r _ _ _ _ _ Hk Hj) as (p & _ & c & k & _ & Hc). by apply lookup_lt_Some in Hc. }
  assert (Hcp : Forall (call_paths os) (omap asks new)).
  { apply Forall_forall. intros c (p & Hp & Hc)%list_elem_of_omap. pose proof (front_asks w Hr) as Hf.
    rewrite Ht, Forall_app in Hf. destruct Hf as [_ Hf]. rewrite Forall_forall in Hf.
    destruct p as [x|e|a k|c' k]; try done. injection Hc as ->. apply call_asks_paths. by apply (Hf _ Hp c k). }
  destruct (place_ok (omap asks new) (c_calls s) (c_server s) Hcp Hs) as (P1 & P2 & P3).
  unfold proceed. rewrite Hdrop. split; cbn [c_front c_ids c_calls c_server]; [done| | |done|].
  - rewrite Ht. apply Forall2_app; [|done]. eapply Forall2_impl; [exact Hk|]. intros p i. apply waits_more.
  - apply NoDup_app. split; [done|]. split; [|apply NoDup_seq]. intros i Hi Hs'. apply elem_of_seq in Hs'.
    rewrite Forall_forall in Hlt. apply Hlt in Hi. lia.
  - intros i rq [Hi|Hi]%elem_of_app Hq.
    + apply P2. eapply Ha; [done|]. rewrite Forall_forall in Hlt. apply Hlt in Hi as Hi'. unfold asked in *.
      by rewrite lookup_app_l in Hq by done.
    + apply elem_of_seq in Hi. replace i with (length (c_calls s) + (i - length (c_calls s)))%nat by lia. apply (P3 _ rq).
      unfold asked in Hq. by rewrite lookup_app_r in Hq by lia.
Qed.

(** Handlers and their calls, split at the one that resumes. *)
Lemma waits_split calls l1 p l2 i1 i i2 : length l1 = length i1 ->
  Forall2 (waits calls) (l1 ++ p :: l2) (i1 ++ i :: i2) ->
  waits calls p i /\ Forall2 (waits calls) (l1 ++ l2) (i1 ++ i2).
Proof.
  intros Hl H. apply Forall2_app_inv in H as [H1 H2]; [|done]. inversion H2; subst. split; [done|]. by apply Forall2_app.
Qed.

Lemma moves_resume_ok p kept keep w s : composed_ok s ->
  reachable (AppSystem.run true p w) -> tasks w = kept -> Forall2 (waits (c_calls s)) kept keep -> NoDup keep ->
  accounted (c_calls s) keep (c_server s) -> composed_ok (proceed keep (AppSystem.run true p w) s).
Proof.
  intros [_ _ _ Hs _] Hr <- Hk Hd Ha. destruct (run_tasks p w) as (new & Ht & Hn). by eapply proceed_ok.
Qed.

(** What remains accounted. *)
Lemma accounted_less calls ids ids' sv : accounted calls ids sv -> (forall i, i ∈ ids' -> i ∈ ids) -> accounted calls ids' sv.
Proof. intros H Hi i rq Hin. apply H. by apply Hi. Qed.

Lemma take_owners sv msg rest : s_wire sv = msg :: rest ->
  owners sv ≡ₚ option_list (answers_call msg) ++ owners (with_wire rest sv).
Proof.
  intros E. unfold owners. rewrite E. cbn [with_wire s_work s_machine s_wire]. destruct msg as [e|i r]; simpl; [done|].
  solve_Permutation.
Qed.

(** Taking an answer leaves the other calls accounted for. *)
Lemma accounted_take calls ids sv i r rest : s_wire sv = Answer i r :: rest -> i ∉ ids ->
  accounted calls ids sv -> accounted calls ids (with_wire rest sv).
Proof.
  intros E Hi H j rq Hj Hq. specialize (H j rq Hj Hq). rewrite (take_owners _ _ _ E) in H. simpl in H.
  apply elem_of_cons in H as [->|H]; done.
Qed.

(** The answers and events of the back end are those the application expects. *)
Lemma moves_front s s' : moves s s' -> composed_ok s -> rtc step (c_front s) (c_front s').
Proof.
  intros Hm [_ Hw _ Hs _]. eapply moves_steps; [exact Hm|exact Hw|..].
  - intros c r Ho. destruct c; try done. by left.
  - intros i r rest rq a Ew Hc Ha. right. exists r. split; [|done].
    destruct (take_message_ok _ _ _ _ _ _ _ _ _ _ Ew Hs) as [(rq' & Hq & Hg) _]. unfold asked in Hq. by simplify_eq.
  - intros e rest Ew. destruct (take_message_ok _ _ _ _ _ _ _ _ _ _ Ew Hs) as [He _].
    split; [intros ev Hev|]; by exists e.
Qed.

Lemma moves_ok s s' : moves s s' -> composed_ok s -> composed_ok s'.
Proof.
  intros Hm Hok. pose proof Hok as [Hr Hw Hd Hs Ha].
  assert (Hr' : reachable (c_front s')) by (unfold AppSystem.reachable in *; etransitivity; [exact Hr|by apply moves_front]).
  destruct Hm as [u Hu|snap Hsn|Hp|l1 l2 c k r i1 i i2 Et Ei Hl Ho Hf|i s' [l1 l2 rq k a i1 i2 r rest Ew Et Ei Hl Has]
    |i r rest Ew Hi|n e rest Ew|sv Hsv].
  1-3: unfold resume; rewrite app_nil_r; by eapply moves_resume_ok.
  - rewrite Et, Ei in Hw. apply waits_split in Hw as [_ Hw]; [|done]. rewrite Ei in Hd, Ha.
    eapply (moves_resume_ok _ (l1 ++ l2)); [done|exact Hr'|by rewrite subscribed_tasks|done| |].
    + rewrite NoDup_app, NoDup_cons in Hd. rewrite NoDup_app. set_solver.
    + eapply accounted_less; [exact Ha|]. set_solver.
  - rewrite Et, Ei in Hw. apply waits_split in Hw as [_ Hw]; [|done].
    destruct (take_message_ok _ _ _ _ _ _ _ _ _ _ Ew Hs) as [_ Hs']. rewrite Ei in Hd, Ha.
    assert (Hn : i ∉ i1 ++ i2 /\ NoDup (i1 ++ i2)).
    { rewrite NoDup_app, NoDup_cons in Hd. rewrite NoDup_app. set_solver. }
    unfold resume. destruct (run_tasks (k a) (with_tasks (l1 ++ l2) (c_front s))) as (new & Ht & Hn').
    eapply (proceed_ok (l1 ++ l2)); [exact Hr'|exact Ht|exact Hn'|exact Hw|apply Hn|exact Hs'|].
    eapply accounted_take; [exact Ew|apply Hn|]. eapply accounted_less; [exact Ha|]. set_solver.
  - destruct (take_message_ok _ _ _ _ _ _ _ _ _ _ Ew Hs) as [_ Hs'].
    split; cbn [taking with_server c_front c_ids c_calls c_server]; try done. by eapply accounted_take.
  - destruct (take_message_ok _ _ _ _ _ _ _ _ _ _ Ew Hs) as [He Hs'].
    destruct (delivered n e (c_front s) He) as [_ D2].
    eapply (proceed_ok (tasks (c_front s)) _ _ []); [exact Hr'|by rewrite app_nil_r|done|exact Hw|done|exact Hs'|].
    intros j rq Hj Hq. specialize (Ha j rq Hj Hq). by rewrite (take_owners _ _ _ Ew) in Ha.
  - split; cbn [with_server c_front c_ids c_calls c_server]; try done; [by eapply serves_ok|].
    intros j rq Hj Hq. rewrite (serves_owners _ _ _ _ _ _ _ _ Hsv). by eapply Ha.
Qed.

Lemma begin_ok m : starts m -> composed_ok (begin m).
Proof.
  intros (Hm & Hroot). unfold begin.
  assert (Hn : exists new, tasks (mount defaults true path_max_len) = [] ++ new /\ Forall (fun p => exists c k, p = Call c k) new).
  { unfold mount. match goal with |- context [AppSystem.run true ?p (AppSystem.run true ?q ?w)] =>
      destruct (run_tasks q w) as (n1 & E1 & H1); destruct (run_tasks p (AppSystem.run true q w)) as (n2 & E2 & H2) end.
    exists (n1 ++ n2). rewrite E2, E1. split; [done|]. by apply Forall_app. }
  destruct Hn as (new & Ht & Hn).
  eapply (proceed_ok [] [] _ new); [apply rtc_refl|exact Ht|exact Hn|done|by apply NoDup_nil| |by intros i rq ?%elem_of_nil].
  split; cbn [c_calls c_server s_machine s_wire s_work]; try done.
  - by rewrite Hm.
  - by rewrite Hm.
  - unfold one_writer, writers. rewrite Hm. by apply NoDup_nil.
  - unfold owners. cbn. rewrite Hm. by apply NoDup_nil.
  - by rewrite Hm.
Qed.

Lemma goes_ok s : goes s -> composed_ok s.
Proof.
  intros (m & Hm & Hs). revert s Hs. apply rtc_ind_r; [by apply begin_ok|]. intros s s' _ H IH. by eapply moves_ok.
Qed.

Lemma goes_moves s s' : goes s -> rtc moves s s' -> goes s'.
Proof. intros (m & Hm & Hs) H. exists m. split; [done|]. by etransitivity. Qed.

Lemma composed_ok_moves s s' : composed_ok s -> rtc moves s s' -> composed_ok s'.
Proof. intros Hs H. revert s' H. apply rtc_ind_r; [done|]. intros s1 s2 _ H IH. by eapply moves_ok. Qed.

(** ** Messages are delivered *)

Lemma place_wire new calls sv : s_wire (place new calls sv) = s_wire sv.
Proof.
  revert calls sv. induction new as [|c new IH]; intros calls sv; simpl; [done|]. rewrite IH. by destruct c.
Qed.

Lemma place_machine new calls sv : s_machine (place new calls sv) = s_machine sv.
Proof. revert calls sv. induction new as [|c new IH]; intros calls sv; simpl; [done|]. rewrite IH. by destruct c. Qed.

Lemma resumes_machine i s s' : resumes i s s' -> s_machine (c_server s') = s_machine (c_server s).
Proof. intros [l1 l2 rq k a i1 i2 r rest _ _ _ _ _]. exact (place_machine _ _ (with_wire rest (c_server s))). Qed.

(** A handler waits for the answer of a command. *)
Definition waiting (i : nat) (rq : request) (s : composed) : Prop := i ∈ c_ids s /\ c_calls s !! i = Some (Race rq).

Lemma waiting_task i rq s : composed_ok s -> waiting i rq s ->
  exists l1 k l2 i1 i2, tasks (c_front s) = l1 ++ Call (Race rq) k :: l2 /\ c_ids s = i1 ++ i :: i2
    /\ length l1 = length i1 /\ asks_well os has_sep rq.
Proof.
  intros [Hr Hw _ _ _] [(i1 & i2 & Ei)%list_elem_of_split Hc]. rewrite Ei in Hw.
  apply Forall2_app_inv_r in Hw as (l1 & l2' & H1 & H2 & Et). inversion H2 as [|p ? l2 ? (c & k & -> & Hc') H3]; subst.
  rewrite Hc in Hc'. injection Hc' as <-. exists l1, k, l2, i1, i2. split_and!; [done..|by eapply Forall2_length|].
  pose proof (front_asks _ Hr) as Ha. rewrite Et, Forall_app, Forall_cons in Ha. destruct Ha as (_ & Ha & _). exact (Ha _ _ eq_refl).
Qed.

(** The handler that waits for a call. *)
Definition held (i : nat) (p : prog_) (s : composed) : Prop := (i, p) ∈ zip (c_ids s) (tasks (c_front s)).

(** The page goes on without one handler, or with all of them: the others wait for
    the same calls. *)
Lemma proceed_held i p (kept new : list prog_) keep w s : tasks w = kept ++ new -> length kept = length keep ->
  (i, p) ∈ zip keep kept -> held i p (proceed keep w s).
Proof.
  intros Ht Hl H. unfold held. cbn [proceed c_ids c_front]. rewrite Ht, zip_with_app by done. apply elem_of_app. by left.
Qed.

Lemma zip_without {A} (i j : nat) (x y : A) (i1 i2 : list nat) (l1 l2 : list A) : length l1 = length i1 -> j <> i ->
  (j, x) ∈ zip (i1 ++ i :: i2) (l1 ++ y :: l2) -> (j, x) ∈ zip (i1 ++ i2) (l1 ++ l2).
Proof. intros Hl Hj. rewrite !zip_with_app by done. cbn [zip zip_with]. rewrite !elem_of_app, elem_of_cons. intuition congruence. Qed.

Lemma answer_resumes i rq r rest s : composed_ok s -> waiting i rq s -> s_wire (c_server s) = Answer i r :: rest ->
  exists s', resumes i s s' /\ s_wire (c_server s') = rest
    /\ (forall j rq', j <> i -> waiting j rq' s -> waiting j rq' s')
    /\ forall j p, j <> i -> held j p s -> held j p s'.
Proof.
  intros Hok Hw Ew. destruct (waiting_task i rq s Hok Hw) as (l1 & k & l2 & i1 & i2 & Et & Ei & Hl & Hq).
  destruct (take_message_ok _ _ _ _ _ _ _ _ _ _ Ew (co_server _ Hok)) as [(rq' & Ha & Hg) _].
  destruct Hw as [_ Hc]. unfold asked in Ha. rewrite Hc in Ha. injection Ha as <-.
  destruct (gives_value _ _ _ _ _ _ _ _ (asks_well_asked _ Hq) Hg) as [a Has].
  eexists. split; [by eapply resumes_with|]. split; [apply place_wire|]. split.
  - intros j rq' Hj [Hin Hcj]. split; cbn [c_ids c_calls resume proceed taking with_server].
    + rewrite Ei in Hin. rewrite elem_of_app. left. set_solver.
    + by apply lookup_app_l_Some.
  - intros j p Hj Hp. destruct (run_tasks (k a) (with_tasks (l1 ++ l2) (c_front s))) as (new & Ht & _).
    pose proof (Forall2_length _ _ _ (co_waits _ Hok)) as Hlen. unfold held in Hp. rewrite Et, Ei in *.
    rewrite !length_app in Hlen. simpl in Hlen. eapply (proceed_held _ _ (l1 ++ l2) new); [exact Ht|rewrite !length_app; lia|].
    by eapply zip_without.
Qed.

(** The first message can be delivered; handlers that wait for another one still
    wait. *)
Lemma wire_moves s msg rest : composed_ok s -> s_wire (c_server s) = msg :: rest ->
  exists s', unaided s s' /\ s_wire (c_server s') = rest
    /\ s_machine (c_server s') = s_machine (c_server s)
    /\ (forall j rq, answers_call msg <> Some j -> waiting j rq s -> waiting j rq s')
    /\ forall j p, answers_call msg <> Some j -> held j p s -> held j p s'.
Proof.
  intros Hok Ew. destruct msg as [e|i r].
  - eexists. split; [by eapply (unaided_event _ 1)|]. split; [apply place_wire|].
    split; [exact (place_machine _ _ (with_wire rest (c_server s)))|]. split.
    + intros j rq _ [Hin Hc]. split; [apply elem_of_app; by left|by apply lookup_app_l_Some].
    + intros j p _ Hp. destruct (take_message_ok _ _ _ _ _ _ _ _ _ _ Ew (co_server _ Hok)) as [He _].
      destruct (delivered 1 e (c_front s) He) as [_ D].
      eapply (proceed_held _ _ (tasks (c_front s)) []); [by rewrite app_nil_r| |done].
      exact (Forall2_length _ _ _ (co_waits _ Hok)).
  - destruct (decide (i ∈ c_ids s)) as [Hi|Hi].
    + destruct (take_message_ok _ _ _ _ _ _ _ _ _ _ Ew (co_server _ Hok)) as [(rq & Ha & _) _].
      destruct (answer_resumes i rq r rest s Hok (conj Hi Ha) Ew) as (s' & Hs & Hw & Hj & Hh). exists s'.
      split; [by eapply unaided_result|]. split; [done|]. split; [by eapply resumes_machine|]. simpl. split; [intros j rq' Hn|intros j p Hn]; [apply Hj|apply Hh]; congruence.
    + eexists. split; [by eapply unaided_late|]. by split.
Qed.

(** The messages before an answer are delivered, the handler that waits for it
    resumes. *)
Lemma wire_drains i rq r pre post s : composed_ok s -> waiting i rq s ->
  s_wire (c_server s) = pre ++ Answer i r :: post -> Forall (fun msg => answers_call msg <> Some i) pre ->
  exists s1 s2, rtc unaided s s1 /\ resumes i s1 s2
    /\ composed_ok s1 /\ s_wire (c_server s1) = Answer i r :: post /\ s_machine (c_server s1) = s_machine (c_server s)
    /\ forall p, held i p s -> held i p s1.
Proof.
  revert s. induction pre as [|msg pre IH]; intros s Hok Hw Ew Hp.
  - destruct (answer_resumes i rq r post s Hok Hw Ew) as (s' & Hs & _). exists s, s'. by split_and!.
  - apply Forall_cons in Hp as [Hm Hp]. destruct (wire_moves s msg _ Hok Ew) as (s' & Hs & Hw' & Hm' & Hj & Hh).
    destruct (IH s') as (s1 & s2 & H1 & H2 & H3 & H4 & H6 & H5); [eapply moves_ok; [by apply unaided_moves|done]|by apply Hj|done|done|].
    exists s1, s2. split; [by eapply rtc_l|]. split_and!; [done..|congruence|]. intros p Hp'. by apply H5, Hh.
Qed.

(** An answer on the wire is the only one for its call. *)
Lemma answered_once s i r : composed_ok s -> Answer i r ∈ s_wire (c_server s) ->
  exists pre post, s_wire (c_server s) = pre ++ Answer i r :: post /\ Forall (fun msg => answers_call msg <> Some i) pre.
Proof.
  intros Hok (pre & post & E)%list_elem_of_split. exists pre, post. split; [done|]. apply Forall_forall. intros msg Hin Hi.
  pose proof (ok_owners _ _ _ _ _ _ _ _ (co_server _ Hok)) as Hn. unfold owners in Hn. rewrite E, omap_app in Hn.
  rewrite !NoDup_app in Hn. destruct Hn as (_ & _ & _ & _ & _ & Hn & _). apply (Hn i).
  - apply list_elem_of_omap. by exists msg.
  - simpl. left.
Qed.

Lemma serves_unaided s sv : rtc serves (c_server s) sv -> rtc unaided s (with_server sv s).
Proof.
  revert sv. apply (rtc_ind_r (fun sv => rtc unaided s (with_server sv s))).
  - destruct s. apply rtc_refl.
  - intros sv1 sv2 _ H IH. eapply rtc_r; [exact IH|]. by apply (unaided_server (with_server sv1 s)).
Qed.

Lemma serves_moves s sv : rtc serves (c_server s) sv -> rtc moves s (with_server sv s).
Proof. intros H. by apply unaided_rtc, serves_unaided. Qed.

(** ** Properties of the whole program *)

(** C1. The whole program refines the application's own transition system: whatever
    the user does, however commands, pipelines, the daily scan and other programs
    interleave and whatever the system answers them, the application is in a state
    it can reach with a back end that answers every request by a command's
    outcome, and that back end honours what the application relies on.  So the
    counters displayed are counts and every group of duplicates displayed has at
    least two files. *)
Theorem program_refines_application s :
  goes s ->
  reachable (c_front s) /\ counters_ok (app (c_front s)) /\ groups_ok (dupGroups (app (c_front s))).
Proof.
  intros [Hr _ _ _ _]%goes_ok. split; [exact Hr|]. split.
  - exact (proj1 (holds_reachable _ _ _ _ (counts_inductive _ _ _ _) _ Hr)).
  - exact (proj1 (holds_reachable _ _ _ _ (dup_inductive _ _ _ _) _ Hr)).
Qed.

(** C6. No call is lost and none is answered twice: the suspended handlers wait for
    different calls, and every call to the back end a handler waits for is, exactly
    once, being worked on, waited for by a pipeline, or answered on the wire. *)
Theorem calls_tracked s :
  goes s ->
  NoDup (c_ids s) /\ NoDup (owners (c_server s))
  /\ length (c_ids s) = length (tasks (c_front s))
  /\ forall i rq, waiting i rq s -> i ∈ owners (c_server s).
Proof.
  intros [_ Hw Hd Hs Ha]%goes_ok. split; [exact Hd|]. split; [exact (ok_owners _ _ _ _ _ _ _ _ Hs)|].
  split; [by rewrite (Forall2_length _ _ _ Hw)|]. intros i rq [Hi Hc]. by eapply Ha.
Qed.

(** C13. The two sides agree on types in every message: the program is never stuck on
    an answer the waiting handler cannot take, and the first message of the wire can
    always be delivered. *)
Theorem wire_never_stuck s msg rest :
  goes s -> s_wire (c_server s) = msg :: rest -> exists s', moves s s' /\ s_wire (c_server s') = rest.
Proof. intros Hs%goes_ok Ew. destruct (wire_moves s msg rest Hs Ew) as (s' & H1 & H2 & _). exists s'. split; [by apply unaided_moves|done]. Qed.

(** C7. Every call is answered without waiting for its timer: from every state of
    the program in which a handler waits for a command, some continuation, in which
    no element is activated, no dialog is closed and no timer of the page fires,
    resumes this handler with the answer of its own call. *)
Theorem every_call_answered s i rq :
  goes s -> waiting i rq s -> exists s1 s2, rtc unaided s s1 /\ resumes i s1 s2.
Proof.
  intros Hok%goes_ok Hw. destruct (waiting_task i rq s Hok Hw) as (_ & _ & _ & _ & _ & _ & _ & _ & Hq).
  destruct Hw as [Hi Hc]. pose proof (co_accounted _ Hok i rq Hi Hc) as Ho. unfold owners in Ho.
  assert (Hans : exists s' r, rtc unaided s s' /\ composed_ok s' /\ waiting i rq s' /\ Answer i r ∈ s_wire (c_server s')).
  { rewrite app_assoc, elem_of_app in Ho. destruct Ho as [Ho|Ho].
    - destruct (owned_answers os h serde_error exists_error lock_error missing_error (c_calls s) i (c_server s)
        (co_server _ Hok) Ho) as (sv & r & Hsv & Hr).
      apply serves_unaided in Hsv. exists (with_server sv s), r. split; [done|].
      split; [eapply composed_ok_moves; [done|by apply unaided_rtc]|]. by split.
    - apply list_elem_of_omap in Ho as ([e|j r] & Hin & [=]); subst. exists s, r. by split_and!. }
  destruct Hans as (s' & r & Hm & Hok' & Hw' & Hr). destruct (answered_once s' i r Hok' Hr) as (pre & post & E & Hp).
  destruct (wire_drains i rq r pre post s' Hok' Hw' E Hp) as (s1 & s2 & H1 & H2 & _). exists s1, s2.
  split; [by etransitivity|done].
Qed.

(** C9. Two pipelines never write the same index: of the running pipelines, started
    from a page, by the daily scan or by hand, at most one has each directory. *)
Theorem one_writer_per_index s :
  goes s -> NoDup (map lv_dir (writers (s_machine (c_server s)))).
Proof. intros [_ _ _ Hs _]%goes_ok. exact (ok_writer _ _ _ _ _ _ _ _ Hs). Qed.

Lemma moves_grows s s' : moves s s' -> composed_ok s -> grows (s_machine (c_server s)) (s_machine (c_server s')).
Proof.
  intros Hm Hok. destruct Hm as [u Hu|snap Hsn|Hp|l1 l2 c k r i1 i i2 Et Ei Hl Ho Hf|i s' [l1 l2 rq k a i1 i2 r rest Ew Et Ei Hl Has]
    |i r rest Ew Hi|n e rest Ew|sv Hsv]; try (apply grows_same; cbn [c_server proceed resume taking with_server]; by rewrite ?place_machine).
  exact (proj1 (serves_grows _ _ _ _ _ _ _ _ _ Hsv (co_server _ Hok))).
Qed.

Lemma moves_grow s s' : composed_ok s -> rtc moves s s' -> grows (s_machine (c_server s)) (s_machine (c_server s')).
Proof.
  intros Hok Hm. induction Hm as [s|s s1 s' H1 _ IH]; [reflexivity|].
  transitivity (s_machine (c_server s1)); [by apply moves_grows|]. apply IH. by eapply moves_ok.
Qed.


(** C12. What a pipeline announced can be found: once a pipeline is over, unless a
    write failed, every file it announced as scanned has a record in its index, with
    its name, extension, size and time, in every later state of the program, whatever
    other pipelines and commands ran meanwhile. *)
Theorem announced_files_indexed s l k f :
  goes s -> l ∈ m_runs (s_machine (c_server s)) -> over (lv_run l) -> failed (lv_run l) = 0%nat ->
  EScanned k f ∈ emitted (lv_run l) ->
  exists docs d, m_indexes (s_machine (c_server s)) !! lv_dir l = Some docs /\ d ∈ docs /\ record_for f d.
Proof.
  intros [_ _ _ Hs _]%goes_ok Hl Ho Hf He.
  pose proof (ok_runs _ _ _ _ _ _ _ _ Hs) as Hr. pose proof (ok_indexed _ _ _ _ _ _ _ _ Hs) as Hi.
  rewrite Forall_forall in Hr, Hi. destruct (Hr l Hl) as (fs & _ & _ & Hinv).
  specialize (Hi l Hl Hf). rewrite Forall_forall in Hi.
  destruct (Hi f (announced_written fs _ k f Hinv Ho He)) as (docs & Ed & (d & Hd & Hrec)%Exists_exists).
  by exists docs, d.
Qed.
End Composed.

(** ** A program on a small machine *)

Definition demo_machine : machine :=
  {| m_files := demo_empty; m_indexes := ∅; m_state := no_state; m_runs := [] |}.
#[local] Abbreviation demo_goes :=
  (goes (C := demo_tables) (J := demo_json) (T := demo_tokenizer) demo_platform OtherHost demo_error [] [] []
     (INVOKE_DEFAULTS NaN NaN) true (of_Z 80)).
#[local] Abbreviation demo_moves :=
  (moves (C := demo_tables) (J := demo_json) (T := demo_tokenizer) demo_platform OtherHost demo_error [] [] []
     (INVOKE_DEFAULTS NaN NaN) true).
#[local] Abbreviation demo_unaided :=
  (unaided (C := demo_tables) (J := demo_json) (T := demo_tokenizer) demo_platform OtherHost demo_error [] [] []).
#[local] Abbreviation demo_begin := (begin (INVOKE_DEFAULTS NaN NaN) (of_Z 80) demo_machine).

Lemma demo_started : demo_goes demo_begin.
Proof.
  exists demo_machine. split; [|apply rtc_refl]. split; [done|].
  intros dir docs H. discriminate H.
Qed.

(** The call of the first render. *)
Definition demo_call : request :=
  {| rq_cmd := js "read_config"; rq_payload := VUndef; rq_timeoutMs := of_Z 30000; rq_ret := RConfig |}.

Lemma demo_waiting : waiting 0 demo_call demo_begin.
Proof. split; [apply list_elem_of_here|reflexivity]. Qed.

Lemma program_refines_application_witness : demo_goes demo_begin /\ counters_ok (app (c_front demo_begin)).
Proof.
  split; [exact demo_started|].
  exact (proj1 (proj2 (program_refines_application _ _ _ _ _ _ _ _ _ _ demo_started))).
Defined.

Lemma calls_tracked_witness : demo_goes demo_begin /\ 0%nat ∈ owners (c_server demo_begin).
Proof.
  split; [exact demo_started|].
  exact (proj2 (proj2 (proj2 (calls_tracked _ _ _ _ _ _ _ _ _ _ demo_started))) 0%nat demo_call demo_waiting).
Defined.

Lemma every_call_answered_witness : exists s1 s2, rtc demo_unaided demo_begin s1 /\ resumes 0 s1 s2.
Proof. exact (every_call_answered _ _ _ _ _ _ _ _ _ _ 0%nat demo_call demo_started demo_waiting). Defined.

(** An idle minute, and the pipeline it starts. *)
Definition demo_ticked : composed :=
  with_server (ticked (C := demo_tables) (J := demo_json) demo_platform demo_error (calm_at (of_Z 5)) (c_server demo_begin)) demo_begin.

Lemma demo_ticks : demo_goes demo_ticked.
Proof.
  destruct demo_started as (m & Hm & Hs). exists m. split; [exact Hm|]. eapply rtc_r; [exact Hs|].
  apply moves_server, serves_tick.
Qed.

Lemma demo_wire : s_wire (c_server demo_ticked) = [Emit (auto_scan_start "idle_daily")].
Proof. vm_compute. reflexivity. Qed.

Lemma demo_spawned : s_spawned (c_server demo_ticked) = [launch_of (default_config demo_platform)].
Proof. vm_compute. reflexivity. Qed.

Lemma demo_launches : exists s, demo_goes s /\ map lv_dir (writers (s_machine (c_server s))) = [default_index_dir demo_platform].
Proof.
  destruct demo_ticks as (m & Hm & Hs). set (l := launch_of (default_config demo_platform)).
  destruct (launch_run (C := demo_tables) (T := demo_tokenizer) demo_platform [] [] calm (l_roots l) (l_exclude l) (l_index_dir l) false None
              (s_machine (c_server demo_ticked))) as [r m'] eqn:E.
  assert (Hw : map lv_dir (writers m') = [default_index_dir demo_platform]).
  { apply (f_equal snd) in E. cbn [snd] in E. rewrite <- E. vm_compute. reflexivity. }
  eexists. split.
  - exists m. split; [exact Hm|]. eapply rtc_r; [exact Hs|]. apply moves_server.
    eapply (serves_spawned _ _ _ _ _ _ _ [] l [] calm); [exact demo_spawned| |exact E].
    rewrite calm_files. apply fits_nil.
  - exact Hw.
Qed.

Lemma wire_never_stuck_witness :
  exists s', demo_moves demo_ticked s' /\ s_wire (c_server s') = [].
Proof. exact (wire_never_stuck _ _ _ _ _ _ _ _ _ _ _ _ demo_ticks demo_wire). Defined.

Lemma one_writer_per_index_witness :
  exists s, demo_goes s /\ writers (s_machine (c_server s)) <> [] /\ NoDup (map lv_dir (writers (s_machine (c_server s)))).
Proof.
  destruct demo_launches as (s & Hs & Hw). exists s. split; [exact Hs|]. split.
  - intros E. rewrite E in Hw. discriminate Hw.
  - exact (one_writer_per_index _ _ _ _ _ _ _ _ _ _ Hs).
Defined.

(** A pipeline that finds one file and runs to its end. *)
Lemma demo_file_sep (b : bool) (root : jsstr) e p :
  Some e ∈ [demo_file "D:/a/b.TXT" 5] -> path_str e = Some p -> has_sep p.
Proof.
  intros He Hp. apply list_elem_of_singleton in He as [= ->]. injection Hp as <-.
  apply Exists_exists. exists 47. split; [apply list_elem_of_In; simpl; tauto|done].
Qed.

Definition demo_found : surroundings :=
  {| at_sys := at_sys calm; at_walk _ _ := [demo_file "D:/a/b.TXT" 5]; at_walk_sep := demo_file_sep; at_clock := at_clock calm;
     at_text := at_text calm; at_lossy := at_lossy calm; at_faults := no_faults; at_pool := None; at_memory := 2 ^ 33; at_best := at_best calm;
     at_best_in := at_best_in calm; at_ranked := at_ranked calm; at_ranked_in := at_ranked_in calm; at_open := at_open calm;
     at_field := true; at_name := at_name calm; at_hash := at_hash calm; at_today := []; at_marked := true;
     at_probes := at_probes calm; at_load := of_Z 100; at_regular := at_regular calm; at_spawn := at_spawn calm |}.

Lemma demo_ran : exists s l, demo_goes s /\ l ∈ m_runs (s_machine (c_server s)) /\ over (lv_run l)
  /\ failed (lv_run l) = 0%nat /\ EScanned 1 demo_meta ∈ emitted (lv_run l).
Proof.
  destruct demo_ticks as (m & Hm & Hs). set (la := launch_of (default_config demo_platform)).
  set (fs := pipeline_files (C := demo_tables) false (at_walk demo_found) (l_roots la) (l_exclude la)).
  assert (Hfs : fs = [demo_meta]) by (vm_compute; reflexivity).
  destruct (launch_run (C := demo_tables) (T := demo_tokenizer) demo_platform [] [] demo_found (l_roots la) (l_exclude la) (l_index_dir la) false None
              (s_machine (c_server demo_ticked))) as [r m'] eqn:E.
  assert (Hr : r = inr tt) by (apply (f_equal fst) in E; vm_compute in E; by symmetry).
  pose proof E as E'. apply launch_run_runs in E' as [_ E']. rewrite Hr in E'. destruct E' as (s0 & _ & _ & (docs & Es) & Er).
  replace (m_runs (s_machine (c_server demo_ticked))) with (@nil live) in Er by (vm_compute; reflexivity).
  set (sv := {| s_machine := m'; s_spawned := []; s_work := s_work (c_server demo_ticked); s_wire := s_wire (c_server demo_ticked) |}).
  assert (Hsv : rtc demo_moves demo_ticked (with_server sv demo_ticked)).
  { apply rtc_once, moves_server. eapply (serves_spawned _ _ _ _ _ _ _ [] la [] demo_found); [exact demo_spawned| |exact E].
    change (fits fs). rewrite Hfs. unfold fits. simpl. lia. }
  match type of Er with _ = [] ++ [?l] =>
    destruct (run_finishes (C := demo_tables) (J := demo_json) (T := demo_tokenizer) demo_platform OtherHost demo_error [] [] []
                (fun _ => None) (weight (lv_run l)) sv [] l [] fs) as (sv' & l' & _ & H1 & H2 & [_ _ H4 _] & H3 & H5 & _);
      [lia|exact Er| | |by intros [? [=]]|] end.
  { cbn [lv_run]. rewrite Es. apply inv_start. }
  { exact (pipeline_files_rooted demo_platform demo_found (l_roots la) (l_exclude la)). }
  exists (with_server sv' (with_server sv demo_ticked)), l'. split_and!.
  - exists m. split; [exact Hm|]. etransitivity; [exact Hs|]. etransitivity; [exact Hsv|]. apply serves_moves. exact H1.
  - cbn [with_server c_server]. rewrite H2. apply list_elem_of_here.
  - exact H3.
  - rewrite H4. cbn [lv_run]. by rewrite Es.
  - destruct H5 as [(dn & Hd & _ & Hsc & _) _ Htd _ _]. destruct H3 as [Hph _]. rewrite Htd, app_nil_r in Hd by (by rewrite Hph).
    assert (Hin : (1%nat, demo_meta) ∈ omap scanned_event (emitted (lv_run l'))).
    { rewrite Hsc, <- Hd, Hfs. apply list_elem_of_here. }
    apply list_elem_of_omap in Hin as ([k f|k f|k|] & He & [= -> ->]); exact He.
Qed.

Lemma announced_files_indexed_witness :
  exists s dir docs d, demo_goes s /\ m_indexes (s_machine (c_server s)) !! dir = Some docs /\ d ∈ docs /\ record_for demo_meta d.
Proof.
  destruct demo_ran as (s & l & Hs & Hl & Ho & Hf & He).
  destruct (announced_files_indexed _ _ _ _ _ _ _ _ _ s l 1 demo_meta Hs Hl Ho Hf He) as (docs & d & H).
  exists s, (lv_dir l), docs, d. split; [exact Hs|exact H].
Defined.

