(* ===== verification/Simulation.v ===== *)
(** * Running the whole program

    The transition system of Composed as a program: an operation of the user, of the
    page or of the back end, with its position among the pending ones, gives the next
    state; one that is not possible leaves the state as it is.  Everything it does is
    a step of the transition system, so its runs are runs of the program. *)

From stdpp Require Import gmap relations.
From S2P Require Import Prelude JsNumber JsString JsConvert PathUtil Types Effects SortResults Invoke Wire Highlight AppState Handlers AppSystem EventBus FileSystem RustStd Config Scan Pipeline Indexer IndexCommands Commands Scheduler Dedup Machine Records Server Composed.
#[local] Open Scope Z_scope.

Inductive operation :=
| User (u : ui)
| Reply (j : nat)                      (* the page or the user answers the j-th handler *)
| Deliver (n : nat)                    (* the first message of the wire, to n subscriptions *)
| Execute (j : nat) (x : surroundings) (* the j-th work begins *)
| Proceed (j : nat).                   (* it emits or answers *)

(** Registration, the timer of a command, a closed dialog. *)
Definition agreement (w : world) (c : cmd) : ans c :=
  match c with
  | Race _ => TimerFired
  | Listen _ => inr (next_id w)
  | OpenDialog _ _ => inr SNull
  | Clipboard _ => inr tt
  end.

Lemma agreement_outside w c : outside c (agreement w c) /\ fresh_answer c (agreement w c) w.
Proof. by destruct c. Qed.

Section Simulation.
Context {C : CaseTables} {J : Json} {T : Tantivy} (os : platform) (h : host).
Context (serde_error : jsstr -> jsstr) (exists_error lock_error missing_error : jsstr).
Context (defaults : invoke_defaults) (has_clipboard : bool) (path_max_len : number).
#[local] Abbreviation serves := (serves os h serde_error exists_error lock_error missing_error).
#[local] Abbreviation moves := (moves os h serde_error exists_error lock_error missing_error defaults has_clipboard).
#[local] Abbreviation goes := (goes os h serde_error exists_error lock_error missing_error defaults has_clipboard path_max_len).
#[local] Abbreviation composed_ok :=
  (composed_ok os h serde_error exists_error lock_error missing_error defaults has_clipboard path_max_len).

(** ** The page *)

Definition reply (j : nat) (s : composed) : composed :=
  let w := c_front s in
  match tasks w !! j with
  | Some (Call c k) =>
      let r := agreement w c in
      resume (k r) (take j (c_ids s)) (drop (S j) (c_ids s))
        (subscribed c r (with_tasks (take j (tasks w) ++ drop (S j) (tasks w)) w)) s
  | _ => s
  end.

Definition user (u : ui) (s : composed) : composed :=
  if enabled true u (app (c_front s))
  then resume (react defaults true has_clipboard u (app (c_front s))) (c_ids s) [] (c_front s) s else s.

(** The position of the handler that waits for call [i]. *)
Fixpoint position (i : nat) (ids : list nat) : option nat :=
  match ids with [] => None | j :: rest => if Nat.eqb j i then Some O else S <$> position i rest end.

Definition deliver_first (n : nat) (s : composed) : composed :=
  match s_wire (c_server s) with
  | [] => s
  | Emit e :: rest => proceed (c_ids s) (deliver n e (c_front s)) (taking rest s)
  | Answer i r :: rest =>
      match position i (c_ids s) with
      | None => taking rest s
      | Some j =>
          match tasks (c_front s) !! j with
          | Some (Call (Race rq) k) =>
              match answer_as (rq_ret rq) r with
              | Some a => resume (k a) (take j (c_ids s)) (drop (S j) (c_ids s))
                            (with_tasks (take j (tasks (c_front s)) ++ drop (S j) (tasks (c_front s))) (c_front s)) (taking rest s)
              | None => s
              end
          | _ => s
          end
      end
  end.

(** ** The back end *)

(** The groups in one of their orders. *)
Definition groups_now (x : surroundings) (paths : list jsstr) : jsstr + list DupGroup :=
  match hash_groups (at_hash x) ∅ paths with
  | inl e => inl e
  | inr hm => inr (emit_groups KHash (map_to_list hm) ++ emit_groups KName (map_to_list (name_groups (at_name x) paths)))
  end.

Lemma groups_now_detects x paths : detects (at_name x) (at_hash x) paths (groups_now x paths).
Proof.
  unfold detects, groups_now. destruct (hash_groups (at_hash x) ∅ paths) as [e|hm]; [done|].
  by exists (map_to_list hm), (map_to_list (name_groups (at_name x) paths)).
Qed.

Definition fitsb {A} (l : list A) : bool := Z.of_nat (length l) <=? 2 ^ 53.
Definition countableb (x : surroundings) (c : command) : bool :=
  match c with
  | ScanPathsProgress o => fitsb (scan (windows os) (at_walk x) (at_clock x) o)
  | BuildInvertedIndexProgress fs _ _ => fitsb fs
  | _ => true
  end.

(** A piece of work begins. *)
Definition execute (j : nat) (x : surroundings) (sv : server) : server :=
  match s_work sv !! j with
  | Some (i, Received rq) =>
      let become w m := {| s_machine := m; s_spawned := s_spawned sv; s_work := take j (s_work sv) ++ w ++ drop (S j) (s_work sv);
                           s_wire := s_wire sv |} in
      match decode os rq with
      | None => become [(i, Emitting [] None (inl []))] (s_machine sv)
      | Some (ScanAndIndexPipeline o dir parse) =>
          if fitsb (pipeline_files (windows os) (at_walk x) (sc_roots o) (sc_exclude_patterns o)) then
            let '(r, m) := launch_run os exists_error lock_error x (sc_roots o) (sc_exclude_patterns o) dir parse (Some i) (s_machine sv) in
            become match r with inl e => [(i, Emitting [] None (inl e))] | inr _ => [] end m
          else sv
      | Some (DetectDuplicates paths) => become [(i, Emitting [] None (with_value OkGroups (groups_now x paths)))] (s_machine sv)
      | Some c =>
          match perform os h serde_error exists_error lock_error missing_error x (s_machine sv) c with
          | Some o => if countableb x c then become [(i, Emitting (o_events o) (o_launch o) (o_response o))] (o_machine o) else sv
          | None => sv
          end
      end
  | _ => sv
  end.

(** It emits its next event, or answers. *)
Definition go_on (j : nat) (sv : server) : server :=
  match s_work sv !! j with
  | Some (i, Emitting (e :: es) after r) =>
      {| s_machine := s_machine sv; s_spawned := s_spawned sv;
         s_work := take j (s_work sv) ++ (i, Emitting es after r) :: drop (S j) (s_work sv); s_wire := s_wire sv ++ [Emit e] |}
  | Some (i, Emitting [] after r) =>
      {| s_machine := s_machine sv; s_spawned := s_spawned sv ++ option_list after;
         s_work := take j (s_work sv) ++ drop (S j) (s_work sv); s_wire := s_wire sv ++ [Answer i r] |}
  | _ => sv
  end.

Definition act (o : operation) (s : composed) : composed :=
  match o with
  | User u => user u s
  | Reply j => reply j s
  | Deliver n => deliver_first n s
  | Execute j x => with_server (execute j x (c_server s)) s
  | Proceed j => with_server (go_on j (c_server s)) s
  end.

(** ** Soundness *)

Lemma fitsb_fits {A} (l : list A) : fitsb l = true -> fits l.
Proof. unfold fitsb, fits. by rewrite Z.leb_le. Qed.

Lemma countableb_countable x c : countableb x c = true -> countable os x c.
Proof. destruct c; simpl; try done; apply fitsb_fits. Qed.

Lemma execute_serves j x sv : execute j x sv = sv \/ serves sv (execute j x sv).
Proof.
  unfold execute. destruct (s_work sv !! j) as [[i [rq|]]|] eqn:Ej; try (by left). apply take_drop_middle in Ej as E. symmetry in E.
  destruct (decode os rq) as [c|] eqn:Ed; [|right; exact (serves_reject _ _ _ _ _ _ _ _ _ _ _ _ E Ed)].
  assert (Hdo : forall o, executes os h serde_error exists_error lock_error missing_error x (s_machine sv) c o ->
    serves sv {| s_machine := o_machine o; s_spawned := s_spawned sv;
      s_work := take j (s_work sv) ++ [(i, Emitting (o_events o) (o_launch o) (o_response o))] ++ drop (S j) (s_work sv);
      s_wire := s_wire sv |}).
  { intros o Ho. exact (serves_command _ _ _ _ _ _ _ _ _ _ _ _ _ _ E Ed Ho). }
  assert (Hperform : forall sv', match perform os h serde_error exists_error lock_error missing_error x (s_machine sv) c with
    | Some o => if countableb x c then
        {| s_machine := o_machine o; s_spawned := s_spawned sv;
           s_work := take j (s_work sv) ++ [(i, Emitting (o_events o) (o_launch o) (o_response o))] ++ drop (S j) (s_work sv);
           s_wire := s_wire sv |} else sv
    | None => sv end = sv' -> sv' = sv \/ serves sv sv').
  { intros sv' <-. destruct (perform _ _ _ _ _ _ _ _ _) as [o|] eqn:Ep; [|by left]. destruct (countableb x c) eqn:Ec; [|by left].
    right. apply Hdo. apply executes_function; [done|by apply countableb_countable]. }
  destruct c; try exact (Hperform _ eq_refl).
  - destruct (fitsb _) eqn:Hf; [|by left]. apply fitsb_fits in Hf.
    destruct (launch_run _ _ _ _ _ _ _ _ _ _) as [r m] eqn:El. right.
    exact (serves_pipeline _ _ _ _ _ _ _ _ _ _ _ _ _ _ _ _ _ E Ed Hf El).
  - right. apply (Hdo (plain _ _)). apply executes_detect, groups_now_detects.
Qed.

Lemma execute_changed j x sv p :
  contents (m_files (s_machine (execute j x sv))) !! p <> contents (m_files (s_machine sv)) !! p -> serves sv (execute j x sv).
Proof. intros H. destruct (execute_serves j x sv) as [E|E]; [by rewrite E in H|done]. Qed.

Lemma go_on_serves j sv : go_on j sv = sv \/ serves sv (go_on j sv).
Proof.
  unfold go_on. destruct (s_work sv !! j) as [[i [rq|[|e es] after r]]|] eqn:Ej; try (by left);
    apply take_drop_middle in Ej; symmetry in Ej; right.
  - exact (serves_answer _ _ _ _ _ _ _ _ _ _ _ _ Ej).
  - exact (serves_emit _ _ _ _ _ _ _ _ _ _ _ _ _ _ Ej).
Qed.

Lemma reply_moves j s : length (tasks (c_front s)) = length (c_ids s) -> reply j s = s \/ moves s (reply j s).
Proof.
  intros Hl. unfold reply. destruct (tasks (c_front s) !! j) as [[x|e|a k|c k]|] eqn:Ej; try (by left).
  destruct (lookup_lt_is_Some_2 (c_ids s) j) as [i Ei]; [rewrite <- Hl; by eapply lookup_lt_Some|].
  destruct (agreement_outside (c_front s) c) as [H1 H2]. right.
  apply (moves_outside _ _ _ _ _ _ _ _ s (take j (tasks (c_front s))) (drop (S j) (tasks (c_front s))) c k _
           (take j (c_ids s)) i (drop (S j) (c_ids s))); [by rewrite take_drop_middle..| |done|done].
  apply lookup_lt_Some in Ej, Ei. rewrite !length_take. lia.
Qed.

Lemma position_Some i ids j : position i ids = Some j -> ids !! j = Some i.
Proof.
  revert j. induction ids as [|k ids IH]; intros j; simpl; [done|]. destruct (Nat.eqb_spec k i) as [->|]; [by intros [= <-]|].
  destruct (position i ids) as [j'|]; [|done]. intros [= <-]. by apply IH.
Qed.

Lemma position_None i ids : position i ids = None -> i ∉ ids.
Proof.
  induction ids as [|k ids IH]; simpl; [intros _; by apply not_elem_of_nil|]. destruct (Nat.eqb_spec k i); [done|].
  destruct (position i ids); [done|]. intros _ [->|H]%elem_of_cons; [done|]. by apply IH.
Qed.

Lemma deliver_moves n s : length (tasks (c_front s)) = length (c_ids s) -> deliver_first n s = s \/ moves s (deliver_first n s).
Proof.
  intros Hl. unfold deliver_first. destruct (s_wire (c_server s)) as [|[e|i r] rest] eqn:Ew; [by left| |].
  - right. by apply moves_event.
  - destruct (position i (c_ids s)) as [j|] eqn:Ep; [|right; eapply moves_late; [done|by apply position_None]].
    apply position_Some in Ep. destruct (tasks (c_front s) !! j) as [[x|e|a k|[rq| | |] k]|] eqn:Ej; try (by left).
    destruct (answer_as (rq_ret rq) r) as [a|] eqn:Ea; [|by left]. right. apply (moves_result _ _ _ _ _ _ _ _ _ i).
    apply (resumes_with i s (take j (tasks (c_front s))) (drop (S j) (tasks (c_front s))) rq k a _ _ r rest);
      [done|by rewrite take_drop_middle..| |done].
    apply lookup_lt_Some in Ej, Ep. rewrite !length_take. lia.
Qed.

Lemma user_moves u s : user u s = s \/ moves s (user u s).
Proof. unfold user. destruct (enabled _ _ _) eqn:E; [|by left]. right. by apply moves_ui. Qed.

Lemma with_server_same s : with_server (c_server s) s = s.
Proof. by destruct s. Qed.

Lemma act_step o s : goes s -> act o s = s \/ moves s (act o s).
Proof.
  intros Hs%goes_ok. pose proof (Forall2_length _ _ _ (co_waits _ _ _ _ _ _ _ _ _ _ Hs)) as Hl.
  destruct o as [u|j|n|j x|j]; cbn [act]; [apply user_moves|by apply reply_moves|by apply deliver_moves| |].
  - destruct (execute_serves j x (c_server s)) as [->|H]; [left; apply with_server_same|right; by apply moves_server].
  - destruct (go_on_serves j (c_server s)) as [->|H]; [left; apply with_server_same|right; by apply moves_server].
Qed.

Lemma act_moves o s : goes s -> rtc moves s (act o s).
Proof. intros Hs. destruct (act_step o s Hs) as [->|H]; [apply rtc_refl|by apply rtc_once]. Qed.

(** What the program does is something the program can do. *)
Lemma acts_moves ops s : goes s -> rtc moves s (fold_left (fun s o => act o s) ops s).
Proof.
  revert s. induction ops as [|o ops IH]; intros s Hs; [apply rtc_refl|]. pose proof (act_moves o s Hs) as H.
  etransitivity; [exact H|]. apply IH. by eapply goes_moves.
Qed.
End Simulation.

(** ** Two files with one name *)

Definition demo_twin : jsstr := js "D:/a/x.txt".
Definition demo_other : jsstr := js "D:/b/x.txt".
Definition demo_twin_meta : file_meta :=
  {| f_path := demo_twin; f_name := js "x.txt"; f_ext := js "txt"; f_size := 1; f_modified_ts := 0 |}.
Definition demo_twin_record : document := document_of (fun _ => None) false demo_twin_meta.

(** Both are on the machine, one is in an index. *)
Definition demo_twins_machine : machine :=
  {| m_files := {| dirs := ∅; contents := {[demo_twin := js "1"; demo_other := js "2"]} |};
     m_indexes := {[js "indexes/main" := [demo_twin_record]]}; m_state := no_state; m_runs := [] |}.

Lemma has_sep_slash p : 47 ∈ p -> has_sep p.
Proof. intros H. apply Exists_exists. by exists 47. Qed.

Lemma demo_twins_start : starts demo_twins_machine.
Proof.
  split; [done|]. intros dir docs H. unfold demo_twins_machine in H. cbn [m_indexes] in H.
  apply lookup_singleton_Some in H as [_ <-]. constructor; [|done]. apply has_sep_slash, list_elem_of_In. simpl. tauto.
Qed.

(** A walk that finds both, a search that finds everything. *)
Lemma demo_twins_sep (b : bool) (root : jsstr) e p :
  Some e ∈ [demo_file "D:/a/x.txt" 1; demo_file "D:/b/x.txt" 1] -> path_str e = Some p -> has_sep p.
Proof.
  intros He Hp. apply elem_of_cons in He as [[= ->]|He]; [|apply list_elem_of_singleton in He as [= ->]]; injection Hp as <-;
    apply has_sep_slash, list_elem_of_In; simpl; tauto.
Qed.

Lemma all_matched (text : jsstr) (l : list document) (hits : list (number * document)) hit :
  (inr (map (fun d => (of_Z 1, d)) l) : jsstr + list (number * document)) = inr hits -> hit ∈ hits -> snd hit ∈ l.
Proof. intros [= <-] H. apply list_elem_of_fmap in H as (d & -> & H). exact H. Qed.

Definition demo_twins : surroundings :=
  {| at_sys := at_sys calm; at_walk _ _ := [demo_file "D:/a/x.txt" 1; demo_file "D:/b/x.txt" 1]; at_walk_sep := demo_twins_sep;
     at_clock := at_clock calm; at_text := at_text calm; at_lossy := at_lossy calm; at_faults := no_faults; at_pool := None; at_memory := 2 ^ 33;
     at_best := at_best calm; at_best_in := at_best_in calm; at_ranked _ docs := inr (map (fun d => (of_Z 1, d)) docs);
     at_ranked_in := all_matched; at_open := at_open calm; at_field := true; at_name _ := Some (js "x.txt");
     at_hash := at_hash calm; at_today := []; at_marked := true; at_probes := at_probes calm; at_load := of_Z 100;
     at_regular := at_regular calm; at_spawn := at_spawn calm |}.

#[local] Abbreviation demo_act :=
  (act (C := demo_tables) (J := demo_json) (T := demo_tokenizer) demo_platform OtherHost demo_error [] [] []
     (INVOKE_DEFAULTS NaN NaN) true).
#[local] Abbreviation demo_moves :=
  (moves (C := demo_tables) (J := demo_json) (T := demo_tokenizer) demo_platform OtherHost demo_error [] [] []
     (INVOKE_DEFAULTS NaN NaN) true).
#[local] Abbreviation demo_goes :=
  (goes (C := demo_tables) (J := demo_json) (T := demo_tokenizer) demo_platform OtherHost demo_error [] [] []
     (INVOKE_DEFAULTS NaN NaN) true (of_Z 80)).

Definition demo_run (ops : list operation) : composed :=
  fold_left (fun s o => demo_act o s) ops (begin (INVOKE_DEFAULTS NaN NaN) (of_Z 80) demo_twins_machine).

Lemma demo_run_moves ops : rtc demo_moves (begin (INVOKE_DEFAULTS NaN NaN) (of_Z 80) demo_twins_machine) (demo_run ops).
Proof. apply (acts_moves _ _ _ _ _ _ _ _ (of_Z 80)). exists demo_twins_machine. split; [exact demo_twins_start|apply rtc_refl]. Qed.

Lemma demo_run_goes ops : demo_goes (demo_run ops).
Proof. exists demo_twins_machine. split; [exact demo_twins_start|apply demo_run_moves]. Qed.

Lemma demo_run_more ops ops' : rtc demo_moves (demo_run ops) (demo_run (ops ++ ops')).
Proof.
  replace (demo_run (ops ++ ops')) with (fold_left (fun s o => demo_act o s) ops' (demo_run ops)) by (symmetry; apply fold_left_app).
  apply (acts_moves _ _ _ _ _ _ _ _ (of_Z 80)), demo_run_goes.
Qed.
