(* ===== verification/Fairness.v ===== *)
(** * Every call is answered or given up in every fair run

    A call that went to the back end is at one place at a time: its request is
    queued, its command has events left to emit, a pipeline works for it, or its
    answer is on the wire behind other messages.  The component in charge of a place
    is the work on the call, the pipeline, or the delivery of messages.

    Fairness is that of the scheduler, for each component: one that can go on does
    so in the end, or is stopped in between by something else.  That a component in
    charge is never stopped, that what it does brings the call closer to its handler,
    and that nothing else moves the call away, is proved; so in a fair run no handler
    waits for ever, whatever the user, the other handlers and the other pipelines
    do. *)

From stdpp Require Import gmap relations.
From S2P Require Import Prelude JsNumber JsString JsConvert Types Effects Invoke Wire Highlight AppState Handlers AppSystem EventBus FileSystem RustStd Config Scan Pipeline Indexer Commands Scheduler Machine Records Server Composed Simulation.

(** ** Where a call is *)

Inductive spot :=
| AtWork (w : work)        (* queued, or with events left to emit *)
| AtRun (l : live)         (* its pipeline *)
| OnWire (before : nat).   (* the messages before its answer *)

Definition at_spot (sv : server) (i : nat) (p : spot) : Prop :=
  match p with
  | AtWork w => (i, w) ∈ s_work sv
  | AtRun l => l ∈ m_runs (s_machine sv) /\ lv_call l = Some i
  | OnWire n => exists r, s_wire sv !! n = Some (Answer i r)
  end.

(** Closer to the handler. *)
Definition rank (p : spot) : nat * nat :=
  match p with
  | AtWork (Received _) => (2, 0)
  | AtWork (Emitting es _ _) => (1, length es)
  | AtRun l => (1, weight (lv_run l))
  | OnWire n => (0, n)
  end.
Definition closer (p q : spot) : Prop :=
  (rank p).1 < (rank q).1 \/ (rank p).1 = (rank q).1 /\ (rank p).2 < (rank q).2.

Lemma closer_wf : well_founded closer.
Proof.
  assert (H : forall k n p, rank p = (k, n) -> Acc closer p).
  { induction k as [k IHk] using lt_wf_ind. induction n as [n IHn] using lt_wf_ind. intros p Hp. constructor. intros q [Hq|[Hq1 Hq2]].
    - destruct (rank q) as [k' n'] eqn:E. rewrite Hp in Hq. by eapply IHk.
    - destruct (rank q) as [k' n'] eqn:E. rewrite Hp in Hq1, Hq2. simpl in *. subst k'. by eapply IHn. }
  intros p. destruct (rank p) as [k n] eqn:E. by eapply H.
Qed.

Section Fairness.
Context {C : CaseTables} {J : Json} {T : Tantivy} (os : platform) (h : host).
Context (serde_error : jsstr -> jsstr) (exists_error lock_error missing_error : jsstr).
Context (defaults : invoke_defaults) (has_clipboard : bool) (path_max_len : number).
#[local] Abbreviation serves := (serves os h serde_error exists_error lock_error missing_error).
#[local] Abbreviation moves := (moves os h serde_error exists_error lock_error missing_error defaults has_clipboard).
#[local] Abbreviation goes := (goes os h serde_error exists_error lock_error missing_error defaults has_clipboard path_max_len).
#[local] Abbreviation composed_ok :=
  (composed_ok os h serde_error exists_error lock_error missing_error defaults has_clipboard path_max_len).

(** The call is where it was, or closer. *)
Definition nearer (sv : server) (i : nat) (p : spot) : Prop := exists q, at_spot sv i q /\ (q = p \/ closer q p).

Lemma nearer_same sv i p : at_spot sv i p -> nearer sv i p.
Proof. intros H. exists p. split; [done|by left]. Qed.

(** A step that works on one call leaves the others where they are. *)
Lemma spot_work sv sv' i p l1 j w l2 new :
  s_work sv = l1 ++ (j, w) :: l2 -> s_work sv' = l1 ++ new ++ l2 ->
  (forall l, l ∈ m_runs (s_machine sv) -> l ∈ m_runs (s_machine sv')) -> (exists more, s_wire sv' = s_wire sv ++ more) ->
  at_spot sv i p -> at_spot sv' i p \/ i = j /\ p = AtWork w.
Proof.
  intros E E' Hr [more Ew]. destruct p as [v|l|n]; simpl.
  - rewrite E, E', !elem_of_app, elem_of_cons. intros [H|[[= -> ->]|H]]; [left; tauto|by right|left; tauto].
  - intros [H Hc]. left. split; [by apply Hr|done].
  - intros [r H]. left. exists r. rewrite Ew. by apply lookup_app_l_Some.
Qed.

Lemma spot_kept sv sv' i p : s_work sv' = s_work sv ->
  (forall l, l ∈ m_runs (s_machine sv) -> l ∈ m_runs (s_machine sv')) -> (exists more, s_wire sv' = s_wire sv ++ more) ->
  at_spot sv i p -> at_spot sv' i p.
Proof.
  intros E Hr [more Ew]. destruct p as [v|l|n]; simpl; [by rewrite E|intros [H Hc]; split; [by apply Hr|done]|].
  intros [r H]. exists r. rewrite Ew. by apply lookup_app_l_Some.
Qed.

(** The end of the wire. *)
Lemma at_wire_end sv' i w r rest : s_wire sv' = w ++ Answer i r :: rest -> at_spot sv' i (OnWire (length w)).
Proof. intros E. exists r. by rewrite E, list_lookup_middle. Qed.

(** Work that goes on brings its call closer. *)
Lemma work_closer sv' i w w' : (i, w') ∈ s_work sv' -> closer (AtWork w') (AtWork w) -> nearer sv' i (AtWork w).
Proof. intros H Hc. exists (AtWork w'). split; [exact H|by right]. Qed.

Lemma runs_on_nearer sv es j m i p : runs_on (s_machine sv) es j m -> at_spot sv i p ->
  nearer {| s_machine := m; s_spawned := s_spawned sv; s_work := s_work sv;
            s_wire := s_wire sv ++ map Emit es ++ match j with Some i => [Answer i (inr OkUnit)] | None => [] end |} i p.
Proof.
  intros Hr Hp. destruct p as [w|l|n]; [by apply nearer_same| |].
  - destruct Hp as [H Hc]. inversion Hr as [m0 l1 l0 l2 rt s' E Hs]; subst. rewrite E, elem_of_app, elem_of_cons in H.
    assert (Hother : l ∈ l1 \/ l ∈ l2 -> l ∈ l1 ++ stepped l0 s' :: l2) by set_solver.
    destruct H as [H|[->|H]]; [apply nearer_same; split; [apply Hother; by left|done]| |apply nearer_same; split; [apply Hother; by right|done]].
    pose proof (step_weight _ _ _ _ Hs) as Hw. change (weight (synced (s_machine sv) l0)) with (weight (lv_run l0)) in Hw.
    destruct (at_phase s') eqn:Ep.
    1-3: exists (AtRun (stepped l0 s')); split; [|right; right; split; [done|change (weight s' < weight (lv_run l0)); lia]];
      split; [cbn [s_machine m_runs]; set_solver|by unfold stepped; rewrite Ep].
    eexists (OnWire _). split; [|right; left; simpl; lia]. unfold answered. rewrite Ep, Hc, app_assoc.
    by eapply at_wire_end.
  - destruct Hp as [r H]. apply nearer_same. exists r. cbn [s_wire]. by apply lookup_app_l_Some.
Qed.

Lemma serves_nearer sv sv' i p : serves sv sv' -> at_spot sv i p -> nearer sv' i p.
Proof.
  intros Hs Hp. destruct Hs as [l1 j rq l2 e E Hd|l1 j rq l2 x c o E Hd He|l1 j rq l2 x o dir parse r m E Hd Hf Hl|l1 l l2 x r m E Hf Hl
         |l1 j e es after r l2 E|l1 j after r l2 E|es j m Hr|x|d].
  - match goal with |- nearer ?sv' _ _ => destruct (spot_work sv sv' i p l1 j _ l2 [(j, Emitting [] None (inl e))] E eq_refl) as [H|[-> ->]] end;
      [done|by exists []; rewrite app_nil_r|done|by apply nearer_same|].
    eapply work_closer; [cbn [s_work]; apply elem_of_app; right; apply list_elem_of_here|left; simpl; lia].
  - pose proof (executes_runs _ _ _ _ _ _ _ _ _ _ He) as [Er _].
    match goal with |- nearer ?sv' _ _ => destruct (spot_work sv sv' i p l1 j _ l2 [(j, Emitting (o_events o) (o_launch o) (o_response o))] E eq_refl)
      as [H|[-> ->]] end; [by cbn [s_machine]; rewrite Er|by exists []; rewrite app_nil_r|done|by apply nearer_same|].
    eapply work_closer; [cbn [s_work]; apply elem_of_app; right; apply list_elem_of_here|left; simpl; lia].
  - apply launch_run_runs in Hl as [_ Hl].
    match goal with |- nearer ?sv' _ _ => destruct (spot_work sv sv' i p l1 j _ l2 _ E eq_refl) as [H|[-> ->]] end;
      [|by exists []; rewrite app_nil_r|done|by apply nearer_same|].
    { cbn [s_machine]. intros l Hin. destruct r; [by rewrite Hl|]. destruct Hl as (s & _ & _ & _ & ->). set_solver. }
    destruct r as [e|].
    + eapply work_closer; [cbn [s_work]; apply elem_of_app; right; apply list_elem_of_here|left; simpl; lia].
    + destruct Hl as (s & _ & _ & _ & Hl). eexists (AtRun {| lv_dir := dir; lv_parse := parse; lv_call := Some j; lv_run := s |}).
      split; [|right; left; simpl; lia]. split; [|done]. cbn [s_machine]. rewrite Hl. set_solver.
  - apply launch_run_runs in Hl as [_ Hl]. apply nearer_same. apply (spot_kept sv); [reflexivity| |by exists []; rewrite app_nil_r|exact Hp].
    cbn [s_machine]. intros l' Hin. destruct r; [by rewrite Hl|]. destruct Hl as (s & _ & _ & _ & ->). set_solver.
  - match goal with |- nearer ?sv' _ _ => destruct (spot_work sv sv' i p l1 j _ l2 [(j, Emitting es after r)] E eq_refl) as [H|[-> ->]] end;
      [done|by eexists|done|by apply nearer_same|].
    eapply work_closer; [cbn [s_work]; apply elem_of_app; right; apply list_elem_of_here|right; simpl; lia].
  - match goal with |- nearer ?sv' _ _ => destruct (spot_work sv sv' i p l1 j _ l2 [] E eq_refl) as [H|[-> ->]] end;
      [done|by eexists|done|by apply nearer_same|].
    exists (OnWire (length (s_wire sv))). split; [|right; left; simpl; lia]. by eapply at_wire_end.
  - by apply runs_on_nearer.
  - apply nearer_same. unfold ticked. destruct (read_config _ _ _ _) as [r d].
    destruct (tick _ _ _ _) as [[e l]|]; (apply (spot_kept sv); [..|exact Hp]; [done|done|]);
      [by eexists|by exists []; rewrite app_nil_r].
  - apply nearer_same. apply (spot_kept sv); [..|exact Hp]; [done|done|by exists []; rewrite app_nil_r].
Qed.

(** Requests are queued behind. *)
Lemma place_spot new calls sv i p : at_spot sv i p -> at_spot (place new calls sv) i p.
Proof.
  revert calls sv. induction new as [|c new IH]; intros calls sv Hp; simpl; [done|]. apply IH. destruct c; try done.
  destruct p as [w|l|n]; [|exact Hp..]. simpl in *. set_solver.
Qed.

Lemma place_nearer new calls sv i p : nearer sv i p -> nearer (place new calls sv) i p.
Proof. intros (q & H & Hq). exists q. split; [by apply place_spot|done]. Qed.

(** Taking the first message moves the others forward. *)
Lemma take_nearer sv msg rest i p : s_wire sv = msg :: rest -> at_spot sv i p ->
  answers_call msg = Some i \/ nearer (with_wire rest sv) i p.
Proof.
  intros E Hp. destruct p as [w|l|[|n]]; [right; by apply nearer_same..| |]; destruct Hp as [r H]; rewrite E in H.
  - injection H as ->. by left.
  - right. exists (OnWire n). split; [by exists r|right; right; simpl; lia].
Qed.

(** A handler that is taken off the list does not come back under the same call. *)
Lemma resumed_gone s i i1 i2 w : composed_ok s -> c_ids s = i1 ++ i :: i2 -> i ∉ c_ids (proceed (i1 ++ i2) w (with_server (c_server s) s)).
Proof.
  intros Hok Ei. cbn [proceed with_server c_ids c_calls]. pose proof (co_ids _ _ _ _ _ _ _ _ _ _ Hok) as Hd.
  pose proof (co_waits _ _ _ _ _ _ _ _ _ _ Hok) as Hw. rewrite Ei in Hd, Hw.
  assert (Hlt : (i < length (c_calls s))%nat).
  { apply Forall2_app_inv_r in Hw as (l1 & l2 & _ & Hw & _). inversion Hw as [|p ? l ? (c & k & _ & Hc)]; subst. by eapply lookup_lt_Some. }
  rewrite NoDup_app, NoDup_cons in Hd. rewrite !elem_of_app, elem_of_seq. intros [[H|H]|H]; [|by destruct Hd as (_ & _ & [H' _])|lia].
  destruct Hd as (_ & Hd & _). destruct (Hd i H). left.
Qed.

(** Every move leaves the call where it is or brings it closer, or its handler has
    gone on. *)
Lemma moves_nearer s s' i p : composed_ok s -> moves s s' -> at_spot (c_server s) i p ->
  i ∉ c_ids s' \/ nearer (c_server s') i p.
Proof.
  intros Hok Hm Hp.
  destruct Hm as [u Hu|snap Hsn|Hpg|l1 l2 c k r i1 j i2 Et Ei Hl Ho Hf|j s' [l1 l2 rq k a i1 i2 r rest Ew Et Ei Hl Has]
    |j r rest Ew Hi|n e rest Ew|sv Hsv]; try (right; apply nearer_same; by apply place_spot).
  - destruct (take_nearer _ _ _ i p Ew Hp) as [[= ->]|H]; [|right; by apply place_nearer].
    left. by apply (resumed_gone s i i1 i2).
  - destruct (take_nearer _ _ _ i p Ew Hp) as [[= ->]|H]; [by left|by right].
  - destruct (take_nearer _ _ _ i p Ew Hp) as [[=]|H]. right. by apply place_nearer.
  - right. by eapply serves_nearer.
Qed.

(** ** Runs *)

(** An infinite run; it may pause. *)
Definition run_of (r : nat -> composed) : Prop :=
  goes (r 0) /\ forall n, r (S n) = r n \/ moves (r n) (r (S n)).

(** What goes on by itself. *)
Inductive component :=
| WorkOn (i : nat)        (* the execution of call [i] *)
| PipelineOf (i : nat)    (* the pipeline call [i] waits for *)
| Delivery.               (* the host, that delivers the messages *)

(** A step in which a component goes on. *)
Definition goes_on (c : component) (s s' : composed) : Prop :=
  moves s s' /\
  match c with
  | WorkOn i => exists w, (i, w) ∈ s_work (c_server s) /\ (i, w) ∉ s_work (c_server s')
  | PipelineOf i => exists l, l ∈ m_runs (s_machine (c_server s)) /\ lv_call l = Some i /\ l ∉ m_runs (s_machine (c_server s'))
  | Delivery => exists msg, s_wire (c_server s) = msg :: s_wire (c_server s')
  end.

(** No component that can go on is passed over for ever. *)
Definition fair (r : nat -> composed) : Prop :=
  forall c n, exists m, n <= m /\ ((forall s, ~ goes_on c (r m) s) \/ goes_on c (r m) (r (S m))).

(** The component in charge of a call. *)
Definition in_charge (i : nat) (p : spot) : component :=
  match p with AtWork _ => WorkOn i | AtRun _ => PipelineOf i | OnWire _ => Delivery end.

Lemma run_goes r n : run_of r -> goes (r n).
Proof.
  intros [H0 Hs]. induction n as [|n IH]; [done|]. destruct (Hs n) as [->|H]; [done|]. eapply goes_moves; [exact IH|by apply rtc_once].
Qed.

(** Each call has one owner. *)
Lemma omap_at_unique {A} (f : A -> option nat) l (j k : nat) (a b : A) (i : nat) : NoDup (omap f l) ->
  l !! j = Some a -> l !! k = Some b -> f a = Some i -> f b = Some i -> j = k.
Proof.
  revert j k. induction l as [|x l IH]; intros j k Hd Hj Hk Ha Hb; [done|].
  assert (Hin : forall n y, l !! n = Some y -> f y = Some i -> i ∈ omap f l).
  { intros n y Hn Hy. apply list_elem_of_omap. exists y. split; [by eapply list_elem_of_lookup_2|done]. }
  destruct j as [|j], k as [|k]; simpl in *; [done| | |].
  - injection Hj as ->. rewrite Ha in Hd. apply NoDup_cons in Hd as [Hd _]. destruct Hd. by eapply Hin.
  - injection Hk as ->. rewrite Hb in Hd. apply NoDup_cons in Hd as [Hd _]. destruct Hd. by eapply Hin.
  - f_equal. eapply IH; [|done..]. destruct (f x); [by apply NoDup_cons in Hd as [_ Hd]|done].
Qed.

Lemma omap_elem_unique {A} (f : A -> option nat) l (a b : A) (i : nat) : NoDup (omap f l) ->
  a ∈ l -> b ∈ l -> f a = Some i -> f b = Some i -> a = b.
Proof.
  intros Hd [j Hj]%list_elem_of_lookup [k Hk]%list_elem_of_lookup Ha Hb.
  assert (j = k) as <- by (by eapply omap_at_unique). by simplify_eq.
Qed.

Lemma owners_once s : composed_ok s ->
  NoDup (omap (fun w : nat * work => Some (fst w)) (s_work (c_server s)))
  /\ NoDup (omap lv_call (m_runs (s_machine (c_server s)))) /\ NoDup (omap answers_call (s_wire (c_server s))).
Proof.
  intros Hok. pose proof (ok_owners _ _ _ _ _ _ _ _ (co_server _ _ _ _ _ _ _ _ _ _ Hok)) as Hd. unfold owners in Hd.
  rewrite !NoDup_app in Hd. destruct Hd as (H1 & _ & H2 & _ & H3). split; [|done].
  replace (omap _ _) with (map fst (s_work (c_server s))); [done|]. clear. induction (s_work (c_server s)) as [|w l IH]; [done|].
  simpl. by rewrite IH.
Qed.

(** A component in charge of a call can always go on. *)
Lemma in_charge_enabled s i p : composed_ok s -> at_spot (c_server s) i p -> exists s', goes_on (in_charge i p) s s'.
Proof.
  intros Hok Hp. pose proof (co_server _ _ _ _ _ _ _ _ _ _ Hok) as Hsv. destruct (owners_once s Hok) as (Hw & Hl & _).
  destruct p as [w|l|n]; simpl in Hp.
  - apply list_elem_of_split in Hp as (l1 & l2 & E).
    destruct (work_continues _ _ _ _ _ _ _ l1 i w l2 _ Hsv E) as (sv' & new & H1 & H2 & H3).
    exists (with_server sv' s). split; [by apply moves_server|]. exists w. split; [rewrite E; set_solver|]. cbn [c_server with_server].
    rewrite H2, !elem_of_app. rewrite E, omap_app, NoDup_app in Hw. simpl in Hw. rewrite NoDup_cons in Hw. destruct Hw as (_ & Hw1 & Hw2 & _).
    intros [H|[H|H]]; [|done|].
    + apply (Hw1 i); [|left]. apply list_elem_of_omap. by exists (i, w).
    + apply Hw2. apply list_elem_of_omap. by exists (i, w).
  - destruct Hp as [Hin Hc]. pose proof (list_elem_of_split _ _ Hin) as (l1 & l2 & E).
    pose proof (ok_runs _ _ _ _ _ _ _ _ Hsv) as Hr. pose proof (ok_waiting _ _ _ _ _ _ _ _ Hsv) as Hwt.
    rewrite Forall_forall in Hr, Hwt. destruct (Hr l Hin) as (fs & _ & _ & Hinv). destruct (Hwt l Hin i Hc) as [Hph _].
    pose proof (synced_inv fs (s_machine (c_server s)) l Hinv) as Hinv'.
    destruct (run_progress (fun _ => None) (lv_parse l) [] fs (synced (s_machine (c_server s)) l) Hinv') as [s' Hs]; [by intros [? _]|].
    pose proof (runs_on_step _ _ _ _ _ _ E Hs) as Hro. eexists. split; [apply moves_server, serves_run, Hro|].
    exists l. split; [done|]. split; [done|]. cbn [c_server with_server s_machine m_runs].
    apply step_weight in Hs. change (weight (synced (s_machine (c_server s)) l)) with (weight (lv_run l)) in Hs.
    rewrite E, omap_app, NoDup_app in Hl. simpl in Hl. rewrite Hc, NoDup_cons in Hl. destruct Hl as (_ & Hl1 & Hl2 & _).
    rewrite elem_of_app, elem_of_cons. intros [H|[H|H]].
    + apply (Hl1 i); [|left]. apply list_elem_of_omap. by exists l.
    + rewrite H in Hs at 1. cbn [stepped lv_run] in Hs. lia.
    + apply Hl2. apply list_elem_of_omap. by exists l.
  - destruct Hp as [r Hr]. destruct (s_wire (c_server s)) as [|msg rest] eqn:Ew; [done|].
    destruct (wire_moves _ _ _ _ _ _ _ _ _ s msg rest Hok Ew) as (s' & H1 & H2 & _).
    exists s'. split; [by eapply unaided_moves|]. exists msg. by rewrite H2.
Qed.

(** When it does, the call gets closer, or its handler has gone on. *)
Lemma in_charge_closer s s' i p : composed_ok s -> at_spot (c_server s) i p -> goes_on (in_charge i p) s s' ->
  i ∉ c_ids s' \/ exists q, at_spot (c_server s') i q /\ closer q p.
Proof.
  intros Hok Hp [Hm Hg]. destruct (moves_nearer s s' i p Hok Hm Hp) as [H|(q & Hq & [->|Hc])]; [by left| |right; by exists q].
  exfalso. destruct (owners_once s Hok) as (Hw & Hl & Hd). destruct p as [w|l|n]; simpl in *.
  - destruct Hg as (w' & H1 & H2).
    pose proof (omap_elem_unique (fun w : nat * work => Some (fst w)) _ _ _ i Hw Hp H1 eq_refl eq_refl) as [= <-]. done.
  - destruct Hg as (l' & H1 & Hc & H2). destruct Hp as [Hp Hc'].
    pose proof (omap_elem_unique _ _ _ _ i Hl Hp H1 Hc' Hc) as <-. by destruct Hq.
  - destruct Hg as (msg & E), Hp as [r Hr], Hq as [r' Hr']. rewrite E in Hd, Hr.
    assert (n = S n); [|lia]. by apply (omap_at_unique answers_call (msg :: s_wire (c_server s')) n (S n) (Answer i r) (Answer i r') i).
Qed.

(** Until then the call stays where it is, or gets closer. *)
Definition gets_closer (r : nat -> composed) (n i : nat) (p : spot) : Prop :=
  exists k, n <= k /\ (i ∉ c_ids (r k) \/ exists q, at_spot (c_server (r k)) i q /\ closer q p).

Lemma stays_or_closer r d n i p : run_of r -> at_spot (c_server (r n)) i p ->
  gets_closer r n i p \/ at_spot (c_server (r (d + n))) i p.
Proof.
  intros Hr. revert n. induction d as [|d IH]; intros n Hp; [by right|].
  assert (Hnext : i ∉ c_ids (r (S n)) \/ nearer (c_server (r (S n))) i p).
  { destruct (proj2 Hr n) as [->|Hm]; [right; by apply nearer_same|]. eapply moves_nearer; [|exact Hm|done].
    eapply goes_ok. by apply run_goes. }
  destruct Hnext as [H|(q & Hq & [->|Hc])]; [left; exists (S n); split; [lia|by left]| |left; exists (S n); split; [lia|right; by exists q]].
  replace (S d + n) with (d + S n) by lia. destruct (IH (S n) Hq) as [(k & Hk & H)|H]; [|by right]. left. exists k. split; [lia|done].
Qed.

(** In a fair run it gets closer. *)
Lemma closer_later r n i p : run_of r -> fair r -> at_spot (c_server (r n)) i p -> gets_closer r n i p.
Proof.
  intros Hr Hf Hp. destruct (Hf (in_charge i p) n) as (m & Hm & Hc).
  destruct (stays_or_closer r (m - n) n i p Hr Hp) as [H|H]; [done|]. replace (m - n + n) with m in H by lia.
  assert (Hok : composed_ok (r m)) by (eapply goes_ok; by apply run_goes).
  destruct Hc as [Hc|Hc]; [destruct (in_charge_enabled _ i p Hok H) as [s' Hs]; by destruct (Hc s')|].
  exists (S m). split; [lia|]. by eapply in_charge_closer.
Qed.

Lemma owned_spot sv i : i ∈ owners sv -> exists p, at_spot sv i p.
Proof.
  unfold owners. rewrite !elem_of_app. intros [H|[H|H]].
  - apply list_elem_of_fmap in H as ([j w] & -> & H). by exists (AtWork w).
  - apply list_elem_of_omap in H as (l & H & Hc). by exists (AtRun l).
  - apply list_elem_of_omap in H as ([e|j r] & H & [=]); subst. apply list_elem_of_lookup in H as (n & H).
    exists (OnWire n). by exists r.
Qed.

(** C8. In every fair run of the program every handler that waits for a command goes
    on, whatever the user does and however other handlers, commands, pipelines and
    other programs interfere: the answer of the call, or its timer, resumes it.  A run
    is fair when the execution of each command, each pipeline and the delivery of
    messages, if it can go on from some point without end, does so at some point; that
    each of them can go on as long as a handler depends on it is part of what is
    proved. *)
Theorem fair_runs_resume r n i rq :
  run_of r -> fair r -> waiting i rq (r n) -> exists m, (n <= m)%nat /\ i ∉ c_ids (r m).
Proof.
  intros Hr Hf [Hi Hc]. pose proof (goes_ok _ _ _ _ _ _ _ _ _ _ (run_goes r n Hr)) as Hok.
  destruct (owned_spot _ _ (co_accounted _ _ _ _ _ _ _ _ _ _ Hok i rq Hi Hc)) as [p Hp]. clear Hi Hc Hok.
  revert n Hp. induction p as [p IH] using (well_founded_ind closer_wf). intros n Hp.
  destruct (closer_later r n i p Hr Hf Hp) as (k & Hk & [H|(q & Hq & Hcl)]); [by exists k|].
  destruct (IH q Hcl k Hq) as (m' & Hm' & H). exists m'. split; [lia|done].
Qed.
End Fairness.

(** ** A fair run *)

#[local] Abbreviation demo_moves :=
  (moves (C := demo_tables) (J := demo_json) (T := demo_tokenizer) demo_platform OtherHost demo_error [] [] []
     (INVOKE_DEFAULTS NaN NaN) true).
#[local] Abbreviation demo_goes :=
  (goes (C := demo_tables) (J := demo_json) (T := demo_tokenizer) demo_platform OtherHost demo_error [] [] []
     (INVOKE_DEFAULTS NaN NaN) true (of_Z 80)).

(** The first call, of the configuration, is executed, answered, delivered. *)
Definition demo_fair_ops : list operation := [Execute 0 demo_twins; Proceed 0; Deliver 1].
Definition demo_fair (n : nat) : composed := demo_run (take n demo_fair_ops).

Lemma demo_fair_goes n : demo_goes (demo_fair n).
Proof. apply demo_run_goes. Qed.

Lemma demo_fair_run :
  run_of (C := demo_tables) (J := demo_json) (T := demo_tokenizer) demo_platform OtherHost demo_error [] [] []
    (INVOKE_DEFAULTS NaN NaN) true (of_Z 80) demo_fair.
Proof.
  split; [apply demo_fair_goes|]. intros n. unfold demo_fair. destruct (demo_fair_ops !! n) as [o|] eqn:E.
  - rewrite (take_S_r _ _ _ E). unfold demo_run. rewrite fold_left_app. apply (act_step _ _ _ _ _ _ _ _ (of_Z 80)), demo_fair_goes.
  - left. apply lookup_ge_None in E. by rewrite !take_ge by lia.
Qed.

(** At the end nothing is under way. *)
Definition unfinished (s : composed) : list nat * nat * nat :=
  (map fst (s_work (c_server s)), length (s_wire (c_server s)), length (m_runs (s_machine (c_server s)))).

Lemma demo_fair_end : unfinished (demo_fair 3) = ([], 0, 0).
Proof. vm_compute. reflexivity. Qed.

Lemma nothing_unfinished s c s' : unfinished s = ([], 0, 0) ->
  ~ goes_on (C := demo_tables) (J := demo_json) (T := demo_tokenizer) demo_platform OtherHost demo_error [] [] []
      (INVOKE_DEFAULTS NaN NaN) true c s s'.
Proof.
  unfold unfinished. intros [= Hw Hm Hr] [_ Hg]. apply map_eq_nil in Hw. apply length_zero_iff_nil in Hm, Hr.
  destruct c as [i|i|].
  - destruct Hg as (w & H & _). rewrite Hw in H. by apply elem_of_nil in H.
  - destruct Hg as (l & H & _). rewrite Hr in H. by apply elem_of_nil in H.
  - destruct Hg as (msg & H). by rewrite Hm in H.
Qed.

Lemma demo_fair_fair :
  fair (C := demo_tables) (J := demo_json) (T := demo_tokenizer) demo_platform OtherHost demo_error [] [] []
    (INVOKE_DEFAULTS NaN NaN) true demo_fair.
Proof.
  intros c n. exists (n + 3)%nat. split; [lia|]. left. intros s. unfold demo_fair. rewrite take_ge by (simpl; lia).
  apply nothing_unfinished, demo_fair_end.
Qed.

Lemma demo_fair_waits : waiting 0 demo_call (demo_fair 0).
Proof. split; [apply list_elem_of_here|reflexivity]. Qed.

Lemma fair_runs_resume_witness : exists m, 0%nat ∉ c_ids (demo_fair m).
Proof.
  destruct (fair_runs_resume _ _ _ _ _ _ _ _ _ demo_fair 0 0 demo_call demo_fair_run demo_fair_fair demo_fair_waits) as (m & _ & H).
  exists m. exact H.
Defined.
