(* ===== verification/EndToEnd.v ===== *)
(** * From the page to the machine and back

    What a user sees of one operation of the whole program: the handler the click
    starts, the request it suspends on, the command the back end runs on its
    machine, the answer on the wire and what the handler then shows. *)

From stdpp Require Import gmap relations.
From S2P Require Import Prelude JsNumber JsString JsConvert StringUtil Types Effects SortResults Invoke Wire Highlight ProgLogic AppState Handlers AppSystem HandlerSpecs AppInvariants EventBus FileSystem RustStd Config Scan Pipeline Indexer IndexCommands Commands Scheduler AppPaths Machine Records Server Composed Simulation.
#[local] Open Scope Z_scope.

(** ** The filters of a search *)

(** What the page lets the user filter by: the file types chosen. *)
Definition typed_filters (s : App) : option IndexCommands.search_filters :=
  match parseCSV (extFilter s) with
  | [] => None
  | l => Some {| q_ext := Some l; q_min_size := None; q_max_size := None |}
  end.

(** A document of one of the chosen types, or of any if none is chosen. *)
Definition chosen_type (s : App) (d : document) : Prop :=
  parseCSV (extFilter s) = []
  \/ Exists (fun e => map ascii_lower e = map ascii_lower (d_ext d)) (parseCSV (extFilter s)).

#[global] Instance chosen_type_dec s d : Decision (chosen_type s d).
Proof. unfold chosen_type. apply _. Defined.

Lemma search_filters_typed s : no_sizes s -> Handlers.search_filters s = front_filters <$> typed_filters s.
Proof.
  intros [H1 H2]. unfold Handlers.search_filters, typed_filters. rewrite H1, H2. change (size_filter []) with (@None number).
  by destruct (parseCSV (extFilter s)).
Qed.

Lemma passes_typed s d : passes (typed_filters s) d = bool_decide (chosen_type s d).
Proof.
  apply eq_true_iff_eq. rewrite bool_decide_eq_true.
  unfold typed_filters, chosen_type. destruct (parseCSV (extFilter s)) as [|e l]; [split; [by left|done]|].
  rewrite passes_spec. unfold meets. cbn [q_ext q_min_size q_max_size]. split.
  - intros [H _]. right. apply Exists_exists. by eapply H.
  - intros [[=]|H%Exists_exists]. split; [by intros _ [= <-] _|]. by split; intros ? [=].
Qed.

(** ** The handler of a search *)

(** What the page shows with the rows of a search. *)
Definition shown (rows : list SearchResult) (s : App) : App :=
  apply_all [SetResults rows; SetMsg (js "返回 " ++ count_text rows ++ js " 条结果"); SetPage PSearch; SetSelected (head rows);
             SetBusy false] s.

(** The program ends when its call is answered with [r], showing [f] of the page. *)
Definition finishes (r : response) (f : App -> App) (p : prog_) : Prop :=
  match p with
  | Call (Race rq) k => forall a, answer_as (rq_ret rq) r = Some a -> forall s ls, advance (k a) s ls = (f s, ls, None)
  | _ => False
  end.

(** A handler around one call: it marks the page, suspends, and ends with its answer. *)
Lemma busy_call_suspends d T name payload opts text context failure (after : den T -> prog_) s ls :
  (0 < attempt_bound (default (retries d) (opt_retries opts)))%nat ->
  leb (of_Z 0) (default (retries d) (opt_retries opts)) = true ->
  exists k, advance (busy_handler text context failure (bind (safeInvoke d T name payload opts) after)) s ls
      = (apply_all [SetBusy true; SetMsg (js text)] s, ls, Some (Call (Race (invoke_request d T name payload opts)) k))
    /\ (forall v, k (Resolved v) = finally_idle (catch_report (after v) context failure))
    /\ (ltb (default (retries d) (opt_retries opts)) (of_Z 1) = true ->
        forall e, k (Rejected e) = finally_idle (catch_report (Throw e) context failure)).
Proof.
  intros Hb Hl. unfold safeInvoke. fold (invoke_request d T name payload opts).
  destruct (attempt_bound _) as [|n]; [lia|]. cbn [invoke_loop]. rewrite Hl. eexists. split; [reflexivity|]. split; [done|].
  intros Hlt e. change (0 + 1) with 1. by rewrite Hlt.
Qed.

Lemma doSearch_suspends d s0 s ls : exists k,
  advance (doSearch d true s0) s ls
    = (apply_all [SetBusy true; SetMsg (js "检索中...")] s, ls, Some (Call (Race (search_request d s0)) k))
  /\ forall rows, finishes (inr (OkResults rows)) (shown rows) (Call (Race (search_request d s0)) k).
Proof.
  unfold doSearch, when_tauri, searchQuery.
  match goal with |- context [busy_handler ?t ?c ?f (bind (safeInvoke ?d ?T ?n ?v ?o) ?after)] =>
    destruct (busy_call_suspends d T n v o t c f after s ls) as (k & E & Hk & _) end.
  - change (0 < attempt_bound (of_Z 1))%nat. rewrite attempt_bound_1. lia.
  - vm_compute. reflexivity.
  - exists k. split; [exact E|]. intros rows a [= <-] st l. rewrite Hk. reflexivity.
Qed.

Lemma decode_search os d s : no_sizes s ->
  decode os (search_request d s) = Some (SearchQuery (AppState.query s) (typed_filters s) (indexDir s)).
Proof.
  intros Hs. unfold search_request. rewrite (search_filters_typed s Hs). unfold decode. cbn [rq_cmd rq_payload invoke_request].
  match goal with |- context [find_handler (handlers os) ?n] =>
    let h := eval cbv beta iota zeta delta [handlers nth snd] in (snd (nth 7 (handlers os) (n, fun _ => None))) in
    change (find_handler (handlers os) n) with (Some h) end.
  cbn [mbind option_bind search_payload]. unfold de_struct, field, opt_field. cbn [sq_query sq_filters sq_indexDir].
  destruct (typed_filters s) as [f|] eqn:Ef; [|reflexivity].
  assert (Hf : de_filters (filters_val (front_filters f)) = Some f).
  { apply de_filters_val; unfold typed_filters in Ef; destruct (parseCSV _); try done; injection Ef as <-; by intros ? [=]. }
  transitivity (f' ← (Some <$> de_filters (filters_val (front_filters f))); Some (SearchQuery (AppState.query s) f' (indexDir s))); [reflexivity|].
  by rewrite Hf.
Qed.

(** ** The handler of "scan and index" *)

Definition pipeline_request (d : invoke_defaults) (s : App) : request :=
  let opts := scan_opts_val {| so_roots := parseCSV (roots s); so_exclude_patterns := parseCSV (exclude s);
                               so_max_file_size_mb := of_Z 500; so_follow_symlinks := false |} in
  let index_opts := rust_index_opts (indexDir s) (enableContentParse s) in
  invoke_request d RUnit (js "scan_and_index_pipeline")
    (VObj [("opts", opts); ("index_opts", index_opts); ("indexOpts", index_opts)]%string)
    (with_timeout (t_pipelineStart INVOKE_TIMEOUTS)).

(** The options the command gets. *)
Definition typed_scan (s : App) : scan_options :=
  {| sc_roots := parseCSV (roots s); sc_exclude_patterns := parseCSV (exclude s); sc_max_file_size_mb := Some 500;
     sc_follow_symlinks := false |}.

(** At least one attempt is made. *)
Definition tries (d : invoke_defaults) : Prop := leb (of_Z 0) (retries d) = true /\ (0 < attempt_bound (retries d))%nat.

Lemma doScanAndIndex_suspends d s0 s ls : tries d -> exists k,
  advance (doScanAndIndex d true s0) s ls
    = (apply_all [SetBusy true; SetIdxCurrent (of_Z 0); SetIdxTotal (of_Z 0); SetIdxRunning true; SetMsg (js "扫描并构建索引中...")] s, ls,
       Some (Call (Race (pipeline_request d s0)) k))
  /\ finishes (inr OkUnit) (apply (SetBusy false)) (Call (Race (pipeline_request d s0)) k).
Proof.
  intros [Hl Hb]. unfold doScanAndIndex, when_tauri, scanAndIndexPipeline, safeInvoke.
  change (default (retries d) (opt_retries (with_timeout (t_pipelineStart INVOKE_TIMEOUTS)))) with (retries d).
  destruct (attempt_bound (retries d)) as [|n]; [lia|]. cbn [invoke_loop]. rewrite Hl. eexists. split; [reflexivity|].
  by intros v [= <-] st l.
Qed.

Lemma decode_pipeline os d s :
  decode os (pipeline_request d s) = Some (ScanAndIndexPipeline (typed_scan s) (indexDir s) (enableContentParse s)).
Proof.
  unfold pipeline_request, decode. cbn [rq_cmd rq_payload invoke_request].
  match goal with |- context [find_handler (handlers os) ?n] =>
    let h := eval cbv beta iota zeta delta [handlers nth snd] in (snd (nth 4 (handlers os) (n, fun _ => None))) in
    change (find_handler (handlers os) n) with (Some h) end.
  cbn [mbind option_bind]. unfold field.
  match goal with |- context [field_of (("opts"%string, ?v) :: ?l) "opts"] =>
    change (field_of (("opts"%string, v) :: l) "opts") with (Some v) end.
  cbn [mbind option_bind]. by rewrite de_scan_options_val by lia.
Qed.

Section EndToEnd.
Context {C : CaseTables} {J : Json} {T : Tantivy} (os : platform) (h : host).
Context (serde_error : jsstr -> jsstr) (exists_error lock_error missing_error : jsstr).
Context (defaults : invoke_defaults) (has_clipboard : bool) (path_max_len : number).
#[local] Abbreviation serves := (serves os h serde_error exists_error lock_error missing_error).
#[local] Abbreviation moves := (moves os h serde_error exists_error lock_error missing_error defaults has_clipboard).
#[local] Abbreviation unaided := (unaided os h serde_error exists_error lock_error missing_error).
#[local] Abbreviation goes := (goes os h serde_error exists_error lock_error missing_error defaults has_clipboard path_max_len).
#[local] Abbreviation composed_ok :=
  (composed_ok os h serde_error exists_error lock_error missing_error defaults has_clipboard path_max_len).

(** The user activates an element. *)
Definition clicked (u : ui) (s : composed) : composed :=
  resume (react defaults true has_clipboard u (app (c_front s))) (c_ids s) [] (c_front s) s.

(** ** What a waiting handler makes of its answer *)

Lemma zip_held {A} (i : nat) (x y : A) (i1 i2 : list nat) (l1 l2 : list A) : length l1 = length i1 -> NoDup (i1 ++ i :: i2) ->
  (i, x) ∈ zip (i1 ++ i :: i2) (l1 ++ y :: l2) -> x = y.
Proof.
  intros Hl Hd H. rewrite zip_with_app in H by done. cbn [zip zip_with] in H.
  rewrite NoDup_app, NoDup_cons in Hd. destruct Hd as (_ & Hd1 & Hd2 & _).
  rewrite elem_of_app, elem_of_cons in H. destruct H as [H|[H|H]]; [|congruence|].
  - apply elem_of_zip_l in H. destruct (Hd1 i H). left.
  - by apply elem_of_zip_l in H.
Qed.

Lemma resumes_finishes i r f p post s1 s2 : composed_ok s1 -> s_wire (c_server s1) = Answer i r :: post ->
  held i p s1 -> finishes r f p -> resumes i s1 s2 -> app (c_front s2) = f (app (c_front s1)).
Proof.
  intros Hok Ew Hh Hf Hr. destruct Hr as [l1 l2 rq k a i1 i2 r' rest Ew' Et Ei Hl Ha].
  rewrite Ew in Ew'. injection Ew' as <- <-. pose proof (co_ids _ _ _ _ _ _ _ _ _ _ Hok) as Hd.
  unfold held in Hh. rewrite Et, Ei in *. apply zip_held in Hh; [|done..]. subst p.
  cbn [finishes] in Hf. specialize (Hf a Ha). cbn [resume proceed c_front]. unfold AppSystem.run. by rewrite Hf.
Qed.

(** An answer on the wire reaches the handler, which ends with it. *)
Lemma answer_finishes i rq r f p s : composed_ok s -> waiting i rq s -> held i p s -> finishes r f p ->
  Answer i r ∈ s_wire (c_server s) ->
  exists s1 s2, rtc unaided s s1 /\ resumes i s1 s2 /\ app (c_front s2) = f (app (c_front s1))
    /\ s_machine (c_server s2) = s_machine (c_server s) /\ s_machine (c_server s1) = s_machine (c_server s).
Proof.
  intros Hok Hw Hh Hf Hr. destruct (answered_once _ _ _ _ _ _ _ _ _ s i r Hok Hr) as (pre & post & E & Hp).
  destruct (wire_drains _ _ _ _ _ _ _ _ _ i rq r pre post s Hok Hw E Hp) as (s1 & s2 & H1 & H2 & H3 & H4 & Hm & H5).
  exists s1, s2. split; [done|]. split; [done|]. split; [eapply resumes_finishes; [exact H3|exact H4|by apply H5|done..]|].
  split; [|done]. by rewrite (resumes_machine _ _ _ H2).
Qed.

(** ** A click that calls the back end *)

Lemma clicked_calls u s a ls rq k : composed_ok s ->
  advance (react defaults true has_clipboard u (app (c_front s))) (app (c_front s)) (listeners (c_front s))
    = (a, ls, Some (Call (Race rq) k)) ->
  let i := length (c_calls s) in
  app (c_front (clicked u s)) = a /\ waiting i rq (clicked u s) /\ held i (Call (Race rq) k) (clicked u s)
  /\ c_server (clicked u s) = receive i rq (c_server s).
Proof.
  intros Hok E. pose proof (Forall2_length _ _ _ (co_waits _ _ _ _ _ _ _ _ _ _ Hok)) as Hl.
  unfold clicked, resume. rewrite app_nil_r.
  assert (Hrun : app (AppSystem.run true (react defaults true has_clipboard u (app (c_front s))) (c_front s)) = a
    /\ tasks (AppSystem.run true (react defaults true has_clipboard u (app (c_front s))) (c_front s))
       = tasks (c_front s) ++ [Call (Race rq) k]).
  { unfold AppSystem.run. by rewrite E. }
  destruct Hrun as [Ha Ht]. unfold proceed, waiting, held. cbn [c_front c_ids c_calls c_server].
  rewrite Ha, Ht, <- Hl, drop_app_length, zip_with_app by done. cbn [omap list_omap asks length seq place].
  split_and!; [done|set_solver|by rewrite lookup_app_r, Nat.sub_diag|set_solver|done].
Qed.

(** A command that emits nothing answers at once. *)
Lemma command_answers i rq sv x c r m l : s_work sv = l ++ [(i, Received rq)] -> decode os rq = Some c ->
  executes os h serde_error exists_error lock_error missing_error x (s_machine sv) c (plain r m) ->
  exists sv', rtc serves sv sv' /\ Answer i r ∈ s_wire sv' /\ s_machine sv' = m.
Proof.
  intros Hw Hd He. eexists. split.
  - eapply rtc_l; [by eapply (serves_command _ _ _ _ _ _ sv l i rq [] x c (plain r m))|]. apply rtc_once.
    by eapply (serves_answer _ _ _ _ _ _ _ l i None r []).
  - cbn [s_wire s_machine plain o_machine]. split; [|done]. apply elem_of_app. right. left.
Qed.

(** A click on an element whose command emits nothing: the command runs on the
    machine as it is, and some continuation brings its answer to the handler. *)
Lemma click_completes u s a ls rq k x c r m f : goes s -> enabled true u (app (c_front s)) = true ->
  advance (react defaults true has_clipboard u (app (c_front s))) (app (c_front s)) (listeners (c_front s))
    = (a, ls, Some (Call (Race rq) k)) ->
  decode os rq = Some c -> executes os h serde_error exists_error lock_error missing_error x (s_machine (c_server s)) c (plain r m) ->
  finishes r f (Call (Race rq) k) ->
  exists s1 s2, moves s (clicked u s) /\ rtc unaided (clicked u s) s1 /\ resumes (length (c_calls s)) s1 s2
    /\ app (c_front s2) = f (app (c_front s1)) /\ s_machine (c_server s2) = m.
Proof.
  intros Hs Hu E Hd He Hf. pose proof (goes_ok _ _ _ _ _ _ _ _ _ _ Hs) as Hok.
  destruct (clicked_calls u s a ls rq k Hok E) as (_ & Hw & Hh & Hsv).
  assert (Hm : moves s (clicked u s)) by by apply moves_ui.
  assert (Hok1 : composed_ok (clicked u s)) by by eapply moves_ok.
  destruct (command_answers (length (c_calls s)) rq (c_server (clicked u s)) x c r m (s_work (c_server s)))
    as (sv & H1 & H2 & Hm2); [by rewrite Hsv|done|by rewrite Hsv|].
  assert (H3 : rtc unaided (clicked u s) (with_server sv (clicked u s))) by by apply serves_unaided.
  destruct (answer_finishes (length (c_calls s)) rq r f (Call (Race rq) k) (with_server sv (clicked u s)))
    as (s1 & s2 & H4 & H5 & H6 & H7 & _); [eapply composed_ok_moves; [exact Hok1|by apply unaided_rtc]|done..|].
  exists s1, s2. split; [done|]. split; [by etransitivity|]. split; [done|]. split; [done|]. by rewrite H7.
Qed.

(** C2. A search of the whole program: when the user clicks "search", the query, the
    file types chosen and the index typed reach the back end, which ranks the
    documents of that index; and some continuation, without a step of the user,
    brings the handler the rows.  The page then shows exactly the documents of a
    chosen type (ASCII case apart) among the first fifty ranked, best first, the first
    of them selected, and is no longer busy: a document of a chosen type that is
    ranked behind the fiftieth is not shown, one that is not is. *)
Theorem search_end_to_end s x docs hits :
  goes s -> let a := app (c_front s) in
  enabled true ClickSearch a = true -> at_open x (indexDir a) = None ->
  m_indexes (s_machine (c_server s)) !! indexDir a = Some docs -> at_ranked x (AppState.query a) docs = inr hits ->
  exists s1 s2,
    moves s (clicked ClickSearch s) /\ rtc unaided (clicked ClickSearch s) s1 /\ resumes (length (c_calls s)) s1 s2
    /\ app (c_front s2)
       = shown (map (fun h => result_of (fst h) (snd h))
                  (filterb (fun h => bool_decide (chosen_type a (snd h))) (take 50 hits))) (app (c_front s1)).
Proof.
  intros Hs a Hu Ho Hd Hr.
  pose proof (co_front _ _ _ _ _ _ _ _ _ _ (goes_ok _ _ _ _ _ _ _ _ _ _ Hs)) as Hreach.
  destruct (holds_reachable _ _ _ _ (sends_inductive _ _ _ _) _ Hreach) as [Hns _].
  destruct (doSearch_suspends defaults a a (listeners (c_front s))) as (k & E & Hk).
  set (rows := map (fun h => result_of (fst h) (snd h)) (filterb (fun h => bool_decide (chosen_type a (snd h))) (take 50 hits))).
  assert (Hq : IndexCommands.query (at_ranked x) (open_index missing_error x (s_machine (c_server s)))
                 (AppState.query a) (typed_filters a) (indexDir a) = inr rows).
  { rewrite (query_hits _ _ _ _ _ docs hits); [|by unfold open_index; rewrite Ho, Hd|done]. unfold rows. f_equal. f_equal.
    apply List.filter_ext. intros hit. apply passes_typed. }
  destruct (click_completes ClickSearch s _ _ _ k x _ (inr (OkResults rows)) (s_machine (c_server s)) (shown rows) Hs Hu E
              (decode_search os defaults a Hns)) as (s1 & s2 & H1 & H2 & H3 & H4 & _); [|by apply Hk|].
  { apply executes_function; [|exact I]. cbn [perform]. by rewrite Hq. }
  exists s1, s2. split; [exact H1|]. split; [exact H2|]. split; [exact H3|exact H4].
Qed.

(** What does not stand in the way of a pipeline: the directory, an index that
    opens or can be created, the threads, the writer and the memory for it. *)
Record can_index (x : surroundings) (dir : jsstr) (m : machine) : Prop := {
  ci_dir : no_dir (at_faults x) = None;
  ci_open : at_open x dir = None;
  ci_create : no_create (at_faults x) = None;
  ci_pool : at_pool x = None;
  ci_lock : writer_busy dir m = false;
  ci_writer : no_writer (at_faults x) = None;
  ci_memory : 15000000 <= writer_heap_bytes (at_memory x);
}.

(** The begin of such a pipeline. *)
Lemma launch_run_begins x rts ex dir parse call m : can_index x dir m ->
  exists m' l, launch_run os exists_error lock_error x rts ex dir parse call m = (inr tt, m')
    /\ m_runs m' = m_runs m ++ [l] /\ lv_dir l = dir /\ lv_parse l = parse /\ lv_call l = call
    /\ at_phase (lv_run l) = Scanning /\ failed (lv_run l) = 0%nat /\ written_files (lv_run l) = []
    /\ default [] (m_indexes m' !! dir) = default [] (m_indexes m !! dir)
    /\ Pipeline.inv (pipeline_files (windows os) (at_walk x) rts ex) (lv_run l).
Proof.
  intros [H1 H2 H3 H4 H5 H6 H7]. unfold launch_run, faults_at, lock_at, no_writer_for, open_or_create.
  cbn [no_dir no_open no_create no_writer locked faults_of]. rewrite H1, H2, H3, H4, H5, (open_writer_large _ _ H7), H6.
  destruct (m_indexes m !! dir); (eexists _, _; split; [reflexivity|]; cbn [m_runs m_indexes with_index]; split; [reflexivity|];
    split_and!; try done; [by rewrite lookup_partial_alter_eq|apply inv_start]).
Qed.

(** A request for a pipeline: it can run to its end and is answered, all its files
    announced and added to the index. *)
Lemma pipeline_completes i rq sv w x o dir parse :
  s_work sv = w ++ [(i, Received rq)] -> decode os rq = Some (ScanAndIndexPipeline o dir parse) -> can_index x dir (s_machine sv) ->
  let fs := pipeline_files (windows os) (at_walk x) (sc_roots o) (sc_exclude_patterns o) in
  fits fs ->
  exists sv' l new, rtc serves sv sv' /\ Answer i (inr OkUnit) ∈ s_wire sv'
    /\ m_runs (s_machine sv') = m_runs (s_machine sv) ++ [l] /\ lv_dir l = dir /\ lv_parse l = parse
    /\ omap scanned_event (emitted (lv_run l)) = imap (fun k f => (S k, f)) fs /\ new ≡ₚ fs
    /\ default [] (m_indexes (s_machine sv') !! dir)
       = default [] (m_indexes (s_machine sv) !! dir) ++ map (document_of (at_text x) parse) new.
Proof.
  intros Ew Hd Hc fs Hf.
  destruct (launch_run_begins x (sc_roots o) (sc_exclude_patterns o) dir parse (Some i) (s_machine sv) Hc)
    as (m' & l & El & Er & Ld & Lpa & Lc & Lp & Lf & Lw & Lx & Li).
  pose proof (serves_pipeline os h serde_error exists_error lock_error missing_error sv w i rq [] x o dir parse (inr tt) m' Ew Hd Hf El) as Hst.
  match type of Hst with serves _ ?y =>
    destruct (run_finishes os h serde_error exists_error lock_error missing_error (at_text x) (weight (lv_run l)) y (m_runs (s_machine sv))
                l [] fs (Nat.le_refl _) Er Li) as (sv' & l' & more & R1 & R2 & [R3 R4 R5 R6] & R7 & R8 & R9 & R10);
      [apply pipeline_files_rooted|by rewrite Lp|] end.
  rewrite Ld, Lpa in *. destruct (R6 Lf) as (new & N1 & N2). cbn [s_machine] in N1. rewrite Lw, app_nil_r in N2.
  exists sv', l', new. split; [by eapply rtc_l|]. rewrite R9, R2. split; [set_solver|]. split_and!; [done..| | |by rewrite N1, Lx].
  - by apply over_announced.
  - rewrite <- N2. by apply over_written_all.
Qed.

(** C3. Scanning and indexing of the whole program: when the user clicks "scan and
    index", nothing stands in the way of a pipeline, and the back end is left to
    itself, then some continuation runs one to its end that works on the index typed,
    with the choice typed; it announces exactly the files found under the roots typed
    less the exclusions typed, in order, and adds exactly their documents, with their
    text if this was chosen, to what the index had; the handler then ends and the page
    is no longer busy. *)
Theorem index_end_to_end s x :
  goes s -> tries defaults -> let a := app (c_front s) in
  enabled true ClickScanAndIndex a = true -> can_index x (indexDir a) (s_machine (c_server s)) ->
  let fs := pipeline_files (windows os) (at_walk x) (parseCSV (roots a)) (parseCSV (exclude a)) in
  fits fs ->
  exists s1 s2 l new,
    moves s (clicked ClickScanAndIndex s) /\ rtc unaided (clicked ClickScanAndIndex s) s1 /\ resumes (length (c_calls s)) s1 s2
    /\ app (c_front s2) = apply (SetBusy false) (app (c_front s1))
    /\ m_runs (s_machine (c_server s2)) = m_runs (s_machine (c_server s)) ++ [l]
    /\ lv_dir l = indexDir a /\ lv_parse l = enableContentParse a
    /\ omap scanned_event (emitted (lv_run l)) = imap (fun k f => (S k, f)) fs /\ new ≡ₚ fs
    /\ default [] (m_indexes (s_machine (c_server s2)) !! indexDir a)
       = default [] (m_indexes (s_machine (c_server s)) !! indexDir a)
         ++ map (document_of (at_text x) (enableContentParse a)) new.
Proof.
  intros Hs Ht a Hu Hc fs Hf. pose proof (goes_ok _ _ _ _ _ _ _ _ _ _ Hs) as Hok.
  destruct (doScanAndIndex_suspends defaults a a (listeners (c_front s)) Ht) as (k & E & Hk).
  set (i := length (c_calls s)).
  destruct (clicked_calls ClickScanAndIndex s _ _ _ k Hok E) as (_ & Hw & Hh & Hsv).
  assert (Hm : moves s (clicked ClickScanAndIndex s)) by by apply moves_ui.
  assert (Hok1 : composed_ok (clicked ClickScanAndIndex s)) by by eapply moves_ok.
  destruct (pipeline_completes i (pipeline_request defaults a) (c_server (clicked ClickScanAndIndex s)) (s_work (c_server s)) x
              (typed_scan a) (indexDir a) (enableContentParse a)) as (sv & l & new & R1 & R2 & R3 & R4 & R5 & R6 & R7 & R8);
    [by rewrite Hsv|apply decode_pipeline|by rewrite Hsv|done|].
  apply serves_unaided in R1.
  destruct (answer_finishes i (pipeline_request defaults a) (inr OkUnit) (apply (SetBusy false))
              (Call (Race (pipeline_request defaults a)) k) (with_server sv (clicked ClickScanAndIndex s)))
    as (s1 & s2 & H4 & H5 & H6 & H7 & _); [eapply composed_ok_moves; [exact Hok1|by apply unaided_rtc]|done..|].
  rewrite Hsv in R3, R8. exists s1, s2, l, new. rewrite H7. split; [exact Hm|]. split; [by etransitivity|].
  split; [exact H5|]. split; [exact H6|]. split; [exact R3|]. split; [exact R4|]. split; [exact R5|]. split; [exact R6|].
  split; [exact R7|exact R8].
Qed.
End EndToEnd.

(** ** A small machine *)

#[local] Abbreviation demo_goes :=
  (goes (C := demo_tables) (J := demo_json) (T := demo_tokenizer) demo_platform OtherHost demo_error [] [] []
     (INVOKE_DEFAULTS NaN NaN) true (of_Z 80)).
#[local] Abbreviation demo_moves :=
  (moves (C := demo_tables) (J := demo_json) (T := demo_tokenizer) demo_platform OtherHost demo_error [] [] []
     (INVOKE_DEFAULTS NaN NaN) true).
#[local] Abbreviation demo_clicked := (clicked (INVOKE_DEFAULTS NaN NaN) true).

(** An index of the program, the one the page shows at first. *)
Definition demo_record : document := document_of (fun _ => None) false demo_meta.
Definition demo_stocked : machine :=
  {| m_files := demo_empty; m_indexes := {[js "indexes/main" := [demo_record]]}; m_state := no_state; m_runs := [] |}.

Lemma demo_stocked_starts : starts demo_stocked.
Proof.
  split; [done|]. intros dir docs H.
  unfold demo_stocked in H. cbn [m_indexes] in H. apply lookup_singleton_Some in H as [_ <-]. constructor; [|done].
  apply Exists_exists. exists 47. split; [apply list_elem_of_In; simpl; tauto|done].
Qed.

Definition demo_page : composed := begin (INVOKE_DEFAULTS NaN NaN) (of_Z 80) demo_stocked.

Lemma demo_page_goes : demo_goes demo_page.
Proof. exists demo_stocked. split; [exact demo_stocked_starts|apply rtc_refl]. Qed.

Lemma demo_idle : enabled true ClickSearch (app (c_front demo_page)) = true.
Proof. vm_compute. reflexivity. Qed.

#[local] Abbreviation demo_unaided :=
  (unaided (C := demo_tables) (J := demo_json) (T := demo_tokenizer) demo_platform OtherHost demo_error [] [] []).

Lemma search_end_to_end_witness :
  exists s1 s2, demo_moves demo_page (demo_clicked ClickSearch demo_page) /\ rtc demo_unaided (demo_clicked ClickSearch demo_page) s1
    /\ resumes 1 s1 s2 /\ results (app (c_front s2)) = [result_of (of_Z 1) demo_record].
Proof.
  destruct (search_end_to_end _ _ _ _ _ _ _ _ _ demo_page demo_twins [demo_record] [(of_Z 1, demo_record)] demo_page_goes demo_idle)
    as (s1 & s2 & H1 & H2 & H3 & H4); [reflexivity..|].
  exists s1, s2. split; [exact H1|]. split; [exact H2|]. split; [exact H3|]. rewrite H4. reflexivity.
Defined.

(** The defaults always allow an attempt. *)
Lemma tries_defaults t r : tries (INVOKE_DEFAULTS t r).
Proof.
  pose proof one_pos. assert (Hk : forall k, 0 <= k -> tries {| timeoutMs := t; retries := Fin k |}).
  { intros k Hk. unfold tries. cbn [retries attempt_bound]. pose proof (Z.div_pos k one Hk). split; [|lia].
    rewrite of_Z_small by lia. apply negb_true_iff, Z.ltb_ge. lia. }
  assert (Hs : forall a b, retries a = retries b -> tries a -> tries b) by (intros a b E; unfold tries; by rewrite E).
  unfold INVOKE_DEFAULTS. destruct (isFinite r && leb (of_Z 0) r) eqn:E.
  - apply andb_true_iff in E as [E1 E2]. destruct r as [| |k]; try done. eapply Hs; [|apply (Hk k)]; [done|].
    rewrite of_Z_small in E2 by lia. apply negb_true_iff, Z.ltb_ge in E2. lia.
  - eapply Hs; [|apply (Hk 0)]; [|lia]. cbn [retries]. by rewrite of_Z_small.
Qed.

Definition demo_index_page : composed := demo_clicked (Navigate PIndex) demo_page.

Lemma demo_index_page_goes : demo_goes demo_index_page.
Proof. eapply goes_moves; [exact demo_page_goes|]. apply rtc_once. by apply moves_ui. Qed.

Lemma demo_index_idle : enabled true ClickScanAndIndex (app (c_front demo_index_page)) = true.
Proof. vm_compute. reflexivity. Qed.

Lemma demo_index_files :
  pipeline_files (C := demo_tables) (windows demo_platform) (at_walk demo_found) (parseCSV (roots (app (c_front demo_index_page))))
    (parseCSV (exclude (app (c_front demo_index_page)))) = [demo_meta].
Proof. vm_compute. reflexivity. Qed.

Lemma index_end_to_end_witness :
  exists s2, demo_goes s2 /\ busy (app (c_front s2)) = false
    /\ default [] (m_indexes (s_machine (c_server s2)) !! js "indexes/main")
       = [demo_record; document_of (at_text demo_found) (enableContentParse (app (c_front demo_index_page))) demo_meta].
Proof.
  destruct (index_end_to_end _ _ _ _ _ _ _ _ _ demo_index_page demo_found demo_index_page_goes (tries_defaults NaN NaN) demo_index_idle)
    as (s1 & s2 & l & new & H1 & H2 & H3 & H4 & _ & _ & _ & _ & H5 & H6).
  { split; try reflexivity. vm_compute. discriminate. }
  { rewrite demo_index_files. unfold fits. simpl. lia. }
  rewrite demo_index_files in H5. apply Permutation_singleton_r in H5 as ->. exists s2. split; [|split].
  - eapply goes_moves; [exact demo_index_page_goes|]. eapply rtc_l; [exact H1|]. eapply rtc_r; [eapply unaided_rtc, H2|]. by eapply moves_result.
  - rewrite H4. reflexivity.
  - exact H6.
Defined.
