(* ===== verification/Displayed.v ===== *)
(** * What the search page shows is in an index

    A row is recorded when it is that of a document in an index of the machine.  The
    rows a search answers are recorded when the command runs; they stay so while the
    answer is under way, because indexes only grow; and the page only shows rows of
    answers. *)

From stdpp Require Import gmap relations.
From S2P Require Import Prelude JsNumber JsString JsConvert Types Effects SortResults Invoke Wire Highlight ProgLogic AppState Handlers AppSystem EventBus AppInvariants FileSystem RustStd Config Scan Pipeline Indexer IndexCommands Commands Scheduler AppPaths AppRows Machine Records Server Composed Simulation EndToEnd.
#[local] Open Scope Z_scope.

Definition recorded (m : machine) (row : SearchResult) : Prop :=
  exists dir docs d score, m_indexes m !! dir = Some docs /\ d ∈ docs /\ row = result_of score d.

Lemma recorded_grows m m' row : grows m m' -> recorded m row -> recorded m' row.
Proof.
  intros H (dir & docs & d & score & E & Hd & ->). destruct (H dir docs E) as [more E'].
  exists dir, (docs ++ more), d, score. split; [done|]. split; [set_solver|done].
Qed.

Definition response_recorded (m : machine) (r : response) : Prop :=
  match r with inr (OkResults rows) => Forall (recorded m) rows | _ => True end.

Lemma response_grows m m' r : grows m m' -> response_recorded m r -> response_recorded m' r.
Proof.
  intros Hg. destruct r as [e|[]]; simpl; try done. intros H. eapply Forall_impl; [exact H|]. intros row. by apply recorded_grows.
Qed.

Definition work_recorded (m : machine) (w : nat * work) : Prop :=
  match snd w with Emitting _ _ r => response_recorded m r | _ => True end.
Definition message_recorded (m : machine) (msg : message) : Prop :=
  match msg with Answer _ r => response_recorded m r | _ => True end.

(** Every answer under way. *)
Definition under_way (sv : server) : Prop :=
  Forall (work_recorded (s_machine sv)) (s_work sv) /\ Forall (message_recorded (s_machine sv)) (s_wire sv).

Section Displayed.
Context {C : CaseTables} {J : Json} {T : Tantivy} (os : platform) (h : host).
Context (serde_error : jsstr -> jsstr) (exists_error lock_error missing_error : jsstr).
Context (defaults : invoke_defaults) (has_clipboard : bool) (path_max_len : number).
#[local] Abbreviation exec := (executes os h serde_error exists_error lock_error missing_error).
#[local] Abbreviation serves := (serves os h serde_error exists_error lock_error missing_error).
#[local] Abbreviation server_ok := (server_ok os h serde_error exists_error lock_error missing_error).
#[local] Abbreviation moves := (moves os h serde_error exists_error lock_error missing_error defaults has_clipboard).
#[local] Abbreviation goes := (goes os h serde_error exists_error lock_error missing_error defaults has_clipboard path_max_len).
#[local] Abbreviation composed_ok :=
  (composed_ok os h serde_error exists_error lock_error missing_error defaults has_clipboard path_max_len).

(** ** The back end *)

Lemma search_recorded x m text filters dir rows :
  IndexCommands.query (at_ranked x) (open_index missing_error x m) text filters dir = inr rows -> Forall (recorded m) rows.
Proof.
  intros Hq. destruct (open_index missing_error x m dir) as [e|docs] eqn:Ho; [unfold IndexCommands.query in Hq; by rewrite Ho in Hq|].
  destruct (at_ranked x text docs) as [e|hits] eqn:Hr; [unfold IndexCommands.query in Hq; by rewrite Ho, Hr in Hq|].
  rewrite (query_hits _ _ _ _ _ _ _ Ho Hr) in Hq. injection Hq as <-. apply Forall_fmap, Forall_forall.
  intros hit [Hin _]%filterb_elem_of. exists dir, docs, (snd hit), (fst hit). split; [|split; [|done]].
  - unfold open_index in Ho. destruct (at_open x dir); [done|]. destruct (m_indexes m !! dir); [by injection Ho as ->|done].
  - eapply at_ranked_in; [exact Hr|]. eapply elem_of_submseteq; [exact Hin|]. apply sublist_submseteq, sublist_take.
Qed.

Lemma executes_recorded x m c o : exec x m c o -> response_recorded m (o_response o).
Proof.
  intros [c' o' H _|paths [e|l] _]; [|done..].
  destruct c'; simpl in H; repeat (match type of H with context [match ?p with (_, _) => _ end] => destruct p end);
    repeat (match type of H with context [match ?r with inl _ => _ | inr _ => _ end] => destruct r as [?|[? ?]] end);
    try (injection H as <-); try done; cbn [o_response plain];
    repeat (match goal with |- context [with_value _ ?r] => destruct r eqn:?; simpl end); try done.
  by eapply search_recorded.
Qed.

Lemma work_grows m m' l : grows m m' -> Forall (work_recorded m) l -> Forall (work_recorded m') l.
Proof.
  intros Hg H. eapply Forall_impl; [exact H|]. intros [i [rq|es a r]]; [done|]. by apply response_grows.
Qed.

Lemma wire_grows m m' l : grows m m' -> Forall (message_recorded m) l -> Forall (message_recorded m') l.
Proof. intros Hg H. eapply Forall_impl; [exact H|]. intros [e|i r]; [done|]. by apply response_grows. Qed.

Lemma serves_under_way sent sv sv' : serves sv sv' -> server_ok sent sv -> under_way sv -> under_way sv'.
Proof.
  intros Hs Hok [Hw Hm]. destruct (serves_grows _ _ _ _ _ _ _ _ _ Hs Hok) as [Hg _].
  apply (work_grows _ _ _ Hg) in Hw. apply (wire_grows _ _ _ Hg) in Hm.
  destruct Hs as [l1 i rq l2 e E Hd|l1 i rq l2 x c o E Hd He|l1 i rq l2 x o dir parse r m E Hd Hf Hl|l1 l l2 x r m E Hf Hl
         |l1 i e es after r l2 E|l1 i after r l2 E|es i m Hr'|x|d]; cbn [s_machine s_work s_wire] in *; unfold under_way;
    cbn [s_machine s_work s_wire]; try (rewrite E, Forall_app, Forall_cons in Hw; destruct Hw as (Hw1 & Hw & Hw2)).
  - split; [|done]. apply Forall_app. split; [done|]. by constructor.
  - split; [|done]. apply Forall_app. split; [done|]. constructor; [|done].
    eapply response_grows; [exact Hg|]. by eapply executes_recorded.
  - split; [|done]. apply Forall_app. split; [done|]. apply Forall_app. split; [|done]. destruct r; [|done]. by repeat constructor.
  - by split.
  - split; [apply Forall_app; split; [done|]; by constructor|]. apply Forall_app. split; [done|]. by constructor.
  - split; [by apply Forall_app|]. apply Forall_app. split; [done|]. by repeat constructor.
  - split; [done|]. apply Forall_app. split; [done|]. apply Forall_app. split; [by apply Forall_fmap, Forall_true|].
    destruct i; by repeat constructor.
  - unfold ticked in *. destruct (read_config _ _ _ _) as [r d]. destruct (tick _ _ _ _) as [[e l]|]; simpl in *; [|done].
    split; [done|]. apply Forall_app. split; [done|]. by repeat constructor.
  - by split.
Qed.

(** ** The page *)

Definition page_recorded (s : composed) : Prop :=
  holds (rows_shown (recorded (s_machine (c_server s)))) (rows_prog (recorded (s_machine (c_server s)))) (c_front s)
  /\ under_way (c_server s).

Lemma place_under_way new calls sv : under_way sv -> under_way (place new calls sv).
Proof.
  revert calls sv. induction new as [|c new IH]; intros calls sv Hs; simpl; [done|]. apply IH. destruct c; try done.
  destruct Hs as [H1 H2]. split; [|done]. apply Forall_app. split; [done|]. by repeat constructor.
Qed.

Lemma take_under_way rest msg sv : s_wire sv = msg :: rest -> under_way sv -> under_way (with_wire rest sv).
Proof. intros E [H1 H2]. rewrite E in H2. apply Forall_cons in H2 as [_ H2]. by split. Qed.

(** The rows of an answer. *)
Lemma answer_recorded m rq r a : response_recorded m r -> answer_as (rq_ret rq) r = Some a -> rows_answer (recorded m) (Race rq) a.
Proof.
  destruct rq as [cmd payload ms t]. simpl. destruct r as [e|v]; [intros _ [= <-]; by destruct t|].
  destruct t, v; simpl; try done; intros Hr [= <-]; done.
Qed.

Lemma moves_under_way s s' : moves s s' -> composed_ok s -> under_way (c_server s) -> under_way (c_server s').
Proof.
  intros Hm Hok Hu.
  destruct Hm as [u He|snap Hsn|Hp|l1 l2 c k r i1 i i2 Et Ei Hl Ho Hf|i s' [l1 l2 rq k a i1 i2 r rest Ew Et Ei Hl Has]
    |i r rest Ew Hi|n e rest Ew|sv Hsv]; try done; try (by apply place_under_way).
  - apply place_under_way. by eapply take_under_way.
  - by eapply take_under_way.
  - apply place_under_way. by eapply take_under_way.
  - eapply serves_under_way; [exact Hsv|exact (co_server _ _ _ _ _ _ _ _ _ _ Hok)|done].
Qed.

Lemma moves_recorded s s' : moves s s' -> composed_ok s -> page_recorded s -> page_recorded s'.
Proof.
  intros Hm Hok [Hp Hu]. split; [|by eapply moves_under_way].
  eapply rows_holds_more; [intros row; by apply recorded_grows, (moves_grows _ _ _ _ _ _ _ _ _ _ _ Hm Hok)|].
  pose proof (rows_inductive defaults true has_clipboard path_max_len (recorded (s_machine (c_server s)))) as HI.
  assert (Hst : rtc (AppSystem.step (B := rows_backend (recorded (s_machine (c_server s)))) defaults true has_clipboard)
                  (c_front s) (c_front s')).
  { eapply moves_steps; [exact Hm|exact (co_waits _ _ _ _ _ _ _ _ _ _ Hok)|..]; [| |by intros].
    - intros c r Ho. destruct c as [[? ? ? t]| | |]; try done. simpl in *. subst r. by destruct t.
    - intros i r rest rq a Ew _. apply answer_recorded. destruct Hu as [_ Hu]. rewrite Ew in Hu. by apply Forall_cons in Hu as [Hu _]. }
  revert Hst. generalize (c_front s') as w'. apply rtc_ind_r; [exact Hp|]. intros w1 w2 _ H1. by apply (holds_step _ _ _ _ HI).
Qed.

Lemma begin_recorded m : page_recorded (begin defaults path_max_len m).
Proof.
  split; [|apply place_under_way; by split]. cbn [begin c_front proceed].
  exact (holds_mount _ _ _ _ (rows_inductive defaults true has_clipboard path_max_len _)).
Qed.

(** C4. The search page never shows anything that is not in an index: in every state
    of the program, whatever searches, pipelines and deletions ran meanwhile, every
    row displayed, and the row whose details are shown, is that of a document in an
    index of the machine, with its path, name, type, size, time and summary. *)
Theorem displayed_rows_recorded s :
  goes s ->
  Forall (recorded (s_machine (c_server s))) (results (app (c_front s)))
  /\ forall row, selected (app (c_front s)) = Some row -> recorded (s_machine (c_server s)) row.
Proof.
  intros Hs. pose proof (goes_ok _ _ _ _ _ _ _ _ _ _ Hs) as Hok.
  assert (Hp : page_recorded s).
  { destruct Hs as (m & Hm & Hs). clear Hok. revert s Hs. apply rtc_ind_r; [apply begin_recorded|].
    intros s1 s2 H1 H2. apply moves_recorded; [done|]. apply (goes_ok _ _ _ _ _ _ _ _ _ _). by exists m. }
  destruct Hp as [(Hr & _) _]. split; [exact Hr|]. intros row Hrow. unfold rows_shown in Hr. rewrite Forall_forall in Hr. apply Hr.
  destruct (holds_reachable _ _ _ _ (selection_inductive _ _ _ _) _ (co_front _ _ _ _ _ _ _ _ _ _ Hok)) as [Hsel _].
  by apply Hsel.
Qed.
End Displayed.

(** ** A page with a row *)

#[local] Abbreviation demo_goes :=
  (goes (C := demo_tables) (J := demo_json) (T := demo_tokenizer) demo_platform OtherHost demo_error [] [] []
     (INVOKE_DEFAULTS NaN NaN) true (of_Z 80)).

Definition demo_row : SearchResult := result_of (of_Z 1) demo_record.

Lemma demo_found_row : exists s, demo_goes s /\ results (app (c_front s)) = [demo_row].
Proof.
  destruct (doSearch_suspends (INVOKE_DEFAULTS NaN NaN) (app (c_front demo_page)) (app (c_front demo_page)) (listeners (c_front demo_page)))
    as (k & E & Hk).
  assert (Hn : no_sizes (app (c_front demo_page))) by (split; vm_compute; reflexivity).
  destruct (click_completes demo_platform OtherHost demo_error [] [] [] (INVOKE_DEFAULTS NaN NaN) true (of_Z 80) ClickSearch demo_page
              _ _ _ k demo_twins _ (inr (OkResults [demo_row])) (s_machine (c_server demo_page)) (shown [demo_row])
              demo_page_goes demo_idle E (decode_search _ _ _ Hn)) as (s1 & s2 & H1 & H2 & H3 & H4 & _).
  - apply executes_function; [vm_compute; reflexivity|exact I].
  - apply Hk.
  - exists s2. split; [|by rewrite H4]. eapply goes_moves; [exact demo_page_goes|].
    eapply rtc_l; [exact H1|]. eapply rtc_r; [eapply unaided_rtc, H2|]. by eapply moves_result.
Qed.

Lemma displayed_rows_recorded_witness :
  exists s, demo_goes s /\ results (app (c_front s)) = [demo_row] /\ recorded (s_machine (c_server s)) demo_row.
Proof.
  destruct demo_found_row as (s & Hs & Hr). exists s. split; [exact Hs|]. split; [exact Hr|].
  pose proof (proj1 (displayed_rows_recorded _ _ _ _ _ _ _ _ _ s Hs)) as H. rewrite Hr in H. exact (Forall_inv H).
Defined.
