(* ===== verification/Deletion.v ===== *)
(** * Deleting files

    Whatever runs in the program, a file other than the configuration only changes
    by being deleted, and only after a click on the delete button of this file.
    Other programs may change files as they like; their step is told apart.

    The click is all the user does: the handler tests what [confirm] returns, which
    in Tauri is a promise, and goes on.  And the command that it calls never removes
    the record of the file, as its writer asks for less memory than the library
    accepts. *)

From stdpp Require Import gmap relations.
From S2P Require Import Prelude JsNumber JsString JsConvert Types Effects SortResults Invoke Wire Highlight ProgLogic AppState Handlers AppSystem EventBus AppInvariants FileSystem RustStd Config Scan Pipeline Indexer IndexCommands Commands Scheduler AppDeletions Machine Records Server Composed Simulation EndToEnd.
#[local] Open Scope Z_scope.

Section Deletion.
Context {C : CaseTables} {J : Json} {T : Tantivy} (os : platform) (h : host).
Context (serde_error : jsstr -> jsstr) (exists_error lock_error missing_error : jsstr).
Context (defaults : invoke_defaults) (has_clipboard : bool) (path_max_len : number).
#[local] Abbreviation serves := (serves os h serde_error exists_error lock_error missing_error).
#[local] Abbreviation moves := (moves os h serde_error exists_error lock_error missing_error defaults has_clipboard).
#[local] Abbreviation unaided := (unaided os h serde_error exists_error lock_error missing_error).
#[local] Abbreviation clicked := (clicked defaults has_clipboard).
#[local] Abbreviation goes := (goes os h serde_error exists_error lock_error missing_error defaults has_clipboard path_max_len).
#[local] Abbreviation composed_ok :=
  (composed_ok os h serde_error exists_error lock_error missing_error defaults has_clipboard path_max_len).

Section History.
Context (first : composed).

(** The user has clicked the delete button of a file since the start. *)
Definition asked_for (s : composed) (p : jsstr) : Prop :=
  exists s1, rtc moves first s1 /\ enabled true (ClickDelete p) (app (c_front s1)) = true
    /\ rtc moves (clicked (ClickDelete p) s1) s.

Lemma asked_for_later s s' p : rtc moves s s' -> asked_for s p -> asked_for s' p.
Proof. intros H (s1 & H1 & H2 & H3). exists s1. split_and!; [done..|by etransitivity]. Qed.
End History.

(** Every request to delete a file, made or still to be made, is for a file of [ok]. *)
Definition deletes (ok : jsstr -> Prop) (s : composed) : Prop :=
  Forall (calls_ok (allowed os ok)) (tasks (c_front s)) /\ Forall (allowed os ok) (c_calls s).

Lemma calls_allowed_more (ok ok' : jsstr -> Prop) (p : prog_) : (forall t, ok t -> ok' t) ->
  calls_ok (allowed os ok) p -> calls_ok (allowed os ok') p.
Proof. intros H. apply calls_ok_mono. intros c. by apply allowed_more. Qed.

Lemma deletes_more (ok ok' : jsstr -> Prop) s : (forall t, ok t -> ok' t) -> deletes ok s -> deletes ok' s.
Proof.
  intros H [H1 H2]. split; (eapply Forall_impl; [eassumption|]); intros x; [by apply calls_allowed_more|by apply allowed_more].
Qed.

Lemma run_deletes ok p w : calls_ok (allowed os ok) p ->
  exists new, tasks (AppSystem.run true p w) = tasks w ++ new /\ Forall (calls_ok (allowed os ok)) new.
Proof.
  intros Hp. unfold AppSystem.run. destruct (advance p (app w) (listeners w)) as [[a ls] t] eqn:E. exists (option_list t).
  split; [done|]. destruct t as [q|]; [|done]. constructor; [|done]. by eapply calls_ok_advance.
Qed.

(** The page goes on. *)
Lemma proceed_deletes ok kept new keep w s : tasks w = kept ++ new -> length kept = length keep ->
  Forall (calls_ok (allowed os ok)) kept -> Forall (calls_ok (allowed os ok)) new -> Forall (allowed os ok) (c_calls s) ->
  deletes ok (proceed keep w s).
Proof.
  intros Ht Hl Hk Hn Hc. split; cbn [proceed c_front c_calls]; [rewrite Ht; by apply Forall_app|].
  apply Forall_app. split; [done|]. rewrite Ht, drop_app_length' by done. apply Forall_forall.
  intros c (p & Hp & Hc')%list_elem_of_omap. rewrite Forall_forall in Hn. specialize (Hn p Hp).
  destruct p as [x|e|a k|c' k]; try done. injection Hc' as ->. exact (proj1 Hn).
Qed.

Lemma resume_deletes ok p kept i1 i2 w s : calls_ok (allowed os ok) p -> tasks w = kept -> length kept = length (i1 ++ i2) ->
  Forall (calls_ok (allowed os ok)) kept -> Forall (allowed os ok) (c_calls s) -> deletes ok (resume p i1 i2 w s).
Proof.
  intros Hp <- Hl Hk Hc. destruct (run_deletes ok p w Hp) as (new & Ht & Hn). by eapply proceed_deletes.
Qed.

(** A handler that has its answer. *)
Lemma answered_deletes ok (l1 : list prog_) c k l2 (r : ans c) : Forall (calls_ok (allowed os ok)) (l1 ++ Call c k :: l2) ->
  calls_ok (allowed os ok) (k r) /\ Forall (calls_ok (allowed os ok)) (l1 ++ l2).
Proof. rewrite !Forall_app, Forall_cons. intros (H1 & [_ Hk] & H2). by split. Qed.

Lemma moves_deletes first s s' : rtc moves first s -> moves s s' -> composed_ok s -> deletes (asked_for first s) s ->
  deletes (asked_for first s') s'.
Proof.
  intros Hs Hm Hok Ha. pose proof (Forall2_length _ _ _ (co_waits _ _ _ _ _ _ _ _ _ _ Hok)) as Hlen.
  assert (Hlater : forall t, asked_for first s t -> asked_for first s' t) by (intros t; apply asked_for_later; by apply rtc_once).
  apply (deletes_more _ _ _ Hlater) in Ha as [Ht Hc].
  destruct Hm as [u Hu|snap Hsn|Hp|l1 l2 c k r i1 i i2 Et Ei Hl Ho Hf|i s' [l1 l2 rq k a i1 i2 r rest Ew Et Ei Hl Has]
    |i r rest Ew Hi|n e rest Ew|sv Hsv]; try (by split).
  - eapply resume_deletes; [|reflexivity|by rewrite app_nil_r|done..].
    eapply calls_allowed_more; [|apply react_deletes]. intros p ->. exists s. split_and!; [done..|apply rtc_refl].
  - eapply resume_deletes; [apply debounced_deletes|reflexivity|by rewrite app_nil_r|done..].
  - eapply resume_deletes; [apply diagnostics_deletes|reflexivity|by rewrite app_nil_r|done..].
  - rewrite Et, Ei, !length_app in Hlen. simpl in Hlen. rewrite Et in Ht. apply (answered_deletes _ l1 c k l2 r) in Ht as [Hk Ht].
    eapply (resume_deletes _ _ (l1 ++ l2)); [done|by rewrite subscribed_tasks|rewrite !length_app; lia|done..].
  - rewrite Et, Ei, !length_app in Hlen. simpl in Hlen. rewrite Et in Ht. apply (answered_deletes _ l1 (Race rq) k l2 a) in Ht as [Hk Ht].
    eapply (resume_deletes _ _ (l1 ++ l2)); [done|done|rewrite !length_app; lia|done..].
  - destruct (take_message_ok _ _ _ _ _ _ _ _ _ _ Ew (co_server _ _ _ _ _ _ _ _ _ _ Hok)) as [He _].
    destruct (delivered os h serde_error exists_error lock_error missing_error defaults has_clipboard n e (c_front s) He) as [_ D].
    eapply (proceed_deletes _ (tasks (c_front s)) []); [by rewrite app_nil_r|done..].
Qed.

Lemma begin_deletes first m : deletes (asked_for first (begin defaults path_max_len m)) (begin defaults path_max_len m).
Proof.
  unfold begin, mount.
  match goal with |- context [AppSystem.run true ?p (AppSystem.run true ?q ?w)] =>
    destruct (run_deletes (asked_for first (begin defaults path_max_len m)) q w) as (n1 & E1 & H1);
      [apply preview_deletes|];
    destruct (run_deletes (asked_for first (begin defaults path_max_len m)) p (AppSystem.run true q w)) as (n2 & E2 & H2);
      [apply load_deletes|] end.
  eapply (proceed_deletes _ [] (n1 ++ n2)); [by rewrite E2, E1|done..|by apply Forall_app|done].
Qed.

Lemma goes_deletes m s : starts m -> rtc moves (begin defaults path_max_len m) s ->
  deletes (asked_for (begin defaults path_max_len m) s) s.
Proof.
  intros Hm Hs. revert s Hs. apply rtc_ind_r; [apply begin_deletes|]. intros s1 s2 H1 H2. apply moves_deletes; [done..|].
  apply (goes_ok _ _ _ _ _ _ _ _ _ _). by exists m.
Qed.

(** ** The files *)

(** Another program changed files. *)
Definition others_did (sv sv' : server) : Prop := exists d,
  sv' = {| s_machine := with_files d (s_machine sv); s_spawned := s_spawned sv; s_work := s_work sv; s_wire := s_wire sv |}.

Lemma others_did_work sv sv' : others_did sv sv' -> s_work sv' = s_work sv.
Proof. by intros [d ->]. Qed.

(** What a step of the back end does to the files. *)
Lemma serves_files_kept sv sv' : serves sv sv' ->
  others_did sv sv'
  \/ config_only os (m_files (s_machine sv)) (m_files (s_machine sv'))
  \/ exists i rq c, (i, Received rq) ∈ s_work sv /\ decode os rq = Some c
       /\ files_kept os c (m_files (s_machine sv)) (m_files (s_machine sv')).
Proof.
  intros [l1 i rq l2 e E Hd|l1 i rq l2 x c o E Hd He|l1 i rq l2 x o dir parse r m E Hd Hf Hl|l1 l l2 x r m E Hf Hl
         |l1 i e es after r l2 E|l1 i after r l2 E|es i m Hr'|x|d]; cbn [s_machine].
  - right. left. reflexivity.
  - right. right. exists i, rq, c. split; [rewrite E; set_solver|]. split; [done|].
    eapply executes_files; exact He.
  - right. left. apply launch_run_runs in Hl as [Ef _]. by rewrite Ef.
  - right. left. apply launch_run_runs in Hl as [Ef _]. by rewrite Ef.
  - right. left. reflexivity.
  - right. left. reflexivity.
  - right. left. by destruct Hr'.
  - right. left. unfold ticked. destruct (read_config _ _ _ _) as [r d] eqn:E. apply read_config_only in E.
    by destruct (tick _ _ _ _) as [[e l]|].
  - left. by exists d.
Qed.

(** C5. The program deletes no file of its own accord: when a step of the back end
    changes a file other than the configuration (the indexes and the state file of
    the pipeline are kept apart), then another program did it, or the file is gone
    and, earlier in this run of the program, the user clicked the delete button of
    this very file while it was displayed and enabled.  (The click alone is enough,
    as [deletion_fails_halfway] shows.) *)
Theorem deletion_only_on_click m s sv p :
  starts m -> rtc moves (begin defaults path_max_len m) s -> serves (c_server s) sv ->
  config_file os <> Some p ->
  contents (m_files (s_machine sv)) !! p <> contents (m_files (s_machine (c_server s))) !! p ->
  others_did (c_server s) sv
  \/ contents (m_files (s_machine sv)) !! p = None
     /\ exists s1, rtc moves (begin defaults path_max_len m) s1
          /\ enabled true (ClickDelete p) (app (c_front s1)) = true /\ rtc moves (clicked (ClickDelete p) s1) s.
Proof.
  intros Hm Hs Hsv Hp Hch.
  assert (Honly : config_only os (m_files (s_machine (c_server s))) (m_files (s_machine sv)) -> False).
  { intros H. destruct (H p) as [E|E]; [by rewrite E in Hch|by rewrite E in Hp]. }
  destruct (serves_files_kept _ _ Hsv) as [H|[H|(i & rq & c & Hin & Hd & H)]]; [by left|by apply Honly in H|].
  right. destruct c; try (by apply Honly in H).
  destruct H as [E|E]; [by rewrite E in Hch|]. rewrite E in *. destruct (decide (path = p)) as [->|Hn];
    [|by rewrite lookup_delete_ne in Hch by done]. split; [apply lookup_delete_eq|].
  assert (Hg : goes s) by by exists m. apply goes_ok in Hg as Hok.
  pose proof (ok_work _ _ _ _ _ _ _ _ (co_server _ _ _ _ _ _ _ _ _ _ Hok)) as Hw. rewrite Forall_forall in Hw.
  destruct (Hw _ Hin) as (rq' & Ha & Hrq). simpl in Hrq, Ha. subst rq'.
  destruct (goes_deletes m s Hm Hs) as [_ Hcalls]. rewrite Forall_forall in Hcalls.
  exact (Hcalls (Race rq) ltac:(by eapply list_elem_of_lookup_2) p index_dir Hd).
Qed.
(** ** What a click leads to *)

Lemma delete_fails x m p dir docs :
  is_Some (contents (m_files m) !! p) -> refuses_remove (at_sys x) p = None -> at_open x dir = None -> m_indexes m !! dir = Some docs ->
  exists m', perform os h serde_error exists_error lock_error missing_error x m (DeleteFileAndIndex p dir)
      = Some (plain (inl (if at_field x then (if writer_busy dir m then lock_error else budget_error)
                          else js "schema missing field 'path'")) m')
    /\ contents (m_files m') = delete p (contents (m_files m)) /\ m_indexes m' = m_indexes m.
Proof.
  intros [b Hb] Hr Ho Hd. cbn [perform]. unfold opened_index, open_index. rewrite Ho, Hd.
  unfold delete_file_and_index, remove_file. rewrite Hr, Hb. cbn [path_field writer_lock writer_error documents].
  assert (Hix : forall d, m_indexes (with_index dir (Some docs) (with_files d m)) = m_indexes m).
  { intros d. apply (insert_id (m_indexes m) dir docs Hd). }
  assert (Hw : open_writer 10000000 (lock_at lock_error m dir) (no_writer (at_faults x))
               = Some (if writer_busy dir m then lock_error else budget_error)).
  { unfold open_writer, lock_at. rewrite memory_min_value. by destruct (writer_busy dir m). }
  rewrite Hw. destruct (at_field x); (eexists; split; [reflexivity|split; [reflexivity|apply Hix]]).
Qed.

Lemma handleDelete_suspends d p s0 s ls :
  leb (of_Z 0) (retries d) = true -> (0 < attempt_bound (retries d))%nat -> ltb (retries d) (of_Z 1) = true ->
  exists ms k, advance (handleDelete d true s0 p) s ls
      = (apply_all [SetBusy true; SetMsg (js "删除中...")] s, ls, Some (Call (Race (deletion p (indexDir s0) ms)) k))
    /\ forall e, finishes (inl e) (apply_all [SetMsg e; SetBusy false]) (Call (Race (deletion p (indexDir s0) ms)) k).
Proof.
  intros Hl Hb Hlt. unfold handleDelete, when_tauri, confirm, deleteFileAndIndex. cbn [bind advance truthy_value confirm_returns tauri].
  match goal with |- context [busy_handler ?t ?c ?f (bind (safeInvoke ?d ?T ?n ?v ?o) ?after)] =>
    destruct (busy_call_suspends d T n v o t c f after s ls Hb Hl) as (k & E & _ & Hk) end.
  exists (default (timeoutMs d) (opt_timeoutMs (with_timeout (t_buildIndex INVOKE_TIMEOUTS)))), k.
  split; [exact E|]. intros e a [= <-] st l. rewrite (Hk Hlt). reflexivity.
Qed.

(** C39. A click on a delete button deletes the file at once and then fails: when the
    file can be removed, the index can be opened and no retry is configured (the
    default), some continuation without any further step of the user, who has not
    answered the question yet, removes the file and shows the error of the index
    writer (or of the schema); nothing else of the page changes with it, so the list
    of duplicates still has the file, and every index is as it was, with the record
    of the file. *)
Theorem deletion_fails_halfway s x p docs :
  goes s -> tries defaults -> ltb (retries defaults) (of_Z 1) = true -> let a := app (c_front s) in
  let m := s_machine (c_server s) in
  enabled true (ClickDelete p) a = true ->
  is_Some (contents (m_files m) !! p) -> refuses_remove (at_sys x) p = None ->
  at_open x (indexDir a) = None -> m_indexes m !! indexDir a = Some docs ->
  exists s1 s2, moves s (clicked (ClickDelete p) s) /\ rtc unaided (clicked (ClickDelete p) s) s1
    /\ resumes (length (c_calls s)) s1 s2
    /\ contents (m_files (s_machine (c_server s2))) = delete p (contents (m_files m))
    /\ m_indexes (s_machine (c_server s2)) = m_indexes m
    /\ app (c_front s2)
       = apply_all [SetMsg (if at_field x then (if writer_busy (indexDir a) m then lock_error else budget_error)
                            else js "schema missing field 'path'"); SetBusy false] (app (c_front s1)).
Proof.
  intros Hs [Hl Hb] Hlt a m Hu Hp Hr Ho Hd.
  destruct (handleDelete_suspends defaults p a a (listeners (c_front s)) Hl Hb Hlt) as (ms & k & E & Hk).
  destruct (delete_fails x m p (indexDir a) docs Hp Hr Ho Hd) as (m' & He & Hc & Hi).
  match type of He with _ = Some (plain (inl ?e) _) => set (err := e) in * end.
  destruct (click_completes os h serde_error exists_error lock_error missing_error defaults has_clipboard path_max_len
              (ClickDelete p) s _ _ _ k x _ (inl err) m' (apply_all [SetMsg err; SetBusy false]) Hs Hu E
              (decode_deletion os p (indexDir a) ms)) as (s1 & s2 & H1 & H2 & H3 & H4 & H5); [|by apply Hk|].
  { apply executes_function; [exact He|exact I]. }
  exists s1, s2. rewrite H5. split; [exact H1|]. split; [exact H2|]. split; [exact H3|]. split; [exact Hc|]. split; [exact Hi|exact H4].
Qed.
End Deletion.

(** ** A deletion *)

#[local] Abbreviation demo_moves :=
  (moves (C := demo_tables) (J := demo_json) (T := demo_tokenizer) demo_platform OtherHost demo_error [] [] []
     (INVOKE_DEFAULTS NaN NaN) true).
#[local] Abbreviation demo_serves :=
  (serves (C := demo_tables) (J := demo_json) (T := demo_tokenizer) demo_platform OtherHost demo_error [] [] []).
#[local] Abbreviation demo_unaided :=
  (unaided (C := demo_tables) (J := demo_json) (T := demo_tokenizer) demo_platform OtherHost demo_error [] [] []).
#[local] Abbreviation demo_execute :=
  (execute (C := demo_tables) (J := demo_json) (T := demo_tokenizer) demo_platform OtherHost demo_error [] [] []).
#[local] Abbreviation demo_clicked := (clicked (INVOKE_DEFAULTS NaN NaN) true).

(** The user looks for duplicates. *)
Definition detecting : list operation :=
  [User (Navigate PDup); User ClickDetect; Reply 1; Execute 1 demo_twins; Proceed 1; Proceed 1; Proceed 1; Proceed 1;
   Deliver 1; Deliver 1; Deliver 1; Deliver 1; Execute 1 demo_twins; Proceed 1; Deliver 1].

Definition demo_listed : composed := demo_run detecting.
Definition demo_asked : composed := demo_run (detecting ++ [User (ClickDelete demo_twin)]).
#[local] Abbreviation demo_deleted := (demo_execute 1 demo_twins (c_server demo_asked)).

Lemma demo_gone : contents (m_files (s_machine demo_deleted)) !! demo_twin = None.
Proof. vm_compute. reflexivity. Qed.

Lemma demo_was_there : contents (m_files (s_machine (c_server demo_asked))) !! demo_twin = Some (js "1").
Proof. vm_compute. reflexivity. Qed.

Lemma demo_begun : map (fun w => match snd w with Received _ => true | Emitting _ _ _ => false end) (s_work demo_deleted)
  <> map (fun w => match snd w with Received _ => true | Emitting _ _ _ => false end) (s_work (c_server demo_asked)).
Proof. vm_compute. discriminate. Qed.

Lemma demo_changed : contents (m_files (s_machine demo_deleted)) !! demo_twin
  <> contents (m_files (s_machine (c_server demo_asked))) !! demo_twin.
Proof. rewrite demo_gone, demo_was_there. discriminate. Qed.

Lemma demo_deletes : demo_serves (c_server demo_asked) demo_deleted.
Proof. exact (execute_changed _ _ _ _ _ _ _ _ _ _ demo_changed). Qed.

Lemma demo_not_config : config_file demo_platform <> Some demo_twin.
Proof. vm_compute. discriminate. Qed.

Lemma deletion_only_on_click_witness :
  exists s1, enabled true (ClickDelete demo_twin) (app (c_front s1)) = true
    /\ rtc demo_moves (demo_clicked (ClickDelete demo_twin) s1) demo_asked.
Proof.
  destruct (deletion_only_on_click _ _ _ _ _ _ _ _ _ demo_twins_machine demo_asked demo_deleted demo_twin demo_twins_start
              (demo_run_moves _) demo_deletes demo_not_config demo_changed) as [E|(_ & s1 & _ & H)].
  - destruct demo_begun. exact (f_equal (map _) (others_did_work _ _ E)).
  - exists s1. exact H.
Defined.

Lemma demo_offered : enabled true (ClickDelete demo_twin) (app (c_front demo_listed)) = true.
Proof. vm_compute. reflexivity. Qed.

Lemma demo_on_disk : contents (m_files (s_machine (c_server demo_listed))) !! demo_twin = Some (js "1").
Proof. vm_compute. reflexivity. Qed.

Lemma demo_in_index : m_indexes (s_machine (c_server demo_listed)) !! indexDir (app (c_front demo_listed)) = Some [demo_twin_record].
Proof. vm_compute. reflexivity. Qed.

Lemma deletion_fails_halfway_witness :
  exists s1 s2, rtc demo_unaided (demo_clicked (ClickDelete demo_twin) demo_listed) s1
    /\ contents (m_files (s_machine (c_server s2))) !! demo_twin = None
    /\ m_indexes (s_machine (c_server s2)) !! indexDir (app (c_front demo_listed)) = Some [demo_twin_record]
    /\ busy (app (c_front s2)) = false.
Proof.
  destruct (deletion_fails_halfway _ _ _ _ _ _ _ _ _ demo_listed demo_twins demo_twin [demo_twin_record] (demo_run_goes _)
              (tries_defaults NaN NaN) eq_refl demo_offered) as (s1 & s2 & _ & H1 & _ & H2 & H3 & H4).
  - rewrite demo_on_disk. by eexists.
  - reflexivity.
  - reflexivity.
  - exact demo_in_index.
  - exists s1, s2. split; [exact H1|]. split; [by rewrite H2, lookup_delete_eq|]. split; [by rewrite H3, demo_in_index|].
    rewrite H4. reflexivity.
Defined.
