(* ===== verification/Scenarios.v ===== *)
(** * Scenarios: executions of the application

    The transition system is executable against a fixed back end: [play] runs a
    list of moves, and what it reaches is reachable ([play_reachable]).  The
    executions here show that the hypotheses of the invariants are met in
    non-trivial states, and what overlapping handlers can lead to. *)

From stdpp Require Import relations.
From S2P Require Import Prelude JsNumber JsString JsConvert StringUtil PathUtil SizeUtil Types Effects SortResults Invoke Wire ProgLogic AppState Handlers AppSystem Views AppInvariants AppLiveness AppCounts Dedup.
#[local] Open Scope Z_scope.

(** ** A back end *)

(** A search finds one file, named after the query. *)
Definition hit (q : jsstr) : SearchResult :=
  {| sr_path := js "D:/" ++ q; sr_name := q; sr_ext := js "txt"; sr_score := of_Z 1; sr_size := None;
     sr_modified_ts := None; sr_summary := None |}.

Definition request_query (payload : jsval) : jsstr :=
  match payload with
  | VObj ((_, VObj ((_, VStr q) :: _)) :: _) => q
  | _ => []
  end.

Definition demo_config : AppConfig :=
  {| search_mode := js "inverted"; scan_roots := [js "E:/"]; exclude_patterns := [];
     index_dir := js "E:/index"; path_max_len := Some (of_Z 60); auto_scan_enabled := Some false |}.

(** Scans fail; everything else succeeds. *)
Definition reply (payload : jsval) (t : rty) : settled (den t) :=
  match t with
  | RUnit => Resolved tt
  | RConfig => Resolved demo_config
  | RFiles => Rejected (EString (js "scan failed"))
  | RResults => Resolved [hit (request_query payload)]
  | RGroups => Resolved [{| kind := KName; key := js "a.txt"; files := [js "D:/a.txt"; js "E:/a.txt"] |}]
  | RReport => Rejected (EString (js "no report"))
  end.

(** Events with counts. *)
Definition count_ok (o : option number) : bool :=
  match o with Some (Fin k) => 0 <=? k | Some _ => false | None => true end.
Definition emits_ok (e : backend_event) : bool :=
  match e with
  | IndexProgress p => count_ok (ip_current p) && count_ok (ip_total p)
  | ScanDone total => count_ok total
  | _ => true
  end.

#[export] Instance demo_backend : Backend :=
  {| answers c r := match c as c return ans c -> Prop with
                    | Race rq => fun r => r = reply (rq_payload rq) (rq_ret rq)
                    | _ => fun _ => True
                    end r;
     emits e := emits_ok e = true;
     reports p := count_ok (sp_current p) = true |}.

#[export] Instance demo_dup_contract : DupContract demo_backend.
Proof.
  split. intros payload ms groups. simpl. intros [= ->]. repeat constructor.
Qed.

Lemma count_ok_count o : count_ok o = true -> opt_count o.
Proof. destruct o as [[| |k]|]; simpl; try done. apply Z.leb_le. Qed.

#[export] Instance demo_counts : CountContract demo_backend.
Proof.
  split.
  - intros [p| |t|p]; simpl; [|done| |done].
    + intros [H1 H2]%andb_true_iff. split; by apply count_ok_count.
    + apply count_ok_count.
  - intros p. apply count_ok_count.
Qed.

(** The answer of this back end, and of a user who cancels dialogs. *)
Definition answer_of (w : world) (c : cmd) : ans c :=
  match c with
  | Race rq => reply (rq_payload rq) (rq_ret rq)
  | Listen _ => inr (next_id w)
  | OpenDialog _ _ => inr SNull
  | Clipboard _ => inr tt
  end.

#[export] Instance demo_responsive : Responsive demo_backend.
Proof. split. intros c w. exists (answer_of w c). by destruct c. Qed.

(** ** Playing moves *)

Inductive move :=
| Do (u : ui)
| Answer (i : nat)          (* the i-th suspended handler gets its answer *)
| Emit (e : backend_event)
| Timer.

Section Play.
Context (defaults : invoke_defaults) (path_max_len : number).

Definition play_move (m : move) (w : world) : option world :=
  match m with
  | Do u => if enabled true u (app w) then Some (run true (react defaults true true u (app w)) w) else None
  | Answer i =>
      match tasks w !! i with
      | Some (Call c k) =>
          let r := answer_of w c in
          Some (run true (k r) (subscribed c r (with_tasks (take i (tasks w) ++ drop (S i) (tasks w)) w)))
      | _ => None
      end
  | Emit e => if emits_ok e then Some (run true (run_setters (on_event e)) w) else None
  | Timer =>
      match debounce w with
      | Some s => Some (run true (debounced defaults true s) (with_debounce None w))
      | None => None
      end
  end.

Fixpoint play (l : list move) (w : world) : option world :=
  match l with
  | [] => Some w
  | m :: l' => match play_move m w with Some w' => play l' w' | None => None end
  end.

Lemma play_move_step m w w' : play_move m w = Some w' -> step defaults true true w w'.
Proof.
  destruct m as [u|i|e|]; simpl.
  - destruct (enabled true u (app w)) eqn:E; [|done]. intros [= <-]. by apply step_ui.
  - destruct (tasks w !! i) as [[| | |c k]|] eqn:E; try done. intros [= <-].
    apply step_answer; [|by destruct c|by destruct c].
    symmetry. by apply take_drop_middle.
  - destruct (emits_ok e) eqn:E; [|done]. intros [= <-]. by apply step_event.
  - destruct (debounce w) eqn:E; [|done]. intros [= <-]. by apply step_timer.
Qed.

Lemma play_steps l w w' : play l w = Some w' -> rtc (step defaults true true) w w'.
Proof.
  revert w. induction l as [|m l IH]; intros w; simpl; [intros [= ->]; apply rtc_refl|].
  destruct (play_move m w) eqn:E; [|done]. intros H. eapply rtc_l; [by apply (play_move_step m)|by apply IH].
Qed.

(** Moves that are possible and end in a world that passes a test. *)
Lemma play_reachable l (test : world -> bool) :
  match play l (mount defaults true path_max_len) with Some w => test w | None => false end = true ->
  exists w, reachable defaults true true path_max_len w /\ test w = true.
Proof.
  destruct (play l (mount defaults true path_max_len)) as [w|] eqn:E; [|done].
  intros H. exists w. split; [|done]. by apply (play_steps l).
Qed.
End Play.

Definition demo_defaults : invoke_defaults := INVOKE_DEFAULTS NaN NaN.
Definition demo_len : number := PATH_MAX_LEN NaN.

(** The command a suspended handler waits for. *)
Definition awaited (p : prog_) : option jsstr :=
  match p with Call (Race r) _ => Some (rq_cmd r) | _ => None end.

(** ** What overlapping handlers lead to *)

Definition eqs (a b : jsstr) : bool := bool_decide (a = b).

(** The query of a search in flight. *)
Definition query_of (p : prog_) : option jsstr :=
  match p with Call (Race r) _ => Some (request_query (rq_payload r)) | _ => None end.

(** C36. An answer that comes late replaces a newer one: with a back end that
    answers every search correctly, the searches of an earlier query and of the
    current one can be in flight together; the answer of the current one comes and is
    shown; then that of the earlier one comes and replaces it, and the application
    rests, with no search to come, under the current query with the rows of the
    other. *)
Theorem stale_answer_wins :
  exists w1 w2 w3, reachable demo_defaults true true demo_len w1
    /\ step demo_defaults true true w1 w2 /\ step demo_defaults true true w2 w3
    /\ query (app w1) = js "ab" /\ map query_of (tasks w1) = [Some (js "a"); Some (js "ab")]
    /\ map query_of (tasks w2) = [Some (js "a")] /\ results (app w2) = [hit (js "ab")]
    /\ query (app w3) = js "ab" /\ results (app w3) = [hit (js "a")] /\ at_rest w3.
Proof.
  destruct (play_reachable demo_defaults demo_len
    [Answer 0; Do (TypeQuery (js "a")); Timer; Do (TypeQuery (js "ab")); Timer]
    (fun w1 => match play_move demo_defaults (Answer 1) w1 with
       | Some w2 => match play_move demo_defaults (Answer 0) w2 with
         | Some w3 =>
             bool_decide (query (app w1) = js "ab" /\ map query_of (tasks w1) = [Some (js "a"); Some (js "ab")]
               /\ map query_of (tasks w2) = [Some (js "a")] /\ results (app w2) = [hit (js "ab")]
               /\ query (app w3) = js "ab" /\ results (app w3) = [hit (js "a")])
             && match tasks w3, debounce w3, busy (app w3) with [], None, false => true | _, _, _ => false end
         | None => false end
       | None => false end))
    as (w1 & Hr & Ht).
  - vm_compute. reflexivity.
  - destruct (play_move demo_defaults (Answer 1) w1) as [w2|] eqn:E1; [|done].
    destruct (play_move demo_defaults (Answer 0) w2) as [w3|] eqn:E2; [|done].
    apply andb_true_iff in Ht as [(H1 & H2 & H3 & H4 & H5 & H6)%bool_decide_eq_true H7].
    exists w1, w2, w3. split; [exact Hr|]. split; [exact (play_move_step _ _ _ _ E1)|]. split; [exact (play_move_step _ _ _ _ E2)|].
    split_and!; [done..|]. unfold at_rest. destruct (tasks w3), (debounce w3), (busy (app w3)); done.
Qed.

(** The mark does not tell that the application is idle: the first of two
    overlapping searches to end clears it while the other is in flight. *)
Theorem busy_cleared_early :
  exists w, reachable demo_defaults true true demo_len w
    /\ busy (app w) = false /\ map awaited (tasks w) = [Some (js "search_query")].
Proof.
  destruct (play_reachable demo_defaults demo_len
    [Answer 0; Do (TypeQuery (js "a")); Timer; Do (TypeQuery (js "ab")); Timer; Answer 0]
    (fun w => negb (busy (app w)) && bool_decide (map awaited (tasks w) = [Some (js "search_query")])))
    as (w & Hr & Ht).
  - vm_compute. reflexivity.
  - apply andb_true_iff in Ht as [H1%negb_true_iff H2%bool_decide_eq_true]. by exists w.
Qed.

(** A scan that fails leaves its subscription behind: the application comes
    to rest with a progress listener nothing will remove. *)
Theorem failed_scan_leaks_listener :
  exists w, reachable demo_defaults true true demo_len w /\ tasks w = [] /\ listeners w = [0%nat].
Proof.
  destruct (play_reachable demo_defaults demo_len
    [Answer 0; Do (Navigate PDup); Do ClickDetect; Answer 0; Answer 0]
    (fun w => match tasks w with [] => true | _ => false end && bool_decide (listeners w = [0%nat])))
    as (w & Hr & Ht).
  - vm_compute. reflexivity.
  - apply andb_true_iff in Ht as [H1 H2%bool_decide_eq_true]. exists w. split_and!; [done| |done].
    by destruct (tasks w).
Qed.

(** The search timer does not follow the index directory: it is not a
    dependency of the effect, so a configuration loaded while the timer is
    pending is not used by the search it starts. *)
Theorem search_timer_stale_index_dir :
  exists w s, reachable demo_defaults true true demo_len w /\ debounce w = Some s
    /\ indexDir s = js "indexes/main" /\ indexDir (app w) = js "E:/index".
Proof.
  destruct (play_reachable demo_defaults demo_len
    [Do (TypeQuery (js "a")); Answer 0]
    (fun w => match debounce w with Some s => eqs (indexDir s) (js "indexes/main") | None => false end
              && eqs (indexDir (app w)) (js "E:/index")))
    as (w & Hr & Ht).
  - vm_compute. reflexivity.
  - apply andb_true_iff in Ht as [H1 H2%bool_decide_eq_true]. destruct (debounce w) as [s|] eqn:E; [|done].
    exists w, s. by apply bool_decide_eq_true in H1.
Qed.

(** The progress the indexing pipeline reports: no total. *)
Definition pipeline_progress (n : Z) : IndexProgressPayload :=
  {| ip_current := Some (of_Z n); ip_total := None; ip_name := Some (js "a.txt"); ip_path := Some (js "D:/a.txt");
     ip_skipped := None |}.

(** The pipeline announces the end of indexing before its workers are done,
    and their progress carries no total.  After such a sequence the application
    has nothing pending, counts the index as still running, and has lost the
    total the scan reported, so the progress is not displayed at all. *)
Theorem pipeline_progress_lost :
  exists w, reachable demo_defaults true true demo_len w
    /\ tasks w = [] /\ idxRunning (app w) = true /\ lastScanTotal (app w) = of_Z 3
    /\ progress_lines (app w) = [].
Proof.
  destruct (play_reachable demo_defaults demo_len
    [Answer 0; Do (Navigate PIndex); Do ClickScanAndIndex; Answer 0; Emit (IndexProgress (pipeline_progress 1));
     Emit (ScanDone (Some (of_Z 3))); Emit IndexDone; Emit (IndexProgress (pipeline_progress 2))]
    (fun w => match tasks w with [] => true | _ => false end && idxRunning (app w)
              && bool_decide (lastScanTotal (app w) = of_Z 3)
              && match progress_lines (app w) with [] => true | _ => false end))
    as (w & Hr & Ht).
  - vm_compute. reflexivity.
  - apply andb_true_iff in Ht as [[[H1 H2]%andb_true_iff H3%bool_decide_eq_true]%andb_true_iff H4].
    exists w. refine (conj Hr (conj _ (conj H2 (conj H3 _)))).
    + clear H3. by destruct (tasks w).
    + clear H3. by destruct (progress_lines (app w)).
Qed.

(** ** States that meet the hypotheses of the invariants *)

(** What a list of moves leads to; where a move is impossible, the start. *)
Definition demo (l : list move) : world :=
  default (mount demo_defaults true demo_len) (play demo_defaults l (mount demo_defaults true demo_len)).

Lemma demo_reachable l : reachable demo_defaults true true demo_len (demo l).
Proof.
  unfold demo. destruct (play _ l _) as [w|] eqn:E; [by apply (play_steps demo_defaults l)|apply rtc_refl].
Qed.

(** A search in flight; its answer; a detection that has been answered. *)
Definition searching : list move := [Answer 0; Do (TypeQuery (js "a")); Timer].
Definition searched : list move := searching ++ [Answer 0].

Lemma busy_always_cleared_witness :
  busy (app (demo searching)) = true /\ Exists clears (tasks (demo searching)).
Proof.
  split; [vm_compute; reflexivity|].
  apply (busy_always_cleared demo_defaults true true demo_len (demo searching) (demo_reachable searching)).
  vm_compute. reflexivity.
Defined.

Lemma preview_never_calls_backend_witness :
  let w := run false (react demo_defaults false true (QueryKey (js "Enter"))
                        (app (mount demo_defaults false demo_len))) (mount demo_defaults false demo_len) in
  Forall (calls_ok clipboard_only) (tasks w) /\ dupGroups (app w) = [].
Proof.
  apply (preview_never_calls_backend demo_defaults true demo_len).
  apply rtc_once, step_ui. vm_compute. reflexivity.
Defined.

Lemma selected_among_results_witness :
  selected (app (demo searched)) = Some (hit (js "a")) /\ hit (js "a") ∈ results (app (demo searched)).
Proof.
  assert (E : selected (app (demo searched)) = Some (hit (js "a"))) by (vm_compute; reflexivity).
  split; [exact E|].
  exact (selected_among_results demo_defaults true true demo_len (demo searched) (demo_reachable searched) _ E).
Defined.

Lemma search_timer_current_witness :
  let w := demo [Do (TypeQuery (js "a"))] in
  exists s, debounce w = Some s /\ query s = query (app w) /\ search_filters s = search_filters (app w)
    /\ page (app w) = PSearch.
Proof.
  destruct (debounce (demo [Do (TypeQuery (js "a"))])) as [s|] eqn:E; [|vm_compute in E; discriminate].
  exists s. split; [exact E|].
  exact (search_timer_current demo_defaults true true demo_len _ s (demo_reachable _) E).
Defined.

Lemma shown_groups_are_duplicates_witness :
  Forall (fun g => (2 <= length (files g))%nat) (filteredGroups (app (demo searched))).
Proof.
  apply (shown_groups_are_duplicates demo_defaults true true demo_len (demo searched)), demo_reachable.
Defined.

Lemma app_requests_accepted_witness :
  Forall (only_races (fun r => accepted r \/ rq_cmd r = js "write_config")) (tasks (demo searching)).
Proof.
  apply (app_requests_accepted demo_defaults true true demo_len (demo searching)), demo_reachable.
Defined.

Lemma app_comes_to_rest_witness :
  length (tasks (demo searching)) = 1%nat
  /\ exists w', rtc (internal demo_defaults true) (demo searching) w' /\ at_rest w'.
Proof.
  split; [vm_compute; reflexivity|].
  apply (app_comes_to_rest demo_defaults true true demo_len (demo searching) (demo_reachable searching)).
Defined.

(** A build in progress. *)
Definition indexing : list move :=
  [Answer 0; Do (Navigate PIndex); Do ClickScanAndIndex; Emit (ScanDone (Some (of_Z 3)));
   Emit (IndexProgress {| ip_current := Some (of_Z 2); ip_total := Some (of_Z 3); ip_name := None;
                          ip_path := None; ip_skipped := None |})].

Lemma counters_well_typed_witness :
  progress_percent (app (demo indexing)) = of_Z 67
  /\ exists p, progress_percent (app (demo indexing)) = of_Z p /\ 0 <= p <= 100.
Proof.
  split; [vm_compute; reflexivity|].
  apply (counters_well_typed demo_defaults true true demo_len (demo indexing) (demo_reachable indexing)).
Defined.

Lemma size_filters_unused_witness :
  minSize (app (demo searching)) = [] /\ maxSize (app (demo searching)) = []
  /\ forall f, search_filters (app (demo searching)) = Some f -> sf_min_size f = None /\ sf_max_size f = None.
Proof.
  apply (size_filters_unused demo_defaults true true demo_len (demo searching)), demo_reachable.
Defined.
